(* ===== verification/_CoqProject ===== *)
-Q . S2P
Prelude.v
Monad.v
Disk.v
BlockManager.v
Inode.v
InodeManager.v
FsInv.v
BlockTheorems.v
WriteFile.v
WriteSpec.v
ReadFile.v
AllocInode.v
RemoveFile.v
Protocol.v
Extent.v
DirFormat.v
ChfsClient.v
ChfsSpec.v
ChfsOps.v
ChfsTree.v
ChfsReach.v
Fuse.v
FuseSpec.v
Refinement.v
System.v
Scenarios.v
Namespace.v
Paths.v
FuseTree.v
InodeTheorems.v
ChfsTheorems.v
FuseTheorems.v
Fifo.v
FifoSpec.v
FifoTheorems.v
Marshall.v
MarshallSpec.v
Rpc.v
RpcSpec.v
ExtentMain.v
LibrpcSample.v
RpcTheorems.v
Ownership.v
NoLeak.v
Space.v
Leak.v
Tester.v
TesterSpec.v
TesterTheorems.v
FuseMain.v
FuseMainSpec.v
Stray.v
Oversize.v
DiskFull.v
Jobs.v
Double.v
Clock.v
