(* ===== verification/Prelude.v ===== *)
(** CHFS: a verification of its file system.

    CHFS keeps a UNIX-like file system in a 16 MB in-memory disk and serves it
    through FUSE.  This development translates the program from the disk up to
    the FUSE handlers into executable definitions, and proves that it stores
    what it is told to store, in every state it can reach, and where it does not.

    * Parts of the program and the files that model them

    The layers call downwards only; each keeps its state in the one below.

    - disk layer ([class disk], inode_manager.cc): Disk.v.  An array of 32768
      blocks of 512 bytes, as a finite map from block numbers.
    - block layer ([class block_manager], inode_manager.cc): BlockManager.v.
      The bitmap is the [std::map] of the code; [operator[]] inserts zeroes, so
      states are compared with the equivalence [bm_equiv].
    - inode layer ([class inode_manager], inode_manager.cc): Inode.v is [struct
      inode] byte by byte; InodeManager.v has one definition per method and per
      loop body, composed as the code composes them.
    - extent protocol, server and client (extent_protocol.h, extent_server.cc,
      extent_client.cc): Protocol.v is the interface, a class [ExtentService] of
      operations with a class [ExtentLaws] of what they promise; Extent.v has the
      server and the client and discharges the laws.
    - file-system layer (chfs_client.cc): DirFormat.v is the text
      "inum/name/inum/name/..." of directories, its printing and parsing;
      ChfsClient.v has the methods, over [ExtentService].
    - FUSE handlers (fuse.cc): Fuse.v; a handler returns the replies it sends.
    - System.v: the constructors, and the freshly booted file system.
    - the program (main of fuse.cc): FuseMain.v, over a libfuse whose session loop
      calls the handlers.
    - the tester (part1_tester.cc): Tester.v, one definition per test and loop body,
      on top of the extent client.

    The RPC library under rpc/ is built on its own; the file system does not call it,
    the server program extent_smain.cc does.

    - the queue (rpc/fifo.h, rpc/slock.h): Fifo.v, a transition system of threads with
      the mutex and both condition variables; a step is a point where a thread takes or
      releases the mutex, touches the queue, waits or signals.
    - marshalling (rpc/marshall.h): Marshall.v, the buffers and headers, and the
      templates for vectors and maps.  The operators on single values are only in the
      binary librpc.a: they are the class [Librpc] of parameters, with their laws
      [LibrpcLaws] in MarshallSpec.v.
    - calls and handlers (rpc/rpc.h): Rpc.v, [rpcc::call] and [rpcs::reg] of every arity;
      ExtentMain.v, the server program extent_smain.cc.
    - threads (rpc/method_thread.h, rpc/thr_pool.h): Jobs.v, the heap objects that carry
      a method call into another thread.

    Apart from both is the [clock_gettime] that the program brings along for macOS
    (gettime.cc): Clock.v, over a Mach kernel that is a record of what its calls return;
    Double.v has the binary64 arithmetic it uses.

    * How code becomes definitions

    Integers are [Z] with the conversions of the C++ types written out ([u32],
    [i32], ...).  Stateful code is a state monad over an [outcome] (Monad.v):
    normal end, failed [assert], [exit], exception, undefined behaviour, or fuel
    exhausted.  [wp] is total correctness: a proof of [wp m Q s] shows that [m]
    returns.  Out parameters are components of the result.  [printf] is left out.
    Loops take as fuel one more than the number of iterations their condition
    allows ([loop (S (Z.to_nat NDIRECT))] for a loop to [NDIRECT]), and the
    theorems show that this is enough.

    What comes from outside the program is a parameter: the clock and the
    contents of memory the code reads without having written it (class [Env] of
    InodeManager.v; [junk], [ino0] for uninitialised numbers), and the layout of
    libfuse's directory records.  libfuse itself is a record of what its calls return
    and how its session loop uses the operation table, the pthread functions of rpc/ a record of results,
    and [rand] an arbitrary sequence.  Memory behind the end of a string that
    [write_file] is given is readable and holds arbitrary bytes: the code reads
    up to 511 bytes behind the end of its buffer (see [write_direct]), which the
    theorems show to be harmless as long as it does not fault.  Allocation never
    fails and memory is not reclaimed.

    * Invariants and abstractions

    FsInv.v: [fs_wf] says that the blocks of every inode are marked, distinct,
    not shared, and as many as its size needs; [file_at] is the file a number
    stands for (type, times, bytes), [owns] the blocks it has.  Frame lemmas
    ([update_fs_wf], [commit_spec]) reduce each operation to what it changes.
    ChfsTree.v: [tree_wf] says that directories parse, names are distinct and
    every entry is the only one of an inode in use; ChfsReach.v makes the client
    operations the steps of a transition system.  Refinement.v is the abstract
    table of files with one atomic step per call.

    Paths.v reads [tree_wf] on the abstract map: every number in use has one path from
    the root.  Ownership.v follows, for every call of the extent client, the blocks of
    each file ([same_blocks], [owns_but], [rewritten], [unlinked]); NoLeak.v adds
    [tidy]: every marked block belongs to a file.  TesterSpec.v: [world],
    the same seen as a map from numbers to files.  FifoSpec.v: the invariant of the
    queue, with the [slack] between waiting threads and signals.

    * Theorems

    - BlockTheorems.v: allocating, freeing and transferring blocks; the inode
      table round trip.
    - WriteFile.v, WriteSpec.v, ReadFile.v, AllocInode.v, RemoveFile.v: the
      specifications of the methods of the inode layer, and InodeTheorems.v their
      closed forms: writes store exactly the bytes given and neither leak nor
      share a block; reads return them for any garbage in [malloc]ed memory;
      allocation is first fit in cyclic order and complete below 1024; removal
      releases the blocks of files up to 100 blocks and leaks the data blocks of
      longer ones; the constructor works for some values of an uninitialised
      member only; the extent client refines the abstract table for the calls that fit.
    - Space.v: with the calls that keep a state tidy, the free blocks are bounded from
      below by the number of files, so that no call needs an assumption about room;
      and the leak of files that are cut to nothing.  Leak.v: a leaked block stays
      lost through all calls that fit, and files that are removed can fill the disk.
    - Oversize.v: what happens beyond [MAX_SIZE]; the write reports a success and the
      next read leaves its buffer.  DiskFull.v: a file that outgrows the disk
      within its 100 direct blocks gets the free blocks, and what has no block goes to
      block 0, from the allocator up to the FUSE requests.  Stray.v: the memory behind the bytes of a write gets on the
      disk.
    - ChfsSpec.v, ChfsOps.v, ChfsTheorems.v: the directory format round-trips,
      and each method of [chfs_client] on each of its branches, over any storage
      with the laws; safety and progress of reachable states.  Namespace.v: the
      abstract map of directories, files and links, which [chfs_client] refines; Paths.v:
      in every state reached from an empty root each file has exactly one path.
    - FuseSpec.v, FuseTheorems.v: the replies of the handlers; every request is
      answered once, with a reply of its type.  FuseTree.v: the replies of a session, up
      to every attribute, listing and error number, are those of a run of the abstract
      map of Namespace.v.  FuseMainSpec.v: where the constructor works, the whole
      program serves any session of allowed requests, as an abstract file system that
      starts as an empty root; where it does not, the process exits.
    - TesterTheorems.v: where the constructor works, the tester gives the file system its
      100 points on every machine; where it does not, the process exits.
    - FifoTheorems.v: the queue is linearizable, bounded, and loses no wake-up.
    - RpcTheorems.v: round trips of the marshalled data; a remote call is the local
      call, for every arity and for the handlers of the extent server.
    - Jobs.v: a started thread has exactly the effect of its method.
    - Clock.v: below 2^52 nanoseconds the floating point arithmetic of the CPU clocks is
      exact, and a number above where it is not.
    - Scenarios.v, LibrpcSample.v: the concrete states, and the concrete library, on
      which the theorems are evaluated.

    * Bounds

    Writes are specified up to [MAX_SIZE] = 228 blocks and with room on the disk
    ([blocks_needed]); Oversize.v and DiskFull.v say what happens otherwise.  Entries are
    added with a free inode number below 1024; [create_full_table] is what happens
    without.  The calls of the extent client within these bounds are those that fit
    ([fits] of Refinement.v), the operations of the client those that are [allowed]
    (ChfsReach.v), and a session is of requests allowed in the state in which each comes
    ([request_allowed]).

    * Not modelled

    Of rpc/, what is declared in headers and defined only in the binary librpc.a:
    [rpcc::call1], [rpcs::reg1] and their bookkeeping, and with them what the server of
    extent_smain.cc does while its [main] sleeps; the thread pool; connections
    (connection.h), polling (pollmgr.h), logging (jsl_log.h).  The constructors and
    accessors that these headers define inline only fill in the fields of that
    bookkeeping.  A file beyond its 100 direct blocks on a disk that fills up, where block 0
    can become its indirect block, has no theorem. *)
From Stdlib Require Import Ascii ZArith Lia.
From stdpp Require Import base gmap numbers list.

#[local] Open Scope Z_scope.

(** ** C integer types

    Integers are [Z]; a conversion to a machine type is written out. *)

Definition u16 (z : Z) : Z := z mod 2 ^ 16.
Definition u32 (z : Z) : Z := z mod 2 ^ 32.
Definition u64 (z : Z) : Z := z mod 2 ^ 64.
Definition i16 (z : Z) : Z := (z + 2 ^ 15) mod 2 ^ 16 - 2 ^ 15.
Definition i32 (z : Z) : Z := (z + 2 ^ 31) mod 2 ^ 32 - 2 ^ 31.
Definition i64 (z : Z) : Z := (z + 2 ^ 63) mod 2 ^ 64 - 2 ^ 63.

Lemma u32_id z : 0 <= z < 2 ^ 32 -> u32 z = z.
Proof. apply Z.mod_small. Qed.

Lemma u32_range z : 0 <= u32 z < 2 ^ 32.
Proof. apply Z.mod_pos_bound. lia. Qed.

Lemma u64_id z : 0 <= z < 2 ^ 64 -> u64 z = z.
Proof. apply Z.mod_small. Qed.

Lemma i32_id z : - 2 ^ 31 <= z < 2 ^ 31 -> i32 z = z.
Proof. intros. unfold i32. rewrite Z.mod_small by lia. lia. Qed.

Lemma i64_id z : - 2 ^ 63 <= z < 2 ^ 63 -> i64 z = z.
Proof. intros. unfold i64. rewrite Z.mod_small by lia. lia. Qed.

Lemma i16_id z : - 2 ^ 15 <= z < 2 ^ 15 -> i16 z = z.
Proof. intros. unfold i16. rewrite Z.mod_small by lia. lia. Qed.

Lemma i16_u16 z : i16 (u16 z) = i16 z.
Proof. unfold i16, u16. by rewrite Zplus_mod_idemp_l. Qed.

(** [lia] over [/] and [mod]. *)
Ltac dlia := intros; Z.to_euclidean_division_equations; lia.

(** ** Bytes and strings

    A [char] is an [ascii]; a C++ [std::string] (which may contain NUL) is a
    list of them. *)

Abbreviation byte := ascii.
Abbreviation bytes := (list ascii).

Definition NUL : byte := Ascii.zero.

#[export] Instance byte_inhabited : Inhabited byte := populate NUL.

Definition Z_of_byte (b : byte) : Z := Z.of_N (N_of_ascii b).
Definition byte_of_Z (z : Z) : byte := ascii_of_N (Z.to_N (z mod 256)).

Lemma Z_of_byte_range b : 0 <= Z_of_byte b < 256.
Proof. unfold Z_of_byte. pose proof (N_ascii_bounded b). lia. Qed.

Lemma Z_of_byte_of_Z z : Z_of_byte (byte_of_Z z) = z mod 256.
Proof.
  unfold Z_of_byte, byte_of_Z.
  pose proof (Z.mod_pos_bound z 256 ltac:(lia)).
  rewrite N_ascii_embedding by lia. lia.
Qed.

Lemma byte_of_Z_of_byte b : byte_of_Z (Z_of_byte b) = b.
Proof.
  unfold byte_of_Z. pose proof (Z_of_byte_range b).
  rewrite Z.mod_small by lia. unfold Z_of_byte.
  rewrite N2Z.id. apply ascii_N_embedding.
Qed.

(** Little-endian byte order of the target (x86-64). *)
Fixpoint le_bytes (n : nat) (z : Z) : bytes :=
  match n with
  | O => []
  | S n => byte_of_Z z :: le_bytes n (z / 256)
  end.

Fixpoint le_Z (bs : bytes) : Z :=
  match bs with
  | [] => 0
  | b :: bs => Z_of_byte b + 256 * le_Z bs
  end.

Lemma length_le_bytes n z : length (le_bytes n z) = n.
Proof. revert z. induction n as [|n IH]; intros z; simpl; auto. Qed.

Lemma le_Z_le_bytes n z : le_Z (le_bytes n z) = z mod 256 ^ Z.of_nat n.
Proof.
  revert z. induction n as [|n IH]; intros z; simpl le_bytes; simpl le_Z.
  - by rewrite Z.mod_1_r.
  - rewrite IH, Z_of_byte_of_Z.
    rewrite Nat2Z.inj_succ, Z.pow_succ_r by lia.
    rewrite Z.rem_mul_r by lia. lia.
Qed.

Lemma le_bytes_le_Z bs : le_bytes (length bs) (le_Z bs) = bs.
Proof.
  induction bs as [|b bs IH]; [done|]. simpl.
  pose proof (Z_of_byte_range b). f_equal.
  - rewrite <- (byte_of_Z_of_byte b) at 2. unfold byte_of_Z. do 2 f_equal.
    rewrite (Z.mul_comm 256), Z.mod_add by lia. done.
  - replace ((Z_of_byte b + 256 * le_Z bs) / 256) with (le_Z bs); [done|].
    apply Z.div_unique with (r := Z_of_byte b); lia.
Qed.

Lemma le_Z_range bs : 0 <= le_Z bs < 256 ^ Z.of_nat (length bs).
Proof.
  induction bs as [|b bs IH]; simpl length; simpl le_Z; [lia|].
  rewrite Nat2Z.inj_succ, Z.pow_succ_r by lia.
  pose proof (Z_of_byte_range b). lia.
Qed.

(** ** Lists *)

(** Changing a predicate at one element of a duplicate-free list. *)
Lemma filter_length_eq {A} (P P' : A -> Prop) `{!forall x, Decision (P x)}
    `{!forall x, Decision (P' x)} (l : list A) :
  (forall x, x ∈ l -> P x <-> P' x) -> length (filter P l) = length (filter P' l).
Proof.
  induction l as [|x l IH]; intros HP; [done|].
  rewrite !filter_cons. specialize (HP x ltac:(by left)) as Hx.
  assert (length (filter P l) = length (filter P' l)) as E.
  { apply IH. intros y Hy. apply HP. by right. }
  repeat case_decide; simpl; tauto || lia.
Qed.

Lemma filter_length_flip {A} (P P' : A -> Prop) `{!forall x, Decision (P x)}
    `{!forall x, Decision (P' x)} (l : list A) (b : A) :
  NoDup l -> b ∈ l -> P b -> ~ P' b -> (forall x, x <> b -> P x <-> P' x) ->
  length (filter P l) = S (length (filter P' l)).
Proof.
  intros Hnd Hb HP HP' Hother. induction l as [|x l IH].
  { by apply not_elem_of_nil in Hb. }
  apply NoDup_cons in Hnd as [Hx Hnd]. rewrite !filter_cons.
  apply elem_of_cons in Hb as [->|Hb].
  - rewrite decide_True, decide_False by done. simpl. f_equal.
    apply filter_length_eq. intros y Hy. apply Hother. by intros ->.
  - assert (x <> b) as Hne by (by intros ->).
    specialize (Hother x Hne). specialize (IH Hnd Hb).
    repeat case_decide; simpl; tauto || lia.
Qed.

Lemma filter_split {A} (P : A -> Prop) `{!forall x, Decision (P x)} (l : list A) :
  (length (filter P l) + length (filter (fun x => ~ P x) l))%nat = length l.
Proof.
  induction l as [|x l IH]; [done|]. rewrite !filter_cons.
  repeat case_decide; simpl; try tauto; lia.
Qed.

(** [n] consecutive integers from [z]; linear to compute, unlike [seqZ]. *)
Fixpoint zrange (z : Z) (n : nat) : list Z :=
  match n with
  | O => []
  | S n => z :: zrange (z + 1) n
  end.

Lemma elem_of_zrange z n x : x ∈ zrange z n <-> z <= x < z + Z.of_nat n.
Proof.
  revert z. induction n as [|n IH]; intros z; simpl.
  - rewrite elem_of_nil. lia.
  - rewrite elem_of_cons, IH. lia.
Qed.

Lemma NoDup_zrange z n : NoDup (zrange z n).
Proof.
  revert z. induction n as [|n IH]; intros z; simpl; constructor; [|done].
  rewrite elem_of_zrange. lia.
Qed.

Lemma length_zrange z n : length (zrange z n) = n.
Proof. revert z. induction n as [|n IH]; intros z; simpl; auto. Qed.

Lemma lookup_zrange z n k : (k < n)%nat -> zrange z n !! k = Some (z + Z.of_nat k).
Proof.
  revert z k. induction n as [|n IH]; intros z k Hk; [lia|].
  destruct k as [|k]; simpl; [f_equal; lia|]. rewrite IH by lia. f_equal. lia.
Qed.

Lemma nth_fmap_zrange {A} (f : Z -> A) z n k d :
  (k < n)%nat -> nth k (f <$> zrange z n) d = f (z + Z.of_nat k).
Proof. intros Hk. by rewrite nth_lookup, list_lookup_fmap, lookup_zrange. Qed.
