(* ===== verification/Monad.v ===== *)
(** The effects of the C++ code: a state monad over an outcome type, loops with
    fuel, and a total-correctness weakest precondition with its rules.

    [outcome] separates the ways in which a call can end: normally, by a failed
    [assert], by [exit], by a C++ exception, or by undefined behaviour (an access
    outside an object).  [Diverged] is what a loop returns when its fuel runs
    out; [wp] excludes it, so every [wp] theorem is also a termination theorem. *)
From S2P Require Import Prelude.
From Stdlib Require Import ZArith Lia.
From stdpp Require Import base gmap list.

Inductive outcome (A : Type) : Type :=
| Ok (a : A)
| Assert_failed
| Exit (code : Z)
| Throw
| UB
| Diverged.
Arguments Ok {A} _.
Arguments Assert_failed {A}.
Arguments Exit {A} _.
Arguments Throw {A}.
Arguments UB {A}.
Arguments Diverged {A}.

Definition M (S A : Type) : Type := S -> outcome (A * S).

#[export] Instance M_ret {S} : MRet (M S) := fun A a s => Ok (a, s).

#[export] Instance M_bind {S} : MBind (M S) := fun A B f m s =>
  match m s with
  | Ok (a, s') => f a s'
  | Assert_failed => Assert_failed
  | Exit c => Exit c
  | Throw => Throw
  | UB => UB
  | Diverged => Diverged
  end.

Definition get_st {S} : M S S := fun s => Ok (s, s).
Definition put_st {S} (s' : S) : M S unit := fun _ => Ok (tt, s').
Definition ub {S A} : M S A := fun _ => UB.
Definition throw {S A} : M S A := fun _ => Throw.
Definition diverge {S A} : M S A := fun _ => Diverged.
Definition exit_with {S A} (code : Z) : M S A := fun _ => Exit code.

(** What a program does behind a call that ended as [o]. *)
Definition after {A B} (o : outcome A) (f : A -> outcome B) : outcome B :=
  match o with
  | Ok a => f a
  | Assert_failed => Assert_failed
  | Exit c => Exit c
  | Throw => Throw
  | UB => UB
  | Diverged => Diverged
  end.

(** Running a constructor: the state it ends in. *)
Definition run_st {S} (m : M S unit) (s : S) : outcome S := after (m s) (fun r => Ok r.2).

(** [assert(b)] with assertions enabled (no [NDEBUG] in the makefile). *)
Definition c_assert {S} (b : bool) : M S unit :=
  fun s => if b then Ok (tt, s) else Assert_failed.

(** Running a component that is a field of a larger state. *)
Definition zoom {S T A} (get : S -> T) (set : T -> S -> S) (m : M T A) : M S A :=
  fun s => match m (get s) with
           | Ok (a, t) => Ok (a, set t s)
           | Assert_failed => Assert_failed
           | Exit c => Exit c
           | Throw => Throw
           | UB => UB
           | Diverged => Diverged
           end.

(** ** Loops

    A body returns [Next l] to go on with locals [l] and [Stop l] to leave the
    loop (its condition failed, [break] or [return]). *)
Inductive ctl (L : Type) : Type :=
| Next (l : L)
| Stop (l : L).
Arguments Next {L} _.
Arguments Stop {L} _.

Fixpoint loop {S L} (fuel : nat) (body : L -> M S (ctl L)) (l : L) : M S L :=
  match fuel with
  | O => fun _ => Diverged
  | Datatypes.S fuel =>
      c ← body l;
      match c with
      | Next l' => loop fuel body l'
      | Stop l' => mret l'
      end
  end.

(** ** Weakest precondition (total correctness) *)
Definition wp {S A} (m : M S A) (Q : A -> S -> Prop) (s : S) : Prop :=
  match m s with
  | Ok (a, s') => Q a s'
  | _ => False
  end.

Section rules.
Context {S : Type}.
Implicit Types s : S.

Lemma wp_ret {A} (a : A) (Q : A -> S -> Prop) s : Q a s -> wp (mret a) Q s.
Proof. done. Qed.

Lemma wp_bind {A B} (m : M S A) (f : A -> M S B) (Q : B -> S -> Prop) s :
  wp m (fun a => wp (f a) Q) s -> wp (m ≫= f) Q s.
Proof. unfold wp, mbind, M_bind. by destruct (m s) as [[a s']| | | | |]. Qed.

Lemma wp_mono {A} (m : M S A) (P Q : A -> S -> Prop) s :
  wp m P s -> (forall a s', P a s' -> Q a s') -> wp m Q s.
Proof. unfold wp. intros HP HPQ. destruct (m s) as [[a s']| | | | |]; auto. Qed.

(** A call followed by a continuation, with the callee's specification. *)
Lemma wp_call {A B} (m : M S A) (f : A -> M S B) (P : A -> S -> Prop)
    (Q : B -> S -> Prop) s :
  wp m P s -> (forall a s', P a s' -> wp (f a) Q s') -> wp (m ≫= f) Q s.
Proof. intros. apply wp_bind. by eapply wp_mono. Qed.

Lemma wp_and {A} (m : M S A) (P Q : A -> S -> Prop) s :
  wp m P s -> wp m Q s -> wp m (fun a s' => P a s' /\ Q a s') s.
Proof. unfold wp. by destruct (m s) as [[a s']| | | | |]. Qed.

Lemma wp_get_st (Q : S -> S -> Prop) s : Q s s -> wp get_st Q s.
Proof. done. Qed.

Lemma wp_put_st s0 (Q : unit -> S -> Prop) s : Q tt s0 -> wp (put_st s0) Q s.
Proof. done. Qed.

Lemma wp_assert (b : bool) (Q : unit -> S -> Prop) s :
  b = true -> Q tt s -> wp (c_assert b) Q s.
Proof. intros ->. done. Qed.

Lemma wp_zoom {T A} (get : S -> T) set (m : M T A) (Q : A -> S -> Prop) s :
  wp m (fun a t => Q a (set t s)) (get s) -> wp (zoom get set m) Q s.
Proof. unfold wp, zoom. by destruct (m (get s)) as [[a t]| | | | |]. Qed.

(** The run behind a [wp]. *)
Lemma wp_run {A} (m : M S A) Q s :
  wp m Q s -> exists a s', m s = Ok (a, s') /\ Q a s'.
Proof.
  unfold wp. destruct (m s) as [[a s']| | | | |] eqn:E; [|done..]. eauto.
Qed.

Lemma wp_of_run {A} (m : M S A) (Q : A -> S -> Prop) s a s' :
  m s = Ok (a, s') -> Q a s' -> wp m Q s.
Proof. unfold wp. by intros ->. Qed.

Lemma wp_Ok {A} (m : M S A) (Q : A -> S -> Prop) s a s' :
  wp m Q s -> m s = Ok (a, s') -> Q a s'.
Proof. unfold wp. intros HQ E. by rewrite E in HQ. Qed.

(** The loop rule: an invariant and a variant bounded by the fuel. *)
Lemma wp_loop {L} (Inv : L -> S -> Prop) (variant : L -> nat)
    (body : L -> M S (ctl L)) (Q : L -> S -> Prop) fuel l s :
  (forall l s, Inv l s ->
     wp (body l) (fun c s' =>
       match c with
       | Next l' => Inv l' s' /\ (variant l' < variant l)%nat
       | Stop l' => Q l' s'
       end) s) ->
  Inv l s -> (variant l < fuel)%nat ->
  wp (loop fuel body l) Q s.
Proof.
  intros Hbody. revert l s. induction fuel as [|fuel IH]; intros l s HI Hf; [lia|].
  simpl. eapply wp_call; [by apply Hbody|].
  intros [l'|l'] s'; simpl; [|done]. intros [HI' Hv]. apply IH; [done|lia].
Qed.

(** One iteration of a loop, the last or not. *)
Lemma wp_loop_stop {L} (body : L -> M S (ctl L)) (Q : L -> S -> Prop) n l s :
  wp (body l) (fun c s' => exists l', c = Stop l' /\ Q l' s') s -> wp (loop (Datatypes.S n) body l) Q s.
Proof. intros Hb. cbn [loop]. eapply wp_call; [exact Hb|]. by intros c s' (l' & -> & HQ). Qed.

Lemma wp_loop_next {L} (body : L -> M S (ctl L)) (Q : L -> S -> Prop) n l s :
  wp (body l) (fun c s' => exists l', c = Next l' /\ wp (loop n body l') Q s') s ->
  wp (loop (Datatypes.S n) body l) Q s.
Proof. intros Hb. cbn [loop]. eapply wp_call; [exact Hb|]. by intros c s' (l' & -> & HQ). Qed.

Lemma wp_if {A} (b : bool) (m1 m2 : M S A) Q s :
  (b = true -> wp m1 Q s) -> (b = false -> wp m2 Q s) ->
  wp (if b then m1 else m2) Q s.
Proof. destruct b; auto. Qed.
End rules.

(** Binding is the sequencing of runs; used to compute failing runs. *)
Lemma bind_Ok {S A B} (m : M S A) (f : A -> M S B) s a s' :
  m s = Ok (a, s') -> (m ≫= f) s = f a s'.
Proof. unfold mbind, M_bind. by intros ->. Qed.

(** Every run of [m] that returns, returns a value satisfying [P]. *)
Definition returns {S A} (m : M S A) (P : A -> Prop) : Prop :=
  forall s a s', m s = Ok (a, s') -> P a.

Section returns.
Context {S : Type}.

Lemma returns_ret {A} (a : A) (P : A -> Prop) : P a -> returns (S:=S) (mret a) P.
Proof. intros Ha s a' s' [= <- <-]. done. Qed.

Lemma returns_bind {A B} (m : M S A) (f : A -> M S B) (P : A -> Prop) (Q : B -> Prop) :
  returns m P -> (forall a, P a -> returns (f a) Q) -> returns (m ≫= f) Q.
Proof.
  intros Hm Hf s b s'. unfold mbind, M_bind. destruct (m s) as [[a s1]| | | | |] eqn:E; [|done..].
  apply Hf. by eapply Hm.
Qed.

Lemma returns_any {A} (m : M S A) : returns m (fun _ => True).
Proof. done. Qed.

Lemma returns_if {A} (b : bool) (m1 m2 : M S A) P :
  (b = true -> returns m1 P) -> (b = false -> returns m2 P) -> returns (if b then m1 else m2) P.
Proof. destruct b; auto. Qed.
End returns.

Create HintDb wp discriminated.
#[export] Hint Resolve wp_ret wp_get_st wp_put_st : wp.

Ltac wp_call H := eapply wp_call; [eapply H|].
Ltac wp_step :=
  lazymatch goal with
  | |- wp (mret _) _ _ => apply wp_ret
  | |- wp get_st _ _ => apply wp_get_st
  | |- wp (put_st _) _ _ => apply wp_put_st
  | |- wp (_ ≫= _) _ _ => apply wp_bind
  | |- wp (zoom _ _ _) _ _ => apply wp_zoom
  end.
Ltac wp_steps := repeat wp_step.
