(* ===== verification/Disk.v ===== *)
(** The disk layer: [class disk] of inode_manager.h and inode_manager.cc.

    The array [blocks[BLOCK_NUM][BLOCK_SIZE]] is a finite map from block numbers
    to block contents; a block that was never written holds the zeroes of the
    constructor's [bzero]. *)
From S2P Require Import Prelude Monad.
From Stdlib Require Import Ascii ZArith Lia.
From stdpp Require Import base gmap numbers list.
#[local] Open Scope Z_scope.

Definition DISK_SIZE : Z := 1024 * 1024 * 16.
Definition BLOCK_SIZE : Z := 512.
Definition BLOCK_NUM : Z := 1024 * 1024 * 16 / 512.

Definition zero_block : bytes := replicate (Z.to_nat BLOCK_SIZE) NUL.

Record disk := mk_disk { blocks : gmap Z bytes }.

(** [disk::disk] *)
Definition disk_new : disk := mk_disk ∅.

(** [blocks[id]] *)
Definition disk_block (d : disk) (id : Z) : bytes := default zero_block (blocks d !! id).

(** [memcpy(dst, src, n)] on whole buffers, with its two range conditions. *)
Definition memcpy {S} (dst src : bytes) (n : nat) : M S bytes :=
  if decide (n <= length src /\ n <= length dst)%nat
  then mret (take n src ++ drop n dst)
  else ub.

(** [disk::read_block] returns the new contents of the caller's buffer. *)
Definition read_block (id : Z) (buf : bytes) : M disk bytes :=
  d ← get_st;
  if BLOCK_NUM <=? id then mret buf
  else memcpy buf (disk_block d id) (Z.to_nat BLOCK_SIZE).

(** [disk::write_block]; [buf] is the memory the pointer points to. *)
Definition write_block (id : Z) (buf : bytes) : M disk unit :=
  d ← get_st;
  if BLOCK_NUM <=? id then mret tt
  else b ← memcpy (disk_block d id) buf (Z.to_nat BLOCK_SIZE);
       put_st (mk_disk (<[id := b]> (blocks d))).

(** ** Invariant: every block has [BLOCK_SIZE] bytes. *)
Definition disk_wf (d : disk) : Prop :=
  forall id, length (disk_block d id) = Z.to_nat BLOCK_SIZE.

Lemma length_zero_block : length zero_block = Z.to_nat BLOCK_SIZE.
Proof. apply length_replicate. Qed.

Lemma disk_new_wf : disk_wf disk_new.
Proof. intros id. unfold disk_block. simpl. rewrite lookup_empty. apply length_zero_block. Qed.

Lemma disk_new_block id : disk_block disk_new id = zero_block.
Proof. unfold disk_block. simpl. by rewrite lookup_empty. Qed.

Lemma wp_memcpy {S} dst src n (Q : bytes -> S -> Prop) s :
  (n <= length src)%nat -> (n <= length dst)%nat ->
  Q (take n src ++ drop n dst) s -> wp (memcpy dst src n) Q s.
Proof. intros. unfold memcpy. rewrite decide_True by done. done. Qed.

Lemma take_drop_full (l k : bytes) :
  length k = length l -> take (length l) l ++ drop (length l) k = l.
Proof. intros E. rewrite take_ge by lia. rewrite drop_ge by lia. apply app_nil_r. Qed.

Lemma wp_disk_read id buf Q d :
  disk_wf d -> length buf = Z.to_nat BLOCK_SIZE ->
  (id < BLOCK_NUM -> Q (disk_block d id) d) ->
  (BLOCK_NUM <= id -> Q buf d) ->
  wp (read_block id buf) Q d.
Proof.
  intros Hd Hb Hin Hout. unfold read_block. wp_steps.
  apply wp_if; intros E; [wp_steps; apply Hout; lia|].
  rewrite <- (Hd id). apply wp_memcpy; [lia|rewrite (Hd id); lia|].
  rewrite take_drop_full by by rewrite (Hd id). apply Hin. lia.
Qed.

(** The disk after [write_block id buf]. *)
Definition disk_upd (id : Z) (buf : bytes) (d : disk) : disk :=
  mk_disk (<[id := buf]> (blocks d)).

Lemma disk_block_upd id buf d id' :
  disk_block (disk_upd id buf d) id' = if decide (id' = id) then buf else disk_block d id'.
Proof.
  unfold disk_block, disk_upd. simpl. case_decide; subst.
  - by rewrite lookup_insert_eq.
  - by rewrite lookup_insert_ne.
Qed.

Lemma disk_upd_wf id buf d :
  disk_wf d -> length buf = Z.to_nat BLOCK_SIZE -> disk_wf (disk_upd id buf d).
Proof. intros Hd Hb id'. rewrite disk_block_upd. case_decide; auto. Qed.

Lemma wp_disk_write id buf Q d :
  disk_wf d -> length buf = Z.to_nat BLOCK_SIZE ->
  (id < BLOCK_NUM -> Q tt (disk_upd id buf d)) ->
  (BLOCK_NUM <= id -> Q tt d) ->
  wp (write_block id buf) Q d.
Proof.
  intros Hd Hb Hin Hout. unfold write_block. wp_steps.
  apply wp_if; intros E; [wp_steps; apply Hout; lia|].
  wp_step. rewrite <- Hb. apply wp_memcpy; [lia|rewrite (Hd id); lia|].
  rewrite take_drop_full by by rewrite (Hd id). apply Hin. lia.
Qed.
