(* ===== verification/BlockManager.v ===== *)
(** The block layer: [class block_manager] of inode_manager.h and
    inode_manager.cc.

    The bitmap is the [std::map<uint32_t,int>] of the code.  Its [operator[]]
    inserts a zero for a missing key, so even [is_valid_block] changes the map;
    [bm_equiv] is the equivalence in which a missing key and a zero are the same,
    and every operation respects it. *)
From S2P Require Import Prelude Monad Disk.
From Stdlib Require Import Ascii ZArith Lia.
From stdpp Require Import base gmap numbers list.
#[local] Open Scope Z_scope.

(** ** Layout constants *)
Definition INODE_NUM : Z := 1024.
Definition IPB : Z := 1.
Definition BPB : Z := BLOCK_SIZE * 8.
(** [IBLOCK(i, nblocks)], evaluated in [uint32_t]. *)
Definition IBLOCK (i nblocks : Z) : Z := u32 (nblocks / BPB + i / IPB + 3).
Definition BBLOCK (b : Z) : Z := b / BPB + 2.

Record superblock := mk_sb { sb_size : Z; nblocks : Z; ninodes : Z }.

Record block_manager := mk_bm {
  d : disk;
  using_blocks : gmap Z Z;
  sb : superblock
}.

(** [block_manager::block_manager] *)
Definition block_manager_new : block_manager :=
  mk_bm disk_new ∅ (mk_sb (BLOCK_SIZE * BLOCK_NUM) BLOCK_NUM INODE_NUM).

Definition with_disk {A} : M disk A -> M block_manager A :=
  zoom d (fun d' bm => mk_bm d' (using_blocks bm) (sb bm)).

Definition bm_read_block (id : Z) (buf : bytes) : M block_manager bytes :=
  with_disk (read_block id buf).
Definition bm_write_block (id : Z) (buf : bytes) : M block_manager unit :=
  with_disk (write_block id buf).

(** [using_blocks[id]] as an rvalue: a missing key is inserted with value 0. *)
Definition bitmap_get (id : Z) : M block_manager Z :=
  bm ← get_st;
  match using_blocks bm !! id with
  | Some v => mret v
  | None => _ ← put_st (mk_bm (d bm) (<[id := 0]> (using_blocks bm)) (sb bm)); mret 0
  end.

(** [using_blocks[id] = v] *)
Definition bitmap_set (id v : Z) : M block_manager unit :=
  bm ← get_st;
  put_st (mk_bm (d bm) (<[id := v]> (using_blocks bm)) (sb bm)).

(** [block_manager::is_valid_block] *)
Definition is_valid_block (id : Z) : M block_manager bool :=
  if BLOCK_NUM <=? id then mret false
  else v ← bitmap_get id; mret (v =? 1).

(** The body of the [for] loop of [alloc_block]; the locals are [i] and the
    value of an early [return]. *)
Definition alloc_body (l : Z * option Z) : M block_manager (ctl (Z * option Z)) :=
  let i := l.1 in
  if i <? BLOCK_NUM then
    bm ← get_st;
    free ← (if decide (using_blocks bm !! i = None) then mret true
            else v ← bitmap_get i; mret (v =? 0));
    if (free : bool) then
      _ ← bitmap_set i 1; mret (Stop (i, Some i))
    else mret (Next (i + 1, None))
  else mret (Stop (i, None)).

(** [block_manager::alloc_block] *)
Definition alloc_block : M block_manager Z :=
  bm ← get_st;
  let last_inode_block := IBLOCK INODE_NUM (nblocks (sb bm)) in
  let start := i32 (u32 (last_inode_block + 1)) in
  l ← loop (S (Z.to_nat (BLOCK_NUM - start))) alloc_body (start, None);
  mret (default 0 l.2).

(** [block_manager::free_block] *)
Definition free_block (id : Z) : M block_manager unit :=
  if BLOCK_NUM <=? id then mret tt
  else
    _ ← bm_write_block id zero_block;
    v ← bitmap_get id;
    _ ← c_assert (v =? 1);
    bitmap_set id 0.

(** ** Views of the state *)

(** Contents of block [id]. *)
Definition blk (bm : block_manager) (id : Z) : bytes := disk_block (d bm) id.
(** The bitmap entry of [id], a missing key reading as 0. *)
Definition bit (bm : block_manager) (id : Z) : Z := default 0 (using_blocks bm !! id).
Definition used (bm : block_manager) (id : Z) : bool := bit bm id =? 1.

Definition FIRST_DATA : Z := 1036.
Definition data_block (id : Z) : Prop := FIRST_DATA <= id < BLOCK_NUM.
Definition data_blocks : list Z := zrange FIRST_DATA (Z.to_nat (BLOCK_NUM - FIRST_DATA)).

(** Number of free data blocks. *)
Definition nfree (bm : block_manager) : nat :=
  length (filter (fun b => used bm b = false) data_blocks).

(** Two states that differ only in keys whose value is 0. *)
#[export] Instance bm_equiv : Equiv block_manager := fun bm bm' =>
  (forall id, blk bm id = blk bm' id) /\ (forall id, bit bm id = bit bm' id) /\ sb bm = sb bm'.

(** The invariant: blocks have their size, the superblock is the one of the
    constructor, the bitmap holds 0 or 1 and marks only data blocks. *)
Record bm_wf (bm : block_manager) : Prop := {
  bm_wf_len : forall id, length (blk bm id) = Z.to_nat BLOCK_SIZE;
  bm_wf_sb : sb bm = mk_sb (BLOCK_SIZE * BLOCK_NUM) BLOCK_NUM INODE_NUM;
  bm_wf_bit : forall id, bit bm id = 0 \/ (bit bm id = 1 /\ data_block id)
}.

#[export] Instance bm_equivalence : Equivalence (≡@{block_manager}).
Proof.
  split.
  - done.
  - intros bm bm' (H1 & H2 & H3). repeat split; intros; symmetry; auto.
  - intros b1 b2 b3 (H1 & H2 & H3) (G1 & G2 & G3). repeat split; intros; etrans; eauto.
Qed.

#[export] Instance blk_proper : Proper ((≡) ==> (=) ==> (=)) blk.
Proof. intros bm bm' (H & _) id ? <-. apply H. Qed.
#[export] Instance bit_proper : Proper ((≡) ==> (=) ==> (=)) bit.
Proof. intros bm bm' (_ & H & _) id ? <-. apply H. Qed.
#[export] Instance used_proper : Proper ((≡) ==> (=) ==> (=)) used.
Proof. intros bm bm' H id ? <-. unfold used. by rewrite H. Qed.

#[export] Instance nfree_proper : Proper ((≡) ==> (=)) nfree.
Proof.
  intros bm bm' H. unfold nfree. f_equal. apply list_filter_iff.
  intros x. by rewrite H.
Qed.
#[export] Instance bm_wf_proper : Proper ((≡) ==> iff) bm_wf.
Proof.
  assert (forall bm bm', bm ≡ bm' -> bm_wf bm -> bm_wf bm') as H.
  { intros bm bm' E [H1 H2 H3]. split.
    - intros id. by rewrite <- E.
    - destruct E as (_ & _ & <-). done.
    - intros id. by rewrite <- E. }
  intros bm bm' E. split; apply H; done || by symmetry.
Qed.

(** ** Elementary updates *)
Definition set_bit (id v : Z) (bm : block_manager) : block_manager :=
  mk_bm (d bm) (<[id := v]> (using_blocks bm)) (sb bm).
Definition set_blk (id : Z) (buf : bytes) (bm : block_manager) : block_manager :=
  mk_bm (disk_upd id buf (d bm)) (using_blocks bm) (sb bm).

Lemma bit_set_bit id v bm c : bit (set_bit id v bm) c = if decide (c = id) then v else bit bm c.
Proof.
  unfold bit, set_bit. simpl. case_decide; subst.
  - by rewrite lookup_insert_eq.
  - by rewrite lookup_insert_ne.
Qed.

Lemma used_set_bit id v bm c :
  used (set_bit id v bm) c = if decide (c = id) then v =? 1 else used bm c.
Proof. unfold used. rewrite bit_set_bit. by case_decide. Qed.

Lemma blk_set_bit id v bm c : blk (set_bit id v bm) c = blk bm c.
Proof. done. Qed.

Lemma blk_set_blk id buf bm c :
  blk (set_blk id buf bm) c = if decide (c = id) then buf else blk bm c.
Proof. apply disk_block_upd. Qed.

Lemma used_set_blk id buf bm c : used (set_blk id buf bm) c = used bm c.
Proof. done. Qed.

Lemma nfree_set_blk id buf bm : nfree (set_blk id buf bm) = nfree bm.
Proof. done. Qed.

Create Rewrite HintDb bm.
#[export] Hint Rewrite used_set_bit blk_set_bit blk_set_blk used_set_blk nfree_set_blk : bm.

#[export] Instance set_bit_proper id v : Proper ((≡) ==> (≡)) (set_bit id v).
Proof.
  intros bm bm' E. split; [|split; [|apply E]]; intros c.
  - apply E.
  - rewrite !bit_set_bit. case_decide; [done|apply E].
Qed.

#[export] Instance set_blk_proper id buf : Proper ((≡) ==> (≡)) (set_blk id buf).
Proof.
  intros bm bm' E. split; [|split; [|apply E]]; intros c.
  - rewrite !blk_set_blk. case_decide; [done|apply E].
  - apply E.
Qed.

(** Marking with 0 a block that is not marked changes nothing. *)
Lemma set_bit_zero id bm : bit bm id = 0 -> set_bit id 0 bm ≡ bm.
Proof.
  intros H. split; [done|split; [|done]].
  intros c. rewrite bit_set_bit. case_decide; congruence.
Qed.

Lemma used_true bm id : used bm id = true <-> bit bm id = 1.
Proof. apply Z.eqb_eq. Qed.

Lemma used_data bm id : bm_wf bm -> used bm id = true -> data_block id.
Proof.
  intros [_ _ H] Hu. apply used_true in Hu. destruct (H id) as [E|[_ E]]; [congruence|done].
Qed.

Lemma unused_bit bm id : bm_wf bm -> used bm id = false -> bit bm id = 0.
Proof.
  intros [_ _ H] Hu. unfold used in Hu. destruct (H id) as [E|[E _]]; [done|].
  by rewrite E in Hu.
Qed.

Lemma set_blk_wf id buf bm :
  bm_wf bm -> length buf = Z.to_nat BLOCK_SIZE -> bm_wf (set_blk id buf bm).
Proof.
  intros [H1 H2 H3] Hb. split; [|done|done].
  intros c. autorewrite with bm. case_decide; auto.
Qed.

Lemma set_bit_wf id v bm :
  bm_wf bm -> v = 0 \/ (v = 1 /\ data_block id) -> bm_wf (set_bit id v bm).
Proof.
  intros [H1 H2 H3] Hv. split; [done|done|].
  intros c. rewrite bit_set_bit. case_decide; subst; auto.
Qed.

Lemma block_manager_new_wf : bm_wf block_manager_new.
Proof.
  split; [|done|].
  - intros id. apply disk_new_wf.
  - intros id. left. unfold bit. simpl. by rewrite lookup_empty.
Qed.

(** ** The free count *)
Lemma elem_of_data_blocks id : id ∈ data_blocks <-> data_block id.
Proof. unfold data_blocks. rewrite elem_of_zrange. unfold data_block, FIRST_DATA, BLOCK_NUM. lia. Qed.

Lemma nfree_alloc bm id :
  data_block id -> used bm id = false -> nfree bm = S (nfree (set_bit id 1 bm)).
Proof.
  intros Hd Hu. unfold nfree.
  apply (filter_length_flip _ _ _ id); [apply NoDup_zrange|by apply elem_of_data_blocks|done|..].
  - rewrite used_set_bit, decide_True by done. done.
  - intros c Hc. by rewrite used_set_bit, decide_False.
Qed.

Lemma nfree_free bm id :
  data_block id -> used bm id = true -> nfree (set_bit id 0 bm) = S (nfree bm).
Proof.
  intros Hd Hu. unfold nfree.
  apply (filter_length_flip _ _ _ id); [apply NoDup_zrange|by apply elem_of_data_blocks|..].
  - rewrite used_set_bit, decide_True by done. done.
  - by rewrite Hu.
  - intros c Hc. by rewrite used_set_bit, decide_False.
Qed.

(** The free count depends on the marks alone, and is antitone in them. *)
Lemma nfree_used_ext b b' : (forall c, used b' c = used b c) -> nfree b' = nfree b.
Proof. intros H. apply filter_length_eq. intros c _. by rewrite H. Qed.

Lemma nfree_mono b b' :
  (forall c, used b' c = true -> used b c = true) -> (nfree b <= nfree b')%nat.
Proof.
  intros H. unfold nfree. generalize data_blocks. intros l. induction l as [|c l IH]; [done|].
  rewrite !filter_cons. specialize (H c).
  destruct (used b c), (used b' c); try (specialize (H eq_refl); discriminate);
    repeat case_decide; simpl; try done; lia.
Qed.

Lemma nfree_pos bm : (0 < nfree bm)%nat <-> exists id, data_block id /\ used bm id = false.
Proof.
  unfold nfree. split.
  - destruct (filter _ data_blocks) as [|id l] eqn:E; simpl; [lia|]. intros _.
    exists id. rewrite <- elem_of_data_blocks.
    assert (id ∈ filter (fun b => used bm b = false) data_blocks) as H by (rewrite E; by left).
    apply list_elem_of_filter in H. tauto.
  - intros (id & Hd & Hu). apply elem_of_data_blocks in Hd.
    assert (id ∈ filter (fun b => used bm b = false) data_blocks) as H
      by (by apply list_elem_of_filter).
    destruct (filter _ data_blocks); [by apply not_elem_of_nil in H|simpl; lia].
Qed.

(** Marking the blocks of a list. *)
Lemma nfree_marked b b' (l : list Z) :
  NoDup l -> (forall c, c ∈ l -> data_block c /\ used b c = false) ->
  (forall c, used b' c = true <-> used b c = true \/ c ∈ l) -> nfree b = (nfree b' + length l)%nat.
Proof.
  intros Hnd Hl Hu. unfold nfree. set (F := filter (fun c => used b c = false) data_blocks).
  assert (NoDup F) as HF by apply NoDup_filter, NoDup_zrange.
  rewrite <- (filter_split (fun c => c ∈ l) F), Nat.add_comm. f_equal.
  - unfold F. rewrite list_filter_filter. f_equal. apply list_filter_iff. intros c.
    rewrite <- !not_true_iff_false, Hu. tauto.
  - apply Permutation_length, NoDup_Permutation; [by apply NoDup_filter|done|]. intros c.
    rewrite list_elem_of_filter. split; [tauto|]. intros Hc. split; [done|].
    destruct (Hl c Hc). apply list_elem_of_filter. split; [done|by apply elem_of_data_blocks].
Qed.

(** ** Specifications of the operations *)

Lemma bm_wf_disk bm : bm_wf bm -> disk_wf (d bm).
Proof. by intros [H _ _]. Qed.
#[local] Hint Resolve bm_wf_disk : core.

Lemma wp_bm_read id buf Q bm :
  bm_wf bm -> length buf = Z.to_nat BLOCK_SIZE ->
  id < BLOCK_NUM -> Q (blk bm id) bm -> wp (bm_read_block id buf) Q bm.
Proof.
  intros Hwf Hb Hid HQ. unfold bm_read_block, with_disk. wp_step.
  apply wp_disk_read; [auto|done|..|lia].
  intros _. destruct bm. exact HQ.
Qed.

Lemma wp_bm_write id buf Q bm :
  bm_wf bm -> length buf = Z.to_nat BLOCK_SIZE ->
  id < BLOCK_NUM -> Q tt (set_blk id buf bm) -> wp (bm_write_block id buf) Q bm.
Proof.
  intros Hwf Hb Hid HQ. unfold bm_write_block, with_disk. wp_step.
  apply wp_disk_write; [auto|done|..|lia]. auto.
Qed.

Lemma wp_bitmap_get id Q bm :
  (forall bm', bm' ≡ bm -> Q (bit bm id) bm') -> wp (bitmap_get id) Q bm.
Proof.
  intros HQ. unfold bitmap_get. wp_step. wp_step.
  destruct (using_blocks bm !! id) as [v|] eqn:E; wp_steps.
  - unfold bit in HQ. rewrite E in HQ. by apply HQ.
  - unfold bit in HQ. rewrite E in HQ. apply HQ.
    apply set_bit_zero. unfold bit. by rewrite E.
Qed.

Lemma wp_is_valid_block id Q bm :
  bm_wf bm -> (forall bm', bm' ≡ bm -> Q (used bm id) bm') -> wp (is_valid_block id) Q bm.
Proof.
  intros Hwf HQ. unfold is_valid_block. apply wp_if; intros E; wp_steps.
  - replace false with (used bm id); [by apply HQ|].
    destruct (used bm id) eqn:Hu; [|done].
    apply used_data in Hu as [? ?]; [lia|done].
  - apply wp_bitmap_get. intros bm' Hbm'. wp_step. by apply HQ.
Qed.

(** One iteration of the allocation loop. *)
Lemma wp_alloc_body i Q bm :
  i < BLOCK_NUM ->
  (bit bm i = 0 -> forall bm', bm' ≡ bm -> Q (Stop (i, Some i)) (set_bit i 1 bm')) ->
  (bit bm i <> 0 -> forall bm', bm' ≡ bm -> Q (Next (i + 1, None)) bm') ->
  wp (alloc_body (i, None)) Q bm.
Proof.
  intros Hi Hfree Hbusy. unfold alloc_body. simpl fst.
  rewrite (proj2 (Z.ltb_lt _ _) Hi). wp_step. wp_step. wp_step.
  case_decide as E; wp_steps.
  - apply (Hfree ltac:(unfold bit; by rewrite E) bm). done.
  - apply wp_bitmap_get. intros bm' Hbm'. wp_step.
    apply wp_if; intros Ev; wp_steps.
    + apply (Hfree ltac:(lia) bm'). done.
    + apply (Hbusy ltac:(lia) bm'). done.
Qed.

Lemma alloc_start bm : bm_wf bm -> i32 (u32 (IBLOCK INODE_NUM (nblocks (sb bm)) + 1)) = FIRST_DATA.
Proof. intros [_ H _]. by rewrite H. Qed.

(** [alloc_block] returns the least free data block and marks it; when there is
    none it returns 0 and changes nothing. *)
Lemma wp_alloc_block Q bm :
  bm_wf bm ->
  (forall b bm', data_block b -> used bm b = false ->
     (forall c, FIRST_DATA <= c < b -> used bm c = true) ->
     bm' ≡ set_bit b 1 bm -> Q b bm') ->
  (nfree bm = 0%nat -> forall bm', bm' ≡ bm -> Q 0 bm') ->
  wp alloc_block Q bm.
Proof.
  intros Hwf Hfree Hfull. unfold alloc_block. wp_step. wp_step. wp_step.
  rewrite alloc_start by done.
  eapply wp_loop with
    (Inv := fun l bm' => bm' ≡ bm /\ l.2 = None /\ FIRST_DATA <= l.1 <= BLOCK_NUM /\
              forall c, FIRST_DATA <= c < l.1 -> used bm c = true)
    (variant := fun l => Z.to_nat (BLOCK_NUM - l.1)).
  - intros [i o] bm1 (E & Ho & Hi & Hbelow). simpl in *. subst o.
    destruct (decide (i < BLOCK_NUM)) as [Hlt|Hge].
    + apply wp_alloc_body; [done|..]; intros Hbit bm2 E2.
      * wp_step. simpl. assert (used bm i = false) as Hu.
        { rewrite <- E. unfold used. by rewrite Hbit. }
        apply Hfree; [split; lia|done|done|]. by rewrite E2, E.
      * simpl. split; [|lia]. split; [by rewrite E2|]. split; [done|]. split; [lia|].
        intros c Hc. destruct (decide (c = i)) as [->|]; [|apply Hbelow; lia].
        apply not_false_is_true. intros Hu. apply Hbit. rewrite E.
        by apply unused_bit.
    + unfold alloc_body. simpl. rewrite (proj2 (Z.ltb_ge _ _)) by lia. wp_steps. simpl.
      apply Hfull; [|done]. destruct (decide (nfree bm = 0%nat)) as [|Hn]; [done|].
      destruct (proj1 (nfree_pos bm) ltac:(lia)) as (c & [Hc1 Hc2] & Hu).
      rewrite Hbelow in Hu by lia. done.
  - simpl. split; [done|]. split; [done|]. split; [done|]. lia.
  - simpl. lia.
Qed.

(** [free_block] of a marked block zeroes it and clears its mark. *)
Lemma wp_free_block id Q bm :
  bm_wf bm -> used bm id = true ->
  (forall bm', bm' ≡ set_bit id 0 (set_blk id zero_block bm) -> Q tt bm') ->
  wp (free_block id) Q bm.
Proof.
  intros Hwf Hu HQ. destruct (used_data _ _ Hwf Hu) as [_ Hid]. unfold free_block.
  rewrite (proj2 (Z.leb_gt _ _)) by lia. wp_step.
  apply wp_bm_write; [done|apply length_zero_block|done|]. wp_step.
  apply wp_bitmap_get. intros bm' E. wp_step. apply wp_assert; [exact Hu|].
  unfold bitmap_set. wp_steps. apply HQ. change (set_bit id 0 bm' ≡ set_bit id 0 (set_blk id zero_block bm)).
  by rewrite E.
Qed.

(** Two writes to the same block; writes and marks of bits commute. *)
Lemma set_blk_twice id b1 b2 bm : set_blk id b2 (set_blk id b1 bm) ≡ set_blk id b2 bm.
Proof.
  split; [|done]. intros c. rewrite !blk_set_blk. by case_decide.
Qed.

Lemma bm_equiv_blk bm bm' id : bm ≡ bm' -> blk bm id = blk bm' id.
Proof. intros (H & _ & _). apply H. Qed.
Lemma bm_equiv_used bm bm' id : bm ≡ bm' -> used bm id = used bm' id.
Proof. intros (_ & H & _). unfold used. by rewrite H. Qed.
