(* ===== verification/Inode.v ===== *)
(** [struct inode] of inode_manager.h and its image in a disk block.

    The code casts a block to [struct inode *]; the x86-64 layout is a [short] at
    offset 0, two bytes of padding, and 105 little-endian 32-bit words from
    offset 4: [size], [atime], [mtime], [ctime] and [blocks[NDIRECT+1]].  The
    indirect block is an array of 128 such words. *)
From S2P Require Import Prelude Monad Disk BlockManager.
From Stdlib Require Import Ascii ZArith Lia.
From stdpp Require Import base gmap numbers list.
#[local] Open Scope Z_scope.

Definition NDIRECT : Z := 100.
(** [BLOCK_SIZE / sizeof(uint)] *)
Definition NINDIRECT : Z := BLOCK_SIZE / 4.
Definition MAXFILE : Z := NDIRECT + NINDIRECT.

Record inode := mk_inode {
  i_type : Z;       (* short *)
  i_size : Z;       (* unsigned int, as the four below *)
  i_atime : Z;
  i_mtime : Z;
  i_ctime : Z;
  i_blocks : list Z (* blockid_t[NDIRECT+1] *)
}.

(** [sizeof(struct inode)] *)
Definition SIZEOF_INODE : nat := 424.

(** The word at index [i] of a buffer seen as a [uint32_t] array. *)
Definition rd32 (buf : bytes) (i : nat) : Z := le_Z (take 4 (drop (4 * i) buf)).
Definition wr32 (buf : bytes) (i : nat) (v : Z) : bytes :=
  take (4 * i) buf ++ le_bytes 4 v ++ drop (4 * i + 4) buf.

Definition bytes_of_words (ws : list Z) : bytes := concat (le_bytes 4 <$> ws).
Definition words (n : nat) (buf : bytes) : list Z := rd32 buf <$> seq 0 n.

(** Reading the struct at the start of [buf]. *)
Definition inode_of_bytes (buf : bytes) : inode :=
  mk_inode (i16 (le_Z (take 2 buf)))
    (rd32 buf 1) (rd32 buf 2) (rd32 buf 3) (rd32 buf 4)
    (rd32 buf <$> seq 5 101).

(** Assigning the struct at the start of [buf]; the padding is left alone. *)
Definition bytes_of_inode (ino : inode) (buf : bytes) : bytes :=
  le_bytes 2 (i_type ino) ++ take 2 (drop 2 buf) ++
  bytes_of_words (i_size ino :: i_atime ino :: i_mtime ino :: i_ctime ino :: i_blocks ino) ++
  drop SIZEOF_INODE buf.

(** The fields are values of their C types. *)
Record inode_ok (ino : inode) : Prop := {
  ok_type : - 2 ^ 15 <= i_type ino < 2 ^ 15;
  ok_size : 0 <= i_size ino < 2 ^ 32;
  ok_atime : 0 <= i_atime ino < 2 ^ 32;
  ok_mtime : 0 <= i_mtime ino < 2 ^ 32;
  ok_ctime : 0 <= i_ctime ino < 2 ^ 32;
  ok_blocks : Forall (fun b => 0 <= b < 2 ^ 32) (i_blocks ino);
  ok_length : length (i_blocks ino) = 101%nat
}.

(** ** Words *)
Lemma rd32_range buf i : 0 <= rd32 buf i < 2 ^ 32.
Proof.
  unfold rd32. pose proof (le_Z_range (take 4 (drop (4 * i) buf))) as H.
  rewrite length_take in H.
  assert (256 ^ Z.of_nat (4 `min` length (drop (4 * i) buf)) <= 256 ^ 4); [|lia].
  apply Z.pow_le_mono_r; lia.
Qed.

Lemma length_words n buf : length (words n buf) = n.
Proof. unfold words. by rewrite length_fmap, length_seq. Qed.

Lemma lookup_words n buf i : (i < n)%nat -> words n buf !! i = Some (rd32 buf i).
Proof. intros H. unfold words. rewrite list_lookup_fmap, lookup_seq_lt by done. done. Qed.

Lemma words_ext n b1 b2 :
  (forall i, (i < n)%nat -> rd32 b1 i = rd32 b2 i) -> words n b1 = words n b2.
Proof.
  intros H. apply list_eq_same_length with n; [apply length_words..|].
  intros i x y Hi. rewrite !lookup_words by done. intros. simplify_eq. by apply H.
Qed.

Lemma length_bytes_of_words ws : length (bytes_of_words ws) = (4 * length ws)%nat.
Proof.
  unfold bytes_of_words. induction ws as [|w ws IH]; [done|].
  rewrite fmap_cons. cbn [concat]. rewrite length_app, IH, length_le_bytes. simpl. lia.
Qed.

Lemma rd32_bytes_of_words a ws c i k w :
  length a = (4 * i)%nat -> ws !! k = Some w ->
  rd32 (a ++ bytes_of_words ws ++ c) (i + k) = u32 w.
Proof.
  intros Ha Hk. unfold rd32.
  assert (bytes_of_words ws = bytes_of_words (take k ws) ++ le_bytes 4 w ++
            bytes_of_words (drop (S k) ws)) as E.
  { rewrite <- (take_drop_middle _ _ _ Hk) at 1. unfold bytes_of_words.
    by rewrite fmap_app, fmap_cons, concat_app. }
  pose proof (lookup_lt_Some _ _ _ Hk) as Hlt.
  rewrite E, <- !(assoc_L (++)), (assoc_L (++) a).
  rewrite drop_app_length' by (rewrite length_app, length_bytes_of_words, length_take; lia).
  rewrite take_app_length' by by rewrite length_le_bytes.
  by rewrite le_Z_le_bytes.
Qed.

Lemma drop_app_lt {A} (n : nat) (l k : list A) :
  (n <= length l)%nat -> drop n (l ++ k) = drop n l ++ k.
Proof. intros H. rewrite drop_app. replace (n - length l)%nat with 0%nat by lia. done. Qed.

Lemma rd32_wr32 buf i v j :
  (4 * i + 4 <= length buf)%nat ->
  rd32 (wr32 buf i v) j = if decide (j = i) then u32 v else rd32 buf j.
Proof.
  intros Hi. unfold wr32. case_decide as Hj; subst.
  - pose proof (rd32_bytes_of_words (take (4 * i) buf) [v] (drop (4 * i + 4) buf) i 0 v) as H.
    rewrite Nat.add_0_r in H. rewrite <- H; [done| |done].
    rewrite length_take. lia.
  - unfold rd32. f_equal. apply list_eq. intros k.
    destruct (decide (k < 4)%nat) as [Hk|Hk].
    + rewrite !lookup_take_lt, !lookup_drop by lia.
      destruct (decide (j < i)%nat).
      * rewrite lookup_app_l by (rewrite length_take; lia). by rewrite lookup_take_lt by lia.
      * rewrite lookup_app_r by (rewrite length_take; lia).
        rewrite lookup_app_r by (rewrite length_take, length_le_bytes; lia).
        rewrite lookup_drop, length_take, length_le_bytes. f_equal. lia.
    + by rewrite !lookup_take_ge by lia.
Qed.

Lemma length_wr32 buf i v :
  (4 * i + 4 <= length buf)%nat -> length (wr32 buf i v) = length buf.
Proof.
  intros H. unfold wr32. rewrite !length_app, length_take, length_drop, length_le_bytes. lia.
Qed.

(** Writing back the word that is there changes nothing. *)
Lemma wr32_rd32 buf i : (4 * i + 4 <= length buf)%nat -> wr32 buf i (rd32 buf i) = buf.
Proof.
  intros H. unfold wr32, rd32.
  assert (length (take 4 (drop (4 * i) buf)) = 4%nat) as Hl
    by (rewrite length_take, length_drop; lia).
  pose proof (le_bytes_le_Z (take 4 (drop (4 * i) buf))) as E. rewrite Hl in E. rewrite E.
  rewrite <- drop_drop, take_drop, take_drop. done.
Qed.

Lemma rd32_zero_block i : rd32 zero_block i = 0.
Proof.
  unfold rd32, zero_block. rewrite drop_replicate, take_replicate.
  generalize (4 `min` (Z.to_nat BLOCK_SIZE - 4 * i))%nat. intros n.
  induction n as [|n IH]; [done|]. simpl. by rewrite IH.
Qed.

(** ** The struct *)
Lemma length_bytes_of_inode ino buf :
  inode_ok ino -> (SIZEOF_INODE <= length buf)%nat ->
  length (bytes_of_inode ino buf) = length buf.
Proof.
  intros [] H. unfold bytes_of_inode.
  rewrite !length_app, length_bytes_of_words, length_le_bytes, length_take, !length_drop.
  simpl length. unfold SIZEOF_INODE in *. lia.
Qed.

Lemma inode_of_bytes_ok buf : inode_ok (inode_of_bytes buf).
Proof.
  split; try apply rd32_range; unfold inode_of_bytes; cbn [i_type i_blocks].
  - unfold i16. pose proof (Z.mod_pos_bound (le_Z (take 2 buf) + 2 ^ 15) (2 ^ 16)). lia.
  - apply Forall_fmap, Forall_true. intros i. apply rd32_range.
  - done.
Qed.

Lemma inode_of_bytes_of_inode ino buf :
  inode_ok ino -> (SIZEOF_INODE <= length buf)%nat ->
  inode_of_bytes (bytes_of_inode ino buf) = ino.
Proof.
  intros [] Hlen. unfold SIZEOF_INODE in *.
  set (ws := i_size ino :: i_atime ino :: i_mtime ino :: i_ctime ino :: i_blocks ino).
  assert (bytes_of_inode ino buf =
          (le_bytes 2 (i_type ino) ++ take 2 (drop 2 buf)) ++ bytes_of_words ws ++ drop 424 buf) as E.
  { unfold bytes_of_inode. by rewrite <- (assoc_L (++)). }
  assert (forall k w, ws !! k = Some w -> 0 <= w < 2 ^ 32 ->
            rd32 (bytes_of_inode ino buf) (1 + k) = w) as Hw.
  { intros k w Hk Hr. rewrite E, (rd32_bytes_of_words _ ws _ 1 k w); [by apply u32_id| |done].
    rewrite length_app, length_le_bytes, length_take, length_drop. lia. }
  destruct ino as [t sz at_ mt ct bl].
  cbn [i_type i_size i_atime i_mtime i_ctime i_blocks] in *. unfold inode_of_bytes. f_equal.
  - change (take 2 _) with (le_bytes 2 t). rewrite le_Z_le_bytes.
    change (256 ^ Z.of_nat 2) with (2 ^ 16).
    change (t mod 2 ^ 16) with (u16 t). rewrite i16_u16. by apply i16_id.
  - by apply (Hw 0%nat).
  - by apply (Hw 1%nat).
  - by apply (Hw 2%nat).
  - by apply (Hw 3%nat).
  - change (rd32 (bytes_of_inode (mk_inode t sz at_ mt ct bl) buf) <$> seq 5 101 = bl).
    apply list_eq_same_length with 101%nat; [done|done|].
    intros i x y Hi Hx Hy. rewrite list_lookup_fmap, lookup_seq_lt in Hx by done.
    cbn in Hx. injection Hx as <-.
    rewrite Forall_lookup in ok_blocks0.
    apply (Hw (4 + i)%nat); [done|]. by apply (ok_blocks0 i).
Qed.

(** A zeroed block holds no inode. *)
Lemma inode_of_zero_block : i_type (inode_of_bytes zero_block) = 0.
Proof. reflexivity. Qed.
