(* ===== verification/InodeManager.v ===== *)
(** The inode layer: [class inode_manager] of inode_manager.h and
    inode_manager.cc, one definition per method and per loop body.

    What the methods take from outside the program is the record [Env]: the
    values returned by successive calls of [time(NULL)], and the contents of
    memory the code reads without having written it (uninitialised buffers,
    [malloc]ed memory, the bytes behind the end of a string).  The state counts
    the consultations in [epoch], so no two need agree. *)
From S2P Require Import Prelude Monad Disk BlockManager Inode.
From Stdlib Require Import Ascii ZArith Lia.
From stdpp Require Import base gmap numbers list.
#[local] Open Scope Z_scope.

Class Env := {
  time_at : nat -> Z;
  garbage : nat -> Z -> byte
}.

(** Types of extent_protocol.h. *)
Definition T_DIR : Z := 1.
Definition T_FILE : Z := 2.
Definition T_SYMBOLIC : Z := 3.

Record attr := mk_attr {
  a_type : Z;
  a_atime : Z;
  a_mtime : Z;
  a_ctime : Z;
  a_size : Z
}.

Record inode_manager := mk_im {
  bm : block_manager;
  last_alloced : Z;
  epoch : nat
}.

(** A pointer to readable memory: the byte at each offset. *)
Abbreviation ptr := (Z -> byte).

Definition load (p : ptr) (off n : Z) : bytes :=
  p <$> zrange off (Z.to_nat n).

(** [memcpy(dst + off, src, n)] into a buffer, undefined when out of range. *)
Definition memcpy_at {S} (dst : bytes) (off : Z) (src : bytes) (n : Z) : M S bytes :=
  if decide (0 <= off /\ 0 <= n /\ off + n <= Z.of_nat (length dst) /\ n <= Z.of_nat (length src))
  then mret (take (Z.to_nat off) dst ++ take (Z.to_nat n) src ++
             drop (Z.to_nat (off + n)) dst)
  else ub.

(** [((uint32_t * )buf)[i]], undefined outside the buffer. *)
Definition load32 {S} (buf : bytes) (i : Z) : M S Z :=
  if decide (0 <= i /\ 4 * i + 4 <= Z.of_nat (length buf)) then mret (rd32 buf (Z.to_nat i)) else ub.
Definition store32 {S} (buf : bytes) (i v : Z) : M S bytes :=
  if decide (0 <= i /\ 4 * i + 4 <= Z.of_nat (length buf)) then mret (wr32 buf (Z.to_nat i) v) else ub.

(** [node->blocks[i]] *)
Definition get_slot {S} (node : inode) (i : Z) : M S Z :=
  match (if i <? 0 then None else i_blocks node !! Z.to_nat i) with
  | Some b => mret b
  | None => ub
  end.
Definition set_slot (node : inode) (i v : Z) : inode :=
  mk_inode (i_type node) (i_size node) (i_atime node) (i_mtime node) (i_ctime node)
    (<[Z.to_nat i := v]> (i_blocks node)).
Definition set_atime (node : inode) (t : Z) : inode :=
  mk_inode (i_type node) (i_size node) (u32 t) (i_mtime node) (i_ctime node) (i_blocks node).

(** [strlen]: [None] when there is no NUL in the buffer. *)
Fixpoint strlen (buf : bytes) : option Z :=
  match buf with
  | [] => None
  | b :: buf => if decide (b = NUL) then Some 0 else Z.succ <$> strlen buf
  end.

Definition with_bm {A} : M block_manager A -> M inode_manager A :=
  zoom bm (fun b s => mk_im b (last_alloced s) (epoch s)).

Section inode_manager.
Context `{E : Env}.

Definition tick : M inode_manager nat :=
  s ← get_st; _ ← put_st (mk_im (bm s) (last_alloced s) (S (epoch s))); mret (epoch s).

Definition time_NULL : M inode_manager Z := e ← tick; mret (time_at e).

(** [n] bytes of memory nobody has written. *)
Definition uninit (n : nat) : M inode_manager bytes :=
  e ← tick; mret (garbage e <$> zrange 0 n).

Definition inode_block (inum : Z) : M inode_manager Z :=
  s ← get_st; mret (IBLOCK inum (nblocks (sb (bm s)))).

(** [inode_manager::get_inode] *)
Definition get_inode (inum : Z) : M inode_manager (option inode) :=
  if INODE_NUM <? inum then mret None
  else
    b ← inode_block inum;
    buf ← with_bm (bm_read_block b zero_block);
    let ino := inode_of_bytes (drop (SIZEOF_INODE * Z.to_nat (inum mod IPB)) buf) in
    if i_type ino =? 0 then mret None else mret (Some ino).

(** [inode_manager::put_inode] *)
Definition put_inode (inum : Z) (ino : option inode) : M inode_manager unit :=
  match ino with
  | None => mret tt
  | Some ino =>
      buf ← uninit (Z.to_nat BLOCK_SIZE);
      b ← inode_block inum;
      buf ← with_bm (bm_read_block b buf);
      let k := (SIZEOF_INODE * Z.to_nat (inum mod IPB))%nat in
      let buf := take k buf ++ bytes_of_inode ino (drop k buf) in
      with_bm (bm_write_block b buf)
  end.

Definition to_alloc (last i : Z) : Z :=
  if INODE_NUM <=? u32 (i + last) then u32 (u32 (i + last) mod INODE_NUM + 1)
  else u32 (i + last).

(** Body of the [for] loop of [alloc_inode]. *)
Definition alloc_inode_body (new_node : inode) (l : Z * option Z)
    : M inode_manager (ctl (Z * option Z)) :=
  let i := l.1 in
  if i <=? INODE_NUM then
    s ← get_st;
    let n := to_alloc (last_alloced s) i in
    o ← get_inode n;
    match o with
    | None =>
        _ ← put_inode n (Some new_node);
        s ← get_st;
        _ ← put_st (mk_im (bm s) n (epoch s));
        mret (Stop (i, Some n))
    | Some _ => mret (Next (i + 1, None))
    end
  else mret (Stop (i, None)).

(** [inode_manager::alloc_inode] *)
Definition alloc_inode (type : Z) : M inode_manager Z :=
  t ← time_NULL;
  let new_node := mk_inode (i16 type) 0 (u32 t) (u32 t) (u32 t) (replicate 101 0) in
  l ← loop (S (Z.to_nat INODE_NUM)) (alloc_inode_body new_node) (1, None);
  mret (default 0 l.2).

(** The constructor after [bm = new block_manager()]. *)
Definition inode_manager_init : M inode_manager unit :=
  root_dir ← alloc_inode T_DIR;
  s ← get_st;
  _ ← put_st (mk_im (bm s) 0 (epoch s));
  if root_dir =? 1 then mret tt else exit_with 0.

(** [inode_manager::inode_manager].  [last0] is the value of the member
    [_last_alloced], which [alloc_inode] reads before it is initialised. *)
Definition inode_manager_new (last0 : Z) : outcome inode_manager :=
  run_st inode_manager_init (mk_im block_manager_new last0 0).

(** [inode_manager::free_inode] *)
Definition free_inode (inum : Z) : M inode_manager unit :=
  if INODE_NUM <? inum then mret tt
  else
    node ← get_inode inum;
    match node with
    | None => mret tt
    | Some _ =>
        b ← inode_block inum;
        with_bm (bm_write_block b zero_block)
    end.

(** ** read_file *)

(** Body of the loop over the direct blocks. *)
Definition read_direct (node : inode) (block_count remain_size : Z) (l : Z * bytes)
    : M inode_manager (ctl (Z * bytes)) :=
  let '(i, out) := l in
  if i <? NDIRECT then
    block_id ← get_slot node i;
    valid ← with_bm (is_valid_block block_id);
    if (valid : bool) then
      buf ← with_bm (bm_read_block block_id zero_block);
      if (i =? block_count - 1) && negb (remain_size =? 0) then
        out ← memcpy_at out (i * BLOCK_SIZE) buf remain_size;
        mret (Stop (i, out))
      else
        out ← memcpy_at out (i * BLOCK_SIZE) buf BLOCK_SIZE;
        mret (Next (i + 1, out))
    else mret (Next (i + 1, out))
  else mret (Stop (i, out)).

(** Body of the loop over the indirect blocks. *)
Definition read_indirect (indirect_blocks : bytes) (block_count remain_size : Z)
    (l : Z * bytes) : M inode_manager (ctl (Z * bytes)) :=
  let '(i, out) := l in
  if i <? block_count - NDIRECT then
    b ← load32 indirect_blocks i;
    valid ← with_bm (is_valid_block b);
    if (valid : bool) then
      b ← load32 indirect_blocks i;
      buf ← with_bm (bm_read_block b zero_block);
      if (i + NDIRECT =? block_count - 1) && negb (remain_size =? 0) then
        out ← memcpy_at out ((i + NDIRECT) * BLOCK_SIZE) buf remain_size;
        mret (Stop (i, out))
      else
        out ← memcpy_at out ((i + NDIRECT) * BLOCK_SIZE) buf BLOCK_SIZE;
        mret (Next (i + 1, out))
    else mret (Next (i + 1, out))
  else mret (Stop (i, out)).

(** [inode_manager::read_file]; the result is the new value of [*buf_out]
    ([None] when it is left alone) and of [*size]. *)
Definition read_file (inum : Z) (size0 : Z) : M inode_manager (option bytes * Z) :=
  if INODE_NUM <? inum then mret (None, 0)
  else
    o ← get_inode inum;
    match o with
    | None => mret (None, size0)
    | Some node =>
        let block_count :=
          i32 (i_size node / BLOCK_SIZE) +
          (if negb (i_size node mod BLOCK_SIZE =? 0) || (i32 (i_size node / BLOCK_SIZE) =? 0)
           then 1 else 0) in
        let remain_size := i32 (i_size node mod BLOCK_SIZE) in
        out ← uninit (Z.to_nat (block_count * BLOCK_SIZE));
        let size := i32 (i_size node) in
        l ← loop (S (Z.to_nat NDIRECT)) (read_direct node block_count remain_size) (0, out);
        ind ← get_slot node NDIRECT;
        valid ← (if l.1 =? NDIRECT then with_bm (is_valid_block ind) else mret false);
        out ← (if (valid : bool) then
                 indirect_blocks ← with_bm (bm_read_block ind zero_block);
                 l ← loop (S (Z.to_nat (block_count - NDIRECT)))
                       (read_indirect indirect_blocks block_count remain_size) (0, l.2);
                 mret l.2
               else mret l.2);
        t ← time_NULL;
        _ ← put_inode inum (Some (set_atime node t));
        mret (Some out, size)
    end.

(** ** write_file *)

(** Locals of the loops of [write_file]: [pos], [i], [arr_for_remain], and the
    array whose entries are filled in (the inode for the direct loop, the
    indirect block for the indirect one). *)
Definition write_direct (buf : ptr) (size : Z) (l : inode * Z * Z * bytes)
    : M inode_manager (ctl (inode * Z * Z * bytes)) :=
  let '(node, pos, i, arr) := l in
  if (pos <? size) && (i <? NDIRECT) then
    b ← get_slot node i;
    valid ← with_bm (is_valid_block b);
    node ← (if (valid : bool) then mret node
            else new_block_id ← with_bm alloc_block; mret (set_slot node i new_block_id));
    arr ← (if size <? pos + BLOCK_SIZE then
             arr ← memcpy_at arr 0 (load buf pos (size - pos)) (size - pos);
             b ← get_slot node i;
             _ ← with_bm (bm_write_block b arr);
             mret arr
           else mret arr);
    b ← get_slot node i;
    _ ← with_bm (bm_write_block b (load buf pos BLOCK_SIZE));
    mret (Next (node, pos + BLOCK_SIZE, i + 1, arr))
  else mret (Stop (node, pos, i, arr)).

Definition write_indirect (buf : ptr) (size : Z) (l : bytes * Z * Z * bytes)
    : M inode_manager (ctl (bytes * Z * Z * bytes)) :=
  let '(indirect_blocks, pos, i, arr) := l in
  if (pos <? size) && (i <? BLOCK_SIZE / 4) then
    b ← load32 indirect_blocks i;
    valid ← with_bm (is_valid_block b);
    indirect_blocks ←
      (if (valid : bool) then mret indirect_blocks
       else new_block_id ← with_bm alloc_block; store32 indirect_blocks i new_block_id);
    if size <? pos + BLOCK_SIZE then
      arr ← memcpy_at arr 0 (load buf pos (size - pos)) (size - pos);
      b ← load32 indirect_blocks i;
      _ ← with_bm (bm_write_block b arr);
      mret (Stop (indirect_blocks, pos, i, arr))
    else
      b ← load32 indirect_blocks i;
      _ ← with_bm (bm_write_block b (load buf pos BLOCK_SIZE));
      mret (Next (indirect_blocks, pos + BLOCK_SIZE, i + 1, arr))
  else mret (Stop (indirect_blocks, pos, i, arr)).

(** Body of the loop that frees the direct blocks behind the new end. *)
Definition free_direct (pre_block_num : Z) (l : inode * Z)
    : M inode_manager (ctl (inode * Z)) :=
  let '(node, i) := l in
  if (i <? NDIRECT) && (i <? pre_block_num) then
    b ← get_slot node i;
    valid ← with_bm (is_valid_block b);
    if (valid : bool) then
      _ ← with_bm (free_block b);
      mret (Next (set_slot node i 0, i + 1))
    else mret (Stop (node, i))
  else mret (Stop (node, i)).

(** Body of the loop of [free_indirect_blocks]. *)
Definition free_indirect_body (block_count : Z) (l : bytes * Z)
    : M inode_manager (ctl (bytes * Z)) :=
  let '(blocks, i) := l in
  if i <? block_count then
    b ← load32 blocks i;
    _ ← with_bm (free_block b);
    blocks ← store32 blocks i 0;
    mret (Next (blocks, i + 1))
  else mret (Stop (blocks, i)).

(** [inode_manager::free_indirect_blocks]; returns the updated [*node]. *)
Definition free_indirect_blocks (node : inode) (begin_block : Z) : M inode_manager inode :=
  let block_count :=
    if BLOCK_SIZE * NDIRECT <=? i_size node
    then i32 (u32 (u32 (i_size node - 1) / BLOCK_SIZE + 1 - NDIRECT)) else 0 in
  blocks ← uninit (Z.to_nat BLOCK_SIZE);
  ind ← get_slot node NDIRECT;
  blocks ← with_bm (bm_read_block ind blocks);
  l ← loop (S (Z.to_nat (block_count - begin_block))) (free_indirect_body block_count)
        (blocks, begin_block);
  if begin_block =? 0 then
    ind ← get_slot node NDIRECT;
    _ ← with_bm (free_block ind);
    mret (set_slot node NDIRECT 0)
  else
    ind ← get_slot node NDIRECT;
    _ ← with_bm (bm_write_block ind l.1);
    mret node.

(** The part of [write_file] that handles the indirect blocks. *)
Definition write_indirect_part (buf : ptr) (size : Z) (node : inode) (pos : Z) (arr : bytes)
    : M inode_manager inode :=
  ind ← get_slot node NDIRECT;
  valid ← with_bm (is_valid_block ind);
  nb ← (if (valid : bool) then
          indirect_blocks ← with_bm (bm_read_block ind zero_block);
          mret (node, indirect_blocks)
        else
          new_block_id ← with_bm alloc_block;
          mret (set_slot node NDIRECT new_block_id, zero_block));
  l ← loop (S (Z.to_nat (BLOCK_SIZE / 4))) (write_indirect buf size) (nb.2, pos, 0, arr);
  let '(indirect_blocks, _, _, _) := l in
  ind ← get_slot nb.1 NDIRECT;
  _ ← with_bm (bm_write_block ind indirect_blocks);
  mret nb.1.

(** The part that frees the blocks behind the new end. *)
Definition shrink_part (size pre_block_num : Z) (node : inode) : M inode_manager inode :=
  let used_block_num := Z.quot (size - 1) BLOCK_SIZE + 1 in
  l ← loop (S (Z.to_nat NDIRECT)) (free_direct pre_block_num) (node, used_block_num);
  let '(node, i) := l in
  if (NDIRECT <=? i) && (NDIRECT <? pre_block_num) then
    node ← free_indirect_blocks node (i - NDIRECT);
    mret (if i - NDIRECT =? 0 then set_slot node NDIRECT 0 else node)
  else mret node.

(** [inode_manager::write_file] *)
Definition write_file (inum : Z) (buf : ptr) (size : Z) : M inode_manager unit :=
  o ← get_inode inum;
  match o with
  | None => mret tt
  | Some node =>
      let pre_block_num :=
        i32 (if i_size node =? 0 then 1 else u32 (i_size node - 1) / BLOCK_SIZE + 1) in
      l ← loop (S (Z.to_nat NDIRECT)) (write_direct buf size) (node, 0, 0, zero_block);
      let '(node, pos, i, arr) := l in
      node ← (if (pos <? size) && (i =? NDIRECT)
              then write_indirect_part buf size node pos arr else mret node);
      node ← shrink_part size pre_block_num node;
      t1 ← time_NULL;
      t2 ← time_NULL;
      t3 ← time_NULL;
      put_inode inum (Some (mk_inode (i_type node) (u32 size) (u32 t1) (u32 t3) (u32 t2)
                              (i_blocks node)))
  end.

(** [inode_manager::get_attr]; [a] is the caller's struct. *)
Definition get_attr (inum : Z) (a : attr) : M inode_manager attr :=
  if INODE_NUM <? inum then mret a
  else
    o ← get_inode inum;
    match o with
    | None => mret a
    | Some node =>
        mret (mk_attr (u32 (i_type node)) (i_atime node) (i_mtime node) (i_ctime node)
                (i_size node))
    end.

(** ** remove_file *)

(** Body of the loop over the direct blocks; [free_size] is unsigned. *)
Definition remove_direct (node : inode) (l : Z * Z) : M inode_manager (ctl (Z * Z)) :=
  let '(i, free_size) := l in
  if (i <? NDIRECT) && (free_size <? i_size node) then
    b ← get_slot node i;
    valid ← with_bm (is_valid_block b);
    if (valid : bool) then
      _ ← with_bm (free_block b);
      mret (Next (i + 1, u32 (free_size + BLOCK_SIZE)))
    else mret (Stop (i, free_size))
  else mret (Stop (i, free_size)).

(** [inode_manager::get_indirect_blocks]: the block and [block_count]. *)
Definition get_indirect_blocks (node : inode) : M inode_manager (bytes * Z) :=
  buf ← uninit (Z.to_nat BLOCK_SIZE);
  ind ← get_slot node NDIRECT;
  buf ← with_bm (bm_read_block ind buf);
  match strlen buf with
  | Some n => mret (buf, n / 4)
  | None => ub
  end.

Definition remove_indirect (node : inode) (indirect_blocks : bytes) (num : Z) (l : Z * Z)
    : M inode_manager (ctl (Z * Z)) :=
  let '(i, free_size) := l in
  if (i <? num) && (free_size <? i_size node) then
    b ← load32 indirect_blocks i;
    valid ← with_bm (is_valid_block b);
    if (valid : bool) then
      b ← load32 indirect_blocks i;
      _ ← with_bm (free_block b);
      mret (Next (i + 1, u32 (free_size + BLOCK_SIZE)))
    else mret (Stop (i, free_size))
  else mret (Stop (i, free_size)).

(** [inode_manager::remove_file] *)
Definition remove_file (inum : Z) : M inode_manager unit :=
  if INODE_NUM <? inum then mret tt
  else
    o ← get_inode inum;
    match o with
    | None => mret tt
    | Some node =>
        l ← loop (S (Z.to_nat NDIRECT)) (remove_direct node) (0, 0);
        _ ← (if l.2 <? i_size node then
               ib ← get_indirect_blocks node;
               _ ← loop (S (Z.to_nat ib.2)) (remove_indirect node ib.1 ib.2) (0, l.2);
               ind ← get_slot node NDIRECT;
               with_bm (free_block ind)
             else mret tt);
        free_inode inum
    end.
End inode_manager.

(** ** A concrete machine, on which the theorems are evaluated: a clock that
    advances, and memory full of 170. *)
Definition machine : Env :=
  {| time_at := fun n => 1000 + Z.of_nat n; garbage := fun _ _ => byte_of_Z 170 |}.
