(* ===== verification/FsInv.v ===== *)
(** The invariant of the inode layer, and the views of its state in which the
    theorems are stated.

    A file of [size] bytes has [nb size] data blocks.  Their numbers are the
    [slot]s 0..227 of its inode: 0..99 are [blocks[0..99]], and 100..227 are the
    words of the indirect block [blocks[NDIRECT]].  0 marks an absent block. *)
From S2P Require Import Prelude Monad Disk BlockManager Inode InodeManager.
From Stdlib Require Import Ascii ZArith Lia.
From stdpp Require Import base gmap numbers list.
#[local] Open Scope Z_scope.

(** Number of blocks of a file of [size] bytes. *)
Definition nb (size : Z) : Z := (size + 511) / 512.

(** The largest size a file can have. *)
Definition MAX_SIZE : Z := 116736. (* MAXFILE * BLOCK_SIZE *)

(** The block number in slot [j], given [blocks] and the indirect block. *)
Definition vslot (bl : list Z) (ib : bytes) (j : Z) : Z :=
  if j <? 100 then default 0 (bl !! Z.to_nat j) else rd32 ib (Z.to_nat (j - 100)).

Definition ind (n : inode) : Z := default 0 (i_blocks n !! 100%nat).
Definition ind_bytes (b : block_manager) (n : inode) : bytes :=
  if ind n =? 0 then zero_block else blk b (ind n).
Definition slot (b : block_manager) (n : inode) (j : Z) : Z :=
  vslot (i_blocks n) (ind_bytes b n) j.

(** The blocks of a file: its data blocks and its indirect block [X]. *)
Definition owned_by (sl : Z -> Z) (X b : Z) : Prop :=
  b <> 0 /\ (b = X \/ exists j, 0 <= j < 228 /\ sl j = b).
Definition owned (bm : block_manager) (n : inode) (b : Z) : Prop :=
  owned_by (slot bm n) (ind n) b.

Lemma owned_by_list sl X c :
  owned_by sl X c <-> c <> 0 /\ (c = X \/ c ∈ sl <$> zrange 0 228).
Proof.
  unfold owned_by. rewrite list_elem_of_fmap. setoid_rewrite elem_of_zrange.
  change (0 + Z.of_nat 228) with 228.
  split; (intros [Hc [|(j & H1 & H2)]]; split; [done|by left|done|right; exists j; auto]).
Qed.

#[export] Instance owned_by_dec sl X c : Decision (owned_by sl X c).
Proof. refine (cast_if (decide (c <> 0 /\ (c = X \/ c ∈ sl <$> zrange 0 228))));
  by rewrite owned_by_list. Defined.
#[export] Instance owned_dec b n c : Decision (owned b n c) := owned_by_dec _ _ _.

Record node_wf (bm : block_manager) (n : inode) : Prop := {
  nw_ok : inode_ok n;
  nw_size : i_size n <= MAX_SIZE;
  nw_used : forall b, owned bm n b -> used bm b = true;
  nw_full : forall j, 0 <= j < nb (i_size n) -> slot bm n j <> 0;
  nw_hole : forall j, Z.max 1 (nb (i_size n)) <= j < 228 -> slot bm n j = 0;
  nw_ind : ind n = 0 <-> nb (i_size n) <= 100;
  nw_inj : forall j1 j2, 0 <= j1 < 228 -> 0 <= j2 < 228 ->
             slot bm n j1 <> 0 -> slot bm n j1 = slot bm n j2 -> j1 = j2;
  nw_ind_ne : forall j, 0 <= j < 228 -> slot bm n j <> 0 -> slot bm n j <> ind n
}.

(** The inode number [i] as the code stores it: [None] when it is free. *)
Definition table_inode (b : block_manager) (i : Z) : inode := inode_of_bytes (blk b (i + 11)).
Definition node_at (s : inode_manager) (i : Z) : option inode :=
  if (0 <=? i) && (i <=? INODE_NUM) then
    let ino := table_inode (bm s) i in
    if i_type ino =? 0 then None else Some ino
  else None.

Record fs_wf (s : inode_manager) : Prop := {
  fw_bm : bm_wf (bm s);
  fw_node : forall i n, node_at s i = Some n -> node_wf (bm s) n;
  fw_disj : forall i1 i2 n1 n2 b, node_at s i1 = Some n1 -> node_at s i2 = Some n2 ->
              owned (bm s) n1 b -> owned (bm s) n2 b -> i1 = i2;
  fw_zero : node_at s 0 = None;
  fw_last : 0 <= last_alloced s <= INODE_NUM
}.

(** The byte at offset [p] of a file, and all its bytes. *)
Definition content_at (b : block_manager) (n : inode) (p : Z) : byte :=
  nth (Z.to_nat (p mod 512)) (blk b (slot b n (p / 512))) NUL.
Definition content (b : block_manager) (n : inode) : bytes :=
  content_at b n <$> zrange 0 (Z.to_nat (i_size n)).

Lemma size_range bm n : node_wf bm n -> 0 <= i_size n <= MAX_SIZE.
Proof. intros Hn. split; apply Hn. Qed.

(** ** Arithmetic of block counts *)
Lemma nb_range size : 0 <= size <= MAX_SIZE -> 0 <= nb size <= 228.
Proof. unfold nb, MAX_SIZE. dlia. Qed.
Lemma nb_pos size : 0 < size -> 1 <= nb size.
Proof. unfold nb. dlia. Qed.
Lemma nb_zero : nb 0 = 0.
Proof. done. Qed.
Lemma nb_lt size p : 0 <= p < size -> 0 <= p / 512 < nb size.
Proof. unfold nb. dlia. Qed.
Lemma nb_le_iff size k : size <= 512 * k <-> nb size <= k.
Proof. unfold nb. split; dlia. Qed.
Lemma nb_pred size : 0 < size -> (size - 1) / 512 + 1 = nb size.
Proof. unfold nb. dlia. Qed.

(** ** Slots under changes of state *)
Lemma slot_ext bm bm' n :
  (ind n <> 0 -> blk bm' (ind n) = blk bm (ind n)) -> forall j, slot bm' n j = slot bm n j.
Proof.
  intros H j. unfold slot, ind_bytes. destruct (Z.eqb_spec (ind n) 0); [done|].
  by rewrite H.
Qed.

Lemma owned_ind bm n : ind n <> 0 -> owned bm n (ind n).
Proof. intros H. split; [done|by left]. Qed.

Lemma owned_slot bm n j : 0 <= j < 228 -> slot bm n j <> 0 -> owned bm n (slot bm n j).
Proof. intros Hj H. split; [done|right; eauto]. Qed.

(** A file whose blocks keep their contents and marks is unchanged. *)
Section frame.
Context (b b' : block_manager) (n : inode).
Hypothesis Hblk : forall c, owned b n c -> blk b' c = blk b c.

Lemma frame_slot j : slot b' n j = slot b n j.
Proof. apply slot_ext. intros H. apply Hblk. by apply owned_ind. Qed.

Lemma frame_owned c : owned b' n c <-> owned b n c.
Proof. unfold owned, owned_by. setoid_rewrite frame_slot. done. Qed.

Lemma frame_node_wf :
  (forall c, owned b n c -> used b' c = true) -> node_wf b n -> node_wf b' n.
Proof.
  intros Hused []. split; try done; try setoid_rewrite frame_slot; try done.
  intros c Hc. apply Hused. by apply frame_owned.
Qed.

Lemma frame_content : node_wf b n -> content b' n = content b n.
Proof.
  intros []. unfold content. apply list_fmap_ext. intros k p Hp.
  unfold content_at. rewrite frame_slot, Hblk; [done|].
  apply list_elem_of_lookup_2, elem_of_zrange in Hp.
  destruct nw_ok0. rewrite Z2Nat.id in Hp by lia.
  pose proof (nb_lt (i_size n) p ltac:(lia)). pose proof (nb_range (i_size n) ltac:(lia)).
  apply owned_slot; [lia|]. apply nw_full0. lia.
Qed.
End frame.

Lemma zero_unused b : bm_wf b -> used b 0 = false.
Proof.
  intros Hb. destruct (used b 0) eqn:Hu; [|done]. apply used_data in Hu as [H _]; [|done].
  by destruct H.
Qed.

Lemma owned_data bm n b : bm_wf bm -> node_wf bm n -> owned bm n b -> data_block b.
Proof. intros Hb Hn Ho. apply (used_data bm); [done|]. by apply (nw_used _ _ Hn). Qed.

Lemma length_content bm n : inode_ok n -> Z.of_nat (length (content bm n)) = i_size n.
Proof.
  intros []. unfold content. rewrite length_fmap.
  rewrite length_zrange. lia.
Qed.

(** ** The inode table *)
Lemma IBLOCK_table b i : bm_wf b -> 0 <= i <= INODE_NUM -> IBLOCK i (nblocks (sb b)) = i + 11.
Proof.
  intros [_ Hsb _] Hi. rewrite Hsb. unfold INODE_NUM in Hi.
  unfold IBLOCK, IPB. rewrite Z.div_1_r. simpl nblocks. change (BLOCK_NUM / BPB) with 8.
  rewrite u32_id by lia. lia.
Qed.

Lemma node_at_Some s i n :
  node_at s i = Some n <->
  0 <= i <= INODE_NUM /\ table_inode (bm s) i = n /\ i_type n <> 0.
Proof.
  unfold node_at. destruct (Z.leb_spec 0 i), (Z.leb_spec i INODE_NUM); cbn [andb];
    try (split; [done|lia]).
  cbv zeta.
  destruct (Z.eqb_spec (i_type (table_inode (bm s) i)) 0).
  - split; [done|]. intros (_ & <- & Ht). by destruct Ht.
  - split; [intros [=]; subst; auto|]. by intros (_ & <- & _).
Qed.

Lemma node_at_ext s s' i :
  (0 <= i <= INODE_NUM -> blk (bm s') (i + 11) = blk (bm s) (i + 11)) ->
  node_at s' i = node_at s i.
Proof.
  intros H. unfold node_at, table_inode.
  destruct (Z.leb_spec 0 i), (Z.leb_spec i INODE_NUM); cbn [andb]; try done.
  by rewrite H by lia.
Qed.

Lemma table_lt i : 0 <= i <= INODE_NUM -> i + 11 < BLOCK_NUM.
Proof. unfold INODE_NUM. change BLOCK_NUM with 32768. lia. Qed.

Lemma table_not_data i : 0 <= i <= INODE_NUM -> ~ data_block (i + 11).
Proof. unfold INODE_NUM, data_block, FIRST_DATA. lia. Qed.

(** ** Rules for the primitive operations of the inode layer *)
Definition upd_bm (s : inode_manager) (b : block_manager) : inode_manager :=
  mk_im b (last_alloced s) (epoch s).

Lemma wp_with_bm {A} (m : M block_manager A) (Q : A -> inode_manager -> Prop) s :
  wp m (fun a b => Q a (upd_bm s b)) (bm s) -> wp (with_bm m) Q s.
Proof. intros H. unfold with_bm. by apply wp_zoom. Qed.

Lemma wp_memcpy_at {S} dst off src n (Q : bytes -> S -> Prop) s :
  0 <= off -> 0 <= n -> off + n <= Z.of_nat (length dst) -> n <= Z.of_nat (length src) ->
  Q (take (Z.to_nat off) dst ++ take (Z.to_nat n) src ++ drop (Z.to_nat (off + n)) dst) s ->
  wp (memcpy_at dst off src n) Q s.
Proof. intros. unfold memcpy_at. rewrite decide_True by done. done. Qed.

Lemma wp_load32 {S} buf i (Q : Z -> S -> Prop) s :
  0 <= i -> 4 * i + 4 <= Z.of_nat (length buf) -> Q (rd32 buf (Z.to_nat i)) s ->
  wp (load32 buf i) Q s.
Proof. intros. unfold load32. rewrite decide_True by done. done. Qed.

Lemma wp_store32 {S} buf i v (Q : bytes -> S -> Prop) s :
  0 <= i -> 4 * i + 4 <= Z.of_nat (length buf) -> Q (wr32 buf (Z.to_nat i) v) s ->
  wp (store32 buf i v) Q s.
Proof. intros. unfold store32. rewrite decide_True by done. done. Qed.

Lemma wp_get_slot {S} node i (Q : Z -> S -> Prop) s :
  0 <= i <= NDIRECT -> length (i_blocks node) = 101%nat ->
  Q (default 0 (i_blocks node !! Z.to_nat i)) s -> wp (get_slot node i) Q s.
Proof.
  intros Hi Hl HQ. unfold NDIRECT in Hi. unfold get_slot. rewrite (proj2 (Z.ltb_ge _ _)) by lia.
  destruct (i_blocks node !! Z.to_nat i) as [b|] eqn:E; [done|].
  apply lookup_ge_None in E. lia.
Qed.

Lemma wp_get_ind {S} node (Q : Z -> S -> Prop) s :
  length (i_blocks node) = 101%nat -> Q (ind node) s -> wp (get_slot node NDIRECT) Q s.
Proof. intros Hl HQ. by apply wp_get_slot. Qed.

Section specs.
Context `{E : Env}.

Lemma wp_tick (Q : nat -> inode_manager -> Prop) s :
  Q (epoch s) (mk_im (bm s) (last_alloced s) (S (epoch s))) -> wp tick Q s.
Proof. done. Qed.

Lemma wp_time (Q : Z -> inode_manager -> Prop) s :
  Q (time_at (epoch s)) (mk_im (bm s) (last_alloced s) (S (epoch s))) -> wp time_NULL Q s.
Proof. done. Qed.

Lemma wp_uninit n (Q : bytes -> inode_manager -> Prop) s :
  (forall buf, length buf = n ->
     Q buf (mk_im (bm s) (last_alloced s) (S (epoch s)))) -> wp (uninit n) Q s.
Proof.
  intros HQ. unfold uninit. wp_step. apply wp_tick. wp_step.
  apply HQ. by rewrite length_fmap, length_zrange.
Qed.

Lemma wp_inode_block i (Q : Z -> inode_manager -> Prop) s :
  bm_wf (bm s) -> 0 <= i <= INODE_NUM -> Q (i + 11) s -> wp (inode_block i) Q s.
Proof. intros Hb Hi HQ. unfold inode_block. wp_steps. by rewrite IBLOCK_table. Qed.

(** [get_inode] reads the inode table and changes nothing. *)
Lemma wp_get_inode i (Q : option inode -> inode_manager -> Prop) s :
  bm_wf (bm s) -> 0 <= i -> Q (node_at s i) s -> wp (get_inode i) Q s.
Proof.
  intros Hb Hi HQ. unfold get_inode. unfold node_at in HQ.
  rewrite (proj2 (Z.leb_le 0 i)) in HQ by done. apply wp_if; intros Hle.
  - wp_step. rewrite (proj2 (Z.leb_gt _ _)) in HQ by lia. done.
  - rewrite (proj2 (Z.leb_le _ _)) in HQ by lia. cbn [andb] in HQ. cbv zeta in HQ.
    wp_step. apply wp_inode_block; [done|lia|]. wp_step. apply wp_with_bm.
    apply wp_bm_read; [done|done|apply table_lt; lia|].
    replace (SIZEOF_INODE * Z.to_nat (i mod IPB))%nat with 0%nat
      by (unfold IPB; rewrite Z.mod_1_r; lia).
    rewrite drop_0. fold (table_inode (bm s) i).
    destruct s. destruct (i_type _ =? 0); exact HQ.
Qed.

(** [put_inode] writes one block of the inode table. *)
Lemma wp_put_inode i n (Q : unit -> inode_manager -> Prop) s :
  bm_wf (bm s) -> 0 <= i <= INODE_NUM -> inode_ok n ->
  (forall buf, length buf = Z.to_nat BLOCK_SIZE -> inode_of_bytes buf = n ->
     Q tt (mk_im (set_blk (i + 11) buf (bm s)) (last_alloced s) (S (epoch s)))) ->
  wp (put_inode i (Some n)) Q s.
Proof.
  intros Hb Hi Hn HQ. unfold put_inode. wp_step. apply wp_uninit. intros buf0 Hbuf0.
  wp_step. apply wp_inode_block; [done|done|]. wp_step. apply wp_with_bm.
  apply wp_bm_read; [done|done|apply table_lt; lia|].
  replace (SIZEOF_INODE * Z.to_nat (i mod IPB))%nat with 0%nat
    by (unfold IPB; rewrite Z.mod_1_r; lia).
  rewrite drop_0. cbn [take]. rewrite app_nil_l. cbn [upd_bm bm last_alloced epoch].
  pose proof (bm_wf_len _ Hb (i + 11)) as Hlen.
  assert (length (bytes_of_inode n (blk (bm s) (i + 11))) = Z.to_nat BLOCK_SIZE) as Hl.
  { rewrite length_bytes_of_inode; [done|done|]. rewrite Hlen. apply Nat.leb_le. reflexivity. }
  apply wp_with_bm. apply wp_bm_write;
    [done|done|apply table_lt; lia|].
  apply HQ; [done|]. apply inode_of_bytes_of_inode; [done|].
  rewrite Hlen. apply Nat.leb_le. reflexivity.
Qed.
End specs.

(** ** The abstract file system: what an inode number stands for *)
Record file := mk_file {
  f_type : Z;
  f_atime : Z;
  f_mtime : Z;
  f_ctime : Z;
  f_data : bytes
}.

Definition file_of (b : block_manager) (n : inode) : file :=
  mk_file (i_type n) (i_atime n) (i_mtime n) (i_ctime n) (content b n).
Definition file_at (s : inode_manager) (i : Z) : option file :=
  file_of (bm s) <$> node_at s i.

(** The blocks that inode number [i] owns. *)
Definition owns (s : inode_manager) (i c : Z) : Prop :=
  exists n, node_at s i = Some n /\ owned (bm s) n c.

Lemma owns_used s i c : fs_wf s -> owns s i c -> used (bm s) c = true.
Proof. intros [] (n & Hn & Ho). by apply (nw_used _ n); eauto. Qed.

Lemma owns_disj s i j c : fs_wf s -> owns s i c -> owns s j c -> i = j.
Proof. intros [] (n & Hn & Ho) (m & Hm & Ho'). eauto. Qed.

(** A state change that touches only the table entry of inode [i], the blocks
    that [i] owned, and blocks that were free, preserves the invariant and every
    other file. *)
Section update.
Context (s s' : inode_manager) (i : Z).
Hypothesis Hwf : fs_wf s.
Hypothesis Hbm : bm_wf (bm s').
Hypothesis Hi : 0 < i.
Hypothesis Htable : forall j, 0 <= j <= INODE_NUM -> j <> i ->
  blk (bm s') (j + 11) = blk (bm s) (j + 11).
Hypothesis Hframe : forall c, used (bm s) c = true -> ~ owns s i c ->
  used (bm s') c = true /\ blk (bm s') c = blk (bm s) c.

Lemma update_node_other j : j <> i -> node_at s' j = node_at s j.
Proof. intros Hj. apply node_at_ext. auto. Qed.

Lemma update_frame j n c :
  j <> i -> node_at s j = Some n -> owned (bm s) n c ->
  used (bm s') c = true /\ blk (bm s') c = blk (bm s) c.
Proof.
  intros Hj Hn Ho. assert (owns s j c) as Hjc by (by exists n). apply Hframe.
  - by apply (owns_used s j).
  - intros Hic. apply Hj. by eapply owns_disj.
Qed.

Lemma update_file_other j : j <> i -> file_at s' j = file_at s j.
Proof.
  intros Hj. unfold file_at. rewrite update_node_other by done.
  destruct (node_at s j) as [n|] eqn:Hn; [|done]. simpl. f_equal. unfold file_of. f_equal.
  apply frame_content.
  - intros c Hc. by eapply update_frame.
  - by apply (fw_node _ Hwf j).
Qed.

Lemma update_owned_other j n c :
  j <> i -> node_at s j = Some n -> owned (bm s') n c <-> owned (bm s) n c.
Proof. intros Hj Hn. apply frame_owned. intros c' Hc'. by eapply update_frame. Qed.

Lemma update_owns_other j c : j <> i -> owns s' j c <-> owns s j c.
Proof.
  intros Hj. unfold owns. rewrite update_node_other by done.
  split; intros (n & Hn & Ho); exists n; (split; [done|]); by apply (update_owned_other j).
Qed.

Lemma update_fs_wf :
  0 <= last_alloced s' <= INODE_NUM ->
  (forall n, node_at s' i = Some n -> node_wf (bm s') n) ->
  (forall c, owns s' i c -> owns s i c \/ used (bm s) c = false) ->
  fs_wf s'.
Proof.
  intros Hlast Hnode Hnew.
  assert (forall j n c, j <> i -> node_at s' j = Some n -> owned (bm s') n c ->
            owns s j c /\ ~ owns s' i c) as Hother.
  { intros j n c Hj Hn Ho. rewrite update_node_other in Hn by done.
    rewrite (update_owned_other j) in Ho by done.
    assert (owns s j c) as Hjc by (by exists n). split; [done|].
    intros Hic. destruct (Hnew _ Hic) as [Hic'|Hu].
    - apply Hj. by eapply owns_disj.
    - rewrite (owns_used s j c) in Hu by done. done. }
  split; [done| | |by rewrite update_node_other by lia; apply Hwf|done].
  - intros j n Hn. destruct (decide (j = i)) as [->|Hj]; [auto|].
    rewrite update_node_other in Hn by done.
    apply (frame_node_wf (bm s)); [| |by apply (fw_node _ Hwf j)];
      intros c Hc; by eapply update_frame.
  - intros j1 j2 n1 n2 c H1 H2 Ho1 Ho2.
    destruct (decide (j1 = i)) as [->|N1], (decide (j2 = i)) as [->|N2]; [done|..].
    + destruct (Hother j2 n2 c) as [_ H]; try done. destruct H. by exists n1.
    + destruct (Hother j1 n1 c) as [_ H]; try done. destruct H. by exists n2.
    + destruct (Hother j1 n1 c) as [Ha _]; try done.
      destruct (Hother j2 n2 c) as [Hb _]; try done. by eapply owns_disj.
Qed.
End update.

(** Storing inode [n'] as number [i] after its blocks have been brought into
    place: the table entry is the only block that changes then. *)
Section commit.
Context (s : inode_manager) (i : Z) (b : block_manager) (n' : inode) (tbl : bytes).
Context (last : Z) (ep : nat).
Hypothesis Hwf : fs_wf s.
Hypothesis Hi : 0 < i <= INODE_NUM.
Hypothesis Hb : bm_wf b.
Hypothesis Hlast : 0 <= last <= INODE_NUM.
Hypothesis Hlen : length tbl = Z.to_nat BLOCK_SIZE.
Hypothesis Htbl : inode_of_bytes tbl = n'.
Hypothesis Htype : i_type n' <> 0.
Hypothesis Hnode : node_wf b n'.
Hypothesis Hnew : forall c, owned b n' c -> owns s i c \/ used (bm s) c = false.
Hypothesis Hused : forall c, used (bm s) c = true -> ~ owns s i c -> used b c = true.
Hypothesis Hframe : forall c, ~ owns s i c -> ~ owned b n' c -> blk b c = blk (bm s) c.
Let s' : inode_manager := mk_im (set_blk (i + 11) tbl b) last ep.

Lemma commit_blk c : c <> i + 11 -> blk (bm s') c = blk b c.
Proof. intros Hc. cbn [s' bm]. by rewrite blk_set_blk, decide_False. Qed.

Lemma commit_blk_data c : data_block c -> blk (bm s') c = blk b c.
Proof. intros Hc. apply commit_blk. intros ->. apply (table_not_data i); [lia|done]. Qed.

Lemma commit_owned c : owned (bm s') n' c <-> owned b n' c.
Proof.
  apply frame_owned. intros c' Hc'. apply commit_blk_data. by eapply owned_data.
Qed.

Lemma commit_node : node_at s' i = Some n'.
Proof.
  apply node_at_Some. split; [lia|]. split; [|done].
  unfold table_inode. cbn [s' bm]. by rewrite blk_set_blk, decide_True.
Qed.

Lemma commit_owns c : owns s' i c <-> owned b n' c.
Proof.
  rewrite <- commit_owned. unfold owns. rewrite commit_node.
  split; [by intros (m & [= ->] & Hm)|eauto].
Qed.

Lemma commit_file : file_at s' i = Some (file_of b n').
Proof.
  unfold file_at. rewrite commit_node. simpl. f_equal. unfold file_of. f_equal.
  apply frame_content; [|done]. intros c Hc. apply commit_blk_data. by eapply owned_data.
Qed.

Lemma commit_table j : 0 <= j <= INODE_NUM -> j <> i -> blk (bm s') (j + 11) = blk (bm s) (j + 11).
Proof.
  intros Hj Hji. rewrite commit_blk by lia. pose proof (table_not_data j Hj) as Hnd.
  apply Hframe; intros Ho; apply Hnd.
  - apply (used_data (bm s)); [apply Hwf|by apply (owns_used s i)].
  - by eapply owned_data.
Qed.

Lemma commit_frame c : used (bm s) c = true -> ~ owns s i c ->
  used (bm s') c = true /\ blk (bm s') c = blk (bm s) c.
Proof.
  intros Hu Hic. split; [by apply Hused|]. rewrite commit_blk_data.
  - apply Hframe; [done|]. intros Ho. destruct (Hnew _ Ho); congruence.
  - apply (used_data (bm s)); [apply Hwf|done].
Qed.

Lemma commit_wf : fs_wf s'.
Proof.
  apply (update_fs_wf s s' i);
    [done|by apply set_blk_wf|lia|apply commit_table|apply commit_frame|done| |].
  - rewrite commit_node. intros n [= <-]. apply (frame_node_wf b); [| |done]; intros c Hc.
    + apply commit_blk_data. by eapply owned_data.
    + by apply (nw_used _ _ Hnode).
  - intros c Hc. apply commit_owns in Hc. auto.
Qed.

Lemma commit_other j : j <> i -> file_at s' j = file_at s j.
Proof.
  apply (update_file_other s s' i); [done|apply commit_table|apply commit_frame].
Qed.

Lemma commit_owns_other j c : j <> i -> owns s' j c <-> owns s j c.
Proof.
  apply (update_owns_other s s' i); [done|apply commit_table|apply commit_frame].
Qed.

Lemma commit_spec :
  fs_wf s' /\ file_at s' i = Some (file_of b n') /\
  (forall j, j <> i -> file_at s' j = file_at s j) /\
  (forall c, owns s' i c <-> owned b n' c) /\
  (forall j c, j <> i -> owns s' j c <-> owns s j c).
Proof.
  split; [apply commit_wf|]. split; [apply commit_file|].
  split; [apply commit_other|]. split; [apply commit_owns|apply commit_owns_other].
Qed.
End commit.
