(* ===== verification/BlockTheorems.v ===== *)
(** What the block and inode layers do, on every input of a well-formed state:
    the closed theorems of Disk.v, BlockManager.v and Inode.v. *)
From S2P Require Import Prelude Monad Disk BlockManager Inode InodeManager FsInv.
From Stdlib Require Import Ascii ZArith Lia.
From stdpp Require Import base gmap numbers list.
#[local] Open Scope Z_scope.

(** C14 [alloc_block] always returns; the result is the least free data block,
    which is marked and was not before, or 0 when no data block is free.  Nothing
    else is marked or unmarked, no contents change, and the count of free blocks
    drops by one exactly when a block was found. *)
Theorem alloc_block_correct b :
  bm_wf b ->
  exists r b', alloc_block b = Ok (r, b') /\ bm_wf b' /\
    (forall c, blk b' c = blk b c) /\
    ((data_block r /\ used b r = false /\
      (forall c, FIRST_DATA <= c < r -> used b c = true) /\
      (forall c, used b' c = if decide (c = r) then true else used b c) /\
      nfree b = S (nfree b')) \/
     (r = 0 /\ nfree b = 0%nat /\ forall c, used b' c = used b c)).
Proof.
  intros Hb. apply wp_run. apply wp_alloc_block; [done|..].
  - intros c b' Hc Hu Hbelow E. split; [|split].
    + rewrite E. apply set_bit_wf; [done|by right].
    + intros x. by rewrite (bm_equiv_blk _ _ x E).
    + left. split; [done|]. split; [done|]. split; [done|]. split.
      * intros x. by rewrite (bm_equiv_used _ _ x E), used_set_bit.
      * rewrite (nfree_used_ext (set_bit c 1 b) b'); [by apply nfree_alloc|].
        intros x. apply (bm_equiv_used _ _ x E).
  - intros Hn b' E. split; [by rewrite E|]. split; [intros x; apply (bm_equiv_blk _ _ x E)|].
    right. split; [done|]. split; [done|]. intros x. apply (bm_equiv_used _ _ x E).
Qed.

Lemma alloc_block_correct_witness :
  exists r b', alloc_block block_manager_new = Ok (r, b') /\ bm_wf b'.
Proof.
  destruct (alloc_block_correct block_manager_new) as (r & b' & H & Hw & _);
    [apply block_manager_new_wf|]. by exists r, b'.
Defined.

(** C20 [free_block] of a marked block zeroes it and clears its mark and nothing
    else; of a number outside the disk it does nothing; of any other block it
    fails the assertion (after zeroing the block). *)
Theorem free_block_correct b id :
  bm_wf b ->
  if BLOCK_NUM <=? id then free_block id b = Ok (tt, b)
  else if used b id
  then exists b', free_block id b = Ok (tt, b') /\ bm_wf b' /\
         (forall c, used b' c = if decide (c = id) then false else used b c) /\
         (forall c, blk b' c = if decide (c = id) then zero_block else blk b c) /\
         nfree b' = S (nfree b)
  else free_block id b = Assert_failed.
Proof.
  intros Hb. destruct (Z.leb_spec BLOCK_NUM id) as [Hge|Hlt].
  { unfold free_block. by rewrite (proj2 (Z.leb_le _ _)) by lia. }
  destruct (used b id) eqn:Hu.
  - pose proof (used_data _ _ Hb Hu) as Hd.
    assert (wp (free_block id) (fun _ b' => b' ≡ set_bit id 0 (set_blk id zero_block b)) b) as H
      by (by apply wp_free_block).
    apply wp_run in H as ([] & b' & Hrun & E). exists b'. split; [done|]. split.
    { rewrite E. apply set_bit_wf; [|by left]. apply set_blk_wf; [done|apply length_zero_block]. }
    split; [|split].
    + intros c. by rewrite (bm_equiv_used _ _ c E), used_set_bit.
    + intros c. by rewrite (bm_equiv_blk _ _ c E), blk_set_bit, blk_set_blk.
    + rewrite (nfree_used_ext (set_bit id 0 b) b'); [by apply nfree_free|].
      intros c. by rewrite (bm_equiv_used _ _ c E), !used_set_bit.
  - unfold free_block. rewrite (proj2 (Z.leb_gt _ _)) by done.
    assert (wp (bm_write_block id zero_block) (fun _ b' => b' = set_blk id zero_block b) b) as H
      by (by apply wp_bm_write; [|apply length_zero_block| |]).
    apply wp_run in H as ([] & b1 & Hrun & ->). rewrite (bind_Ok _ _ _ _ _ Hrun).
    assert (wp (bitmap_get id) (fun v _ => v = bit b id) (set_blk id zero_block b)) as H
      by (by apply wp_bitmap_get).
    apply wp_run in H as (v & b2 & Hget & ->). rewrite (bind_Ok _ _ _ _ _ Hget).
    change (bit b id =? 1) with (used b id). by rewrite Hu.
Qed.

Lemma free_block_correct_witness : free_block 2000 block_manager_new = Assert_failed.
Proof. exact (free_block_correct block_manager_new 2000 block_manager_new_wf). Defined.

(** A block that has been written reads back as written, other blocks are
    unchanged, and the bitmap is not involved. *)
Theorem block_write_read b id buf buf0 id' :
  bm_wf b -> length buf = Z.to_nat BLOCK_SIZE -> length buf0 = Z.to_nat BLOCK_SIZE ->
  id < BLOCK_NUM -> id' < BLOCK_NUM ->
  exists b', bm_write_block id buf b = Ok (tt, b') /\ bm_wf b' /\
    (forall c, used b' c = used b c) /\
    bm_read_block id' buf0 b' = Ok (if decide (id' = id) then buf else blk b id', b').
Proof.
  intros Hb Hbuf Hbuf0 Hid Hid'. exists (set_blk id buf b).
  pose proof (set_blk_wf id buf b Hb Hbuf) as Hwf.
  assert (wp (bm_write_block id buf) (fun _ b' => b' = set_blk id buf b) b) as H
    by (by apply wp_bm_write).
  apply wp_run in H as ([] & b1 & Hrun & ->). split; [done|]. split; [done|]. split; [done|].
  assert (wp (bm_read_block id' buf0)
    (fun r b' => r = blk (set_blk id buf b) id' /\ b' = set_blk id buf b) (set_blk id buf b)) as H
    by (by apply wp_bm_read).
  apply wp_run in H as (r & b2 & Hread & -> & ->). by rewrite Hread, blk_set_blk.
Qed.

(** An inode stored in the table is read back field by field, whatever the
    table block and the uninitialised buffer held, and no other number's inode
    changes. *)
Theorem inode_table_roundtrip `{E : Env} s i n j :
  bm_wf (bm s) -> 0 <= i <= INODE_NUM -> 0 <= j -> inode_ok n -> i_type n <> 0 ->
  exists s', put_inode i (Some n) s = Ok (tt, s') /\
    get_inode j s' = Ok (if decide (j = i) then Some n else node_at s j, s').
Proof.
  intros Hb Hi Hj Hn Ht.
  assert (wp (put_inode i (Some n)) (fun _ s' => exists tbl, length tbl = Z.to_nat BLOCK_SIZE /\
    inode_of_bytes tbl = n /\ bm s' = set_blk (i + 11) tbl (bm s)) s) as H.
  { apply wp_put_inode; [done|done|done|]. intros tbl Hlen Htbl. by exists tbl. }
  apply wp_run in H as ([] & s' & Hrun & tbl & Hlen & Htbl & Hbm). exists s'. split; [done|].
  assert (wp (get_inode j) (fun o s2 => o = node_at s' j /\ s2 = s') s') as H.
  { apply wp_get_inode; [rewrite Hbm; by apply set_blk_wf|done|done]. }
  apply wp_run in H as (o & s2 & Hget & -> & ->). rewrite Hget. do 2 f_equal.
  case_decide as Hji.
  - subst j. apply node_at_Some. split; [done|]. split; [|done].
    unfold table_inode. by rewrite Hbm, blk_set_blk, decide_True.
  - apply node_at_ext. intros _. by rewrite Hbm, blk_set_blk, decide_False by lia.
Qed.
