(* ===== verification/WriteFile.v ===== *)
(** [inode_manager::write_file]: the proofs.

    The method fills slots 0 .. [nb size]-1 of the inode in order (first the
    direct blocks, then the words of the indirect block), reusing a block that is
    already there and allocating one that is not; then it frees the slots behind
    the new end.  [fill] is the invariant of the first phase and [shrink] of the
    second; both speak of slots only, so that the direct and the indirect loop of
    each phase share one step lemma. *)
From S2P Require Import Prelude Monad Disk BlockManager Inode InodeManager FsInv.
From Stdlib Require Import Ascii ZArith Lia.
From stdpp Require Import base gmap numbers list.
#[local] Open Scope Z_scope.

Definition upd (k x : Z) (sl : Z -> Z) (j : Z) : Z := if j =? k then x else sl j.

(** Blocks a write must allocate: the empty slots among [k .. nb size - 1], and
    the indirect block when it is needed and absent. *)
Definition empty_slots (sl0 : Z -> Z) (k last : Z) : nat :=
  length (filter (fun j => sl0 j = 0) (zrange k (Z.to_nat (last - k)))).
Definition need_ind (size X : Z) : nat :=
  if (X =? 0) && (100 <? nb size) then 1%nat else 0%nat.

Lemma owned_by_ext sl sl' X c :
  (forall j, 0 <= j < 228 -> sl' j = sl j) -> owned_by sl' X c <-> owned_by sl X c.
Proof.
  intros H. unfold owned_by. split; intros [Hc [|(j & Hj & E)]]; split; auto; right;
    exists j; (split; [done|]); [by rewrite <- H|by rewrite H].
Qed.

Lemma upd_eq k x sl : upd k x sl k = x.
Proof. unfold upd. by rewrite Z.eqb_refl. Qed.
Lemma upd_ne k x sl j : j <> k -> upd k x sl j = sl j.
Proof. unfold upd. intros H. by rewrite (proj2 (Z.eqb_neq _ _)). Qed.

(** The blocks after replacing slot [k] by a block [x]. *)
Lemma owned_by_upd k x sl X c :
  0 <= k < 228 -> x <> 0 ->
  owned_by (upd k x sl) X c -> c = x \/ owned_by sl X c.
Proof.
  intros Hk Hx [Hc [->|(j & Hj & E)]]; [right; split; auto|].
  destruct (decide (j = k)) as [->|].
  - left. by rewrite upd_eq in E.
  - right. rewrite upd_ne in E by done. split; [done|right; eauto].
Qed.

Lemma owned_by_upd_2 k x sl X c :
  0 <= k < 228 -> x <> 0 -> sl k = 0 \/ sl k = x ->
  c = x \/ owned_by sl X c -> owned_by (upd k x sl) X c.
Proof.
  intros Hk Hx Hslk [->|[Hc [->|(j & Hj & E)]]].
  - split; [done|right]. exists k. by rewrite upd_eq.
  - split; [done|by left].
  - split; [done|right]. destruct (decide (j = k)) as [->|].
    + exists k. rewrite upd_eq. destruct Hslk; [congruence|]. split; [done|congruence].
    + exists j. by rewrite upd_ne.
Qed.

Lemma empty_slots_step sl0 k last :
  k < last ->
  empty_slots sl0 k last =
    ((if decide (sl0 k = 0)%Z then 1 else 0) + empty_slots sl0 (k + 1)%Z last)%nat.
Proof.
  intros H. unfold empty_slots.
  replace (Z.to_nat (last - k)) with (S (Z.to_nat (last - (k + 1)))) by lia.
  simpl zrange. rewrite filter_cons. by case_decide.
Qed.

Section fill.
Context (b0 : block_manager) (sl0 : Z -> Z) (X0 : Z) (buf : ptr) (size : Z) (slack : nat).

Record fill (k : Z) (sl : Z -> Z) (X : Z) (b : block_manager) : Prop := {
  fi_wf : bm_wf b;
  fi_ge : forall j, k <= j < 228 -> sl j = sl0 j;
  fi_lt : forall j, 0 <= j < k -> sl j <> 0;
  fi_used : forall c, owned_by sl X c -> used b c = true;
  fi_inj : forall j1 j2, 0 <= j1 < 228 -> 0 <= j2 < 228 ->
             sl j1 <> 0 -> sl j1 = sl j2 -> j1 = j2;
  fi_ne : forall j, 0 <= j < 228 -> sl j <> 0 -> sl j <> X;
  fi_new : forall c, owned_by sl X c -> owned_by sl0 X0 c \/ used b0 c = false;
  fi_old : forall c, owned_by sl0 X0 c -> owned_by sl X c;
  fi_keep : forall c, used b0 c = true -> used b c = true;
  fi_only : forall c, used b c = true -> used b0 c = true \/ owned_by sl X c;
  fi_frame : forall c, (forall j, 0 <= j < k -> sl j <> c) -> blk b c = blk b0 c;
  fi_data : forall p, 0 <= p < 512 * k -> p < size \/ p / 512 < 100 ->
              nth (Z.to_nat (p mod 512)) (blk b (sl (p / 512))) NUL = buf p;
  fi_room : (empty_slots sl0 k (nb size) + need_ind size X + slack <= nfree b)%nat;
  fi_same : forall j, 0 <= j < 228 -> sl0 j <> 0 -> sl j = sl0 j
}.

Lemma fill_ext k sl sl' X b :
  0 <= k <= 228 -> (forall j, 0 <= j < 228 -> sl' j = sl j) -> fill k sl X b -> fill k sl' X b.
Proof.
  intros Hk H []. assert (forall c, owned_by sl' X c <-> owned_by sl X c) as Ho
    by (intros; by apply owned_by_ext).
  split; try done.
  - intros j Hj. rewrite H by lia. auto.
  - intros j Hj. rewrite H by lia. auto.
  - intros c Hc. by apply fi_used0, Ho.
  - intros j1 j2 H1 H2. rewrite !H by done. auto.
  - intros j Hj. rewrite H by done. auto.
  - intros c Hc. by apply fi_new0, Ho.
  - intros c Hc. by apply Ho, fi_old0.
  - intros c Hc. rewrite Ho. auto.
  - intros c Hc. apply fi_frame0. intros j Hj. rewrite <- H by lia. auto.
  - intros p Hp Hs. rewrite H; [auto|]. dlia.
  - intros j Hj Hn. rewrite H by done. auto.
Qed.

Lemma fill_proper k sl X b b' : b' ≡ b -> fill k sl X b -> fill k sl X b'.
Proof.
  intros E []. split; try done.
  - by rewrite E.
  - intros c Hc. rewrite (bm_equiv_used _ _ _ E). auto.
  - intros c Hc. rewrite (bm_equiv_used _ _ _ E). auto.
  - intros c Hc. rewrite (bm_equiv_used _ _ _ E) in Hc. auto.
  - intros c Hc. rewrite (bm_equiv_blk _ _ _ E). auto.
  - intros p Hp Hs. rewrite (bm_equiv_blk _ _ _ E). auto.
  - by rewrite E.
Qed.

(** The block [x] for slot [k]: the one that is there, or a fresh one that gets marked. *)
Definition obtained (b : block_manager) (c x : Z) (b1 : block_manager) : Prop :=
  (x = c /\ used b x = true /\ b1 ≡ b) \/
  (used b c = false /\ data_block x /\ used b x = false /\ b1 ≡ set_bit x 1 b).

Lemma obtained_ok b c x b1 : bm_wf b -> obtained b c x b1 -> data_block x /\ bm_wf b1.
Proof.
  intros Hwf [(-> & Hu & E1)|(_ & Hd & Hu & E1)].
  - split; [by apply (used_data b)|by rewrite E1].
  - split; [done|]. rewrite E1. apply set_bit_wf; auto.
Qed.

(** What holds in [b1], when slot [k] has got its block and before that is written. *)
Record placed (k x : Z) (sl : Z -> Z) (X : Z) (b b1 : block_manager) : Prop := {
  pl_wf : bm_wf b1;
  pl_nz : x <> 0;
  pl_blk : forall c, blk b1 c = blk b c;
  pl_used : forall c, owned_by (upd k x sl) X c -> used b1 c = true;
  pl_inj : forall j1 j2, 0 <= j1 < 228 -> 0 <= j2 < 228 -> upd k x sl j1 <> 0 ->
             upd k x sl j1 = upd k x sl j2 -> j1 = j2;
  pl_ne : forall j, 0 <= j < 228 -> upd k x sl j <> 0 -> upd k x sl j <> X;
  pl_new : forall c, owned_by (upd k x sl) X c -> owned_by sl0 X0 c \/ used b0 c = false;
  pl_old : forall c, owned_by sl0 X0 c -> owned_by (upd k x sl) X c;
  pl_keep : forall c, used b0 c = true -> used b1 c = true;
  pl_only : forall c, used b1 c = true -> used b0 c = true \/ owned_by (upd k x sl) X c;
  pl_room : (empty_slots sl0 (k + 1) (nb size) + need_ind size X + slack <= nfree b1)%nat
}.

Lemma fill_alloc k x sl X b :
  0 <= k < 228 -> k < nb size -> fill k sl X b ->
  used b (sl k) = false -> data_block x -> used b x = false ->
  placed k x sl X b (set_bit x 1 b).
Proof.
  set (b1 := set_bit x 1 b). set (sl1 := upd k x sl).
  intros Hk Hnb [] Hu Hx Hux.
  assert (x <> 0) as Hx0 by (unfold data_block, FIRST_DATA in Hx; lia).
  assert (sl k = 0) as Hslk.
  { destruct (decide (sl k = 0)) as [|Hn]; [done|].
    rewrite fi_used0 in Hu; [done|]. split; [done|right; eauto]. }
  assert (forall c, owned_by sl X c -> c <> x) as Hfresh.
  { intros c Hc ->. rewrite (fi_used0 _ Hc) in Hux. done. }
  assert (forall c, owned_by sl1 X c <-> c = x \/ owned_by sl X c) as Ho.
  { intros c. split; [by apply owned_by_upd|apply owned_by_upd_2; auto]. }
  assert (forall j, 0 <= j < 228 -> j <> k -> sl1 j = sl j) as Hne
    by (intros; by apply upd_ne).
  assert (sl1 k = x) as Heq by apply upd_eq.
  assert (forall j, 0 <= j < 228 -> sl j <> 0 -> sl j <> x) as Hslx.
  { intros j Hj Hn. apply Hfresh. split; [done|right; eauto]. }
  split; fold sl1.
  - apply set_bit_wf; auto.
  - done.
  - done.
  - intros c Hc. unfold b1. rewrite used_set_bit. case_decide; [done|].
    apply Ho in Hc as [|Hc]; [done|auto].
  - intros j1 j2 H1 H2.
    destruct (decide (j1 = k)) as [->|N1], (decide (j2 = k)) as [->|N2]; [done|..].
    + rewrite Heq, Hne by done. intros _ E. destruct (Hslx j2); congruence.
    + rewrite Heq, Hne by done. intros Hn E. by destruct (Hslx j1).
    + rewrite !Hne by done. auto.
  - intros j Hj. destruct (decide (j = k)) as [->|N]; [|rewrite Hne by done; auto].
    rewrite Heq. intros _ ->. apply (Hfresh X); [|done]. split; [done|by left].
  - intros c [->|Hc]%Ho; [|auto]. right.
    destruct (used b0 x) eqn:Hb; [|done]. rewrite (fi_keep0 _ Hb) in Hux. done.
  - intros c Hc. apply Ho. auto.
  - intros c Hc. unfold b1. rewrite used_set_bit. case_decide; auto.
  - intros c. unfold b1. rewrite used_set_bit, Ho. case_decide; [auto|].
    intros Hc. destruct (fi_only0 _ Hc); auto.
  - rewrite empty_slots_step, decide_True in fi_room0 by (rewrite <- ?fi_ge0 by lia; auto).
    pose proof (nfree_alloc _ _ Hx Hux) as Hn. fold b1 in Hn. lia.
Qed.

Lemma fill_keep k sl X b :
  0 <= k < 228 -> k < nb size -> fill k sl X b -> used b (sl k) = true -> placed k (sl k) sl X b b.
Proof.
  intros Hk Hnb [] Hu. assert (sl k <> 0) as Hn.
  { pose proof (used_data _ _ fi_wf0 Hu) as Hd. unfold data_block, FIRST_DATA in Hd. lia. }
  assert (forall j, upd k (sl k) sl j = sl j) as Hid.
  { intros j. unfold upd. destruct (Z.eqb_spec j k); congruence. }
  assert (forall c, owned_by (upd k (sl k) sl) X c <-> owned_by sl X c) as Ho
    by (intros; apply owned_by_ext; auto).
  split; repeat setoid_rewrite Ho; repeat setoid_rewrite Hid; try done.
  rewrite empty_slots_step in fi_room0 by done. lia.
Qed.

Lemma fill_placed k x sl X b b1 :
  0 <= k < 228 -> k < nb size -> fill k sl X b -> obtained b (sl k) x b1 ->
  exists b1', b1 ≡ b1' /\ placed k x sl X b b1'.
Proof.
  intros Hk Hnb Hf [(-> & Hu & E)|(Hu & Hx & Hux & E)].
  - exists b. split; [done|]. by apply fill_keep.
  - exists (set_bit x 1 b). split; [done|]. by apply fill_alloc.
Qed.

(** One iteration: slot [k] gets block [x], and [x] the bytes of the chunk. *)
Lemma fill_step k x sl X b b1 b2 dat :
  fill k sl X b -> 0 <= k < 228 -> k < nb size -> obtained b (sl k) x b1 ->
  b2 ≡ set_blk x dat b1 ->
  length dat = Z.to_nat BLOCK_SIZE ->
  (forall q, 0 <= q < 512 -> 512 * k + q < size \/ k < 100 ->
     nth (Z.to_nat q) dat NUL = buf (512 * k + q)) ->
  fill (k + 1) (upd k x sl) X b2.
Proof.
  intros Hf Hk Hnb Hens E2 Hdat Hbuf.
  assert (sl k <> 0 -> sl k = x) as Hkeep.
  { intros Hn. destruct Hens as [(-> & _)|(Hu & _)]; [done|].
    rewrite (fi_used _ _ _ _ Hf) in Hu; [done|]. split; [done|right; eauto]. }
  destruct (fill_placed k x sl X b b1 Hk Hnb Hf Hens) as (b1' & E1 & []).
  rewrite E1 in E2. eapply fill_proper; [exact E2|]. clear E1 E2 Hens b1 b2.
  destruct Hf. split; try done; unfold upd in *.
  - by apply set_blk_wf.
  - intros j Hj. rewrite (proj2 (Z.eqb_neq _ _)) by lia. apply fi_ge0. lia.
  - intros j Hj. destruct (Z.eqb_spec j k); [done|]. apply fi_lt0. lia.
  - intros c Hc. rewrite blk_set_blk. destruct (decide (c = x)) as [->|Hcx].
    { specialize (Hc k ltac:(lia)). by rewrite Z.eqb_refl in Hc. }
    rewrite pl_blk0. apply fi_frame0. intros j Hj Hslj. apply (Hc j); [lia|].
    by rewrite (proj2 (Z.eqb_neq _ _)) by lia.
  - intros p Hp Hs. rewrite blk_set_blk. destruct (Z.eqb_spec (p / 512) k) as [Hpk|Hpk].
    + rewrite decide_True by done. rewrite (Hbuf (p mod 512)) by dlia. f_equal. dlia.
    + rewrite pl_blk0, decide_False; [apply fi_data0; dlia|].
      intros Hc. assert (0 <= p / 512 < k) by dlia.
      apply Hpk. apply pl_inj0; rewrite ?Z.eqb_refl, ?(proj2 (Z.eqb_neq _ _)); auto; lia.
  - intros j Hj Hn. destruct (Z.eqb_spec j k) as [->|]; [|auto].
    pose proof (fi_same0 k Hj Hn) as E. rewrite <- Hkeep; congruence.
Qed.

(** Allocating the indirect block. *)
Lemma fill_alloc_ind k x sl X b b1 :
  fill k sl X b -> X = 0 -> 100 < nb size -> data_block x -> used b x = false ->
  b1 ≡ set_bit x 1 b -> fill k sl x b1.
Proof.
  intros Hf -> Hnb Hx Hux E. eapply fill_proper; [exact E|]. clear E b1. destruct Hf.
  assert (x <> 0) as Hx0 by (unfold data_block, FIRST_DATA in Hx; lia).
  assert (forall c, owned_by sl 0 c -> c <> x) as Hfresh.
  { intros c Hc ->. rewrite (fi_used0 _ Hc) in Hux. done. }
  assert (forall c, owned_by sl x c <-> c = x \/ owned_by sl 0 c) as Ho.
  { intros c. unfold owned_by. split.
    - intros [Hc [->|H]]; auto.
    - intros [->|[Hc [->|H]]]; split; auto; done. }
  split; try done.
  - apply set_bit_wf; auto.
  - intros c Hc. rewrite used_set_bit. case_decide; [done|].
    apply Ho in Hc as [|Hc]; [done|auto].
  - intros j Hj Hn. apply Hfresh. split; [done|right; eauto].
  - intros c [->|Hc]%Ho; [|auto]. right.
    destruct (used b0 x) eqn:Hb; [|done]. rewrite (fi_keep0 _ Hb) in Hux. done.
  - intros c Hc. apply Ho. auto.
  - intros c Hc. rewrite used_set_bit. case_decide; auto.
  - intros c. rewrite used_set_bit, Ho. case_decide; [auto|].
    intros Hc. destruct (fi_only0 _ Hc); auto.
  - unfold need_ind in *. rewrite (proj2 (Z.eqb_neq _ _)) by done.
    rewrite (proj2 (Z.ltb_lt 100 _)) in fi_room0 by done. simpl in *.
    pose proof (nfree_alloc _ _ Hx Hux). lia.
Qed.
End fill.

(** ** The loops *)
Lemma length_load p off n : length (load p off n) = Z.to_nat n.
Proof. unfold load. by rewrite length_fmap, length_zrange. Qed.

Lemma nth_load p off n q : 0 <= q < n -> nth (Z.to_nat q) (load p off n) NUL = p (off + q).
Proof. intros Hq. unfold load. rewrite nth_fmap_zrange by lia. f_equal. lia. Qed.

Definition set_blocks (n : inode) (bl : list Z) : inode :=
  mk_inode (i_type n) (i_size n) (i_atime n) (i_mtime n) (i_ctime n) bl.

Lemma vslot_insert bl ib i x j :
  length bl = 101%nat -> 0 <= i < 100 -> 0 <= j ->
  vslot (<[Z.to_nat i := x]> bl) ib j = upd i x (vslot bl ib) j.
Proof.
  intros Hl Hi Hj. unfold vslot, upd. destruct (Z.ltb_spec j 100), (Z.eqb_spec j i); subst; try lia.
  - rewrite list_lookup_insert_eq by lia. done.
  - rewrite list_lookup_insert_ne by lia. done.
Qed.

Lemma vslot_wr32 bl ib i x j :
  (Z.to_nat (4 * i + 4) <= length ib)%nat -> 0 <= i -> 0 <= x < 2 ^ 32 ->
  vslot bl (wr32 ib (Z.to_nat i) x) j = upd (100 + i) x (vslot bl ib) j.
Proof.
  intros Hl Hi Hx. unfold vslot, upd. destruct (Z.ltb_spec j 100), (Z.eqb_spec j (100 + i)); subst; try lia.
  - rewrite rd32_wr32, decide_True by lia. by apply u32_id.
  - rewrite rd32_wr32, decide_False by lia. done.
Qed.

Section write.
Context `{E : Env}.

(** [if(!is_valid_block(b)) { x = alloc_block(); ... }] *)
Lemma wp_ensure {A B} b (m_keep : M inode_manager A) (m_new : Z -> M inode_manager A)
    (rest : A -> M inode_manager B) Q s :
  bm_wf (bm s) -> (used (bm s) b = false -> (0 < nfree (bm s))%nat) ->
  (forall b1, b1 ≡ bm s -> used (bm s) b = true ->
     wp m_keep (fun a s' => wp (rest a) Q s') (upd_bm s b1)) ->
  (forall x b1, used (bm s) b = false -> data_block x -> used (bm s) x = false ->
     b1 ≡ set_bit x 1 (bm s) ->
     wp (m_new x) (fun a s' => wp (rest a) Q s') (upd_bm s b1)) ->
  wp (valid ← with_bm (is_valid_block b);
      a ← (if (valid : bool) then m_keep
           else (x ← with_bm alloc_block; m_new x));
      rest a) Q s.
Proof.
  intros Hwf Hroom Hkeep Hnew. wp_step. apply wp_with_bm.
  apply wp_is_valid_block; [done|]. intros b1 E1. wp_step.
  destruct (used (bm s) b) eqn:Hu; [by apply Hkeep|].
  wp_step. apply wp_with_bm. cbn [upd_bm bm last_alloced epoch].
  apply wp_alloc_block; [by rewrite E1| |].
  - intros x b2 Hx Hux _ E2. rewrite (bm_equiv_used _ _ _ E1) in Hux.
    change (wp (m_new x) (fun a s' => wp (rest a) Q s') (upd_bm s b2)).
    apply Hnew; [done..|]. by rewrite E2, E1.
  - rewrite E1. specialize (Hroom eq_refl). lia.
Qed.

Section tail.
Context (buf : ptr) (size : Z).

(** What one iteration of the direct loop does after it has its block. *)
Definition direct_tail (node : inode) (pos i : Z) (arr : bytes)
    : M inode_manager (ctl (inode * Z * Z * bytes)) :=
  arr ← (if size <? pos + BLOCK_SIZE then
           arr ← memcpy_at arr 0 (load buf pos (size - pos)) (size - pos);
           b ← get_slot node i;
           _ ← with_bm (bm_write_block b arr);
           mret arr
         else mret arr);
  b ← get_slot node i;
  _ ← with_bm (bm_write_block b (load buf pos BLOCK_SIZE));
  mret (Next (node, pos + BLOCK_SIZE, i + 1, arr)).

Lemma wp_direct_tail n bl x i arr Q s :
  length bl = 101%nat -> bl !! Z.to_nat i = Some x -> 0 <= i < 100 -> 512 * i < size ->
  x < BLOCK_NUM -> bm_wf (bm s) -> length arr = Z.to_nat BLOCK_SIZE ->
  (forall arr' b', length arr' = Z.to_nat BLOCK_SIZE ->
     b' ≡ set_blk x (load buf (512 * i) BLOCK_SIZE) (bm s) ->
     Q (Next (set_blocks n bl, 512 * i + BLOCK_SIZE, i + 1, arr')) (upd_bm s b')) ->
  wp (direct_tail (set_blocks n bl) (512 * i) i arr) Q s.
Proof.
  intros Hlen Hx Hi Hlt Hd Hwf Harr HQ. unfold direct_tail.
  assert (forall (P : Z -> inode_manager -> Prop) s', P x s' ->
            wp (get_slot (set_blocks n bl) i) P s') as Hget.
  { intros P s' HP. apply wp_get_slot; [unfold NDIRECT; lia|done|].
    cbn [set_blocks i_blocks]. by rewrite Hx. }
  wp_step. apply wp_if; intros Hc.
  - wp_step. assert (size - 512 * i <= 512) by (unfold BLOCK_SIZE in Hc; lia).
    apply wp_memcpy_at; [lia|lia|rewrite Harr; unfold BLOCK_SIZE; lia|rewrite length_load; lia|].
    match goal with |- context [take (Z.to_nat 0) arr ++ ?l] => set (arr1 := l) end.
    assert (length arr1 = Z.to_nat BLOCK_SIZE) as Harr1.
    { unfold arr1. rewrite length_app, length_take, length_load, length_drop, Harr.
      unfold BLOCK_SIZE. lia. }
    wp_step. apply Hget. wp_step. apply wp_with_bm.
    apply wp_bm_write; [done|done|done|]. wp_step. wp_step. apply Hget.
    wp_step. apply wp_with_bm. apply wp_bm_write; [by apply set_blk_wf|by rewrite length_load|done|].
    wp_step. apply HQ; [done|]. apply set_blk_twice.
  - wp_step. wp_step. apply Hget. wp_step. apply wp_with_bm.
    apply wp_bm_write; [done|by rewrite length_load|done|]. wp_step. by apply HQ.
Qed.

End tail.

Section phases.
Context (b0 : block_manager) (n0 : inode) (buf : ptr) (size last0 : Z) (e0 slack : nat).
Let sl0 : Z -> Z := slot b0 n0.
Let X0 : Z := ind n0.
Let ib0 : bytes := ind_bytes b0 n0.
Hypothesis Hsize : 0 <= size <= MAX_SIZE.
(** What the phases keep besides the blocks: the allocation cursor, and a
    clock that only advances. *)
Definition meta (s : inode_manager) : Prop := last_alloced s = last0 /\ (e0 <= epoch s)%nat.
Lemma meta_tick s b :
  meta s -> meta (mk_im b (last_alloced s) (S (epoch s))).
Proof. intros [Hl He]. split; [done|]. simpl. lia. Qed.
Local Abbreviation fill := (fill b0 sl0 X0 buf size slack).
Local Abbreviation direct_tail := (direct_tail buf size).

(** The room of an iteration: an empty slot means a free block. *)
Lemma fill_room_pos k sl X b :
  fill k sl X b -> 0 <= k < 228 -> k < nb size -> used b (sl k) = false ->
  (0 < nfree b)%nat.
Proof.
  intros Hf Hk Hnb Hu. destruct Hf.
  assert (sl k = 0) as Hslk.
  { destruct (decide (sl k = 0)) as [|Hn]; [done|].
    rewrite fi_used0 in Hu; [done|]. split; [done|right; eauto]. }
  rewrite empty_slots_step, decide_True in fi_room0 by (rewrite <- ?fi_ge0 by lia; auto).
  lia.
Qed.

(** Filling writes data blocks only: the indirect block is not touched. *)
Lemma fill_ind_blk k sl b X :
  fill k sl X b -> 0 <= k <= 228 -> blk b X = blk b0 X.
Proof.
  intros [] Hk. apply fi_frame0. intros j Hj. apply fi_ne0; [lia|]. by apply fi_lt0.
Qed.

Definition direct_inv (l : inode * Z * Z * bytes) (s : inode_manager) : Prop :=
  let '(node, pos, i, arr) := l in
  pos = 512 * i /\ 0 <= i <= 100 /\ i <= nb size /\ length arr = Z.to_nat BLOCK_SIZE /\
  meta s /\
  exists bl, node = set_blocks n0 bl /\ length bl = 101%nat /\ bl !! 100%nat = Some X0 /\
    fill i (vslot bl ib0) X0 (bm s).

(** Both ways of obtaining the block of slot [i] re-establish the invariant. *)
Lemma wp_direct_iter i bl arr x b1 s (Q : ctl (inode * Z * Z * bytes) -> inode_manager -> Prop) :
  direct_inv (set_blocks n0 bl, 512 * i, i, arr) s ->
  0 <= i < 100 -> i < nb size -> 512 * i < size ->
  obtained (bm s) (vslot bl ib0 i) x b1 ->
  (forall l s', direct_inv l s' -> l.1.2 = i + 1 -> Q (Next l) s') ->
  wp (direct_tail (set_blocks n0 (<[Z.to_nat i := x]> bl)) (512 * i) i arr) Q (upd_bm s b1).
Proof.
  intros (_ & _ & _ & Harr & Hlast & bl' & Ebl & Hlen & Hbl & Hf) Hi Hnb Hlt Hens HQ.
  injection Ebl as <-. pose proof Hf as [Hwf _ _ _ _ _ _ _ _ _ _ _ _ _].
  destruct (obtained_ok _ _ _ _ Hwf Hens) as [[_ Hd] Hwf1].
  apply wp_direct_tail with (x := x); try done.
  - by rewrite length_insert.
  - apply list_lookup_insert_eq. lia.
  - intros arr' b' Harr' E'. apply HQ; [|done].
    split; [unfold BLOCK_SIZE; lia|]. split_and!; try lia; try done.
    eexists. split; [done|]. split; [by rewrite length_insert|].
    split; [rewrite list_lookup_insert_ne by lia; done|].
    eapply fill_ext; [lia|intros j Hj; apply vslot_insert; lia|].
    eapply fill_step; [exact Hf|lia|done|exact Hens|exact E'|by rewrite length_load|].
    intros q Hq _. by apply nth_load.
Qed.

(** One turn of the direct loop, in front of its end. *)
Lemma wp_write_direct_iter l s (Q : ctl (inode * Z * Z * bytes) -> inode_manager -> Prop) :
  direct_inv l s -> l.1.2 < 100 -> 512 * l.1.2 < size ->
  (forall l' s', direct_inv l' s' -> l'.1.2 = l.1.2 + 1 -> Q (Next l') s') ->
  wp (write_direct buf size l) Q s.
Proof.
  destruct l as [[[node pos] i] arr]. cbn [fst snd]. intros Hinv Hi100 Hlt HQ.
  pose proof Hinv as (-> & Hi & Hnb & Harr & Hlast & bl & -> & Hlen & Hbl & Hf).
  assert (i < nb size) as Hin by (unfold nb; dlia).
  unfold write_direct. rewrite !(proj2 (Z.ltb_lt _ _)) by (unfold NDIRECT; lia). cbn [andb].
  wp_step. apply wp_get_slot; [unfold NDIRECT; lia|done|].
  replace (default 0 (i_blocks (set_blocks n0 bl) !! Z.to_nat i)) with (vslot bl ib0 i)
    by (unfold vslot; by rewrite (proj2 (Z.ltb_lt i 100)) by lia).
  apply wp_ensure; [by destruct Hf|..].
  - intros Hu. by apply (fill_room_pos i (vslot bl ib0) X0); [|lia|..].
  - intros b1 E1 Hu. wp_step.
    assert (<[Z.to_nat i := vslot bl ib0 i]> bl = bl) as Hid.
    { apply list_insert_id. unfold vslot. rewrite (proj2 (Z.ltb_lt i 100)) by lia.
      destruct (bl !! Z.to_nat i) eqn:El; [done|]. apply lookup_ge_None in El. lia. }
    refine (eq_ind _ (fun bl' => wp (direct_tail (set_blocks n0 bl') (512 * i) i arr) _ _) _ _ Hid).
    eapply wp_direct_iter; [done|lia|lia|lia|by left|done].
  - intros x b1 Hu Hd Hux E1. wp_step.
    eapply wp_direct_iter; [done|lia|lia|lia|by right|done].
Qed.

(** The direct loop fills the slots below [min 100 (nb size)]. *)
Lemma wp_write_direct Q s l :
  direct_inv l s -> l.1.2 = 0 ->
  (forall node pos i arr s', direct_inv (node, pos, i, arr) s' -> i = Z.min 100 (nb size) ->
     Q (node, pos, i, arr) s') ->
  wp (loop (S (Z.to_nat NDIRECT)) (write_direct buf size) l) Q s.
Proof.
  intros Hinv Hl0 HQ.
  apply wp_loop with (Inv := direct_inv) (variant := fun l => Z.to_nat (100 - l.1.2));
    [|done|rewrite Hl0; unfold NDIRECT; lia].
  clear Hinv s l Hl0. intros [[[node pos] i] arr] s Hinv. pose proof Hinv as (-> & Hi & Hnb & _).
  destruct (decide (512 * i < size /\ i < 100)) as [[Hlt Hi100]|Hend].
  - apply wp_write_direct_iter; [done..|]. cbn [fst snd]. intros l' s' Hl' Hi'. split; [done|lia].
  - unfold write_direct, NDIRECT. replace ((512 * i <? size) && (i <? 100)) with false by lia.
    wp_step. apply HQ; [done|]. pose proof (proj1 (nb_le_iff size i)). lia.
Qed.

(** *** The indirect loop *)
Definition indirect_inv (bl : list Z) (X : Z) (l : bytes * Z * Z * bytes)
    (s : inode_manager) : Prop :=
  let '(ib, pos, i, arr) := l in
  pos = 512 * (100 + i) /\ 0 <= i <= 128 /\ 100 + i <= nb size /\
  length ib = Z.to_nat BLOCK_SIZE /\ length arr = Z.to_nat BLOCK_SIZE /\
  meta s /\ fill (100 + i) (vslot bl ib) X (bm s).

(** What one iteration does after it has its block. *)
Definition indirect_tail (ib : bytes) (pos i : Z) (arr : bytes)
    : M inode_manager (ctl (bytes * Z * Z * bytes)) :=
  if size <? pos + BLOCK_SIZE then
    arr ← memcpy_at arr 0 (load buf pos (size - pos)) (size - pos);
    b ← load32 ib i;
    _ ← with_bm (bm_write_block b arr);
    mret (Stop (ib, pos, i, arr))
  else
    b ← load32 ib i;
    _ ← with_bm (bm_write_block b (load buf pos BLOCK_SIZE));
    mret (Next (ib, pos + BLOCK_SIZE, i + 1, arr)).

Lemma nth_padded arr pos n q :
  0 <= q < n -> nth (Z.to_nat q)
    (take (Z.to_nat 0) arr ++ take (Z.to_nat n) (load buf pos n) ++ drop (Z.to_nat (0 + n)) arr)
    NUL = buf (pos + q).
Proof.
  intros Hq. change (Z.to_nat 0) with 0%nat. cbn [take]. rewrite app_nil_l.
  rewrite take_ge by (rewrite length_load; lia).
  rewrite app_nth1 by (rewrite length_load; lia). by apply nth_load.
Qed.

(** The bytes of the chunk of slot [100 + i] are in [dat]. *)
Definition chunk_of (i : Z) (dat : bytes) : Prop :=
  length dat = Z.to_nat BLOCK_SIZE /\
  forall q, 0 <= q < 512 -> 512 * (100 + i) + q < size ->
    nth (Z.to_nat q) dat NUL = buf (512 * (100 + i) + q).

Lemma wp_indirect_tail ib x i arr s (Q : ctl (bytes * Z * Z * bytes) -> inode_manager -> Prop) :
  length ib = Z.to_nat BLOCK_SIZE -> 0 <= i < 128 -> rd32 ib (Z.to_nat i) = x -> x < BLOCK_NUM ->
  bm_wf (bm s) -> length arr = Z.to_nat BLOCK_SIZE -> 512 * (100 + i) < size ->
  (forall dat b', chunk_of i dat -> b' ≡ set_blk x dat (bm s) ->
     if size <? 512 * (100 + i) + 512
     then Q (Stop (ib, 512 * (100 + i), i, dat)) (upd_bm s b')
     else Q (Next (ib, 512 * (100 + i) + 512, i + 1, arr)) (upd_bm s b')) ->
  wp (indirect_tail ib (512 * (100 + i)) i arr) Q s.
Proof.
  intros Hib Hi Hrd Hx Hwf Harr Hps HQ. unfold indirect_tail.
  assert (4 * i + 4 <= Z.of_nat (length ib)) as Hin by (rewrite Hib; unfold BLOCK_SIZE; lia).
  change BLOCK_SIZE with 512. apply wp_if; intros Hc; rewrite Hc in HQ.
  - wp_step. apply wp_memcpy_at; [lia|lia|rewrite Harr; unfold BLOCK_SIZE; lia|rewrite length_load; lia|].
    wp_step. apply wp_load32; [lia|done|]. rewrite Hrd. wp_step. apply wp_with_bm.
    match goal with |- context [bm_write_block x ?l] => set (dat := l) end.
    assert (length dat = Z.to_nat BLOCK_SIZE) as Hdat.
    { unfold dat. rewrite !length_app, !length_take, length_load, length_drop, Harr.
      unfold BLOCK_SIZE. lia. }
    apply wp_bm_write; [done|done|done|]. wp_step. apply HQ; [|done]. split; [done|].
    intros q Hq Hs. apply nth_padded. lia.
  - wp_step. apply wp_load32; [lia|done|]. rewrite Hrd. wp_step. apply wp_with_bm.
    apply wp_bm_write; [done|by rewrite length_load|done|]. wp_step.
    apply (HQ (load buf (512 * (100 + i)) 512)); [|done]. split; [by rewrite length_load|].
    intros q Hq _. by apply nth_load.
Qed.

Lemma wp_indirect_iter bl X i ib arr x b1 s
    (Q : ctl (bytes * Z * Z * bytes) -> inode_manager -> Prop) :
  indirect_inv bl X (ib, 512 * (100 + i), i, arr) s ->
  i < 128 -> 100 + i < nb size ->
  obtained (bm s) (vslot bl ib (100 + i)) x b1 ->
  (forall l s', indirect_inv bl X l s' -> l.1.2 = i + 1 -> Q (Next l) s') ->
  (forall l s', meta s' -> length l.1.1.1 = Z.to_nat BLOCK_SIZE ->
     fill (nb size) (vslot bl l.1.1.1) X (bm s') -> Q (Stop l) s') ->
  wp (indirect_tail (wr32 ib (Z.to_nat i) x) (512 * (100 + i)) i arr) Q (upd_bm s b1).
Proof.
  intros (_ & Hi & _ & Hib & Harr & Hlast & Hf) Hi2 Hnb Hens Hnext Hstop.
  pose proof Hf as [Hwf _ _ _ _ _ _ _ _ _ _ _ _ _].
  destruct (obtained_ok _ _ _ _ Hwf Hens) as [Hd Hwf1].
  assert (x < BLOCK_NUM /\ 0 <= x < 2 ^ 32) as [Hxd Hx32].
  { destruct Hd as [H1 H2]. split; [done|]. unfold FIRST_DATA in H1.
    change BLOCK_NUM with 32768 in H2. lia. }
  assert (length ib = 512%nat) as Hib' by (rewrite Hib; done).
  assert (length (wr32 ib (Z.to_nat i) x) = Z.to_nat BLOCK_SIZE) as Hlw
    by (rewrite length_wr32; lia).
  apply (wp_indirect_tail _ x); [done|lia| |done|done|done|unfold nb in Hnb; dlia|].
  { rewrite rd32_wr32, decide_True by lia. by apply u32_id. }
  intros dat b' [Hdat Hbuf] E'.
  assert (fill (100 + i + 1) (vslot bl (wr32 ib (Z.to_nat i) x)) X b') as Hstep.
  { eapply fill_ext; [lia| |].
    { intros j Hj. apply vslot_wr32; [lia|lia|done]. }
    eapply fill_step; [exact Hf|lia|done|exact Hens|exact E'|done|]. intros q Hq Hs. apply Hbuf; lia. }
  destruct (Z.ltb_spec size (512 * (100 + i) + 512)).
  - apply Hstop; [done|done|]. by replace (nb size) with (100 + i + 1) by (unfold nb in *; dlia).
  - apply Hnext; [|done]. unfold indirect_inv. replace (100 + (i + 1)) with (100 + i + 1) by lia.
    split_and!; try lia; done.
Qed.

(** The indirect loop fills the slots from 100 on. *)
Lemma wp_write_indirect bl X ib arr s (Q : bytes * Z * Z * bytes -> inode_manager -> Prop) :
  indirect_inv bl X (ib, 512 * 100, 0, arr) s ->
  (forall l s', meta s' -> length l.1.1.1 = Z.to_nat BLOCK_SIZE ->
     fill (nb size) (vslot bl l.1.1.1) X (bm s') -> Q l s') ->
  wp (loop (S (Z.to_nat (BLOCK_SIZE / 4))) (write_indirect buf size) (ib, 512 * 100, 0, arr)) Q s.
Proof.
  intros Hinv HQ.
  apply wp_loop with (Inv := indirect_inv bl X) (variant := fun l => Z.to_nat (128 - l.1.2));
    [|done|change (BLOCK_SIZE / 4) with 128; simpl; lia].
  clear Hinv s ib arr. intros [[[ib pos] i] arr] s Hinv.
  pose proof Hinv as (-> & Hi & Hnb & Hib & Harr & Hlast & Hf).
  pose proof (nb_range size Hsize) as Hnr.
  unfold write_indirect. change (BLOCK_SIZE / 4) with 128. apply wp_if; intros Hc.
  2:{ wp_step. apply HQ; [done|done|]. apply andb_false_iff in Hc.
      pose proof (proj1 (nb_le_iff size (100 + i))). simpl.
      replace (nb size) with (100 + i) by lia. done. }
  assert (512 * (100 + i) < size /\ i < 128) as [Hlt Hi128] by lia.
  assert (100 + i < nb size) as Hin by (unfold nb; dlia).
  assert (length ib = 512%nat) as Hib' by (rewrite Hib; done).
  assert (rd32 ib (Z.to_nat i) = vslot bl ib (100 + i)) as Hrd.
  { unfold vslot. rewrite (proj2 (Z.ltb_ge _ _)) by lia. do 2 f_equal. lia. }
  wp_step. apply wp_load32; [lia|lia|]. rewrite Hrd.
  apply wp_ensure; [by destruct Hf|..].
  - intros Hu. by apply (fill_room_pos (100 + i) (vslot bl ib) X); [|lia|..].
  - intros b1 E1 Hu. wp_step.
    assert (wr32 ib (Z.to_nat i) (vslot bl ib (100 + i)) = ib) as Hid.
    { rewrite <- Hrd. apply wr32_rd32. lia. }
    refine (eq_ind _ (fun ib' => wp (indirect_tail ib' _ i arr) _ _) _ _ Hid).
    eapply wp_indirect_iter; [done|lia|lia|by left| |].
    + intros l s' Hl Hli. split; [done|]. simpl. lia.
    + intros l s'. apply HQ.
  - intros x b1 Hu Hd Hux E1. apply wp_store32; [lia|lia|].
    eapply wp_indirect_iter; [done|lia|lia|by right| |].
    + intros l s' Hl Hli. split; [done|]. simpl. lia.
    + intros l s'. apply HQ.
Qed.

(** *** The state after the blocks are filled *)
Record filled (b1 : block_manager) (n1 : inode) : Prop := {
  fd_meta : n1 = set_blocks n0 (i_blocks n1);
  fd_len : length (i_blocks n1) = 101%nat;
  fd_wf : bm_wf b1;
  fd_ge : forall j, nb size <= j < 228 -> slot b1 n1 j = sl0 j;
  fd_lt : forall j, 0 <= j < nb size -> slot b1 n1 j <> 0;
  fd_used : forall c, owned b1 n1 c -> used b1 c = true;
  fd_inj : forall j1 j2, 0 <= j1 < 228 -> 0 <= j2 < 228 ->
             slot b1 n1 j1 <> 0 -> slot b1 n1 j1 = slot b1 n1 j2 -> j1 = j2;
  fd_ne : forall j, 0 <= j < 228 -> slot b1 n1 j <> 0 -> slot b1 n1 j <> ind n1;
  fd_new : forall c, owned b1 n1 c -> owned b0 n0 c \/ used b0 c = false;
  fd_old : forall c, owned b0 n0 c -> owned b1 n1 c;
  fd_keep : forall c, used b0 c = true -> used b1 c = true;
  fd_only : forall c, used b1 c = true -> used b0 c = true \/ owned b1 n1 c;
  fd_frame : forall c, ~ owned b1 n1 c -> blk b1 c = blk b0 c;
  fd_data : forall p, 0 <= p < 512 * nb size -> p < size \/ p / 512 < 100 ->
              content_at b1 n1 p = buf p;
  fd_ind : ind n1 = 0 <-> X0 = 0 /\ nb size <= 100;
  fd_ind_old : X0 <> 0 -> ind n1 = X0;
  fd_room : (slack <= nfree b1)%nat
}.

Lemma fill_done bl ib X b b1 :
  fill (nb size) (vslot bl ib) X b ->
  length bl = 101%nat -> bl !! 100%nat = Some X ->
  (X = 0 <-> X0 = 0 /\ nb size <= 100) -> (X0 <> 0 -> X = X0) ->
  bm_wf b1 -> (forall c, used b1 c = used b c) ->
  (forall c, (X <> 0 -> c <> X) -> blk b1 c = blk b c) ->
  (if X =? 0 then zero_block else blk b1 X) = ib ->
  filled b1 (set_blocks n0 bl).
Proof.
  intros Hf Hlen HX HXind HXold Hwf Hu Hb Hib.
  assert (ind (set_blocks n0 bl) = X) as HindX
    by (unfold ind; cbn [set_blocks i_blocks]; by rewrite HX).
  assert (forall j, slot b1 (set_blocks n0 bl) j = vslot bl ib j) as Hslot.
  { intros j. unfold slot, ind_bytes. rewrite HindX, Hib. done. }
  assert (forall c, owned b1 (set_blocks n0 bl) c <-> owned_by (vslot bl ib) X c) as Ho.
  { intros c. unfold owned. rewrite HindX. apply owned_by_ext. auto. }
  pose proof (nb_range size Hsize) as Hnb. destruct Hf.
  split; rewrite ?HindX; try done; repeat setoid_rewrite Hslot; try done.
  - intros c Hc. rewrite Hu. by apply fi_used0, Ho.
  - intros c Hc. by apply fi_new0, Ho.
  - intros c Hc. by apply Ho, fi_old0.
  - intros c Hc. rewrite Hu. auto.
  - intros c Hc. rewrite Hu in Hc. rewrite Ho. auto.
  - intros c Hc. rewrite Ho in Hc. rewrite Hb.
    + apply fi_frame0. intros j Hj <-. apply Hc. split; [by apply fi_lt0|right].
      exists j. split; [lia|done].
    + intros HX0 ->. apply Hc. split; [done|by left].
  - intros p Hp Hps. unfold content_at. rewrite Hslot. assert (0 <= p / 512 < nb size) as Hq by dlia.
    rewrite Hb; [by apply fi_data0|].
    intros _. apply fi_ne0; [lia|]. apply fi_lt0. lia.
  - rewrite (nfree_used_ext _ _ Hu). lia.
Qed.

(** The indirect loop and the final write of the indirect block. *)
Lemma wp_indirect_finish bl X ib arr s (Q : inode -> inode_manager -> Prop) :
  100 < nb size -> length bl = 101%nat -> bl !! 100%nat = Some X -> X <> 0 ->
  (X0 <> 0 -> X = X0) -> length arr = Z.to_nat BLOCK_SIZE ->
  length ib = Z.to_nat BLOCK_SIZE -> fill 100 (vslot bl ib) X (bm s) -> meta s ->
  (forall n1 s', filled (bm s') n1 -> meta s' -> Q n1 s') ->
  wp (l ← loop (S (Z.to_nat (BLOCK_SIZE / 4))) (write_indirect buf size)
            (ib, 512 * 100, 0, arr);
      let '(indirect_blocks, _, _, _) := l in
      x ← get_slot (set_blocks n0 bl) NDIRECT;
      _ ← with_bm (bm_write_block x indirect_blocks);
      mret (set_blocks n0 bl)) Q s.
Proof.
  intros Hnb Hlen HX HXne HXold Harr Hib Hf Hlast HQ. wp_step.
  eapply wp_write_indirect.
  { split_and!; try done; lia. }
  intros [[[ib' pos'] i'] arr'] s' Hlast' Hib' Hf'. cbn [fst] in *.
  wp_step. apply wp_get_slot; [unfold NDIRECT; lia|done|].
  change (Z.to_nat NDIRECT) with 100%nat. cbn [set_blocks i_blocks].
  rewrite HX. cbn [from_option id]. wp_step. apply wp_with_bm.
  assert (used (bm s') X = true) as HuX.
  { destruct Hf'. apply fi_used0. split; [done|by left]. }
  assert (bm_wf (bm s')) as Hwf' by (by destruct Hf').
  destruct (used_data _ _ Hwf' HuX) as [_ HXlt].
  apply wp_bm_write; [done|done|done|]. wp_step. apply HQ; [|done].
  eapply fill_done; [exact Hf'|done|done| |done|by apply set_blk_wf|done|..].
  - split; [done|lia].
  - intros c Hc. cbn [upd_bm bm]. rewrite blk_set_blk, decide_False by auto. done.
  - rewrite (proj2 (Z.eqb_neq _ _)) by done. cbn [upd_bm bm].
    by rewrite blk_set_blk, decide_True.
Qed.

(** With a new indirect block the empty slots of the old inode stay empty. *)
Lemma fill_new_ind bl x b b2 :
  fill 100 (vslot bl ib0) X0 b -> X0 = 0 -> 100 < nb size -> length bl = 101%nat ->
  data_block x -> used b x = false -> b2 ≡ set_bit x 1 b ->
  fill 100 (vslot (<[100%nat := x]> bl) zero_block) x b2.
Proof.
  intros Hf HX00 Hnb Hlen Hx Hux E2. eapply fill_ext with (sl := vslot bl ib0); [lia| |].
  - intros j Hj. unfold vslot. destruct (Z.ltb_spec j 100).
    + by rewrite list_lookup_insert_ne by lia.
    + unfold ib0, ind_bytes. fold X0. by rewrite HX00.
  - by eapply fill_alloc_ind.
Qed.

(** The indirect part, entered when the direct slots are full. *)
Lemma wp_write_indirect_part bl arr s (Q : inode -> inode_manager -> Prop) :
  fill 100 (vslot bl ib0) X0 (bm s) -> 100 < nb size ->
  length bl = 101%nat -> bl !! 100%nat = Some X0 -> length arr = Z.to_nat BLOCK_SIZE ->
  meta s -> length ib0 = Z.to_nat BLOCK_SIZE ->
  (forall n1 s', filled (bm s') n1 -> meta s' -> Q n1 s') ->
  wp (write_indirect_part buf size (set_blocks n0 bl) (512 * 100) arr) Q s.
Proof.
  intros Hf Hnb Hlen HX Harr Hlast Hib0 HQ. unfold write_indirect_part.
  assert (bm_wf (bm s)) as Hwf by (by destruct Hf).
  wp_step. apply wp_get_slot; [unfold NDIRECT; lia|done|].
  change (Z.to_nat NDIRECT) with 100%nat. cbn [set_blocks i_blocks]. rewrite HX.
  cbn [from_option id].
  wp_step. apply wp_with_bm. apply wp_is_valid_block; [done|]. intros b1 E1.
  assert (fill 100 (vslot bl ib0) X0 b1) as Hf1 by (by eapply fill_proper).
  assert (bm_wf b1) by by rewrite E1.
  destruct (used (bm s) X0) eqn:Hu; wp_step; cbv iota.
  - wp_step. apply wp_with_bm. cbn [upd_bm bm].
    destruct (used_data _ _ Hwf Hu) as [HX0ge HXlt].
    apply wp_bm_read; [done|done|done|]. wp_step.
    assert (X0 <> 0) as HXne by (unfold FIRST_DATA in HX0ge; lia).
    assert (blk b1 X0 = ib0) as ->.
    { rewrite (fill_ind_blk _ _ _ _ Hf1) by lia.
      unfold ib0, ind_bytes. fold X0. by rewrite (proj2 (Z.eqb_neq _ _)). }
    cbn [fst snd]. by apply (wp_indirect_finish bl X0).
  - assert (X0 = 0) as HX00.
    { destruct (decide (X0 = 0)) as [|Hn]; [done|]. destruct Hf.
      rewrite fi_used0 in Hu; [done|]. split; [done|by left]. }
    wp_step. apply wp_with_bm. cbn [upd_bm bm].
    apply wp_alloc_block; [done| |].
    + intros x b2 Hx Hux _ E2. wp_step. cbn [fst snd].
      assert (x <> 0) as Hx0 by (destruct Hx as [Hx _]; unfold FIRST_DATA in Hx; lia).
      apply (wp_indirect_finish (<[100%nat := x]> bl) x zero_block); try done.
      * by rewrite length_insert.
      * apply list_lookup_insert_eq. lia.
      * by eapply fill_new_ind.
    + intros Hfull. destruct Hf1. rewrite HX00 in fi_room0.
      unfold need_ind in fi_room0. rewrite (proj2 (Z.ltb_lt 100 _)) in fi_room0 by done.
      simpl in fi_room0. lia.
Qed.

(** *** Freeing the blocks behind the new end *)
Section shrink.
Context (b1 : block_manager) (n1 : inode).
Hypothesis Hfilled : filled b1 n1.
Hypothesis Hn0 : node_wf b0 n0.
Let sl1 : Z -> Z := slot b1 n1.
Let X1 : Z := ind n1.
Let ib1 : bytes := ind_bytes b1 n1.
Let u : Z := Z.max 1 (nb size).
Let pre : Z := Z.max 1 (nb (i_size n0)).

Definition freed (k c : Z) : Prop := exists j, u <= j < k /\ sl1 j = c.

Record shrink (k : Z) (sl : Z -> Z) (b : block_manager) : Prop := {
  sh_wf : bm_wf b;
  sh_sl : forall j, 0 <= j < 228 -> sl j = if decide (u <= j < k) then 0 else sl1 j;
  sh_used : forall c, used b c = true <-> used b1 c = true /\ ~ freed k c;
  sh_blk : forall c, ~ freed k c -> blk b c = blk b1 c
}.

Lemma shrink_start : shrink u sl1 b1.
Proof.
  split; [by destruct Hfilled| |..].
  - intros j _. by rewrite decide_False by lia.
  - intros c. split; [|by intros [? _]]. intros Hc. split; [done|].
    intros (j & ? & _). lia.
  - done.
Qed.

Lemma shrink_ext k sl sl' b :
  (forall j, 0 <= j < 228 -> sl' j = sl j) -> shrink k sl b -> shrink k sl' b.
Proof. intros H []. split; try done. intros j Hj. rewrite H by done. auto. Qed.

Lemma freed_step k c : u <= k -> freed (k + 1) c <-> freed k c \/ c = sl1 k.
Proof.
  intros Hk. unfold freed. split.
  - intros (j & Hj & E1). destruct (decide (j = k)) as [->|]; [auto|].
    left. exists j. split; [lia|done].
  - intros [(j & Hj & E1)| ->]; [exists j; split; [lia|done]|exists k; split; [lia|done]].
Qed.

(** Slots to be freed hold a block, and it is still marked. *)
Lemma shrink_slot_used k sl b :
  shrink k sl b -> u <= k < 228 -> k < pre ->
  sl k = sl1 k /\ used b (sl1 k) = true.
Proof.
  intros Hs Hk Hpre. destruct Hfilled. destruct Hs.
  assert (sl1 k <> 0) as Hn.
  { unfold sl1. rewrite fd_ge0 by lia. apply (nw_full _ _ Hn0). lia. }
  split; [rewrite sh_sl0, decide_False by lia; done|].
  apply sh_used0. split.
  - apply fd_used0. apply owned_slot; [lia|done].
  - intros (j & Hj & E1). assert (j = k); [|lia].
    symmetry. apply fd_inj0; [lia|lia|done|by symmetry].
Qed.

Lemma shrink_step k sl b b' :
  shrink k sl b -> u <= k < 228 -> k < pre ->
  b' ≡ set_bit (sl1 k) 0 (set_blk (sl1 k) zero_block b) ->
  shrink (k + 1) (upd k 0 sl) b'.
Proof.
  intros Hs Hk Hpre E1. destruct (shrink_slot_used _ _ _ Hs Hk Hpre) as [_ Hu].
  destruct Hs. split.
  - rewrite E1. apply set_bit_wf; [|auto]. by apply set_blk_wf.
  - intros j Hj. unfold upd. destruct (Z.eqb_spec j k) as [->|Hjk].
    + by rewrite decide_True by lia.
    + rewrite sh_sl0 by done. repeat case_decide; done || lia.
  - intros c. rewrite (bm_equiv_used _ _ _ E1), used_set_bit, used_set_blk.
    rewrite freed_step by lia. case_decide as Hc; [split; [done|]; tauto|].
    rewrite sh_used0. tauto.
  - intros c. rewrite freed_step by lia. intros Hc.
    rewrite (bm_equiv_blk _ _ _ E1), blk_set_bit, blk_set_blk, decide_False by tauto.
    apply sh_blk0. tauto.
Qed.

(** The slots that are not freed are those below [u]. *)
Lemma sl1_hole j : u <= j < 228 -> pre <= j -> sl1 j = 0.
Proof.
  intros Hj Hp. destruct Hfilled. unfold sl1. rewrite fd_ge0 by lia.
  apply (nw_hole _ _ Hn0). lia.
Qed.

Lemma X1_not_freed k : u <= k <= 228 -> X1 <> 0 -> ~ freed k X1.
Proof.
  intros Hk HX (j & Hj & E1). destruct Hfilled. apply (fd_ne0 j); [lia| |done].
  fold sl1. congruence.
Qed.

Record shrunk (b2 : block_manager) (n2 : inode) : Prop := {
  sk_meta : n2 = set_blocks n0 (i_blocks n2);
  sk_len : length (i_blocks n2) = 101%nat;
  sk_wf : bm_wf b2;
  sk_slot : forall j, 0 <= j < 228 -> slot b2 n2 j = if decide (j < u) then sl1 j else 0;
  sk_ind : ind n2 = if decide (nb size <= 100) then 0 else X1;
  sk_used : forall c, used b2 c = true <->
              used b1 c = true /\ (owned b1 n1 c -> owned b2 n2 c);
  sk_blk : forall c, (c = ind n2 -> c = 0) -> (owned b1 n1 c -> owned b2 n2 c) ->
             blk b2 c = blk b1 c
}.

(** *** The direct loop *)
Definition free_inv (l : inode * Z) (s : inode_manager) : Prop :=
  let '(node, i) := l in
  u <= i /\ i <= Z.max u (Z.min 100 pre) /\ meta s /\
  exists bl, node = set_blocks n0 bl /\ length bl = 101%nat /\ bl !! 100%nat = Some X1 /\
    shrink i (vslot bl ib1) (bm s).

Lemma wp_free_direct s (Q : inode * Z -> inode_manager -> Prop) l :
  free_inv l s -> l.2 = u ->
  (forall node s', free_inv (node, Z.max u (Z.min 100 pre)) s' ->
     Q (node, Z.max u (Z.min 100 pre)) s') ->
  wp (loop (S (Z.to_nat NDIRECT)) (free_direct pre) l) Q s.
Proof.
  intros Hinv Hl HQ.
  apply wp_loop with (Inv := free_inv) (variant := fun l => Z.to_nat (100 - l.2));
    [|done|rewrite Hl; unfold NDIRECT; lia].
  clear Hinv s l Hl. intros [node i] s Hinv.
  pose proof Hinv as (Hi1 & Hi2 & Hlast & bl & -> & Hlen & Hbl & Hs).
  unfold free_direct, NDIRECT. apply wp_if; intros Hc.
  2:{ wp_step. replace i with (Z.max u (Z.min 100 pre)) by lia.
      apply HQ. by replace (Z.max u (Z.min 100 pre)) with i by lia. }
  assert (i < 100 /\ i < pre) as [H100 Hpre] by lia.
  destruct (shrink_slot_used _ _ _ Hs ltac:(lia) Hpre) as [Hsl Hu].
  pose proof (sh_wf _ _ _ Hs) as Hwf. clear Hc.
  wp_step. apply wp_get_slot; [unfold NDIRECT; lia|done|].
  replace (default 0 (i_blocks (set_blocks n0 bl) !! Z.to_nat i)) with (sl1 i).
  2:{ rewrite <- Hsl. unfold vslot. by rewrite (proj2 (Z.ltb_lt i 100)) by lia. }
  wp_step. apply wp_with_bm. apply wp_is_valid_block; [done|].
  intros b2 E2. rewrite Hu. wp_step. apply wp_with_bm. cbn [upd_bm bm].
  apply wp_free_block; [by rewrite E2|by rewrite (bm_equiv_used _ _ _ E2)|].
  intros b3 E3. wp_step. rewrite E2 in E3. split; [|simpl; lia].
  split_and!; [lia|lia|done|].
  exists (<[Z.to_nat i := 0]> bl). split; [done|]. split; [by rewrite length_insert|].
  split; [rewrite list_lookup_insert_ne by lia; done|].
  eapply shrink_ext; [intros j Hj; apply vslot_insert; lia|].
  eapply shrink_step; [exact Hs|lia|done|exact E3].
Qed.

(** *** The loop of [free_indirect_blocks] *)
Definition free_ind_inv (bl : list Z) (l : bytes * Z) (s : inode_manager) : Prop :=
  let '(ib, i) := l in
  u <= 100 + i /\ 0 <= i /\ i <= Z.max (Z.max u 100 - 100) (pre - 100) /\
  length ib = Z.to_nat BLOCK_SIZE /\
  meta s /\ shrink (100 + i) (vslot bl ib) (bm s).

Lemma wp_free_indirect_loop bl ib i s (Q : bytes * Z -> inode_manager -> Prop) :
  pre <= 228 ->
  free_ind_inv bl (ib, i) s ->
  i = Z.max u 100 - 100 ->
  (forall ib s', free_ind_inv bl (ib, Z.max i (pre - 100)) s' ->
     Q (ib, Z.max i (pre - 100)) s') ->
  wp (loop (S (Z.to_nat (pre - 100 - i))) (free_indirect_body (pre - 100)) (ib, i)) Q s.
Proof.
  intros Hpre228 Hinv Hi HQ.
  apply wp_loop with (Inv := free_ind_inv bl)
    (variant := fun l => Z.to_nat (pre - 100 - l.2)); [|done|simpl; lia].
  clear Hinv s ib. intros [ib k] s Hinv.
  pose proof Hinv as (Hk1 & Hk2 & Hk3 & Hib & Hlast & Hs).
  unfold free_indirect_body. apply wp_if; intros Hc.
  2:{ wp_step. assert (k = Z.max i (pre - 100)) as -> by lia. by apply HQ. }
  assert (100 + k < pre) as Hpre by lia.
  destruct (shrink_slot_used _ _ _ Hs ltac:(lia) Hpre) as [Hsl Hu].
  pose proof (sh_wf _ _ _ Hs) as Hwf.
  assert (length ib = 512%nat) as Hib' by (rewrite Hib; done).
  wp_step. apply wp_load32; [lia|lia|].
  replace (rd32 ib (Z.to_nat k)) with (sl1 (100 + k)).
  2:{ rewrite <- Hsl. unfold vslot. rewrite (proj2 (Z.ltb_ge _ _)) by lia. do 2 f_equal. lia. }
  wp_step. apply wp_with_bm. apply wp_free_block; [done|done|]. intros b2 E2.
  wp_step. apply wp_store32; [lia|lia|]. wp_step. split; [|simpl; lia].
  split_and!; [lia|lia|lia| |done|].
  { rewrite length_wr32; lia. }
  replace (100 + (k + 1)) with (100 + k + 1) by lia.
  eapply shrink_ext; [intros j Hj; apply vslot_wr32; lia|].
  eapply shrink_step; [exact Hs|lia|done|exact E2].
Qed.

(** *** The end of the phase *)
Let K : Z := Z.max u pre.

Lemma freed_owned c : K <= 228 -> freed K c -> owned b1 n1 c.
Proof.
  intros HK (j & Hj & <-). destruct Hfilled. unfold sl1. apply owned_slot; [lia|].
  rewrite fd_ge0 by lia. apply (nw_full _ _ Hn0). lia.
Qed.

Lemma shrink_done sl b b2 n2 :
  K <= 228 -> shrink K sl b ->
  n2 = set_blocks n0 (i_blocks n2) -> length (i_blocks n2) = 101%nat ->
  (forall j, 0 <= j < 228 -> slot b2 n2 j = sl j) ->
  ind n2 = (if decide (nb size <= 100) then 0 else X1) ->
  bm_wf b2 ->
  (forall c, used b2 c = true <-> used b c = true /\ (c = X1 -> X1 <> 0 -> ind n2 = X1)) ->
  (forall c, (c = ind n2 -> c = 0) -> (c = X1 -> X1 <> 0 -> ind n2 = X1) ->
     blk b2 c = blk b c) ->
  shrunk b2 n2.
Proof.
  intros HK Hs Hmeta Hlen Hslot Hind Hwf Hused Hblk.
  assert (forall j, 0 <= j < 228 -> slot b2 n2 j = if decide (j < u) then sl1 j else 0) as Hsl2.
  { intros j Hj. rewrite Hslot, (sh_sl _ _ _ Hs) by done.
    repeat case_decide; try done; try lia; apply sl1_hole; lia. }
  assert (forall c, owned b2 n2 c <->
            c <> 0 /\ (c = ind n2 \/ exists j, 0 <= j < u /\ sl1 j = c)) as Ho2.
  { intros c. unfold owned, owned_by. split; intros [Hc [->|(j & Hj & E1)]]; split; auto; right.
    - rewrite Hsl2 in E1 by done. case_decide; [|congruence]. exists j. split; [lia|done].
    - exists j. rewrite Hsl2, decide_True by lia. split; [lia|done]. }
  assert (forall c, (owned b1 n1 c -> owned b2 n2 c) <->
            ~ freed K c /\ (c = X1 -> X1 <> 0 -> ind n2 = X1)) as Hfr.
  { intros c. destruct Hfilled. split.
    - intros H. split.
      + intros Hf. pose proof (H (freed_owned _ HK Hf)) as Ho.
        destruct Hf as (j & Hj & Ej). apply Ho2 in Ho as [Hc [Hi|(j' & Hj' & Ej')]].
        * rewrite Hind in Hi. case_decide; [done|].
          apply (fd_ne0 j); [lia|fold sl1; congruence|]. exact (eq_trans Ej Hi).
        * assert (j = j'); [|lia]. apply fd_inj0; try lia; fold sl1; congruence.
      + intros -> HX. specialize (H (owned_ind _ _ HX)).
        apply Ho2 in H as [_ [->|(j & Hj & Ej)]]; [done|].
        exfalso. apply (fd_ne0 j); [lia|fold sl1; congruence|done].
    - intros [Hf HX] [Hc Ho]. apply Ho2. split; [done|].
      destruct Ho as [->|(j & Hj & Ej)]; [left; symmetry; auto|].
      destruct (decide (j < u)); [right; exists j; split; [lia|done]|].
      exfalso. destruct (decide (j < K)); [apply Hf; exists j; split; [lia|done]|].
      apply Hc. rewrite <- Ej. apply sl1_hole; lia. }
  split; try done.
  - intros c. rewrite Hused, (sh_used _ _ _ Hs), Hfr. tauto.
  - intros c Hc Ho. apply Hfr in Ho as [Hf HX]. rewrite Hblk by done.
    by apply (sh_blk _ _ _ Hs).
Qed.

Lemma pre_le : pre <= 228.
Proof.
  pose proof (nw_size _ _ Hn0). pose proof (ok_size _ (nw_ok _ _ Hn0)).
  pose proof (nb_range (i_size n0)). lia.
Qed.

Lemma block_count_eq :
  100 < pre ->
  (if BLOCK_SIZE * NDIRECT <=? i_size n0
   then i32 (u32 (u32 (i_size n0 - 1) / BLOCK_SIZE + 1 - NDIRECT)) else 0) = pre - 100.
Proof.
  intros Hpre. pose proof (nw_size _ _ Hn0). pose proof (ok_size _ (nw_ok _ _ Hn0)).
  unfold BLOCK_SIZE, NDIRECT, MAX_SIZE in *. assert (51200 < i_size n0).
  { pose proof (proj1 (nb_le_iff (i_size n0) 100)). lia. }
  rewrite (proj2 (Z.leb_le _ _)) by lia. rewrite (u32_id (i_size n0 - 1)) by lia.
  rewrite nb_pred by lia. pose proof pre_le.
  rewrite u32_id, i32_id by lia. lia.
Qed.

(** The indirect block itself is freed when no slot is left in it ... *)
Lemma shrink_drop_ind bl ib b b2 :
  K <= 228 -> X1 <> 0 -> nb size <= 100 -> shrink K (vslot bl ib) b ->
  length bl = 101%nat ->
  b2 ≡ set_bit X1 0 (set_blk X1 zero_block b) ->
  let n2 := set_slot (set_blocks n0 bl) NDIRECT 0 in
  ind n2 = 0 /\ shrunk b2 n2.
Proof.
  intros HK HX1 Hsmall Hs Hlen E2 n2.
  assert (ind n2 = 0) as Hi0.
  { unfold ind, n2. cbn [set_slot set_blocks i_blocks].
    change (Z.to_nat NDIRECT) with 100%nat. by rewrite list_lookup_insert_eq by lia. }
  split; [done|].
  apply (shrink_done (vslot bl ib) b); [lia|exact Hs|done|by cbn; rewrite length_insert|..].
  - intros j Hj. unfold slot, ind_bytes. rewrite Hi0. unfold n2.
    cbn [set_slot set_blocks i_blocks]. change (Z.to_nat NDIRECT) with 100%nat.
    destruct (decide (j < 100)) as [Hj'|Hj'].
    + unfold vslot. rewrite (proj2 (Z.ltb_lt _ _)) by lia. by rewrite list_lookup_insert_ne by lia.
    + rewrite (sh_sl _ _ _ Hs) by done. unfold vslot. rewrite (proj2 (Z.ltb_ge _ _)) by lia.
      cbn [Z.eqb]. rewrite rd32_zero_block. case_decide; [done|]. symmetry. apply sl1_hole; lia.
  - by rewrite Hi0, decide_True.
  - rewrite E2. apply set_bit_wf; [|auto]. apply set_blk_wf; [by destruct Hs|done].
  - intros c. rewrite (bm_equiv_used _ _ _ E2), used_set_bit, used_set_blk, Hi0.
    case_decide as Hc; [|tauto]. split; [done|]. intros [_ H].
    exfalso. apply HX1. symmetry. by apply H.
  - intros c Hc1 Hc2. rewrite Hi0 in *.
    rewrite (bm_equiv_blk _ _ _ E2), blk_set_bit, blk_set_blk, decide_False; [done|].
    intros ->. apply HX1. symmetry. by apply Hc2.
Qed.

(** ... and written back otherwise. *)
Lemma shrink_write_ind bl ib b :
  K <= 228 -> X1 <> 0 -> 100 < nb size -> shrink K (vslot bl ib) b ->
  length bl = 101%nat -> bl !! 100%nat = Some X1 -> length ib = Z.to_nat BLOCK_SIZE ->
  ind (set_blocks n0 bl) = X1 /\ shrunk (set_blk X1 ib b) (set_blocks n0 bl).
Proof.
  intros HK HX1 Hbig Hs Hlen HX Hib.
  assert (ind (set_blocks n0 bl) = X1) as Hi1.
  { unfold ind. cbn [set_blocks i_blocks]. by rewrite HX. }
  split; [done|].
  apply (shrink_done (vslot bl ib) b); [lia|exact Hs|done|done|..].
  - intros j Hj. unfold slot, ind_bytes. rewrite Hi1, (proj2 (Z.eqb_neq _ _)) by done.
    by rewrite blk_set_blk, decide_True.
  - by rewrite Hi1, decide_False by lia.
  - apply set_blk_wf; [by destruct Hs|done].
  - intros c. rewrite Hi1, used_set_blk. tauto.
  - intros c Hc1 Hc2. rewrite Hi1 in *. rewrite blk_set_blk, decide_False; [done|].
    intros ->. by apply HX1, Hc1.
Qed.

(** The direct slots alone are shrunk when the file had no indirect block. *)
Lemma shrink_direct_only bl b :
  pre <= 100 -> shrink K (vslot bl ib1) b ->
  length bl = 101%nat -> bl !! 100%nat = Some X1 -> shrunk b (set_blocks n0 bl).
Proof.
  intros Hpre Hs Hlen HX. pose proof (nb_range size Hsize) as Hnb.
  assert (ind (set_blocks n0 bl) = X1) as Hi1.
  { unfold ind. cbn [set_blocks i_blocks]. by rewrite HX. }
  apply (shrink_done (vslot bl ib1) b); [lia|exact Hs|done|done|..].
  - intros j Hj. unfold slot, ind_bytes. rewrite Hi1.
    unfold ib1, ind_bytes. fold X1. destruct (Z.eqb_spec X1 0) as [|HX1]; [done|].
    rewrite (sh_blk _ _ _ Hs); [done|]. apply X1_not_freed; [lia|done].
  - rewrite Hi1. case_decide; [|done]. destruct Hfilled. apply fd_ind0.
    split; [|done]. apply (nw_ind _ _ Hn0). lia.
  - by destruct Hs.
  - intros c. rewrite Hi1. tauto.
  - done.
Qed.

(** [free_indirect_blocks], called with the first slot to free. *)
Lemma wp_free_indirect_blocks bl s (Q : inode -> inode_manager -> Prop) :
  100 < pre -> meta s ->
  shrink (Z.max u 100) (vslot bl ib1) (bm s) ->
  length bl = 101%nat -> bl !! 100%nat = Some X1 -> length ib1 = Z.to_nat BLOCK_SIZE ->
  (forall n2 s', meta s' -> shrunk (bm s') n2 ->
     (ind n2 = 0 \/ 100 < nb size) -> Q n2 s') ->
  wp (free_indirect_blocks (set_blocks n0 bl) (Z.max u 100 - 100)) Q s.
Proof.
  intros Hpre Hlast Hs Hlen HX Hib HQ. unfold free_indirect_blocks.
  cbn [set_blocks i_size]. rewrite block_count_eq by done.
  pose proof pre_le as Hpre228. pose proof (nb_range size Hsize) as Hnb.
  assert (X1 <> 0) as HX1.
  { destruct Hfilled. intros H. apply fd_ind0 in H as [H _].
    apply (nw_ind _ _ Hn0) in H. lia. }
  assert (used b1 X1 = true) as HuX.
  { destruct Hfilled. apply fd_used0. by apply owned_ind. }
  assert (forall (P : Z -> inode_manager -> Prop) s', P X1 s' ->
            wp (get_slot (set_blocks n0 bl) NDIRECT) P s') as Hget.
  { intros P s' HP. apply wp_get_slot; [unfold NDIRECT; lia|done|].
    change (Z.to_nat NDIRECT) with 100%nat. cbn [set_blocks i_blocks]. by rewrite HX. }
  assert (X1 < BLOCK_NUM) as Hlt.
  { destruct Hfilled. by destruct (used_data _ _ fd_wf0 HuX). }
  wp_step. apply wp_uninit. intros buf0 Hbuf0. wp_step. apply Hget. wp_step.
  apply wp_with_bm. cbn [bm].
  apply wp_bm_read; [by destruct Hs|done|done|].
  assert (blk (bm s) X1 = ib1) as ->.
  { rewrite (sh_blk _ _ _ Hs) by (apply X1_not_freed; [lia|done]).
    unfold ib1, ind_bytes. fold X1. by rewrite (proj2 (Z.eqb_neq _ _)). }
  wp_step. apply (wp_free_indirect_loop bl); [done| |done|].
  { do 3 (split; [lia|]). split; [done|]. split; [by apply meta_tick|].
    by replace (100 + (Z.max u 100 - 100)) with (Z.max u 100) by lia. }
  intros ib s' (_ & _ & _ & Hib' & Hlast' & Hs'). cbn [fst].
  replace (100 + Z.max (Z.max u 100 - 100) (pre - 100)) with K in Hs' by lia.
  assert (~ freed K X1) as HXf by (apply X1_not_freed; [lia|done]).
  pose proof (sh_wf _ _ _ Hs') as Hwf'.
  assert (used (bm s') X1 = true) as HuX' by (by apply (sh_used _ _ _ Hs')).
  apply wp_if; intros Hc; wp_step; apply Hget; wp_step; apply wp_with_bm.
  - apply wp_free_block; [done|done|]. intros b2 E2. wp_step.
    destruct (shrink_drop_ind bl ib (bm s') b2) as [Hi0 Hsk]; try done; [lia|lia|].
    apply HQ; [done|exact Hsk|by left].
  - apply wp_bm_write; [done|done|done|]. wp_step.
    destruct (shrink_write_ind bl ib (bm s')) as [_ Hsk]; try done; [lia|lia|].
    apply HQ; [done|exact Hsk|right; lia].
Qed.

Lemma quot_u : Z.quot (size - 1) BLOCK_SIZE + 1 = u.
Proof.
  unfold u, BLOCK_SIZE. destruct (decide (size = 0)) as [->|Hs]; [done|].
  rewrite Z.quot_div_nonneg, nb_pred by lia. pose proof (nb_pos size). lia.
Qed.

Lemma wp_shrink_part s (Q : inode -> inode_manager -> Prop) :
  bm s = b1 -> meta s -> length ib1 = Z.to_nat BLOCK_SIZE ->
  (forall n2 s', meta s' -> shrunk (bm s') n2 -> Q n2 s') ->
  wp (shrink_part size pre n1) Q s.
Proof.
  intros Hbm Hlast Hib HQ. unfold shrink_part. rewrite quot_u. cbv zeta.
  pose proof pre_le as Hpre228. pose proof (nb_range size Hsize) as Hnb.
  assert (i_blocks n1 !! 100%nat = Some X1) as HX.
  { unfold X1, ind. destruct (i_blocks n1 !! 100%nat) eqn:El; [done|].
    apply lookup_ge_None in El. destruct Hfilled. lia. }
  wp_step. apply wp_free_direct; [|done|].
  { split_and!; [lia|lia|done|]. exists (i_blocks n1).
    split; [by destruct Hfilled|]. split; [by destruct Hfilled|]. split; [done|].
    rewrite Hbm. apply shrink_start. }
  intros node s' (_ & _ & Hlast' & bl & -> & Hlen & Hbl & Hs).
  unfold NDIRECT. apply wp_if; intros Hc.
  - replace (Z.max u (Z.min 100 pre)) with (Z.max u 100) in * by lia.
    wp_step. apply wp_free_indirect_blocks; try done; [lia|].
    intros n2 s2 Hlast2 Hsk Hi2. wp_step. destruct (Z.eqb_spec (Z.max u 100 - 100) 0) as [Hz|Hz].
    + replace (set_slot n2 100 0) with n2; [by apply HQ|].
      destruct Hsk. rewrite sk_meta0. unfold set_slot, set_blocks. cbn. f_equal.
      symmetry. apply list_insert_id. assert (ind n2 = 0) as Hi0 by lia.
      unfold ind in Hi0. destruct (i_blocks n2 !! 100%nat) eqn:El; simpl in Hi0; [by subst|].
      apply lookup_ge_None in El. lia.
    + by apply HQ.
  - wp_step. apply HQ; [done|]. apply shrink_direct_only; try done; [lia|].
    replace K with (Z.max u (Z.min 100 pre)) by lia. done.
Qed.
End shrink.
End phases.
End write.
