(* ===== verification/WriteSpec.v ===== *)
(** [inode_manager::write_file]: its specification.

    [wp_write_file] says that a write of at most [MAX_SIZE] bytes for which there
    is room stores exactly those bytes, updates the three times from the clock,
    keeps the type, and changes no other file; and that the blocks it leaves
    marked are exactly those that were marked and not the file's, and the file's
    new ones (it neither leaks nor steals a block). *)
From S2P Require Import Prelude Monad Disk BlockManager Inode InodeManager FsInv WriteFile.
From Stdlib Require Import Ascii ZArith Lia.
From stdpp Require Import base gmap numbers list.
#[local] Open Scope Z_scope.

(** Blocks to allocate when a file of [old] bytes becomes one of [size] bytes. *)
Definition blocks_needed (old size : Z) : nat :=
  (Z.to_nat (nb size - nb old)%Z +
   if decide (nb old <= 100 < nb size)%Z then 1 else 0)%nat.

(** The inode [write_file] stores. *)
Definition written_inode (n : inode) (size t1 t2 t3 : Z) : inode :=
  mk_inode (i_type n) (u32 size) (u32 t1) (u32 t3) (u32 t2) (i_blocks n).

Section result.
Context (b0 : block_manager) (n0 : inode) (buf : ptr) (size : Z) (slack : nat).
Context (b1 : block_manager) (n1 : inode) (b2 : block_manager) (n2 : inode).
Context (t1 t2 t3 : Z).
Hypothesis Hsize : 0 <= size <= MAX_SIZE.
Hypothesis Hn0 : node_wf b0 n0.
Hypothesis Hf : filled b0 n0 buf size slack b1 n1.
Hypothesis Hs : shrunk n0 size b1 n1 b2 n2.
Let n' : inode := written_inode n2 size t1 t2 t3.

Lemma size_u32 : i_size n' = size.
Proof. cbn. apply u32_id. unfold MAX_SIZE in Hsize. lia. Qed.

Lemma result_slot j : 0 <= j < 228 ->
  slot b2 n' j = if decide (j < Z.max 1 (nb size)) then slot b1 n1 j else 0.
Proof. apply (sk_slot _ _ _ _ _ _ Hs). Qed.

Lemma result_ind : ind n' = if decide (nb size <= 100) then 0 else ind n1.
Proof. apply (sk_ind _ _ _ _ _ _ Hs). Qed.

Lemma result_owned_filled c : owned b2 n' c -> owned b1 n1 c.
Proof.
  intros [Hc [->|(j & Hj & <-)]].
  - rewrite result_ind in *. case_decide; [done|]. split; [done|by left].
  - rewrite result_slot in * by done. case_decide; [|done]. split; [done|right; eauto].
Qed.

(** A filled block that is dropped was the file's before. *)
Lemma result_dropped c : owned b1 n1 c -> ~ owned b2 n' c -> owned b0 n0 c.
Proof.
  destruct Hf. intros [Hc [->|(j & Hj & <-)]] Ho.
  - assert (nb size <= 100) as Hsmall.
    { destruct (decide (nb size <= 100)) as [|Hn]; [done|]. destruct Ho.
      split; [done|left]. by rewrite result_ind, decide_False by done. }
    split; [done|left]. apply fd_ind_old. intros H. apply Hc, fd_ind. done.
  - destruct (decide (j < Z.max 1 (nb size))) as [Hlt|Hge].
    + destruct Ho. split; [done|right]. exists j. split; [done|].
      by rewrite result_slot, decide_True by done.
    + rewrite fd_ge in * by lia. by apply owned_slot.
Qed.

(** The marks are those of the other files and of the written one. *)
Lemma result_used c :
  used b2 c = true <-> (used b0 c = true /\ ~ owned b0 n0 c) \/ owned b2 n' c.
Proof.
  rewrite (sk_used _ _ _ _ _ _ Hs).
  change (owned b2 n2 c) with (owned b2 n' c). destruct Hf. split.
  - intros [Hu Ho]. destruct (decide (owned b1 n1 c)) as [Ho1|Ho1]; [auto|].
    left. destruct (fd_only c Hu) as [Hu0|]; [|done]. split; [done|]. auto.
  - intros [[Hu Hno]|Ho].
    + split; [by apply fd_keep|]. intros Ho1. destruct (fd_new _ Ho1); congruence.
    + split; [|done]. by apply fd_used, result_owned_filled.
Qed.

Lemma result_new c : owned b2 n' c -> owned b0 n0 c \/ used b0 c = false.
Proof. intros Ho. apply (fd_new _ _ _ _ _ _ _ Hf). by apply result_owned_filled. Qed.

(** Blocks that are not the file's, before or after, keep their contents. *)
Lemma result_frame c : ~ owned b0 n0 c -> ~ owned b2 n' c -> blk b2 c = blk b0 c.
Proof.
  intros H0 H2. rewrite (sk_blk _ _ _ _ _ _ Hs).
  - apply (fd_frame _ _ _ _ _ _ _ Hf). intros H1. apply H0. by apply result_dropped.
  - intros ->. destruct (decide (ind n' = 0)) as [|Hn]; [done|].
    destruct H2. split; [exact Hn|by left].
  - intros H1. destruct H0. by apply result_dropped.
Qed.

Lemma result_slot_nz j : 0 <= j < 228 -> slot b2 n' j <> 0 ->
  slot b2 n' j = slot b1 n1 j /\ j < Z.max 1 (nb size).
Proof. intros Hj. rewrite result_slot by done. by case_decide. Qed.

Lemma result_ok : inode_ok n'.
Proof.
  assert (forall c, owned b2 n' c -> data_block c) as Hd.
  { intros c Hc. apply (used_data b2); [apply (sk_wf _ _ _ _ _ _ Hs)|].
    apply result_used. by right. }
  pose proof (nw_ok _ _ Hn0) as Hok.
  assert (i_type n' = i_type n0) as Ht by (unfold n'; cbn; by rewrite (sk_meta _ _ _ _ _ _ Hs)).
  split; try (apply u32_range).
  - rewrite Ht. apply Hok.
  - apply Forall_lookup. intros k c Hk.
    assert (c <> 0 -> data_block c) as Hc.
    { intros Hc. apply Hd. pose proof (lookup_lt_Some _ _ _ Hk) as Hl.
      change (i_blocks n') with (i_blocks n2) in *. rewrite (sk_len _ _ _ _ _ _ Hs) in Hl.
      split; [done|]. destruct (decide (k = 100%nat)) as [->|Hk100].
      - left. unfold ind. change (i_blocks n') with (i_blocks n2). by rewrite Hk.
      - right. exists (Z.of_nat k). split; [lia|]. unfold slot, vslot.
        rewrite (proj2 (Z.ltb_lt _ _)) by lia. rewrite Nat2Z.id.
        change (i_blocks n') with (i_blocks n2). by rewrite Hk. }
    destruct (decide (c = 0)) as [->|Hn]; [lia|].
    destruct (Hc Hn) as [H1 H2]. unfold FIRST_DATA in H1. change BLOCK_NUM with 32768 in H2. lia.
  - apply (sk_len _ _ _ _ _ _ Hs).
Qed.

Lemma result_node_wf : node_wf b2 n'.
Proof.
  pose proof (nb_range size Hsize) as Hnb. destruct Hf.
  split; rewrite ?size_u32.
  - apply result_ok.
  - lia.
  - intros c Hc. apply result_used. by right.
  - intros j Hj. rewrite result_slot, decide_True by lia. by apply fd_lt.
  - intros j Hj. by rewrite result_slot, decide_False by lia.
  - rewrite result_ind. case_decide as Hc; [done|]. rewrite fd_ind. tauto.
  - intros j1 j2 H1 H2 Hn. destruct (result_slot_nz j1 H1 Hn) as [E1 _].
    intros E. destruct (result_slot_nz j2 H2 ltac:(congruence)) as [E2 _].
    apply fd_inj; [done|done|congruence..].
  - intros j Hj Hn. destruct (result_slot_nz j Hj Hn) as [E1 _]. rewrite result_ind, E1 in *.
    case_decide; [done|]. by apply fd_ne.
Qed.

(** The blocks behind the direct slots hold whole chunks of the buffer. *)
Lemma result_content_at p :
  0 <= p < 512 * nb size -> p < size \/ p / 512 < 100 -> content_at b2 n' p = buf p.
Proof.
  intros Hp Hps. rewrite <- (fd_data _ _ _ _ _ _ _ Hf p) by done. unfold content_at.
  assert (0 <= p / 512 < nb size) as Hq by dlia. pose proof (nb_range size Hsize) as Hnb.
  pose proof (fd_lt _ _ _ _ _ _ _ Hf (p / 512) Hq) as Hn.
  rewrite result_slot, decide_True by lia. f_equal.
  assert (slot b2 n' (p / 512) = slot b1 n1 (p / 512)) as E
    by (by rewrite result_slot, decide_True by lia).
  apply (sk_blk _ _ _ _ _ _ Hs).
  - intros Hi. exfalso. apply (nw_ind_ne _ _ result_node_wf (p / 512)); [lia|congruence|].
    rewrite E. exact Hi.
  - intros _. rewrite <- E. apply (owned_slot b2 n' (p / 512)); [lia|congruence].
Qed.

Lemma result_content : content b2 n' = load buf 0 size.
Proof.
  unfold content, load. rewrite size_u32. apply list_fmap_ext.
  intros k p Hp. apply list_elem_of_lookup_2, elem_of_zrange in Hp.
  rewrite Z2Nat.id in Hp by lia. pose proof (nb_lt size p ltac:(lia)). apply result_content_at; dlia.
Qed.
End result.

(** ** The room a write needs *)
Lemma empty_slots_le sl k last m :
  (forall j, k <= j < m -> sl j <> 0) ->
  (empty_slots sl k last <= Z.to_nat (last - Z.max k m))%nat.
Proof.
  intros H. remember (Z.to_nat (last - k)) as n eqn:Hn. revert k Hn H.
  induction n as [|n IH]; intros k Hn H.
  - unfold empty_slots. rewrite <- Hn. simpl. lia.
  - rewrite empty_slots_step by lia.
    assert (empty_slots sl (k + 1) last <= Z.to_nat (last - Z.max (k + 1) m))%nat as Hle.
    { apply IH; [lia|]. intros j Hj. apply H. lia. }
    case_decide as Hk; [|lia].
    assert (~ k < m) by (intros Hlt; apply (H k); [lia|done]). lia.
Qed.

Lemma blocks_needed_bound b n size :
  node_wf b n -> 0 <= nb size ->
  (empty_slots (slot b n) 0 (nb size) + need_ind size (ind n) <= blocks_needed (i_size n) size)%nat.
Proof.
  intros Hn Hnb. unfold blocks_needed.
  pose proof (ok_size _ (nw_ok _ _ Hn)) as Hs. assert (0 <= nb (i_size n)) by (unfold nb; dlia).
  pose proof (empty_slots_le (slot b n) 0 (nb size) (nb (i_size n)) (nw_full _ _ Hn)).
  assert (need_ind size (ind n) <= if decide (nb (i_size n) <= 100 < nb size)%Z then 1 else 0)%nat; [|lia].
  unfold need_ind. destruct (Z.eqb_spec (ind n) 0) as [Hi|], (Z.ltb_spec 100 (nb size)); simpl;
    case_decide as Hd; try lia.
  destruct Hd. split; [|done]. by apply (nw_ind _ _ Hn).
Qed.

(** The inode before the write, as a fill of no slots. *)
Lemma fill_start b n buf size slack :
  bm_wf b -> node_wf b n -> 0 <= nb size ->
  (blocks_needed (i_size n) size + slack <= nfree b)%nat ->
  fill b (slot b n) (ind n) buf size slack 0 (slot b n) (ind n) b.
Proof.
  intros Hb Hn Hnb Hroom. pose proof (blocks_needed_bound b n size Hn Hnb).
  split; try done; auto; try lia; try (by destruct Hn).
Qed.

Lemma pre_block_num_eq n :
  inode_ok n -> i_size n <= MAX_SIZE ->
  i32 (if i_size n =? 0 then 1 else u32 (i_size n - 1) / BLOCK_SIZE + 1) = Z.max 1 (nb (i_size n)).
Proof.
  intros [] Hs. unfold MAX_SIZE in Hs. destruct (Z.eqb_spec (i_size n) 0) as [->|Hn]; [done|].
  unfold BLOCK_SIZE. rewrite u32_id by lia. rewrite nb_pred by lia.
  pose proof (nb_pos (i_size n)). pose proof (nb_range (i_size n)). unfold MAX_SIZE in *.
  rewrite i32_id by lia. lia.
Qed.

Lemma length_ind_bytes b n : bm_wf b -> length (ind_bytes b n) = Z.to_nat BLOCK_SIZE.
Proof. intros Hb. unfold ind_bytes. destruct (ind n =? 0); [done|]. apply (bm_wf_len _ Hb). Qed.

Section write_file.
Context `{E : Env}.

(** The phases of [write_file] between [get_inode] and [put_inode]. *)
Lemma wp_write_phases {A} n buf size slack s (k : inode -> M inode_manager A)
    (Q : A -> inode_manager -> Prop) :
  bm_wf (bm s) -> node_wf (bm s) n -> 0 <= size <= MAX_SIZE ->
  (blocks_needed (i_size n) size + slack <= nfree (bm s))%nat ->
  (forall b1 n1 n2 s', meta (last_alloced s) (epoch s) s' ->
     filled (bm s) n buf size slack b1 n1 ->
     shrunk n size b1 n1 (bm s') n2 -> wp (k n2) Q s') ->
  wp (l ← loop (S (Z.to_nat NDIRECT)) (write_direct buf size) (n, 0, 0, zero_block);
      let '(node, pos, i, arr) := l in
      node ← (if (pos <? size) && (i =? NDIRECT)
              then write_indirect_part buf size node pos arr else mret node);
      node ← shrink_part size
               (i32 (if i_size n =? 0 then 1 else u32 (i_size n - 1) / BLOCK_SIZE + 1)) node;
      k node) Q s.
Proof.
  intros Hwf Hn Hsize Hroom HQ. pose proof (nb_range size Hsize) as Hnb.
  pose proof (nw_ok _ _ Hn) as Hok. pose proof (length_ind_bytes _ n Hwf) as Hib.
  rewrite pre_block_num_eq by (done || apply (nw_size _ _ Hn)).
  assert (i_blocks n !! 100%nat = Some (ind n)) as HX.
  { unfold ind. destruct (i_blocks n !! 100%nat) eqn:El; [done|].
    apply lookup_ge_None in El. rewrite (ok_length _ Hok) in El. lia. }
  assert (forall n1 s', filled (bm s) n buf size slack (bm s') n1 ->
            meta (last_alloced s) (epoch s) s' ->
            wp (shrink_part size (Z.max 1 (nb (i_size n))) n1 ≫= k) Q s') as Hshrink.
  { intros n1 s' Hf Hm. wp_step. eapply wp_shrink_part; [done|exact Hf|done|done|exact Hm|..].
    - apply length_ind_bytes. by destruct Hf.
    - intros n2 s2 Hm2 Hs2. by eapply HQ. }
  wp_step. apply (wp_write_direct (bm s) n buf size (last_alloced s) (epoch s) slack); [|done|].
  { split; [lia|]. split; [lia|]. split; [lia|]. split; [done|]. split; [done|].
    exists (i_blocks n). split; [by destruct n|]. split; [apply Hok|]. split; [done|].
    by apply fill_start; [| |lia|]. }
  intros node pos i arr s' (-> & Hi & _ & Harr & Hm & bl & -> & Hlen & Hbl & Hf) Hieq.
  wp_step. unfold NDIRECT. apply wp_if; intros Hc.
  - assert (i = 100) as -> by lia.
    eapply wp_write_indirect_part; try done.
    pose proof (proj2 (nb_le_iff size 100)). lia.
  - wp_step. apply Hshrink; [|done].
    assert (i = nb size) as ->.
    { pose proof (proj1 (nb_le_iff size 100)). lia. }
    assert (bm_wf (bm s')) by by destruct Hf.
    eapply fill_done; [done|exact Hf|done|done| |done|done|done|done|].
    + split; [|by intros [? _]]. intros H0. split; [done|lia].
    + unfold ind_bytes. destruct (Z.eqb_spec (ind n) 0); [done|].
      eapply fill_ind_blk; [exact Hf|lia].
Qed.

(** All of [write_file]: its phases, and the inode in its block of the table. *)
Lemma wp_write_commit i n buf size slack s (Q : unit -> inode_manager -> Prop) :
  fs_wf s -> node_at s i = Some n -> 0 <= size <= MAX_SIZE ->
  (blocks_needed (i_size n) size + slack <= nfree (bm s))%nat ->
  (forall b1 n1 s1 n2 e tbl, let n' := written_inode n2 size (time_at e) (time_at (S e)) (time_at (S (S e))) in
     meta (last_alloced s) (epoch s) s1 -> epoch s1 = e -> filled (bm s) n buf size slack b1 n1 ->
     shrunk n size b1 n1 (bm s1) n2 -> node_wf (bm s1) n' -> i_type n' = i_type n ->
     length tbl = Z.to_nat BLOCK_SIZE -> inode_of_bytes tbl = n' ->
     let s' := mk_im (set_blk (i + 11) tbl (bm s1)) (last_alloced s1) (S (S (S (S e)))) in
     node_at s' i = Some n' -> Q tt s') ->
  wp (write_file i buf size) Q s.
Proof.
  intros Hwf Hn Hsize Hroom HQ. pose proof (fw_bm _ Hwf) as Hb.
  pose proof (fw_node _ Hwf _ _ Hn) as Hnw.
  pose proof (proj1 (node_at_Some _ _ _) Hn) as (Hi & _ & Htype).
  unfold write_file. wp_step. apply wp_get_inode; [done|lia|]. rewrite Hn.
  eapply wp_write_phases; [done|exact Hnw|done|exact Hroom|].
  intros b1 n1 n2 s1 Hm Hf Hs.
  wp_step. apply wp_time. wp_step. apply wp_time. wp_step. apply wp_time.
  cbn [bm last_alloced epoch]. remember (epoch s1) as e eqn:He1.
  change (mk_inode _ _ _ _ _ _) with
    (written_inode n2 size (time_at e) (time_at (S e)) (time_at (S (S e)))).
  set (n' := written_inode _ _ _ _ _).
  assert (i_type n' = i_type n) as Ht by (cbn; by rewrite (sk_meta _ _ _ _ _ _ Hs)).
  assert (node_wf (bm s1) n') as Hnw' by (by eapply result_node_wf).
  apply wp_put_inode; [by destruct Hs|done|apply Hnw'|]. intros tbl Hlen Htbl.
  cbn [bm last_alloced epoch]. eapply (HQ b1 n1 s1 n2 e tbl); [done..|].
  apply node_at_Some. split; [done|]. split; [|change (i_type n' <> 0); by rewrite Ht].
  unfold table_inode. cbn [bm]. by rewrite blk_set_blk, decide_True.
Qed.

Lemma wp_write_file i n buf size slack s (Q : unit -> inode_manager -> Prop) :
  fs_wf s -> node_at s i = Some n -> 0 <= size <= MAX_SIZE ->
  (blocks_needed (i_size n) size + slack <= nfree (bm s))%nat ->
  (forall s' e, fs_wf s' -> last_alloced s' = last_alloced s -> (epoch s <= e)%nat ->
     file_at s' i = Some (mk_file (i_type n) (u32 (time_at e)) (u32 (time_at (S (S e))))
                            (u32 (time_at (S e))) (load buf 0 size)) ->
     (forall j, j <> i -> file_at s' j = file_at s j) ->
     (forall c, used (bm s') c = true <->
        (used (bm s) c = true /\ ~ owns s i c) \/ owns s' i c) ->
     (forall j c, j <> i -> owns s' j c <-> owns s j c) ->
     (forall c, owns s' i c -> owns s i c \/ used (bm s) c = false) ->
     (slack <= nfree (bm s'))%nat -> Q tt s') ->
  wp (write_file i buf size) Q s.
Proof.
  intros Hwf Hn Hsize Hroom HQ.
  pose proof (fw_node _ Hwf _ _ Hn) as Hnw.
  pose proof (proj1 (node_at_Some _ _ _) Hn) as (Hi & _ & Htype).
  assert (0 < i) as Hi0.
  { destruct (decide (i = 0)) as [->|]; [|lia]. rewrite (fw_zero _ Hwf) in Hn. done. }
  eapply wp_write_commit; [done|exact Hn|done|exact Hroom|].
  intros b1 n1 s1 n2 e tbl n' [Hlast He] <- Hf Hs Hnw' Ht Hlen Htbl s' Hn'.
  assert (bm_wf (bm s1)) as Hb1 by (by destruct Hs).
  assert (forall c, owns s i c <-> owned (bm s) n c) as Howns.
  { intros c. unfold owns. rewrite Hn. split; [by intros (m & [= <-] & Hm)|eauto]. }
  set (e := epoch s1) in *.
  pose proof (result_used _ _ _ _ _ _ _ _ _ (time_at e) (time_at (S e)) (time_at (S (S e)))
    Hf Hs) as Hused. fold n' in Hused.
  destruct (commit_spec s i (bm s1) n' tbl (last_alloced s1) (S (S (S (S e)))))
    as (Hwf' & Hfile & Hother & Howns' & Howner); try done; try congruence.
  { lia. }
  { rewrite Hlast. apply Hwf. }
  { intros c Hc. rewrite Howns. by eapply result_new. }
  { intros c Hu Hc. apply Hused. left. by rewrite <- Howns. }
  { intros c Hc Hc'. eapply result_frame; [exact Hf|exact Hs|by rewrite <- Howns|exact Hc']. }
  subst s'. apply (HQ _ e); [done|done|done| |done| |done| |].
  - rewrite Hfile. unfold file_of, n'. cbn.
    rewrite (result_content _ n buf size slack b1 n1 (bm s1) n2) by done.
    by rewrite (sk_meta _ _ _ _ _ _ Hs).
  - intros c. rewrite Howns'. setoid_rewrite Howns. apply Hused.
  - intros c Hc%Howns'. rewrite Howns. by eapply result_new.
  - cbn [bm]. rewrite nfree_set_blk. etrans; [apply (fd_room _ _ _ _ _ _ _ Hf)|].
    apply nfree_mono. intros c Hc. by apply (sk_used _ _ _ _ _ _ Hs).
Qed.

(** A file that is cut to nothing keeps its first block. *)
Lemma wp_truncate i n buf s (Q : unit -> inode_manager -> Prop) :
  fs_wf s -> node_at s i = Some n ->
  (forall s' n', node_at s' i = Some n' -> i_size n' = 0 ->
     slot (bm s') n' 0 = slot (bm s) n 0 -> Q tt s') ->
  wp (write_file i buf 0) Q s.
Proof.
  intros Hwf Hn HQ. pose proof (size_range _ _ (fw_node _ Hwf _ _ Hn)) as Hsz.
  pose proof (nb_range (i_size n) Hsz) as Hnb.
  eapply (wp_write_commit i n buf 0 0); [done|exact Hn|done| |].
  { unfold blocks_needed. rewrite nb_zero. case_decide; lia. }
  intros b1 n1 s1 n2 e tbl n' _ _ Hf Hs _ _ _ _ s' Hn'. apply (HQ _ n'); [done|done|].
  transitivity (slot (bm s1) n' 0).
  { cbn [bm]. unfold slot at 1. cbn. reflexivity. }
  change (slot (bm s1) n' 0) with (slot (bm s1) n2 0).
  rewrite (sk_slot _ _ _ _ _ _ Hs) by done. rewrite decide_True by done.
  apply (fd_ge _ _ _ _ _ _ _ Hf). by split.
Qed.
End write_file.
