(* ===== verification/ReadFile.v ===== *)
(** [inode_manager::read_file]: its specification.

    [wp_read_file] says that reading an allocated inode returns its size and a
    buffer that starts with its contents, whatever the [malloc]ed memory held,
    and that all it changes is the access time of that file. *)
From S2P Require Import Prelude Monad Disk BlockManager Inode InodeManager FsInv WriteFile.
From Stdlib Require Import Ascii ZArith Lia.
From stdpp Require Import base gmap numbers list.
#[local] Open Scope Z_scope.

(** [block_count] and [remain_size] of a file of [size] bytes. *)
Lemma read_block_count_eq size :
  0 <= size <= MAX_SIZE ->
  i32 (size / BLOCK_SIZE) +
    (if negb (size mod BLOCK_SIZE =? 0) || (i32 (size / BLOCK_SIZE) =? 0) then 1 else 0) =
  Z.max 1 (nb size).
Proof.
  unfold MAX_SIZE, BLOCK_SIZE, nb. intros Hs.
  assert (0 <= size / 512 <= 228) as Hd by dlia. rewrite i32_id by lia.
  destruct (Z.eqb_spec (size mod 512) 0), (Z.eqb_spec (size / 512) 0); cbn [negb orb]; revert Hs; dlia.
Qed.

Lemma lookup_splice (dst src : bytes) (off len : nat) (p : nat) :
  (off + len <= length dst)%nat -> (len <= length src)%nat ->
  (take off dst ++ take len src ++ drop (off + len) dst) !! p =
  if decide (off <= p < off + len)%nat then src !! (p - off)%nat else dst !! p.
Proof.
  intros Hd Hs. destruct (decide (p < off)%nat) as [Hp|Hp].
  { rewrite lookup_app_l by (rewrite length_take; lia). rewrite lookup_take_lt by done.
    by rewrite decide_False by lia. }
  rewrite lookup_app_r by (rewrite length_take; lia). rewrite length_take.
  replace (off `min` length dst)%nat with off by lia.
  case_decide as Hc.
  - rewrite lookup_app_l by (rewrite length_take; lia). by rewrite lookup_take_lt by lia.
  - rewrite lookup_app_r by (rewrite length_take; lia). rewrite length_take, lookup_drop.
    f_equal. lia.
Qed.

Section read_file.
Context `{E : Env}.
Context (b : block_manager) (n : inode).
Hypothesis Hb : bm_wf b.
Hypothesis Hn : node_wf b n.
Let size : Z := i_size n.
Let bc : Z := Z.max 1 (nb size).
Let rem : Z := size mod 512.

(** The bytes of the first [k] blocks are in the buffer. *)
Definition copied (k : Z) (out : bytes) : Prop :=
  Z.of_nat (length out) = 512 * bc /\
  forall p, 0 <= p < size -> p < 512 * k -> out !! Z.to_nat p = Some (content_at b n p).

Lemma bc_range : 1 <= bc <= 228 /\ size <= 512 * bc.
Proof. pose proof (nb_range size (size_range _ _ Hn)). unfold bc, nb in *. dlia. Qed.

Lemma copied_mono k k' out : k' <= k -> copied k out -> copied k' out.
Proof. intros Hk [Hl H]. split; [done|]. intros p Hp Hpk. apply H; [done|lia]. Qed.

Lemma copied_skip k out : nb size <= k -> copied k out -> copied (k + 1) out.
Proof. intros Hk [Hl H]. split; [done|]. intros p Hp _. apply H; [done|]. unfold nb in Hk. dlia. Qed.

(** Copying block [k] completely, or up to the end of the file. *)
Lemma wp_copy {S} k out len (Q : bytes -> S -> Prop) s :
  0 <= k < bc -> copied k out -> len = 512 \/ (k = bc - 1 /\ len = rem /\ rem <> 0) ->
  (forall out, copied (k + 1) out -> Q out s) ->
  wp (memcpy_at out (k * BLOCK_SIZE) (blk b (slot b n k)) len) Q s.
Proof.
  intros Hk [Hl Hc] Hlen HQ. pose proof bc_range as [Hbc Hle].
  assert (Z.of_nat (length (blk b (slot b n k))) = 512) as Hblk
    by (by rewrite (bm_wf_len _ Hb)).
  assert (0 <= len <= 512) as Hlen' by (destruct Hlen as [->|(_ & -> & _)]; unfold rem; dlia).
  unfold BLOCK_SIZE. apply wp_memcpy_at; [lia..|]. apply HQ.
  rewrite Z2Nat.inj_add by lia. split.
  - rewrite !length_app, !length_take, length_drop. lia.
  - intros p Hp Hpk. rewrite lookup_splice by lia. case_decide as Hd; [|apply Hc; [done|]].
    + assert (p / 512 = k) as Hq by dlia.
      unfold content_at. rewrite Hq. rewrite nth_lookup.
      assert (p mod 512 = p - k * 512) as Hm by (clear - Hq; revert Hq; dlia).
      replace (Z.to_nat p - Z.to_nat (k * 512))%nat with (Z.to_nat (p mod 512)) by lia.
      destruct (blk b (slot b n k) !! Z.to_nat (p mod 512)) eqn:El; [done|].
      apply lookup_ge_None in El. lia.
    + destruct Hlen as [->|(-> & -> & Hr)]; [lia|]. unfold rem, bc, nb in *. dlia.
Qed.

Lemma slot_valid k : 0 <= k < 228 -> used b (slot b n k) = true -> k < bc.
Proof.
  intros Hk Hu. destruct (decide (k < bc)); [done|]. rewrite (nw_hole _ _ Hn) in Hu
    by (unfold bc, size in *; lia).
  apply used_data in Hu as [H _]; [by destruct H|done].
Qed.

Lemma slot_invalid k : 0 <= k < 228 -> used b (slot b n k) = false -> nb size <= k.
Proof.
  intros Hk Hu. destruct (decide (nb size <= k)); [done|].
  rewrite (nw_used _ _ Hn) in Hu; [done|]. apply owned_slot; [done|].
  apply (nw_full _ _ Hn). unfold size in *. lia.
Qed.

Definition reading (s0 s : inode_manager) : Prop :=
  bm s ≡ b /\ last_alloced s = last_alloced s0 /\ epoch s = epoch s0.

Lemma wp_valid s0 s c (Q : bool -> inode_manager -> Prop) :
  reading s0 s -> (forall s', reading s0 s' -> Q (used b c) s') ->
  wp (with_bm (is_valid_block c)) Q s.
Proof.
  intros (Hs & Hl & He) HQ. apply wp_with_bm. apply wp_is_valid_block; [by rewrite Hs|].
  intros b' Hb'. rewrite Hs in Hb' |- *. by apply HQ.
Qed.

Lemma wp_read_slot s0 s c buf (Q : bytes -> inode_manager -> Prop) :
  reading s0 s -> length buf = Z.to_nat BLOCK_SIZE -> c < BLOCK_NUM ->
  (forall s', reading s0 s' -> Q (blk b c) s') ->
  wp (with_bm (bm_read_block c buf)) Q s.
Proof.
  intros (Hs & Hl & He) Hlen Hc HQ. apply wp_with_bm.
  apply wp_bm_read; [by rewrite Hs|done|done|]. rewrite (bm_equiv_blk _ _ _ Hs). by apply HQ.
Qed.

Lemma slot_lt k : 0 <= k < 228 -> used b (slot b n k) = true -> slot b n k < BLOCK_NUM.
Proof. intros Hk Hu. by apply used_data in Hu as [_ ?]. Qed.

Lemma slot_direct k : 0 <= k < 100 -> default 0 (i_blocks n !! Z.to_nat k) = slot b n k.
Proof. intros Hk. unfold slot, vslot. by rewrite (proj2 (Z.ltb_lt _ _)) by lia. Qed.

Lemma slot_indirect k : 0 <= k < 128 -> ind n <> 0 ->
  rd32 (blk b (ind n)) (Z.to_nat k) = slot b n (k + 100).
Proof.
  intros Hk Hi. unfold slot, vslot, ind_bytes. rewrite (proj2 (Z.ltb_ge _ _)) by lia.
  rewrite (proj2 (Z.eqb_neq _ _)) by done. do 2 f_equal. lia.
Qed.

(** The loop over the direct blocks ends with every block copied, or at
    [NDIRECT] with the direct ones copied. *)
Lemma wp_read_direct s0 s out (Q : Z * bytes -> inode_manager -> Prop) :
  reading s0 s -> copied 0 out ->
  (forall i out s', reading s0 s' -> copied (if i =? 100 then 100 else bc) out ->
     (i = 100 \/ bc <= 100) -> Q (i, out) s') ->
  wp (loop (S (Z.to_nat NDIRECT)) (read_direct n bc rem) (0, out)) Q s.
Proof.
  intros Hs Ho HQ. pose proof bc_range as [Hbc _].
  apply wp_loop with (Inv := fun l s => reading s0 s /\ 0 <= l.1 <= 100 /\ copied l.1 l.2)
    (variant := fun l => Z.to_nat (100 - l.1)); [|done|unfold NDIRECT; simpl; lia].
  intros [i out'] s' (Hs' & Hi & Hc). cbn [fst snd] in Hi, Hc. unfold read_direct.
  apply wp_if; unfold NDIRECT; intros Hlt.
  - wp_step. apply wp_get_slot; [unfold NDIRECT; lia|apply Hn|]. rewrite slot_direct by lia.
    wp_step. eapply wp_valid; [exact Hs'|]. clear s' Hs'. intros s' Hs'.
    apply wp_if; intros Hu.
    + pose proof (slot_valid i ltac:(lia) Hu).
      wp_step. eapply wp_read_slot; [exact Hs'|done|apply slot_lt; [lia|done]|]. clear s' Hs'. intros s' Hs'.
      apply wp_if; intros Hlast; wp_step.
      * apply wp_copy; [lia|done|unfold BLOCK_SIZE; lia|]. intros out2 Hc2. wp_step. apply HQ; [done| |lia].
        rewrite (proj2 (Z.eqb_neq _ _)) by lia. by replace bc with (i + 1) by lia.
      * apply wp_copy; [lia|done|unfold BLOCK_SIZE; lia|]. intros out2 Hc2. wp_step. cbn [fst snd].
        split; [split; [done|split; [lia|done]]|lia].
    + wp_step. cbn [fst snd]. split; [split; [done|split; [lia|]]|lia].
      apply copied_skip; [by apply slot_invalid; [lia|]|done].
  - wp_step. assert (i = 100) as -> by lia. apply HQ; [done|done|by left].
Qed.

Lemma wp_read_indirect s0 s out (Q : Z * bytes -> inode_manager -> Prop) :
  reading s0 s -> copied 100 out -> ind n <> 0 ->
  (forall i out s', reading s0 s' -> copied bc out -> Q (i, out) s') ->
  wp (loop (S (Z.to_nat (bc - NDIRECT))) (read_indirect (blk b (ind n)) bc rem) (0, out)) Q s.
Proof.
  intros Hs Ho Hind HQ. pose proof bc_range as [Hbc _]. unfold NDIRECT.
  assert (100 < bc) as Hbig by (rewrite (nw_ind _ _ Hn) in Hind; unfold bc, size; lia).
  assert (Z.of_nat (length (blk b (ind n))) = 512) as Hl by (by rewrite (bm_wf_len _ Hb)).
  apply wp_loop with
    (Inv := fun l s => reading s0 s /\ 0 <= l.1 <= bc - 100 /\ copied (l.1 + 100) l.2)
    (variant := fun l => Z.to_nat (bc - 100 - l.1)); [|simpl; split; [done|split; [lia|done]]|simpl; lia].
  intros [i out'] s' (Hs' & Hi & Hc). cbn [fst snd] in Hi, Hc. unfold read_indirect.
  apply wp_if; unfold NDIRECT; intros Hlt.
  - wp_step. apply wp_load32; [lia|lia|]. rewrite slot_indirect by (done || lia).
    wp_step. eapply wp_valid; [exact Hs'|]. clear s' Hs'. intros s' Hs'.
    apply wp_if; intros Hu.
    + wp_step. apply wp_load32; [lia|lia|]. rewrite slot_indirect by (done || lia).
      wp_step. eapply wp_read_slot; [exact Hs'|done|apply slot_lt; [lia|done]|]. clear s' Hs'. intros s' Hs'.
      apply wp_if; intros Hlast; wp_step.
      * apply wp_copy; [lia|done|unfold BLOCK_SIZE; lia|]. intros out2 Hc2. wp_step. apply HQ; [done|].
        by replace bc with (i + 100 + 1) by lia.
      * apply wp_copy; [lia|done|unfold BLOCK_SIZE; lia|]. intros out2 Hc2. wp_step. cbn [fst snd].
        split; [split; [done|split; [lia|]]|lia]. by replace (i + 1 + 100) with (i + 100 + 1) by lia.
    + apply slot_invalid in Hu; [|lia]. unfold bc in *. lia.
  - wp_step. apply HQ; [done|]. by replace bc with (i + 100) by lia.
Qed.

Lemma copied_content out : copied bc out -> take (Z.to_nat size) out = content b n.
Proof.
  intros [Hl Hc]. pose proof bc_range as [Hbc Hle]. pose proof (size_range _ _ Hn) as [Hs _].
  pose proof (length_content b n (nw_ok _ _ Hn)) as Hlen. fold size in Hlen.
  apply list_eq_same_length with (Z.to_nat size); [lia|rewrite length_take; lia|].
  intros p x y Hp Hx Hy. rewrite lookup_take_lt in Hx by done.
  rewrite <- (Nat2Z.id p), Hc in Hx by lia.
  unfold content in Hy. rewrite list_lookup_fmap in Hy. fold size in Hy.
  rewrite lookup_zrange, Z.add_0_l in Hy by done. simplify_eq/=. done.
Qed.
End read_file.

Section read_spec.
Context `{E : Env}.

(** Storing an inode again with another access time. *)
Lemma set_atime_wf b n t : node_wf b n -> node_wf b (set_atime n t).
Proof.
  intros Hn. split; try (apply Hn). split; try (apply (nw_ok _ _ Hn)). apply u32_range.
Qed.

(** Only the access time of [i] changes. *)
Lemma atime_commit i n t tbl s b last ep (P : inode_manager -> Prop) :
  fs_wf s -> node_at s i = Some n -> b ≡ bm s -> last = last_alloced s ->
  length tbl = Z.to_nat BLOCK_SIZE -> inode_of_bytes tbl = set_atime n t ->
  (forall s', fs_wf s' -> last_alloced s' = last_alloced s ->
     file_at s' i = Some (mk_file (i_type n) (u32 t) (i_mtime n) (i_ctime n)
                            (content (bm s) n)) ->
     (forall j, j <> i -> file_at s' j = file_at s j) ->
     (forall j c, owns s' j c <-> owns s j c) ->
     (forall c, used (bm s') c = used (bm s) c) -> P s') ->
  P (mk_im (set_blk (i + 11) tbl b) last ep).
Proof.
  intros Hwf Hn Hbb -> Hlen Htbl HP. pose proof (fw_bm _ Hwf) as Hb.
  pose proof (fw_node _ Hwf _ _ Hn) as Hnw.
  pose proof (proj1 (node_at_Some _ _ _) Hn) as (Hi & _ & Htype).
  assert (0 < i) as Hi0.
  { destruct (decide (i = 0)) as [->|]; [|lia]. rewrite (fw_zero _ Hwf) in Hn. done. }
  assert (forall c, owned b (set_atime n t) c <-> owned (bm s) n c) as Ho.
  { intros c. apply (frame_owned (bm s) b n). intros. by apply bm_equiv_blk. }
  assert (node_wf b n) as Hnb.
  { apply (frame_node_wf (bm s)); [| |done]; intros c Hc.
    - by apply bm_equiv_blk.
    - rewrite (bm_equiv_used _ _ _ Hbb). by apply (nw_used _ _ Hnw). }
  destruct (commit_spec s i b (set_atime n t) tbl (last_alloced s) ep)
    as (Hwf' & Hfile & Hother & Howns & Howner); try done; try lia; try apply Hwf.
  { by rewrite Hbb. }
  { by apply set_atime_wf. }
  { intros c Hc. left. exists n. split; [done|]. by apply Ho. }
  { intros c Hu _. by rewrite (bm_equiv_used _ _ _ Hbb). }
  { intros c _ _. by apply bm_equiv_blk. }
  apply HP; [done|done| |done| |].
  - rewrite Hfile. f_equal. unfold file_of. f_equal. apply (frame_content (bm s) b n); [|done].
    intros. by apply bm_equiv_blk.
  - intros j c. destruct (decide (j = i)) as [->|Hj].
    + rewrite Howns, Ho. unfold owns. rewrite Hn. split; [eauto|by intros (m & [= ->] & Hm)].
    + by apply Howner.
  - intros c. apply (bm_equiv_used _ _ c Hbb).
Qed.

Lemma wp_read_file i n size0 s (Q : option bytes * Z -> inode_manager -> Prop) :
  fs_wf s -> node_at s i = Some n ->
  (forall out s' e, fs_wf s' -> last_alloced s' = last_alloced s ->
     take (Z.to_nat (i_size n)) out = content (bm s) n ->
     file_at s' i = Some (mk_file (i_type n) (u32 (time_at e)) (i_mtime n) (i_ctime n)
                            (content (bm s) n)) ->
     (forall j, j <> i -> file_at s' j = file_at s j) ->
     (forall j c, owns s' j c <-> owns s j c) ->
     (forall c, used (bm s') c = used (bm s) c) ->
     Q (Some out, i_size n) s') ->
  wp (read_file i size0) Q s.
Proof.
  intros Hwf Hn HQ. pose proof (fw_bm _ Hwf) as Hb.
  pose proof (fw_node _ Hwf _ _ Hn) as Hnw.
  pose proof (proj1 (node_at_Some _ _ _) Hn) as (Hi & _ & Htype).
  pose proof (size_range _ _ Hnw) as Hsize.
  unfold read_file. apply wp_if; intros Hgt; [lia|]. wp_step. apply wp_get_inode; [done|lia|].
  rewrite Hn. rewrite read_block_count_eq by done. set (bc := Z.max 1 (nb (i_size n))).
  cbv zeta. rewrite !i32_id by (unfold BLOCK_SIZE, MAX_SIZE in *; dlia).
  wp_step. apply wp_uninit. intros out Hout.
  pose proof (bc_range _ _ Hnw) as [Hbc Hle]. fold bc in Hbc, Hle.
  set (s0 := mk_im (bm s) (last_alloced s) (S (epoch s))).
  wp_step. apply (wp_read_direct (bm s) n Hb Hnw s0); [done| |].
  { split; [fold bc; rewrite Hout; unfold BLOCK_SIZE; lia|]. intros p Hp1 Hp2. lia. }
  intros k out1 s1 Hs1 Hc1 Hk. wp_step. apply wp_get_ind; [apply Hnw|]. cbn [fst snd]. wp_step.
  assert (forall out2 s2, reading (bm s) s0 s2 -> copied (bm s) n bc out2 ->
    wp (t ← time_NULL; _ ← put_inode i (Some (set_atime n t)); mret (Some out2, i_size n)) Q s2)
    as Hfin.
  { intros out2 s2 (Hs2 & Hl2 & He2) Hc2. wp_step. apply wp_time. wp_step.
    pose proof (set_atime_wf _ _ (time_at (epoch s2)) Hnw) as Hnw'.
    apply wp_put_inode; [cbn [bm]; by rewrite Hs2|done|apply Hnw'|]. intros tbl Hlen Htbl.
    cbn [bm last_alloced epoch]. wp_step. cbn [s0 last_alloced] in Hl2. cbn [fst].
    apply (atime_commit i n (time_at (epoch s2)) tbl s (bm s2) _ _ (Q (Some out2, i_size n)));
      try done. intros s' Hwf' Hl' Hf' Ho' Hown' Hu'. apply (HQ out2 s' (epoch s2)); try done.
    by apply copied_content. }
  destruct (Z.eqb_spec k NDIRECT) as [Hk100|Hk100].
  - eapply wp_valid; [done|exact Hs1|]. clear s1 Hs1. intros s1 Hs1.
    rewrite (proj2 (Z.eqb_eq k 100)) in Hc1 by done.
    destruct (decide (ind n = 0)) as [H0|H0].
    + assert (used (bm s) (ind n) = false) as -> by (rewrite H0; by apply zero_unused).
      wp_steps. apply Hfin; [done|]. rewrite (nw_ind _ _ Hnw) in H0.
      eapply copied_mono; [|exact Hc1]. lia.
    + rewrite (nw_used _ _ Hnw) by by apply owned_ind.
      wp_step. wp_step. eapply wp_read_slot; [done|exact Hs1|done| |].
      { apply (used_data (bm s)); [done|]. apply (nw_used _ _ Hnw). by apply owned_ind. }
      clear s1 Hs1. intros s1 Hs1. wp_step.
      apply (wp_read_indirect (bm s) n Hb Hnw s0); [done|done|done|].
      intros k2 out2 s2 Hs2 Hc2. wp_steps. by apply Hfin.
  - wp_steps. apply Hfin; [done|]. by rewrite (proj2 (Z.eqb_neq k 100)) in Hc1 by done.
Qed.
End read_spec.
