(* ===== verification/AllocInode.v ===== *)
(** [inode_manager::alloc_inode] and the constructor: their specifications.

    The candidates are tried in the cyclic order [to_alloc last 1],
    [to_alloc last 2], ...; the first free one becomes an empty file. *)
From S2P Require Import Prelude Monad Disk BlockManager Inode InodeManager FsInv.
From Stdlib Require Import Ascii ZArith Lia.
From stdpp Require Import base gmap numbers list.
#[local] Open Scope Z_scope.

(** ** The candidates *)
Lemma to_alloc_range last i :
  0 <= last <= INODE_NUM -> 1 <= i <= INODE_NUM -> 1 <= to_alloc last i <= INODE_NUM.
Proof.
  unfold INODE_NUM, to_alloc. intros Hl Hi. unfold INODE_NUM, u32.
  rewrite (Z.mod_small (i + last)) by lia.
  destruct (Z.leb_spec 1024 (i + last)); [|lia]. revert Hl Hi. dlia.
Qed.

(** Every inode number below [INODE_NUM] is tried. *)
Lemma to_alloc_onto last n :
  0 <= last <= INODE_NUM -> 1 <= n < INODE_NUM ->
  exists i, 1 <= i <= INODE_NUM /\ to_alloc last i = n.
Proof.
  unfold INODE_NUM. intros Hl Hn.
  assert (forall i, 1 <= i <= 1024 ->
    to_alloc last i = if 1024 <=? i + last then (i + last) mod 1024 + 1 else i + last) as Ht.
  { intros i Hi. unfold to_alloc, INODE_NUM, u32. rewrite (Z.mod_small (i + last)) by lia.
    destruct (Z.leb_spec 1024 (i + last)); [|done].
    rewrite (Z.mod_small (_ + 1)); [done|revert Hl Hi; dlia]. }
  destruct (decide (last < n)).
  - exists (n - last). split; [lia|]. rewrite Ht by lia.
    rewrite (proj2 (Z.leb_gt _ _)) by lia. lia.
  - exists (if decide (last = 1024 /\ n = 1) then 1024 else
            if decide (last = 1024) then n - 1 else n + 1023 - last).
    case_decide as H1; [|case_decide as H2]; (split; [lia|]); rewrite Ht by lia;
      rewrite (proj2 (Z.leb_le _ _)) by lia; revert Hl Hn; dlia.
Qed.

(** 1024 is only tried from the two last numbers. *)
Lemma to_alloc_last last i :
  0 <= last <= INODE_NUM -> 1 <= i <= INODE_NUM -> to_alloc last i = INODE_NUM ->
  INODE_NUM - 1 <= last.
Proof.
  unfold INODE_NUM, to_alloc. intros Hl Hi. unfold INODE_NUM, u32.
  rewrite (Z.mod_small (i + last)) by lia.
  destruct (Z.leb_spec 1024 (i + last)); [|lia]. revert Hl Hi. dlia.
Qed.

(** ** The new inode *)
Definition new_inode (type t : Z) : inode :=
  mk_inode (i16 type) 0 (u32 t) (u32 t) (u32 t) (replicate 101 0).

Lemma new_inode_ok type t : inode_ok (new_inode type t).
Proof.
  split; try apply u32_range; cbn [new_inode i_type i_size i_blocks]; [|lia| |done].
  - unfold i16. pose proof (Z.mod_pos_bound (type + 2 ^ 15) (2 ^ 16)). lia.
  - by apply Forall_replicate.
Qed.

Lemma new_inode_slot b type t j : slot b (new_inode type t) j = 0.
Proof.
  unfold slot, vslot, ind_bytes. change (ind (new_inode type t)) with 0. cbn [Z.eqb].
  rewrite rd32_zero_block. destruct (j <? 100); [|done].
  cbn [new_inode i_blocks]. destruct (replicate 101 0 !! Z.to_nat j) eqn:El; [|done].
  apply lookup_replicate in El as [-> _]. done.
Qed.

Lemma new_inode_owned b type t c : ~ owned b (new_inode type t) c.
Proof.
  intros [Hc [->|(j & _ & Hj)]]; [done|]. by rewrite new_inode_slot in Hj.
Qed.

Lemma new_inode_wf b type t : node_wf b (new_inode type t).
Proof.
  split; try setoid_rewrite new_inode_slot; try done.
  - apply new_inode_ok.
  - intros c Hc. by apply new_inode_owned in Hc.
  - cbn [new_inode i_size]. change (nb 0) with 0. lia.
Qed.

Definition empty_file (type t : Z) : file := mk_file (i16 type) (u32 t) (u32 t) (u32 t) [].

Section alloc_inode.
Context `{E : Env}.

(** One candidate. *)
Lemma wp_alloc_inode_body n i s (Q : ctl (Z * option Z) -> inode_manager -> Prop) :
  bm_wf (bm s) -> inode_ok n -> i <= INODE_NUM -> 0 <= to_alloc (last_alloced s) i <= INODE_NUM ->
  let k := to_alloc (last_alloced s) i in
  (node_at s k = None -> forall tbl, length tbl = Z.to_nat BLOCK_SIZE -> inode_of_bytes tbl = n ->
     Q (Stop (i, Some k)) (mk_im (set_blk (k + 11) tbl (bm s)) k (S (epoch s)))) ->
  (node_at s k <> None -> Q (Next (i + 1, None)) s) ->
  wp (alloc_inode_body n (i, None)) Q s.
Proof.
  cbv zeta. intros Hb Hn Hi Hk Hfree Hbusy. unfold alloc_inode_body. cbn [fst].
  apply wp_if; intros Hc; [|lia]. wp_steps. apply wp_get_inode; [done|lia|].
  destruct (node_at s _) as [m|] eqn:Em; wp_step; [by apply Hbusy|].
  apply wp_put_inode; [done|done|done|]. intros tbl Hlen Htbl. wp_steps.
  cbn [bm epoch]. by apply Hfree.
Qed.

Lemma wp_alloc_inode type s (Q : Z -> inode_manager -> Prop) :
  fs_wf s -> i16 type <> 0 ->
  (forall i s', 1 <= i <= INODE_NUM -> let k := to_alloc (last_alloced s) i in
     file_at s k = None ->
     (forall i', 1 <= i' < i -> file_at s (to_alloc (last_alloced s) i') <> None) ->
     fs_wf s' -> last_alloced s' = k ->
     file_at s' k = Some (empty_file type (time_at (epoch s))) ->
     (forall j, j <> k -> file_at s' j = file_at s j) ->
     (forall j c, owns s' j c <-> owns s j c) ->
     (forall c, used (bm s') c = used (bm s) c) -> Q k s') ->
  ((forall i, 1 <= i <= INODE_NUM -> file_at s (to_alloc (last_alloced s) i) <> None) ->
     Q 0 (mk_im (bm s) (last_alloced s) (S (epoch s)))) ->
  wp (alloc_inode type) Q s.
Proof.
  intros Hwf Htype Hfree Hfull. unfold alloc_inode. wp_step. apply wp_time.
  pose proof (fw_last _ Hwf) as Hlast. pose proof (fw_bm _ Hwf) as Hb.
  set (t := time_at (epoch s)). fold (new_inode type t).
  set (s1 := mk_im (bm s) (last_alloced s) (S (epoch s))).
  assert (forall k, file_at s k = None <-> node_at s1 k = None) as Hnone.
  { intros k. unfold file_at. change (node_at s1 k) with (node_at s k). by destruct (node_at s k). }
  wp_step. apply wp_loop with
    (Inv := fun l s' => s' = s1 /\ l.2 = None /\ 1 <= l.1 <= INODE_NUM + 1 /\
       forall i', 1 <= i' < l.1 -> file_at s (to_alloc (last_alloced s) i') <> None)
    (variant := fun l => Z.to_nat (INODE_NUM + 1 - l.1)).
  - intros [i o] s' (-> & Ho & Hi & Hbusy). cbn [fst snd] in *. subst o.
    destruct (decide (i <= INODE_NUM)) as [Hle|Hgt].
    + pose proof (to_alloc_range (last_alloced s) i Hlast ltac:(lia)) as Hk.
      apply wp_alloc_inode_body; [done|apply new_inode_ok|done|cbn [s1 last_alloced]; lia|..];
        cbn [s1 last_alloced bm epoch].
      * intros Hn tbl Hlen Htbl. wp_step. cbn [from_option default snd].
        set (k := to_alloc _ i) in *.
        assert (forall c, ~ owns s k c) as Hno.
        { intros c (m & Hm & _). change (node_at s k) with (node_at s1 k) in Hm. congruence. }
        destruct (commit_spec s k (bm s) (new_inode type t) tbl k (S (S (epoch s))))
          as (Hwf' & Hfile & Hother & Howns & Howner); try done; try lia.
        { apply new_inode_wf. }
        { intros c Hc. by apply new_inode_owned in Hc. }
        apply (Hfree i); try done; [lia|by apply Hnone|].
        { intros j c. destruct (decide (j = k)) as [->|Hj]; [|by apply Howner].
          rewrite Howns. split; [intros Hc; by apply new_inode_owned in Hc|intros Hc; by apply Hno in Hc]. }
      * intros Hn. cbn [fst snd]. split; [|lia]. split; [done|]. split; [done|]. split; [lia|].
        intros i' Hi'. destruct (decide (i' = i)) as [->|]; [|apply Hbusy; lia].
        by rewrite Hnone.
    + unfold alloc_inode_body. cbn [fst]. rewrite (proj2 (Z.leb_gt _ _)) by lia. wp_steps.
      cbn [from_option default snd]. apply Hfull. intros i' Hi'. apply Hbusy. lia.
  - cbn [fst snd]. split; [done|]. split; [done|]. split; [unfold INODE_NUM; lia|].
    intros. lia.
  - cbn [fst]. unfold INODE_NUM. lia.
Qed.
End alloc_inode.

(** ** The constructor *)
Section constructor.
Context `{E : Env}.

(** A disk whose inode table holds nothing. *)
Lemma node_at_new last ep i : node_at (mk_im block_manager_new last ep) i = None.
Proof.
  unfold node_at. destruct (_ && _); [|done]. cbv zeta. unfold table_inode. cbn [bm].
  change (blk block_manager_new (i + 11)) with (disk_block disk_new (i + 11)).
  by rewrite disk_new_block.
Qed.

Lemma fs_wf_new last ep : 0 <= last <= INODE_NUM -> fs_wf (mk_im block_manager_new last ep).
Proof.
  intros Hl. split; try (intros *; rewrite !node_at_new); try done.
  apply block_manager_new_wf.
Qed.

Lemma to_alloc_first last0 : 0 <= last0 < 2 ^ 32 -> 0 <= to_alloc last0 1 <= INODE_NUM.
Proof.
  intros Hl. unfold to_alloc, INODE_NUM. pose proof (u32_range (1 + last0)) as Hu.
  destruct (Z.leb_spec 1024 (u32 (1 + last0))); [|lia].
  rewrite u32_id by (revert Hu; dlia). revert Hu; dlia.
Qed.

(** The constructor allocates the root from the uninitialised cursor. *)
Lemma root_alloc last0 : 0 <= last0 < 2 ^ 32 ->
  exists tbl, length tbl = Z.to_nat BLOCK_SIZE /\
    inode_of_bytes tbl = new_inode T_DIR (time_at 0) /\
    let k := to_alloc last0 1 in
    alloc_inode T_DIR (mk_im block_manager_new last0 0) =
      Ok (k, mk_im (set_blk (k + 11) tbl block_manager_new) k 2).
Proof.
  intros Hl. pose proof (to_alloc_first _ Hl) as Hk.
  assert (wp (alloc_inode T_DIR) (fun r s' => exists tbl, length tbl = Z.to_nat BLOCK_SIZE /\
    inode_of_bytes tbl = new_inode T_DIR (time_at 0) /\ let k := to_alloc last0 1 in
    r = k /\ s' = mk_im (set_blk (k + 11) tbl block_manager_new) k 2)
    (mk_im block_manager_new last0 0)) as H.
  { unfold alloc_inode. wp_step. apply wp_time. cbn [epoch bm last_alloced].
    fold (new_inode T_DIR (time_at 0)). wp_step. cbn [loop]. wp_step.
    apply wp_alloc_inode_body; [apply block_manager_new_wf|apply new_inode_ok|done|done|..].
    - intros _ tbl Hlen Htbl. wp_steps. exists tbl. cbv zeta. auto.
    - by rewrite node_at_new. }
  apply wp_run in H as (r & s' & Hrun & tbl & Hlen & Htbl & -> & ->). by exists tbl.
Qed.

Lemma inode_manager_new_run last0 : 0 <= last0 < 2 ^ 32 ->
  if to_alloc last0 1 =? 1
  then exists s, inode_manager_new last0 = Ok s /\ fs_wf s /\ last_alloced s = 0 /\
         file_at s 1 = Some (empty_file T_DIR (time_at 0)) /\
         (forall j, j <> 1 -> file_at s j = None) /\
         (forall c, used (bm s) c = false) /\ nfree (bm s) = nfree block_manager_new
  else inode_manager_new last0 = Exit 0.
Proof.
  intros Hl. destruct (root_alloc last0 Hl) as (tbl & Hlen & Htbl & Hrun).
  unfold inode_manager_new, inode_manager_init, run_st.
  rewrite (bind_Ok _ _ _ _ _ Hrun). cbn -[Z.eqb set_blk].
  destruct (Z.eqb_spec (to_alloc last0 1) 1) as [->|Hne]; cbn -[set_blk]; [|done].
  eexists. split; [done|].
  destruct (commit_spec (mk_im block_manager_new 0 0) 1 block_manager_new
    (new_inode T_DIR (time_at 0)) tbl 0 2) as (Hwf' & Hfile & Hother & _); try done; try lia.
  - by apply fs_wf_new.
  - apply block_manager_new_wf.
  - apply new_inode_wf.
  - intros c Hc. by apply new_inode_owned in Hc.
  - split; [done|]. split; [done|]. split; [done|]. split; [|done].
    intros j Hj. rewrite Hother by done. unfold file_at. by rewrite node_at_new.
Qed.
End constructor.
