(* ===== verification/RemoveFile.v ===== *)
(** [inode_manager::get_attr], [free_inode] and [remove_file]: their
    specifications.

    [remove_file] frees the blocks [released]: the direct blocks of the file and
    its indirect block.  The data blocks behind the indirect block stay marked:
    [get_indirect_blocks] counts them with [strlen], and a block number is below
    2^16, so the count is always 0. *)
From S2P Require Import Prelude Monad Disk BlockManager Inode InodeManager FsInv.
From Stdlib Require Import Ascii ZArith Lia.
From stdpp Require Import base gmap numbers list.
#[local] Open Scope Z_scope.

(** The blocks [remove_file] frees. *)
Definition released (b : block_manager) (n : inode) (c : Z) : Prop :=
  (exists j, 0 <= j < Z.min 100 (nb (i_size n)) /\ slot b n j = c) \/
  (100 < nb (i_size n) /\ c = ind n).

(** ** [strlen] of an indirect block *)
Lemma strlen_bound buf k :
  (k < length buf)%nat -> buf !! k = Some NUL -> exists l, strlen buf = Some l /\ 0 <= l <= Z.of_nat k.
Proof.
  revert k. induction buf as [|c buf IH]; intros k Hk Hl; [simpl in Hk; lia|].
  simpl. case_decide as Hc.
  - exists 0. split; [done|lia].
  - destruct k as [|k]; simpl in *; [congruence|].
    destruct (IH k ltac:(lia) Hl) as (l & -> & Hb). exists (Z.succ l). split; [done|lia].
Qed.

(** A word below 2^24 ends in a NUL, so [strlen] is at most 3. *)
Lemma strlen_word buf :
  (4 <= length buf)%nat -> rd32 buf 0 < 2 ^ 24 -> exists l, strlen buf = Some l /\ l / 4 = 0.
Proof.
  intros Hlen Hr. destruct buf as [|b0 [|b1 [|b2 [|b3 buf]]]]; simpl in Hlen; try lia.
  unfold rd32 in Hr. cbn -[Z_of_byte Z.mul Z.add Z.pow] in Hr.
  rewrite take_0 in Hr. change (le_Z []) with 0 in Hr.
  pose proof (Z_of_byte_range b0). pose proof (Z_of_byte_range b1).
  pose proof (Z_of_byte_range b2). pose proof (Z_of_byte_range b3).
  assert (b3 = NUL) as ->.
  { rewrite <- (byte_of_Z_of_byte b3). replace (Z_of_byte b3) with 0 by lia. done. }
  destruct (strlen_bound (b0 :: b1 :: b2 :: NUL :: buf) 3) as (l & Hl & Hb); [simpl; lia|done|].
  exists l. split; [done|]. apply Z.div_small. lia.
Qed.

Section remove.
Context `{E : Env}.

Lemma wp_get_attr i a s (Q : attr -> inode_manager -> Prop) :
  bm_wf (bm s) -> 0 <= i ->
  Q (match node_at s i with
     | Some n => mk_attr (u32 (i_type n)) (i_atime n) (i_mtime n) (i_ctime n) (i_size n)
     | None => a
     end) s -> wp (get_attr i a) Q s.
Proof.
  intros Hb Hi HQ. unfold get_attr. apply wp_if; intros Hc.
  - unfold node_at in HQ. rewrite (proj2 (Z.leb_gt i _)), andb_false_r in HQ by lia. done.
  - wp_step. apply wp_get_inode; [done|done|]. destruct (node_at s i); by wp_step.
Qed.

(** ** free_inode *)
Section clear.
Context (s : inode_manager) (i : Z) (b : block_manager) (ep : nat).
Hypothesis Hwf : fs_wf s.
Hypothesis Hi : 0 < i <= INODE_NUM.
Hypothesis Hb : bm_wf b.
Hypothesis Hused : forall c, used (bm s) c = true -> ~ owns s i c -> used b c = true.
Hypothesis Hframe : forall c, ~ owns s i c -> blk b c = blk (bm s) c.
Let s' : inode_manager := mk_im (set_blk (i + 11) zero_block b) (last_alloced s) ep.

Lemma clear_none : node_at s' i = None.
Proof.
  unfold node_at, table_inode. destruct (_ && _); [|done]. cbv zeta. cbn [s' bm].
  by rewrite blk_set_blk, decide_True.
Qed.

Lemma clear_frame c : used (bm s) c = true -> ~ owns s i c ->
  used (bm s') c = true /\ blk (bm s') c = blk (bm s) c.
Proof.
  intros Hu Hc. split; [by apply Hused|]. cbn [s' bm]. rewrite blk_set_blk, decide_False; [auto|].
  intros ->. apply used_data in Hu; [|apply Hwf]. by apply (table_not_data i) in Hu; [|lia].
Qed.

Lemma clear_table j : 0 <= j <= INODE_NUM -> j <> i -> blk (bm s') (j + 11) = blk (bm s) (j + 11).
Proof.
  intros Hj Hji. cbn [s' bm]. rewrite blk_set_blk, decide_False by lia. apply Hframe.
  intros Ho. apply owns_used in Ho; [|done]. apply used_data in Ho; [|apply Hwf].
  by apply (table_not_data j) in Ho.
Qed.

Lemma clear_spec :
  fs_wf s' /\ file_at s' i = None /\ (forall j, j <> i -> file_at s' j = file_at s j) /\
  (forall j c, j <> i -> owns s' j c <-> owns s j c).
Proof.
  split; [|split; [by unfold file_at; rewrite clear_none|split]].
  - apply (update_fs_wf s s' i);
      [done|by apply set_blk_wf|lia|apply clear_table|apply clear_frame|apply Hwf|..].
    + by rewrite clear_none.
    + intros c (n & Hn & _). by rewrite clear_none in Hn.
  - apply (update_file_other s s' i); [done|apply clear_table|apply clear_frame].
  - intros j c. apply (update_owns_other s s' i); [done|apply clear_table|apply clear_frame].
Qed.
End clear.

(** [free_inode] of an inode that is in use clears its table block. *)
Lemma wp_free_inode i s (Q : unit -> inode_manager -> Prop) :
  bm_wf (bm s) -> 0 <= i ->
  (node_at s i <> None -> Q tt (upd_bm s (set_blk (i + 11) zero_block (bm s)))) ->
  (node_at s i = None -> Q tt s) -> wp (free_inode i) Q s.
Proof.
  intros Hb Hi Hsome Hnone. unfold free_inode. apply wp_if; intros Hc.
  - wp_step. apply Hnone. unfold node_at. by rewrite (proj2 (Z.leb_gt i _)), andb_false_r by lia.
  - wp_step. apply wp_get_inode; [done|done|].
    destruct (node_at s i) as [n|] eqn:En; [|wp_step; auto].
    wp_step. apply wp_inode_block; [done|lia|].
    apply wp_with_bm, wp_bm_write; [done|apply length_zero_block|apply table_lt; lia|].
    by apply Hsome.
Qed.

(** ** The loops of remove_file *)
Section loops.
Context (b : block_manager) (n : inode) (s0 : inode_manager).
Hypothesis Hb : bm_wf b.
Hypothesis Hn : node_wf b n.

Definition freed_to (k c : Z) : Prop := exists j, 0 <= j < k /\ slot b n j = c.

(** The first [k] slots are freed, and nothing else has changed. *)
Record removed (k : Z) (s : inode_manager) : Prop := {
  rm_meta : last_alloced s = last_alloced s0 /\ epoch s = epoch s0;
  rm_wf : bm_wf (bm s);
  rm_used : forall c, used (bm s) c = true <-> used b c = true /\ ~ freed_to k c;
  rm_blk : forall c, ~ freed_to k c -> blk (bm s) c = blk b c
}.

Lemma removed_equiv k s b' : b' ≡ bm s -> removed k s -> removed k (upd_bm s b').
Proof.
  intros Hbb []. split; [done|cbn; by rewrite Hbb|..]; intros c; cbn [upd_bm bm].
  - by rewrite (bm_equiv_used _ _ c Hbb).
  - rewrite (bm_equiv_blk _ _ c Hbb). auto.
Qed.

Lemma slot_used k s :
  removed k s -> 0 <= k < nb (i_size n) -> k < 228 -> used (bm s) (slot b n k) = true.
Proof.
  intros [_ _ Hu _] Hk Hk'. pose proof (nw_full _ _ Hn k Hk) as Hnz.
  apply Hu. split; [apply (nw_used _ _ Hn); by apply owned_slot; [lia|]|].
  intros (j & Hj & Ej). assert (j = k); [|lia].
  apply (nw_inj _ _ Hn); [lia|lia|congruence|done].
Qed.

Lemma removed_step k s b' :
  removed k s -> 0 <= k -> b' ≡ set_bit (slot b n k) 0 (set_blk (slot b n k) zero_block (bm s)) ->
  removed (k + 1) (upd_bm s b').
Proof.
  intros [Hm Hw Hu Hbl] Hk Hbb.
  assert (forall c, freed_to (k + 1) c <-> freed_to k c \/ c = slot b n k) as Hf.
  { intros c. split.
    - intros (j & Hj & <-). destruct (decide (j = k)) as [->|]; [by right|].
      left. exists j. split; [lia|done].
    - intros [(j & Hj & <-)| ->]; [exists j|exists k]; (split; [lia|done]). }
  split; [done|cbn [upd_bm bm]; rewrite Hbb| |]; cbn [upd_bm bm].
  - apply set_bit_wf; [|by left]. apply set_blk_wf; [done|apply length_zero_block].
  - intros c. rewrite (bm_equiv_used _ _ c Hbb), used_set_bit, used_set_blk, Hf.
    case_decide as Hc; [|rewrite Hu; tauto]. split; [done|]. intros [_ H]. destruct H. by right.
  - intros c. rewrite Hf, (bm_equiv_blk _ _ c Hbb), blk_set_bit, blk_set_blk. intros Hc.
    rewrite decide_False by tauto. apply Hbl. tauto.
Qed.

Lemma wp_remove_direct (Q : Z * Z -> inode_manager -> Prop) s :
  removed 0 s ->
  (forall s', let k := Z.min 100 (nb (i_size n)) in removed k s' -> Q (k, 512 * k) s') ->
  wp (loop (S (Z.to_nat NDIRECT)) (remove_direct n) (0, 0)) Q s.
Proof.
  cbv zeta. intros Hs HQ. pose proof (ok_size _ (nw_ok _ _ Hn)) as Hsz.
  pose proof (nw_size _ _ Hn) as Hmax. pose proof (nb_range (i_size n) ltac:(lia)) as Hnb.
  apply wp_loop with
    (Inv := fun l s => 0 <= l.1 <= Z.min 100 (nb (i_size n)) /\ l.2 = 512 * l.1 /\ removed l.1 s)
    (variant := fun l => Z.to_nat (100 - l.1)).
  - intros [i fs] s' (Hi & Hfs & Hr). cbn [fst snd] in *. subst fs. unfold remove_direct.
    apply wp_if; unfold NDIRECT; intros Hc.
    + assert (i < nb (i_size n)) as Hlt.
      { destruct (decide (i < nb (i_size n))); [done|].
        pose proof (proj2 (nb_le_iff (i_size n) i)). lia. }
      wp_step. apply wp_get_slot; [unfold NDIRECT; lia|apply Hn|].
      assert (default 0 (i_blocks n !! Z.to_nat i) = slot b n i) as ->
        by (unfold slot, vslot; by rewrite (proj2 (Z.ltb_lt _ _)) by lia).
      pose proof (slot_used i s' Hr ltac:(lia) ltac:(lia)) as Hu.
      wp_step. apply wp_with_bm, wp_is_valid_block; [apply Hr|]. intros b1 Hb1.
      rewrite Hu. pose proof (removed_equiv _ _ _ Hb1 Hr) as Hr1.
      wp_step. apply wp_with_bm, wp_free_block; [apply Hr1|by apply slot_used; [|lia|lia]|].
      intros b2 Hb2. wp_step. cbn [fst snd].
      split; [|lia]. split; [lia|]. split.
      * unfold BLOCK_SIZE. rewrite u32_id by lia. lia.
      * by apply removed_step; [|lia|].
    + wp_step. assert (i = Z.min 100 (nb (i_size n))) as ->; [|by apply HQ].
      destruct (decide (i < 100)); [|lia]. pose proof (proj1 (nb_le_iff (i_size n) i)). lia.
  - cbn [fst snd]. split; [lia|]. done.
  - cbn [fst]. unfold NDIRECT. lia.
Qed.

(** The indirect part frees the indirect block only. *)
Lemma ind_words_small : ind n <> 0 -> rd32 (blk b (ind n)) 0 < 2 ^ 24.
Proof.
  intros Hi. assert (rd32 (blk b (ind n)) 0 = slot b n 100) as ->.
  { unfold slot, vslot, ind_bytes. by rewrite (proj2 (Z.eqb_neq _ _)) by done. }
  rewrite (nw_ind _ _ Hn) in Hi.
  assert (data_block (slot b n 100)) as [_ H].
  { apply (owned_data b n); [done|done|]. apply owned_slot; [lia|].
    apply (nw_full _ _ Hn). lia. }
  change BLOCK_NUM with 32768 in H. lia.
Qed.

Lemma ind_not_freed k : k <= 228 -> ind n <> 0 -> ~ freed_to k (ind n).
Proof.
  intros Hk Hi (j & Hj & Ej). apply (nw_ind_ne _ _ Hn j); [lia|congruence|done].
Qed.
End loops.

(** What the loops leave behind is the release of the file's blocks. *)
Definition released_state (s : inode_manager) (n : inode) (s2 : inode_manager) : Prop :=
  last_alloced s2 = last_alloced s /\ bm_wf (bm s2) /\
  (forall c, used (bm s2) c = true <-> used (bm s) c = true /\ ~ released (bm s) n c) /\
  (forall c, ~ released (bm s) n c -> blk (bm s2) c = blk (bm s) c).

Lemma released_owned b n c : node_wf b n -> released b n c -> owned b n c.
Proof.
  intros Hn [(j & Hj & <-)|[Hnb ->]].
  - apply owned_slot; [lia|]. apply (nw_full _ _ Hn). lia.
  - apply owned_ind. rewrite (nw_ind _ _ Hn). lia.
Qed.

(** The indirect block of a large file is freed, its entries are not. *)
Lemma wp_remove_indirect_part n s s1 fs (Q : unit -> inode_manager -> Prop) :
  bm_wf (bm s) -> node_wf (bm s) n -> 100 < nb (i_size n) ->
  removed (bm s) n s 100 s1 ->
  (forall s2, released_state s n s2 -> Q tt s2) ->
  wp (ib ← get_indirect_blocks n;
      _ ← loop (S (Z.to_nat ib.2)) (remove_indirect n ib.1 ib.2) (0, fs);
      ind ← get_slot n NDIRECT;
      with_bm (free_block ind)) Q s1.
Proof.
  intros Hb Hn Hnb [[Hl _] Hw Hu Hbl] HQ.
  assert (ind n <> 0) as Hi by (rewrite (nw_ind _ _ Hn); lia).
  pose proof (ind_not_freed (bm s) n Hn 100 ltac:(lia) Hi) as Hnf.
  assert (used (bm s1) (ind n) = true) as Hui.
  { apply Hu. split; [|done]. apply (nw_used _ _ Hn). by apply owned_ind. }
  wp_step. unfold get_indirect_blocks. wp_step. apply wp_uninit. intros buf Hbuf.
  wp_step. apply wp_get_ind; [apply Hn|]. wp_step.
  apply wp_with_bm, wp_bm_read; [done|done|by apply used_data in Hui as [_ ?]|].
  cbn [bm]. rewrite (Hbl _ Hnf).
  destruct (strlen_word (blk (bm s) (ind n))) as (l & -> & Hl4).
  { rewrite (bm_wf_len _ Hb). apply Nat.leb_le. reflexivity. }
  { by apply ind_words_small. }
  wp_step. cbn [fst snd]. rewrite Hl4. wp_step. cbn [loop remove_indirect Z.to_nat]. repeat wp_step.
  cbn [Z.ltb Z.compare andb]. wp_step. wp_step. wp_step. apply wp_get_ind; [apply Hn|].
  apply wp_with_bm, wp_free_block; [done|done|]. intros b2 Hb2. cbn [upd_bm bm last_alloced epoch] in Hb2 |- *.
  assert (forall c, released (bm s) n c <-> freed_to (bm s) n 100 c \/ c = ind n) as Hrel.
  { intros c. unfold released. rewrite Z.min_l by lia. unfold freed_to. tauto. }
  apply HQ. split; [done|]. split.
  { cbn [upd_bm bm]. rewrite Hb2. apply set_bit_wf; [|by left]. apply set_blk_wf; [done|apply length_zero_block]. }
  cbn [upd_bm bm]. split; intros c; rewrite Hrel.
  - rewrite (bm_equiv_used _ _ c Hb2), used_set_bit, used_set_blk.
    case_decide as Hc; [split; [done|tauto]|]. rewrite Hu. tauto.
  - intros Hc. rewrite (bm_equiv_blk _ _ c Hb2), blk_set_bit, blk_set_blk, decide_False by tauto.
    apply Hbl. tauto.
Qed.

Lemma wp_remove_file i n s (Q : unit -> inode_manager -> Prop) :
  fs_wf s -> node_at s i = Some n ->
  (forall s', fs_wf s' -> last_alloced s' = last_alloced s -> file_at s' i = None ->
     (forall j, j <> i -> file_at s' j = file_at s j) ->
     (forall j c, j <> i -> owns s' j c <-> owns s j c) ->
     (forall c, used (bm s') c = true <->
        used (bm s) c = true /\ ~ released (bm s) n c) -> Q tt s') ->
  wp (remove_file i) Q s.
Proof.
  intros Hwf En HQ. pose proof (fw_bm _ Hwf) as Hb. pose proof (fw_node _ Hwf _ _ En) as Hn.
  pose proof (proj1 (node_at_Some _ _ _) En) as (Hi & _ & Htype).
  assert (0 < i) as Hi0.
  { destruct (decide (i = 0)) as [->|]; [|lia]. rewrite (fw_zero _ Hwf) in En. done. }
  unfold remove_file. apply wp_if; intros Hc; [lia|]. wp_step.
  apply wp_get_inode; [done|lia|]. rewrite En.
  assert (forall s2, released_state s n s2 -> wp (free_inode i) Q s2) as Hfin.
  { intros s2 (Hl & Hw & Hu & Hbl).
    assert (forall c, released (bm s) n c -> owns s i c) as Ho.
    { intros c Hrel. exists n. split; [done|]. by apply released_owned. }
    destruct (clear_spec s i (bm s2) (epoch s2) Hwf) as (H1 & H2 & H3 & H4); [lia|done|..].
    { intros c Huc Hoc. apply Hu. split; [done|]. intros Hrel. by apply Hoc, Ho. }
    { intros c Hoc. apply Hbl. intros Hrel. by apply Hoc, Ho. }
    apply wp_free_inode; [done|lia|..].
    - intros _. rewrite <- Hl in *. by apply HQ.
    - intros Hnone. assert (node_at s2 i = node_at s i) as E2; [|congruence].
      apply node_at_ext. intros _. apply Hbl. intros Hrel.
      apply Ho, owns_used, used_data in Hrel; [|apply Hwf|done].
      by apply (table_not_data i) in Hrel. }
  pose proof (nw_size _ _ Hn) as Hmax. pose proof (ok_size _ (nw_ok _ _ Hn)) as Hsz.
  pose proof (nb_range (i_size n) ltac:(lia)) as Hnb.
  wp_step. apply (wp_remove_direct (bm s) n s Hn).
  { split; [done|done| |done]. intros c. split; [|tauto]. intros Hu. split; [done|].
    intros (j & Hj & _). lia. }
  cbv zeta. intros s1 Hr. cbn [snd]. wp_step. apply wp_if; intros Hlt.
  - pose proof (proj1 (nb_le_iff (i_size n) 100)). pose proof (proj2 (nb_le_iff (i_size n) (nb (i_size n)))).
    rewrite Z.min_l in Hr by lia. eapply wp_remove_indirect_part; [done|done|lia|exact Hr|exact Hfin].
  - wp_step. pose proof (proj1 (nb_le_iff (i_size n) 100)). destruct Hr as [[Hl _] Hw Hu Hbl].
    assert (forall c, released (bm s) n c <-> freed_to (bm s) n (Z.min 100 (nb (i_size n))) c) as Hrel.
    { intros c. unfold released, freed_to. split; [|by left]. intros [?|[? _]]; [done|lia]. }
    apply Hfin. split; [done|]. split; [done|]. split; intros c; rewrite Hrel; auto.
Qed.

(** A marked block without an owner. *)
Definition leaked (s : inode_manager) (c : Z) : Prop :=
  used (bm s) c = true /\ forall j, ~ owns s j c.

(** A block that is not released leaks. *)
Lemma wp_remove_file_leaks i n c s :
  fs_wf s -> node_at s i = Some n -> owned (bm s) n c -> ~ released (bm s) n c ->
  wp (remove_file i) (fun _ s' => file_at s' i = None /\ leaked s' c) s.
Proof.
  intros Hwf Hn Hc Hrel. assert (owns s i c) as Ho by by exists n.
  eapply wp_remove_file; [done|exact Hn|]. intros s' Hwf' _ Hnone _ Hother Hu.
  split; [done|]. split; [apply Hu; split; [by apply (owns_used s i)|done]|].
  intros j Hj. destruct (decide (j = i)) as [->|Hji].
  - destruct Hj as (n' & Hn' & _). unfold file_at in Hnone. by rewrite Hn' in Hnone.
  - apply Hother in Hj; [|done]. by apply Hji, (owns_disj s j i _ Hwf Hj).
Qed.
End remove.
