(* ===== verification/Protocol.v ===== *)
(** The extent protocol: the interface between [chfs_client] and the storage
    below it (extent_protocol.h and the method signatures of extent_client.h).

    [ExtentService] is what the client calls.  [ExtentLaws] is what the storage
    promises: it behaves as a table of typed byte strings with room for so many
    blocks.  The client's theorems are proved against the laws; Extent.v
    discharges them for the inode layer. *)
From S2P Require Import Prelude Monad Disk BlockManager Inode InodeManager FsInv WriteSpec.
From Stdlib Require Import Ascii ZArith Lia.
From stdpp Require Import base gmap numbers list.
#[local] Open Scope Z_scope.

(** [xxstatus] of extent_protocol.h and of chfs_client.h, which share values. *)
Definition OK : Z := 0.
Definition RPCERR : Z := 1.
Definition NOENT : Z := 2.
Definition IOERR : Z := 3.
Definition EXIST : Z := 4.

(** The operations; an out parameter is part of the result. *)
Class ExtentService (S : Type) := {
  ec_create : Z -> M S (Z * Z);
  ec_get : Z -> M S (Z * bytes);
  ec_getattr : Z -> M S (Z * attr);
  ec_put : Z -> bytes -> M S Z;
  ec_remove : Z -> M S Z
}.

(** [id &= 0x7fffffff] *)
Definition ext_id (id : Z) : Z := Z.land id 0x7fffffff.

Lemma ext_id_range id : 0 <= ext_id id < 2 ^ 31.
Proof.
  unfold ext_id. change 0x7fffffff with (Z.ones 31). rewrite Z.land_ones by lia.
  apply Z.mod_pos_bound. lia.
Qed.

Lemma ext_id_id id : 0 <= id < 2 ^ 31 -> ext_id id = id.
Proof.
  intros H. unfold ext_id. change 0x7fffffff with (Z.ones 31). rewrite Z.land_ones by lia.
  by apply Z.mod_small.
Qed.

(** The attributes of a file; [None] gives those of the zeroed struct. *)
Definition attr_of (o : option file) : attr :=
  match o with
  | Some f => mk_attr (u32 (f_type f)) (f_atime f) (f_mtime f) (f_ctime f)
                (Z.of_nat (length (f_data f)))
  | None => mk_attr 0 0 0 0 0
  end.

Definition data_of (o : option file) : bytes := from_option f_data [] o.

Definition len (l : bytes) : Z := Z.of_nat (length l).

Class ExtentLaws (S : Type) `{ExtentService S} := {
  ext_wf : S -> Prop;
  (** The table, and the number of free blocks. *)
  ext_file : S -> Z -> option file;
  ext_room : S -> nat;

  (** A type is never 0 and a size is at most [MAX_SIZE]. *)
  ext_file_ok s i f : ext_wf s -> ext_file s i = Some f ->
    0 < i <= INODE_NUM /\ i16 (f_type f) = f_type f /\ f_type f <> 0 /\ len (f_data f) <= MAX_SIZE;

  law_getattr id s : ext_wf s ->
    wp (ec_getattr id) (fun r s' => s' = s /\ r = (OK, attr_of (ext_file s (ext_id id)))) s;

  (** Reading changes the access time at most. *)
  law_get id s : ext_wf s ->
    wp (ec_get id) (fun r s' => r = (OK, data_of (ext_file s (ext_id id))) /\ ext_wf s' /\
      ext_room s' = ext_room s /\
      (forall j, j <> ext_id id -> ext_file s' j = ext_file s j) /\
      exists t, ext_file s' (ext_id id) =
        (fun f => mk_file (f_type f) t (f_mtime f) (f_ctime f) (f_data f)) <$>
          ext_file s (ext_id id)) s;

  law_put id buf f slack s : ext_wf s -> ext_file s (ext_id id) = Some f ->
    len buf <= MAX_SIZE -> (blocks_needed (len (f_data f)) (len buf) + slack <= ext_room s)%nat ->
    wp (ec_put id buf) (fun r s' => r = OK /\ ext_wf s' /\ (slack <= ext_room s')%nat /\
      (forall j, j <> ext_id id -> ext_file s' j = ext_file s j) /\
      exists t1 t2 t3, ext_file s' (ext_id id) = Some (mk_file (f_type f) t1 t2 t3 buf)) s;

  (** Writing to a free number is reported as a success. *)
  law_put_none id buf s : ext_wf s -> ext_file s (ext_id id) = None ->
    wp (ec_put id buf) (fun r s' => r = OK /\ ext_wf s' /\ ext_room s' = ext_room s /\
      forall j, ext_file s' j = ext_file s j) s;

  (** A new file is empty; 0 is returned when every number below
      [INODE_NUM] is in use. *)
  law_create type s : ext_wf s -> i16 type <> 0 ->
    wp (ec_create type) (fun r s' => r.1 = OK /\ ext_wf s' /\ ext_room s' = ext_room s /\
      ((1 <= r.2 <= INODE_NUM /\ ext_file s r.2 = None /\
        (exists t, ext_file s' r.2 = Some (mk_file (i16 type) t t t [])) /\
        forall j, j <> r.2 -> ext_file s' j = ext_file s j) \/
       (r.2 = 0 /\ (forall j, 1 <= j < INODE_NUM -> ext_file s j <> None) /\
        forall j, ext_file s' j = ext_file s j))) s;

  law_remove id s : ext_wf s ->
    wp (ec_remove id) (fun r s' => r = OK /\ ext_wf s' /\ (ext_room s <= ext_room s')%nat /\
      ext_file s' (ext_id id) = None /\
      forall j, j <> ext_id id -> ext_file s' j = ext_file s j) s;

  (** A call that returns reports a success, in every state. *)
  law_status_getattr id : returns (ec_getattr id) (fun r => r.1 = OK);
  law_status_get id : returns (ec_get id) (fun r => r.1 = OK);
  law_status_put id buf : returns (ec_put id buf) (fun r => r = OK)
}.
