(* ===== verification/Extent.v ===== *)
(** The extent server and its client: extent_server.cc and extent_client.cc,
    over the inode layer.

    The instances at the end state that the pair implements the protocol. *)
From S2P Require Import Prelude Monad Disk BlockManager Inode InodeManager FsInv WriteFile.
From S2P Require Import WriteSpec ReadFile AllocInode RemoveFile Protocol.
From Stdlib Require Import Ascii ZArith Lia.
From stdpp Require Import base gmap numbers list.
#[local] Open Scope Z_scope.

Module extent_server.
Section extent_server.
Context `{E : Env}.

(** [extent_server::extent_server]; the state is [im]. *)
Definition new (last0 : Z) : outcome inode_manager := inode_manager_new last0.

Definition create (type : Z) : M inode_manager (Z * Z) :=
  id ← alloc_inode type; mret (OK, id).

(** [buf.c_str()]: the characters, a NUL, and whatever memory comes next. *)
Definition c_str (buf : bytes) : M inode_manager ptr :=
  e ← tick;
  mret (fun off => if off <? len buf then nth (Z.to_nat off) buf NUL
                   else if off =? len buf then NUL else garbage e off).

Definition put (id : Z) (buf : bytes) : M inode_manager Z :=
  let id := ext_id id in
  cbuf ← c_str buf;
  let size := i32 (len buf) in
  _ ← write_file id cbuf size;
  mret OK.

Definition get (id : Z) : M inode_manager (Z * bytes) :=
  let id := ext_id id in
  r ← read_file id 0;
  let '(cbuf, size) := r in
  if size =? 0 then mret (OK, [])
  else if size <? 0 then throw (* length_error of std::string::assign *)
  else match cbuf with
       | Some p => if size <=? len p then mret (OK, take (Z.to_nat size) p) else ub
       | None => ub
       end.

Definition getattr (id : Z) : M inode_manager (Z * attr) :=
  let id := ext_id id in
  a ← get_attr id (mk_attr 0 0 0 0 0);
  mret (OK, a).

Definition remove (id : Z) : M inode_manager Z :=
  let id := ext_id id in
  _ ← remove_file id;
  mret OK.
End extent_server.
End extent_server.

Module extent_client.
Section extent_client.
Context `{E : Env}.

Definition new (last0 : Z) : outcome inode_manager := extent_server.new last0.
Definition create (type : Z) : M inode_manager (Z * Z) :=
  r ← extent_server.create type; let '(ret, id) := r in mret (ret, id).
Definition get (eid : Z) : M inode_manager (Z * bytes) :=
  r ← extent_server.get eid; let '(ret, buf) := r in mret (ret, buf).
Definition getattr (eid : Z) : M inode_manager (Z * attr) :=
  r ← extent_server.getattr eid; let '(ret, a) := r in mret (ret, a).
Definition put (eid : Z) (buf : bytes) : M inode_manager Z :=
  ret ← extent_server.put eid buf; mret ret.
Definition remove (eid : Z) : M inode_manager Z :=
  ret ← extent_server.remove eid; mret ret.
End extent_client.
End extent_client.

#[export] Instance extent_service `{E : Env} : ExtentService inode_manager := {
  ec_create := extent_client.create;
  ec_get := extent_client.get;
  ec_getattr := extent_client.getattr;
  ec_put := extent_client.put;
  ec_remove := extent_client.remove
}.

(** ** The laws *)
Section laws.
Context `{E : Env}.

Definition room (s : inode_manager) : nat := nfree (bm s).

Lemma file_at_Some s i f :
  file_at s i = Some f <-> exists n, node_at s i = Some n /\ f = file_of (bm s) n.
Proof.
  unfold file_at. destruct (node_at s i); simpl; split.
  - intros [= <-]; eauto.
  - by intros (? & [= <-] & ->).
  - done.
  - by intros (? & ? & _).
Qed.

Lemma file_at_None s i : file_at s i = None <-> node_at s i = None.
Proof. unfold file_at. by destruct (node_at s i). Qed.

Lemma len_content s i n : fs_wf s -> node_at s i = Some n -> len (content (bm s) n) = i_size n.
Proof. intros Hwf Hn. apply length_content. by apply (fw_node _ Hwf i). Qed.

Lemma file_ok s i f : fs_wf s -> file_at s i = Some f ->
  0 < i <= INODE_NUM /\ i16 (f_type f) = f_type f /\ f_type f <> 0 /\ len (f_data f) <= MAX_SIZE.
Proof.
  intros Hwf (n & Hn & ->)%file_at_Some. pose proof (fw_node _ Hwf _ _ Hn) as Hnw.
  pose proof (proj1 (node_at_Some _ _ _) Hn) as (Hi & _ & Ht). cbn [file_of f_type f_data].
  rewrite (len_content _ i) by done. split; [|split; [|split; [done|apply Hnw]]].
  - destruct (decide (i = 0)) as [->|]; [|lia]. by rewrite (fw_zero _ Hwf) in Hn.
  - apply i16_id, (nw_ok _ _ Hnw).
Qed.

(** The clock is no part of the files. *)
Lemma fs_wf_epoch s ep : fs_wf s -> fs_wf (mk_im (bm s) (last_alloced s) ep).
Proof. intros []. by split. Qed.

Lemma load_prefix (p : ptr) (buf : bytes) n :
  n = len buf -> (forall k, (k < length buf)%nat -> p (Z.of_nat k) = nth k buf NUL) ->
  load p 0 n = buf.
Proof.
  intros -> Hp. unfold load, len. rewrite Nat2Z.id. apply list_eq_same_length with (length buf);
    [done|by rewrite length_fmap, length_zrange|].
  intros k x y Hk Hx Hy. rewrite list_lookup_fmap, lookup_zrange, Z.add_0_l in Hx by done.
  cbn [fmap option_fmap option_map] in Hx. rewrite Hp in Hx by done.
  rewrite nth_lookup, Hy in Hx. by simplify_eq/=.
Qed.

Lemma nfree_used_eq s s' : (forall c, used (bm s') c = used (bm s) c) -> room s' = room s.
Proof. apply nfree_used_ext. Qed.

Lemma impl_getattr id s : fs_wf s ->
  wp (ec_getattr id) (fun r s' => s' = s /\ r = (OK, attr_of (file_at s (ext_id id)))) s.
Proof.
  intros Hwf. pose proof (ext_id_range id) as Hm. cbn [ec_getattr extent_service].
  unfold extent_client.getattr, extent_server.getattr. wp_step. wp_step.
  apply wp_get_attr; [apply Hwf|lia|]. wp_steps. split; [done|].
  unfold file_at. destruct (node_at s (ext_id id)) as [n|] eqn:En; [|done].
  cbn. f_equal. f_equal. symmetry. by apply (len_content s (ext_id id)).
Qed.

(** The client's view of [get]; and no block changes its owner. *)
Lemma wp_extent_get id s : fs_wf s ->
  wp (ec_get id) (fun r s' => (r = (OK, data_of (file_at s (ext_id id))) /\ fs_wf s' /\
    room s' = room s /\ (forall j, j <> ext_id id -> file_at s' j = file_at s j) /\
    exists t, file_at s' (ext_id id) =
      (fun f => mk_file (f_type f) t (f_mtime f) (f_ctime f) (f_data f)) <$>
        file_at s (ext_id id)) /\ forall j c, owns s' j c <-> owns s j c) s.
Proof.
  intros Hwf. pose proof (ext_id_range id) as Hm. cbn [ec_get extent_service].
  unfold extent_client.get, extent_server.get. wp_step. wp_step.
  destruct (node_at s (ext_id id)) as [n|] eqn:En.
  - eapply wp_read_file; [done|exact En|]. intros out s' e Hwf' _ Hout Hfile Hother Howns Hu.
    pose proof (len_content _ _ _ Hwf En) as Hlen. unfold len in Hlen.
    assert (file_at s (ext_id id) = Some (file_of (bm s) n)) as Hf by (unfold file_at; by rewrite En).
    rewrite Hf. cbn [data_of from_option file_of f_data].
    assert (forall d, d = content (bm s) n -> ((OK, d) = (OK, content (bm s) n) /\ fs_wf s' /\
        room s' = room s /\ (forall j, j <> ext_id id -> file_at s' j = file_at s j) /\
        exists t, file_at s' (ext_id id) =
          (fun f => mk_file (f_type f) t (f_mtime f) (f_ctime f) (f_data f)) <$>
            Some (file_of (bm s) n)) /\ forall j c, owns s' j c <-> owns s j c) as Hfin.
    { intros d ->. split; [|done]. split; [done|]. split; [done|].
      split; [by apply nfree_used_eq|]. split; [done|]. eexists. exact Hfile. }
    apply wp_if; intros Hz; [|apply wp_if; intros Hneg; [lia|]].
    + repeat wp_step. apply Hfin. symmetry. apply nil_length_inv. lia.
    + apply (f_equal length) in Hout as Hl. rewrite length_take in Hl.
      apply wp_if; unfold len; intros Hle; [|lia]. repeat wp_step. by apply Hfin.
  - assert (file_at s (ext_id id) = None) as Hnone by by apply file_at_None.
    assert (forall ep, let s' := mk_im (bm s) (last_alloced s) ep in
      ((OK, @nil byte) = (OK, data_of (file_at s (ext_id id))) /\ fs_wf s' /\
        room s' = room s /\ (forall j, j <> ext_id id -> file_at s' j = file_at s j) /\
        exists t, file_at s' (ext_id id) =
          (fun f => mk_file (f_type f) t (f_mtime f) (f_ctime f) (f_data f)) <$>
            file_at s (ext_id id)) /\ forall j c, owns s' j c <-> owns s j c) as Hfin.
    { intros ep s'. rewrite Hnone. split; [|done]. split; [done|]. split; [by apply fs_wf_epoch|].
      split; [done|]. split; [done|]. exists 0. exact Hnone. }
    unfold read_file. apply wp_if; intros Hgt.
    + repeat wp_step. destruct s. apply Hfin.
    + wp_step. apply wp_get_inode; [apply Hwf|lia|]. rewrite En. repeat wp_step.
      destruct s. apply Hfin.
Qed.

Lemma impl_get id s : fs_wf s ->
  wp (ec_get id) (fun r s' => r = (OK, data_of (file_at s (ext_id id))) /\ fs_wf s' /\
    room s' = room s /\ (forall j, j <> ext_id id -> file_at s' j = file_at s j) /\
    exists t, file_at s' (ext_id id) =
      (fun f => mk_file (f_type f) t (f_mtime f) (f_ctime f) (f_data f)) <$>
        file_at s (ext_id id)) s.
Proof. intros Hwf. eapply wp_mono; [by apply wp_extent_get|]. by intros r s' [H _]. Qed.

Lemma impl_put id buf f slack s : fs_wf s -> file_at s (ext_id id) = Some f ->
  len buf <= MAX_SIZE -> (blocks_needed (len (f_data f)) (len buf) + slack <= room s)%nat ->
  wp (ec_put id buf) (fun r s' => r = OK /\ fs_wf s' /\ (slack <= room s')%nat /\
    (forall j, j <> ext_id id -> file_at s' j = file_at s j) /\
    exists t1 t2 t3, file_at s' (ext_id id) = Some (mk_file (f_type f) t1 t2 t3 buf)) s.
Proof.
  intros Hwf (n & Hn & ->)%file_at_Some Hlen Hroom. cbn [file_of f_data] in Hroom.
  rewrite (len_content _ _ _ Hwf Hn) in Hroom. cbn [ec_put extent_service].
  unfold extent_client.put, extent_server.put. wp_step. wp_step. unfold extent_server.c_str.
  wp_step. apply wp_tick. wp_step. wp_step.
  rewrite i32_id by (unfold MAX_SIZE, len in *; lia).
  eapply wp_write_file; [by apply fs_wf_epoch|exact Hn|unfold len; unfold len in Hlen; lia|exact Hroom|].
  intros s' e Hwf' _ _ Hfile Hother _ _ _ Hslack. repeat wp_step. split; [done|]. split; [done|].
  split; [done|]. split; [exact Hother|]. do 3 eexists. rewrite Hfile. do 2 f_equal.
  apply load_prefix; [done|]. intros k Hk. rewrite (proj2 (Z.ltb_lt _ _)) by (unfold len; lia).
  by rewrite Nat2Z.id.
Qed.

Lemma impl_put_none id buf s : fs_wf s -> file_at s (ext_id id) = None ->
  wp (ec_put id buf) (fun r s' => r = OK /\ fs_wf s' /\ room s' = room s /\
    forall j, file_at s' j = file_at s j) s.
Proof.
  intros Hwf Hn%file_at_None. pose proof (ext_id_range id) as Hm. cbn [ec_put extent_service].
  unfold extent_client.put, extent_server.put. wp_step. wp_step. unfold extent_server.c_str.
  wp_step. apply wp_tick. wp_step. wp_step. unfold write_file. wp_step.
  apply wp_get_inode; [apply Hwf|lia|].
  change (node_at (mk_im _ _ _) (ext_id id)) with (node_at s (ext_id id)). rewrite Hn.
  repeat wp_step. split; [done|]. split; [by apply fs_wf_epoch|done].
Qed.

Lemma impl_create type s : fs_wf s -> i16 type <> 0 ->
  wp (ec_create type) (fun r s' => r.1 = OK /\ fs_wf s' /\ room s' = room s /\
    ((1 <= r.2 <= INODE_NUM /\ file_at s r.2 = None /\
      (exists t, file_at s' r.2 = Some (mk_file (i16 type) t t t [])) /\
      forall j, j <> r.2 -> file_at s' j = file_at s j) \/
     (r.2 = 0 /\ (forall j, 1 <= j < INODE_NUM -> file_at s j <> None) /\
      forall j, file_at s' j = file_at s j))) s.
Proof.
  intros Hwf Ht. pose proof (fw_last _ Hwf) as Hlast. cbn [ec_create extent_service].
  unfold extent_client.create, extent_server.create. wp_step. wp_step.
  apply wp_alloc_inode; [done|done|..].
  - intros i s' Hi k Hk _ Hwf' _ Hfile Hother _ Hu. repeat wp_step. cbn [fst snd].
    split; [done|]. split; [done|]. split; [by apply nfree_used_eq|]. left.
    split; [by apply to_alloc_range|]. split; [done|]. split; [|done]. eexists. exact Hfile.
  - intros Hfull. repeat wp_step. cbn [fst snd]. split; [done|]. split; [by apply fs_wf_epoch|].
    split; [done|]. right. split; [done|]. split; [|done]. intros j Hj.
    destruct (to_alloc_onto (last_alloced s) j Hlast Hj) as (i & Hi & <-). by apply Hfull.
Qed.

Lemma impl_remove id s : fs_wf s ->
  wp (ec_remove id) (fun r s' => r = OK /\ fs_wf s' /\ (room s <= room s')%nat /\
    file_at s' (ext_id id) = None /\
    forall j, j <> ext_id id -> file_at s' j = file_at s j) s.
Proof.
  intros Hwf. pose proof (ext_id_range id) as Hm. cbn [ec_remove extent_service].
  unfold extent_client.remove, extent_server.remove. wp_step. wp_step.
  destruct (node_at s (ext_id id)) as [n|] eqn:En.
  - eapply wp_remove_file; [done|exact En|]. intros s' Hwf' _ Hnone Hother _ Hu.
    repeat wp_step. split; [done|]. split; [done|]. split; [|done].
    apply nfree_mono. intros c Hc. by apply Hu.
  - assert (file_at s (ext_id id) = None) as Hnone by by apply file_at_None.
    unfold remove_file. apply wp_if; intros Hgt.
    + by repeat wp_step.
    + wp_step. apply wp_get_inode; [apply Hwf|lia|]. rewrite En. by repeat wp_step.
Qed.

Lemma impl_status_getattr id : returns (ec_getattr id) (fun r => r.1 = OK).
Proof.
  apply returns_bind with (fun r => r.1 = OK).
  - eapply returns_bind; [apply returns_any|]. intros a _. by apply returns_ret.
  - intros [ret a] Hr. by apply returns_ret.
Qed.

Lemma impl_status_get id : returns (ec_get id) (fun r => r.1 = OK).
Proof.
  apply returns_bind with (fun r => r.1 = OK).
  - eapply returns_bind; [apply returns_any|]. intros [cbuf size] _.
    apply returns_if; intros _; [by apply returns_ret|].
    apply returns_if; intros _; [by intros ? ? ?|].
    destruct cbuf as [c|]; [|by intros ? ? ?].
    apply returns_if; intros _; [by apply returns_ret|by intros ? ? ?].
  - intros [ret buf] Hr. by apply returns_ret.
Qed.

Lemma impl_status_put id buf : returns (ec_put id buf) (fun r => r = OK).
Proof.
  apply returns_bind with (fun r => r = OK).
  - eapply returns_bind; [apply returns_any|]. intros c _.
    eapply returns_bind; [apply returns_any|]. intros _ _. by apply returns_ret.
  - intros ret Hr. by apply returns_ret.
Qed.

#[export] Instance extent_laws : ExtentLaws inode_manager := {
  ext_wf := fs_wf;
  ext_file := file_at;
  ext_room := room;
  ext_file_ok := file_ok;
  law_getattr := impl_getattr;
  law_get := impl_get;
  law_put := impl_put;
  law_put_none := impl_put_none;
  law_create := impl_create;
  law_remove := impl_remove;
  law_status_getattr := impl_status_getattr;
  law_status_get := impl_status_get;
  law_status_put := impl_status_put
}.
End laws.
