(* ===== verification/DirFormat.v ===== *)
(** The directory format of chfs_client.cc: [filename], [n2i], the text
    "inum/name/inum/name/..." and the loop of [readdir] that parses it.

    Reading a [std::string] stream is modelled on all inputs: white space, a
    sign, digits, overflow, and the inputs for which the stream leaves the
    variable alone ([finum] is uninitialised then; [junk] is its value). *)
From S2P Require Import Prelude Monad Protocol.
From Stdlib Require Import Ascii ZArith Lia.
From stdpp Require Import base gmap numbers list.
#[local] Open Scope Z_scope.

Definition SLASH : byte := byte_of_Z 47.

(** ** Decimal numbers *)

(** [ost << inum], least significant digit first into [acc]; a 64-bit number
    has at most 20 digits. *)
Fixpoint put_digits (fuel : nat) (n : Z) (acc : bytes) : bytes :=
  match fuel with
  | O => acc
  | S fuel =>
      let acc := byte_of_Z (48 + n mod 10) :: acc in
      if n / 10 =? 0 then acc else put_digits fuel (n / 10) acc
  end.

(** [chfs_client::filename] *)
Definition filename (inum : Z) : bytes := put_digits 20 inum [].

Definition is_digit (c : byte) : bool := (48 <=? Z_of_byte c) && (Z_of_byte c <=? 57).
Definition is_space (c : byte) : bool := (Z_of_byte c =? 32) || ((9 <=? Z_of_byte c) && (Z_of_byte c <=? 13)).

Fixpoint skip_space (n : bytes) : bytes :=
  match n with
  | c :: n' => if is_space c then skip_space n' else n
  | [] => []
  end.

(** The value of the digits at the start of [n]. *)
Fixpoint get_digits (n : bytes) (acc : Z) : Z :=
  match n with
  | c :: n' => if is_digit c then get_digits n' (10 * acc + (Z_of_byte c - 48)) else acc
  | [] => acc
  end.

(** [chfs_client::n2i]: [ist >> finum] for [unsigned long long].  A failed
    conversion stores 0, an overflow the largest value; a negative number
    wraps around; on an exhausted stream nothing is stored. *)
Definition n2i (junk : Z) (n : bytes) : Z :=
  match skip_space n with
  | [] => junk
  | c :: n' =>
      let neg := Z_of_byte c =? 45 in
      let digits := if neg || (Z_of_byte c =? 43) then n' else c :: n' in
      let v := get_digits digits 0 in
      if 2 ^ 64 <=? v then 2 ^ 64 - 1 else if neg then u64 (- v) else v
  end.

(** ** The text of a directory *)
Record dirent := mk_dirent { d_name : bytes; d_inum : Z }.

#[export] Instance dirent_eq_dec : EqDecision dirent.
Proof. solve_decision. Defined.

(** [ino_str + "/" + name + "/"] *)
Definition inum_name_pair (name : bytes) (inum : Z) : bytes :=
  filename inum ++ [SLASH] ++ name ++ [SLASH].

(** [buf.find(c, pos)]: the index of the first [c] at or after [pos]. *)
Fixpoint find_char (c : byte) (buf : bytes) : option nat :=
  match buf with
  | [] => None
  | b :: buf => if decide (b = c) then Some O else S <$> find_char c buf
  end.
Definition find (buf : bytes) (c : byte) (pos : Z) : option Z :=
  (fun k => pos + Z.of_nat k) <$> find_char c (drop (Z.to_nat pos) buf).

(** [buf.substr(pos, n)] for [pos] within the string. *)
Definition substr (buf : bytes) (pos n : Z) : bytes :=
  take (Z.to_nat n) (drop (Z.to_nat pos) buf).

Section readdir.
Context (junk : Z -> Z).

(** The [while] loop of [readdir] from position [pos]; [None] when the fuel
    runs out. *)
Fixpoint parse_loop (fuel : nat) (buf : bytes) (length pos : Z) (list : list dirent)
    : option (Z * Datatypes.list dirent) :=
  match fuel with
  | O => None
  | S fuel =>
      if pos <? length then
        match find buf SLASH pos with
        | None => Some (IOERR, list)
        | Some slash_pos =>
            let inum_str := substr buf pos (slash_pos - pos) in
            let pos := i32 (slash_pos + 1) in
            if length <=? pos then Some (IOERR, list)
            else
              match find buf SLASH pos with
              | None => Some (IOERR, list)
              | Some slash_pos =>
                  let name_str := substr buf pos (slash_pos - pos) in
                  let pos' := i32 (slash_pos + 1) in
                  let new_dirent := mk_dirent name_str (n2i (junk pos) inum_str) in
                  parse_loop fuel buf length pos' (list ++ [new_dirent])
              end
        end
      else Some (OK, list)
  end.

(** An iteration consumes two characters at least, so this fuel is enough
    ([parse_dir_total]). *)
Definition parse_dir (buf : bytes) : option (Z * list dirent) :=
  parse_loop (S (length buf)) buf (i32 (len buf)) 0 [].
End readdir.

(** The text of a list of entries. *)
Definition dir_text (l : list dirent) : bytes :=
  concat ((fun e => inum_name_pair (d_name e) (d_inum e)) <$> l).

Record entry_ok (e : dirent) : Prop := {
  eo_inum : 0 <= d_inum e < 2 ^ 64;
  eo_name : SLASH ∉ d_name e
}.

(** ** Numbers round-trip *)
Lemma digit_value n : 0 <= n -> Z_of_byte (byte_of_Z (48 + n mod 10)) = 48 + n mod 10.
Proof.
  intros Hn. rewrite Z_of_byte_of_Z. apply Z.mod_small. pose proof (Z.mod_pos_bound n 10). lia.
Qed.

Lemma is_digit_digit n : 0 <= n -> is_digit (byte_of_Z (48 + n mod 10)) = true.
Proof.
  intros Hn. unfold is_digit. rewrite digit_value by done.
  pose proof (Z.mod_pos_bound n 10). lia.
Qed.

Lemma put_digits_spec fuel n acc :
  0 <= n < 10 ^ Z.of_nat fuel -> (0 < fuel)%nat ->
  exists ds, put_digits fuel n acc = ds ++ acc /\ ds <> [] /\
    Forall (fun c => is_digit c = true) ds /\
    forall rest a, get_digits (ds ++ rest) a =
      get_digits rest (a * 10 ^ Z.of_nat (length ds) + n).
Proof.
  revert n acc. induction fuel as [|fuel IH]; intros n acc Hn Hf; [lia|]. cbn [put_digits].
  set (d := byte_of_Z (48 + n mod 10)).
  assert (is_digit d = true) as Hd by (apply is_digit_digit; lia).
  assert (forall rest a, get_digits (d :: rest) a = get_digits rest (10 * a + n mod 10)) as Hget.
  { intros rest a. cbn [get_digits]. rewrite Hd. unfold d. rewrite digit_value by lia. f_equal. lia. }
  rewrite Nat2Z.inj_succ, Z.pow_succ_r in Hn by lia.
  destruct (Z.eqb_spec (n / 10) 0) as [Hz|Hz].
  - exists [d]. split; [done|]. split; [done|]. split; [by constructor|].
    intros rest a. cbn [app]. rewrite Hget. f_equal. cbn. revert Hz. dlia.
  - assert (0 <= n / 10 < 10 ^ Z.of_nat fuel) as Hq.
    { split; [dlia|]. apply Z.div_lt_upper_bound; lia. }
    destruct (IH (n / 10) (d :: acc) Hq) as (ds & -> & Hne & Hall & Hv).
    { destruct fuel; [|lia]. cbn in Hq. lia. }
    exists (ds ++ [d]). split; [by rewrite <- (assoc_L (++))|]. split; [by destruct ds|].
    split; [apply Forall_app; split; [done|by constructor]|].
    intros rest a. rewrite <- (assoc_L (++)), Hv. cbn [app]. rewrite Hget. f_equal.
    rewrite length_app, Nat2Z.inj_add, Z.pow_add_r by lia. cbn [length]. rewrite Z.pow_1_r.
    rewrite (Z.div_mod n 10) at 3 by lia. ring.
Qed.

Lemma filename_spec i : 0 <= i < 2 ^ 64 ->
  filename i <> [] /\ Forall (fun c => is_digit c = true) (filename i) /\
  get_digits (filename i) 0 = i.
Proof.
  intros Hi. destruct (put_digits_spec 20 i []) as (ds & Hds & Hne & Hall & Hv); [lia|lia|].
  unfold filename. rewrite Hds, app_nil_r. split; [done|]. split; [done|].
  specialize (Hv [] 0). by rewrite app_nil_r in Hv.
Qed.

Lemma digit_not_slash l : Forall (fun c => is_digit c = true) l -> SLASH ∉ l.
Proof. rewrite Forall_forall. intros H Hs. by specialize (H _ Hs). Qed.

Lemma n2i_filename junk i : 0 <= i < 2 ^ 64 -> n2i junk (filename i) = i.
Proof.
  intros Hi. destruct (filename_spec i Hi) as (Hne & Hall & Hv).
  destruct (filename i) as [|c l]; [done|]. apply Forall_cons in Hall as [Hc _].
  unfold is_digit in Hc. unfold n2i. cbn [skip_space]. unfold is_space.
  replace ((Z_of_byte c =? 32) || _) with false by lia.
  replace (Z_of_byte c =? 45) with false by lia. replace (Z_of_byte c =? 43) with false by lia.
  cbn [orb]. rewrite Hv. by rewrite (proj2 (Z.leb_gt _ _)) by lia.
Qed.

(** ** Directories round-trip *)
Lemma find_char_app l c rest : c ∉ l -> find_char c (l ++ c :: rest) = Some (length l).
Proof.
  induction l as [|x l IH]; intros Hc; cbn [app find_char length]; [by rewrite decide_True|].
  apply not_elem_of_cons in Hc as [Hx Hc]. rewrite decide_False by congruence. by rewrite IH.
Qed.

Lemma len_app l k : len (l ++ k) = len l + len k.
Proof. unfold len. rewrite length_app. lia. Qed.

Lemma find_app pre l c rest :
  c ∉ l -> find (pre ++ l ++ c :: rest) c (len pre) = Some (len pre + len l).
Proof.
  intros Hc. unfold find, len. rewrite Nat2Z.id, drop_app_length, find_char_app by done. done.
Qed.

Lemma substr_app pre l rest : substr (pre ++ l ++ rest) (len pre) (len l) = l.
Proof. unfold substr, len. by rewrite !Nat2Z.id, drop_app_length, take_app_length. Qed.

Section parse.
Context (junk : Z -> Z).

Lemma parse_entry fuel pre e post acc :
  entry_ok e ->
  let buf := pre ++ inum_name_pair (d_name e) (d_inum e) ++ post in
  len buf < 2 ^ 31 ->
  parse_loop junk (S fuel) buf (len buf) (len pre) acc =
  parse_loop junk fuel buf (len buf)
    (len (pre ++ inum_name_pair (d_name e) (d_inum e))) (acc ++ [e]).
Proof.
  intros [Hi Hs] buf Hlen. destruct (filename_spec _ Hi) as (_ & Hall & _).
  set (num := filename (d_inum e)) in *. set (name := d_name e) in *.
  assert (buf = pre ++ num ++ SLASH :: name ++ SLASH :: post) as E1.
  { unfold buf, inum_name_pair. fold num. by rewrite <- !(assoc_L (++)). }
  assert (buf = (pre ++ num ++ [SLASH]) ++ name ++ SLASH :: post) as E2.
  { rewrite E1. by rewrite <- !(assoc_L (++)). }
  assert (len buf = len pre + len num + 1 + len name + 1 + len post) as L.
  { rewrite E1. unfold len. rewrite !length_app. cbn [length]. rewrite length_app. cbn [length]. lia. }
  assert (0 <= len num /\ 0 <= len name /\ 0 <= len post /\ 0 <= len pre) as Hpos
    by (unfold len; lia).
  cbn [parse_loop]. rewrite (proj2 (Z.ltb_lt _ _)) by lia.
  assert (find buf SLASH (len pre) = Some (len pre + len num)) as ->.
  { rewrite E1. apply find_app. by apply digit_not_slash. }
  replace (len pre + len num - len pre) with (len num) by lia.
  rewrite i32_id by lia. rewrite (proj2 (Z.leb_gt _ _)) by lia.
  assert (len pre + len num + 1 = len (pre ++ num ++ [SLASH])) as -> by (rewrite !len_app; unfold len; simpl; lia).
  assert (find buf SLASH (len (pre ++ num ++ [SLASH])) =
    Some (len (pre ++ num ++ [SLASH]) + len name)) as ->.
  { rewrite E2. by apply find_app. }
  rewrite i32_id by (rewrite !len_app; change (len [SLASH]) with 1; lia).
  f_equal.
  - unfold inum_name_pair. fold num name. rewrite !len_app. change (len [SLASH]) with 1. lia.
  - do 2 f_equal. destruct e as [nm inum]. cbn [d_name d_inum] in *. f_equal.
    + rewrite E2. replace (_ + len name - _) with (len name) by lia. apply substr_app.
    + rewrite E1. rewrite substr_app. by apply n2i_filename.
Qed.
End parse.

Lemma dir_text_app l k : dir_text (l ++ k) = dir_text l ++ dir_text k.
Proof. unfold dir_text. by rewrite fmap_app, concat_app. Qed.

Lemma dir_text_cons e l : dir_text (e :: l) = inum_name_pair (d_name e) (d_inum e) ++ dir_text l.
Proof. done. Qed.

Lemma dir_text_snoc l e : dir_text (l ++ [e]) = dir_text l ++ inum_name_pair (d_name e) (d_inum e).
Proof. rewrite dir_text_app. unfold dir_text at 2. cbn. by rewrite app_nil_r. Qed.

Lemma parse_entries junk fuel l pre acc :
  Forall entry_ok l -> (length l < fuel)%nat ->
  let buf := pre ++ dir_text l in
  len buf < 2 ^ 31 ->
  parse_loop junk fuel buf (len buf) (len pre) acc = Some (OK, acc ++ l).
Proof.
  revert fuel pre acc. induction l as [|e l IH]; intros fuel pre acc Hl Hf buf Hlen.
  - destruct fuel as [|fuel]; [simpl in Hf; lia|]. cbn [parse_loop]. unfold buf, dir_text. cbn.
    rewrite app_nil_r, Z.ltb_irrefl. by rewrite app_nil_r.
  - destruct fuel as [|fuel]; [simpl in Hf; lia|]. apply Forall_cons in Hl as [He Hl].
    unfold buf in *. rewrite dir_text_cons in *. rewrite parse_entry by done.
    rewrite (assoc_L (++)) in *. rewrite IH by (done || simpl in Hf; lia).
    by rewrite <- (assoc_L (++)).
Qed.

Lemma length_dir_text l : (length l <= length (dir_text l))%nat.
Proof.
  induction l as [|e l IH]; [done|]. rewrite dir_text_cons. unfold inum_name_pair.
  rewrite !length_app. simpl. lia.
Qed.

(** Parsing the text of well-formed entries gives the entries. *)
Lemma parse_dir_text junk l :
  Forall entry_ok l -> len (dir_text l) < 2 ^ 31 -> parse_dir junk (dir_text l) = Some (OK, l).
Proof.
  intros Hl Hlen. unfold parse_dir. rewrite i32_id by (unfold len in *; lia).
  pose proof (length_dir_text l).
  apply (parse_entries junk (S (length (dir_text l))) l [] []); [done|lia|done].
Qed.

(** ** The loop always ends *)
Lemma find_range buf c pos k : 0 <= pos -> find buf c pos = Some k -> pos <= k < Z.max pos (len buf).
Proof.
  intros Hpos. unfold find.
  assert (forall l n, find_char c l = Some n -> (n < length l)%nat) as Hlt.
  { induction l as [|x l IH]; intros n; cbn [find_char length]; [done|].
    case_decide; [intros [= <-]; lia|]. destruct (find_char c l) as [m|]; [|done].
    intros [= <-]. specialize (IH m eq_refl). lia. }
  destruct (find_char c _) as [n|] eqn:En; [|done]. intros [= <-]. apply Hlt in En.
  rewrite length_drop in En. unfold len. lia.
Qed.

Lemma parse_loop_total junk fuel buf pos acc :
  len buf < 2 ^ 31 -> 0 <= pos -> Z.max 0 (len buf - pos) < Z.of_nat fuel ->
  parse_loop junk fuel buf (len buf) pos acc <> None.
Proof.
  intros Hlen. revert pos acc. induction fuel as [|fuel IH]; intros pos acc Hpos Hf; [lia|].
  cbn [parse_loop]. destruct (Z.ltb_spec pos (len buf)); [|done].
  destruct (find buf SLASH pos) as [k|] eqn:Ek; [|done]. apply find_range in Ek; [|done].
  rewrite i32_id by lia. destruct (Z.leb_spec (len buf) (k + 1)); [done|].
  destruct (find buf SLASH (k + 1)) as [m|] eqn:Em; [|done]. apply find_range in Em; [|lia].
  rewrite i32_id by lia. apply IH; lia.
Qed.

Lemma parse_loop_status junk fuel buf n pos acc st l :
  parse_loop junk fuel buf n pos acc = Some (st, l) -> st = OK \/ st = IOERR.
Proof.
  revert pos acc. induction fuel as [|fuel IH]; intros pos acc; cbn [parse_loop]; [done|].
  destruct (pos <? n); [|intros [= <- _]; by left].
  destruct (find buf SLASH pos) as [k|]; [|intros [= <- _]; by right].
  destruct (n <=? _); [intros [= <- _]; by right|].
  destruct (find buf SLASH _) as [m|]; [apply IH|intros [= <- _]; by right].
Qed.
