(* ===== verification/ChfsClient.v ===== *)
(** The file-system layer: [class chfs_client] of chfs_client.h and
    chfs_client.cc, one definition per method, over the extent protocol.

    A [const char *] name is the string it points to.  A reference parameter is
    an argument (its value before the call) and a component of the result.
    [junk] is the value of the uninitialised [finum] of [n2i]. *)
From S2P Require Import Prelude Monad InodeManager Protocol DirFormat.
From Stdlib Require Import Ascii ZArith Lia.
From stdpp Require Import base gmap numbers list.
#[local] Open Scope Z_scope.

Record fileinfo := mk_fileinfo { fi_size : Z; fi_atime : Z; fi_mtime : Z; fi_ctime : Z }.
Record dirinfo := mk_dirinfo { di_atime : Z; di_mtime : Z; di_ctime : Z }.

(** [std::string::max_size] *)
Definition STRING_MAX : Z := 2 ^ 63 - 2.

Definition DOT : byte := byte_of_Z 46.

(** [buf.substr(pos, n)]: [out_of_range] when [pos] is behind the end. *)
Definition str_substr {S} (buf : bytes) (pos n : Z) : M S bytes :=
  if len buf <? pos then throw
  else mret (substr buf pos (Z.min n (len buf - pos))).

(** [buf.resize(n)] *)
Definition str_resize {S} (buf : bytes) (n : Z) : M S bytes :=
  if STRING_MAX <? n then throw
  else mret (take (Z.to_nat n) buf ++ replicate (Z.to_nat (n - len buf)) NUL).

(** [buf.replace(pos, n, str)] *)
Definition str_replace {S} (buf : bytes) (pos n : Z) (str : bytes) : M S bytes :=
  if len buf <? pos then throw
  else mret (take (Z.to_nat pos) buf ++ str ++ drop (Z.to_nat (pos + Z.min n (len buf - pos))) buf).

(** The text of the entries not called [name], as [unlink] rebuilds it. *)
Fixpoint rebuild (name : bytes) (list : list dirent) (new_buf : bytes) : bytes :=
  match list with
  | [] => new_buf
  | cur :: list =>
      if decide (name = d_name cur) then rebuild name list new_buf
      else rebuild name list (new_buf ++ inum_name_pair (d_name cur) (d_inum cur))
  end.

(** The first entry called [name], as the loop of [lookup] finds it. *)
Fixpoint find_entry (name : bytes) (list : list dirent) : option Z :=
  match list with
  | [] => None
  | elem :: list => if decide (d_name elem = name) then Some (d_inum elem) else find_entry name list
  end.

Module chfs_client.
Section chfs_client.
Context {S : Type} `{ES : ExtentService S}.
Context (junk : Z -> Z).

Definition has_type (type : Z) (inum : Z) : M S bool :=
  r ← ec_getattr inum;
  let '(ret, a) := r in
  if negb (ret =? OK) then mret false
  else if a_type a =? type then mret true else mret false.

Definition isfile (inum : Z) : M S bool := has_type T_FILE inum.
Definition isdir (inum : Z) : M S bool := has_type T_DIR inum.
Definition issymlink (inum : Z) : M S bool := has_type T_SYMBOLIC inum.

Definition getfile (inum : Z) (fin : fileinfo) : M S (Z * fileinfo) :=
  r ← ec_getattr inum;
  let '(ret, a) := r in
  if negb (ret =? OK) then mret (IOERR, fin)
  else mret (OK, mk_fileinfo (a_size a) (a_atime a) (a_mtime a) (a_ctime a)).

Definition getdir (inum : Z) (din : dirinfo) : M S (Z * dirinfo) :=
  r ← ec_getattr inum;
  let '(ret, a) := r in
  if negb (ret =? OK) then mret (IOERR, din)
  else mret (OK, mk_dirinfo (a_atime a) (a_mtime a) (a_ctime a)).

Definition setattr (ino size : Z) : M S Z :=
  r ← ec_get ino;
  let '(ret, buf) := r in
  if negb (ret =? OK) then mret IOERR
  else
    let prev_size := len buf in
    if prev_size =? size then mret OK
    else
      buf ← (if prev_size <? size then str_substr buf 0 size else str_resize buf size);
      ret ← ec_put ino buf;
      if negb (ret =? OK) then mret IOERR else mret OK.

Definition check_dir_inode (parent : Z) : M S Z :=
  r ← ec_getattr parent;
  let '(ret, a) := r in
  if negb (ret =? OK) then mret IOERR
  else if negb (a_type a =? T_DIR) then mret IOERR
  else mret OK.

Definition readdir (dir : Z) (list : list dirent) : M S (Z * Datatypes.list dirent) :=
  r ← check_dir_inode dir;
  if negb (r =? OK) then mret (IOERR, list)
  else
    r ← ec_get dir;
    let '(ret, buf) := r in
    if negb (ret =? OK) then mret (IOERR, list)
    else
      match parse_dir junk buf with
      | Some (r, entries) => mret (r, list ++ entries)
      | None => diverge
      end.

Definition lookup (parent : Z) (name : bytes) (found : bool) (ino_out : Z)
    : M S (Z * bool * Z) :=
  r ← check_dir_inode parent;
  if negb (r =? OK) then mret (IOERR, found, ino_out)
  else
    r ← readdir parent [];
    let '(ret, dirent_list) := r in
    if negb (ret =? OK) then mret (IOERR, found, ino_out)
    else
      match find_entry name dirent_list with
      | Some inum => mret (OK, true, inum)
      | None => mret (OK, found, ino_out)
      end.

(** The common text of [create] and [mkdir] from the lookup on. *)
Definition create_entry (type : Z) (parent : Z) (name : bytes) (ino_out : Z) : M S (Z * Z) :=
  r ← lookup parent name false ino_out;
  let '(ret, found, ino_out) := r in
  if negb (ret =? OK) then mret (IOERR, ino_out)
  else if (found : bool) then mret (EXIST, ino_out)
  else
    r ← ec_create type;
    let '(ret, ino_out) := r in
    if negb (ret =? OK) then mret (IOERR, ino_out)
    else
      r ← ec_get parent;
      let '(ret, buf) := r in
      if negb (ret =? OK) then mret (IOERR, ino_out)
      else
        ret ← ec_put parent (buf ++ inum_name_pair name ino_out);
        if negb (ret =? OK) then mret (IOERR, ino_out) else mret (OK, ino_out).

Definition create (parent : Z) (name : bytes) (mode : Z) (ino_out : Z) : M S (Z * Z) :=
  r ← check_dir_inode parent;
  if negb (r =? OK) then mret (IOERR, ino_out)
  else create_entry T_FILE parent name ino_out.

Definition mkdir (parent : Z) (name : bytes) (mode : Z) (ino_out : Z) : M S (Z * Z) :=
  r ← check_dir_inode parent;
  if negb (r =? OK) then mret (IOERR, ino_out)
  else if decide (name = [DOT] \/ name = [DOT; DOT]) then mret (IOERR, ino_out)
  else create_entry T_DIR parent name ino_out.

Definition read (ino size off : Z) (data : bytes) : M S (Z * bytes) :=
  r ← ec_getattr ino;
  let '(ret, a) := r in
  if negb (ret =? OK) then mret (IOERR, data)
  else
    r ← ec_get ino;
    let '(ret, buf) := r in
    if negb (ret =? OK) then mret (IOERR, data)
    else
      let length := len buf in
      if i64 length <=? off then mret (OK, [])
      else if length <=? u64 (off + size) then
        data ← str_substr buf (u64 off) (u64 (length - off)); mret (OK, data)
      else
        data ← str_substr buf (u64 off) size; mret (OK, data).

(** [data] points to the bytes to write. *)
Definition write (ino size off : Z) (data : ptr) (bytes_written : Z) : M S (Z * Z) :=
  r ← ec_getattr ino;
  let '(ret, a) := r in
  if negb (ret =? OK) then mret (IOERR, bytes_written)
  else
    let next_buf := load data 0 size in
    r ← ec_get ino;
    let '(ret, prev_buf) := r in
    if negb (ret =? OK) then mret (IOERR, bytes_written)
    else
      let bytes_written := size in
      prev_buf ← (if i64 (len prev_buf) <? off then str_resize prev_buf (u64 off) else mret prev_buf);
      prev_buf ← str_replace prev_buf (u64 off) size next_buf;
      ret ← ec_put ino prev_buf;
      if negb (ret =? OK) then mret (IOERR, bytes_written) else mret (OK, bytes_written).

Definition unlink (parent : Z) (name : bytes) : M S Z :=
  r ← check_dir_inode parent;
  if negb (r =? OK) then mret IOERR
  else
    r ← lookup parent name false 0;
    let '(ret, found, file_ino) := r in
    if negb (ret =? OK) then mret IOERR
    else if negb found then mret NOENT
    else
      file ← isfile file_ino;
      if negb file then mret IOERR
      else
        ret ← ec_remove file_ino;
        if negb (ret =? OK) then mret IOERR
        else
          r ← readdir parent [];
          let '(ret, list) := r in
          if negb (ret =? OK) then mret IOERR
          else
            ret ← ec_put parent (rebuild name list []);
            if negb (ret =? OK) then mret IOERR else mret OK.

Definition create_symbolic_link (parent : Z) (true_file_path link_name : bytes) (ino : Z)
    : M S (Z * Z) :=
  r ← check_dir_inode parent;
  if negb (r =? OK) then mret (IOERR, ino)
  else
    r ← lookup parent link_name false ino;
    let '(ret, found, ino) := r in
    if negb (ret =? OK) then mret (IOERR, ino)
    else if (found : bool) then mret (EXIST, ino)
    else
      r ← ec_create T_SYMBOLIC;
      let '(ret, ino) := r in
      if negb (ret =? OK) then mret (IOERR, ino)
      else
        r ← ec_get parent;
        let '(ret, buf) := r in
        if negb (ret =? OK) then mret (IOERR, ino)
        else
          let buf := buf ++ inum_name_pair link_name ino in
          _ ← ec_put ino true_file_path;
          ret ← ec_put parent buf;
          if negb (ret =? OK) then mret (IOERR, ino) else mret (OK, ino).

Definition parse_symbolic_link (buf : bytes) (ino : Z) : M S (Z * bytes) :=
  link ← issymlink ino;
  if negb link then mret (IOERR, buf)
  else
    r ← ec_get ino;
    let '(ret, data) := r in
    if negb (ret =? OK) then mret (IOERR, buf) else mret (OK, data).
End chfs_client.
End chfs_client.
