(* ===== verification/ChfsSpec.v ===== *)
(** The methods of [chfs_client], specified against the extent protocol.

    [view] forgets the times: it is what a number names, a type and a byte
    string.  Operations that only read are [quiet]. *)
From S2P Require Import Prelude Monad Disk BlockManager Inode InodeManager FsInv WriteFile.
From S2P Require Import WriteSpec Protocol DirFormat ChfsClient.
From Stdlib Require Import Ascii ZArith Lia.
From stdpp Require Import base gmap numbers list.
#[local] Open Scope Z_scope.

(** ** The text of directories *)
Definition names (l : list dirent) : list bytes := d_name <$> l.

Lemma rebuild_spec name l acc :
  rebuild name l acc = acc ++ dir_text (filter (fun e => d_name e <> name) l).
Proof.
  revert acc. induction l as [|e l IH]; intros acc; cbn [rebuild]; [unfold dir_text; cbn; by rewrite app_nil_r|].
  rewrite filter_cons. case_decide as Hd; case_decide as Hd'; try congruence; rewrite IH; try done.
  by rewrite dir_text_cons, (assoc_L (++)).
Qed.

Lemma find_entry_Some name l k :
  find_entry name l = Some k -> exists e, e ∈ l /\ d_name e = name /\ d_inum e = k.
Proof.
  induction l as [|e l IH]; cbn [find_entry]; [done|]. case_decide as Hd.
  - intros [= <-]. exists e. split; [by left|done].
  - intros (e' & He' & H)%IH. exists e'. split; [by right|done].
Qed.

Lemma find_entry_None name l : find_entry name l = None <-> name ∉ names l.
Proof.
  induction l as [|e l IH]; cbn [find_entry names]; [by split; [intros _ ?%not_elem_of_nil|]|].
  unfold names in *. rewrite fmap_cons, not_elem_of_cons. case_decide as Hd.
  - split; [done|]. intros [H _]. congruence.
  - rewrite IH. split; [intros H; split; [congruence|done]|by intros [_ H]].
Qed.

Lemma find_entry_snoc name l k :
  name ∉ names l -> find_entry name (l ++ [mk_dirent name k]) = Some k.
Proof.
  induction l as [|e l IH]; cbn [find_entry app]; [by rewrite decide_True|].
  unfold names in *. rewrite fmap_cons. intros [Hn Hl]%not_elem_of_cons.
  rewrite decide_False by congruence. auto.
Qed.

Lemma dir_text_filter_le P `{!forall x, Decision (P x)} l :
  (length (dir_text (filter P l)) <= length (dir_text l))%nat.
Proof.
  induction l as [|e l IH]; [done|]. rewrite filter_cons, dir_text_cons, length_app.
  case_decide; rewrite ?dir_text_cons, ?length_app; lia.
Qed.

Lemma put_digits_length fuel n acc k :
  0 <= n < 10 ^ Z.of_nat k -> (length (put_digits fuel n acc) <= Nat.max 1 k + length acc)%nat.
Proof.
  revert n acc k. induction fuel as [|fuel IH]; intros n acc k Hn; cbn [put_digits]; [lia|].
  destruct (Z.eqb_spec (n / 10) 0) as [Hz|Hz]; [cbn [length]; lia|].
  destruct k as [|k]; [exfalso; apply Hz; cbn in Hn; by replace n with 0 by lia|].
  rewrite Nat2Z.inj_succ, Z.pow_succ_r in Hn by lia.
  assert (0 <= n / 10 < 10 ^ Z.of_nat k) as Hq
    by (split; [dlia|apply Z.div_lt_upper_bound; lia]).
  destruct k as [|k]; [cbn in Hq; lia|].
  pose proof (IH (n / 10) (byte_of_Z (48 + n mod 10) :: acc) (S k) Hq) as H. cbn [length] in H. lia.
Qed.

(** An inode number has at most four digits. *)
Lemma len_pair name k : 0 <= k <= INODE_NUM -> len (inum_name_pair name k) <= len name + 6.
Proof.
  unfold INODE_NUM. intros Hk. unfold inum_name_pair, filename. rewrite !len_app.
  pose proof (put_digits_length 20 k [] 4 ltac:(lia)) as H. unfold len in *. cbn [length] in *. lia.
Qed.

Lemma blocks_needed_mono old a b : a <= b -> (blocks_needed old a <= blocks_needed old b)%nat.
Proof.
  intros Hab. assert (nb a <= nb b) by (unfold nb; revert Hab; dlia). unfold blocks_needed.
  repeat case_decide; lia.
Qed.

Lemma blocks_needed_shrink old a : a <= old -> blocks_needed old a = 0%nat.
Proof.
  intros Hab. assert (nb a <= nb old) by (unfold nb; revert Hab; dlia). unfold blocks_needed.
  rewrite decide_False by lia. lia.
Qed.

Lemma u32_type t c : i16 t = t -> 0 <= c < 2 ^ 15 -> (u32 t =? c) = (t =? c).
Proof.
  intros Ht Hc. assert (- 2 ^ 15 <= t < 2 ^ 15) as Hr.
  { rewrite <- Ht. unfold i16. pose proof (Z.mod_pos_bound (t + 2 ^ 15) (2 ^ 16)). lia. }
  destruct (decide (0 <= t)); [by rewrite u32_id by lia|].
  assert (u32 t = t + 2 ^ 32) as ->.
  { unfold u32. symmetry. apply Zmod_unique with (-1); lia. }
  lia.
Qed.

(** ** Views *)
Section spec.
Context {S : Type} `{EL : ExtentLaws S}.
Context (junk : Z -> Z).

Definition view (s : S) (i : Z) : option (Z * bytes) :=
  (fun f => (f_type f, f_data f)) <$> ext_file s i.

Record quiet (s s' : S) : Prop := {
  qu_wf : ext_wf s';
  qu_room : ext_room s' = ext_room s;
  qu_view : forall j, view s' j = view s j
}.

Lemma quiet_refl s : ext_wf s -> quiet s s.
Proof. done. Qed.
#[global] Instance quiet_trans : Transitive quiet.
Proof.
  intros s1 s2 s3 [W1 R1 V1] [W2 R2 V2]. split; [done|congruence|]. intros j. by rewrite V2.
Qed.

Lemma view_id s i x : ext_wf s -> view s i = Some x -> ext_id i = i.
Proof.
  intros Hwf. unfold view. destruct (ext_file s i) as [f|] eqn:Ef; [|done]. intros _.
  destruct (ext_file_ok _ _ _ Hwf Ef) as (Hi & _). unfold INODE_NUM in Hi. apply ext_id_id. lia.
Qed.

Lemma view_range s i x : ext_wf s -> view s i = Some x -> 1 <= i <= INODE_NUM.
Proof.
  intros Hwf. unfold view. destruct (ext_file s i) as [f|] eqn:Ef; [|done]. intros _.
  destruct (ext_file_ok _ _ _ Hwf Ef) as (Hi & _). lia.
Qed.

Lemma view_len s i t d : ext_wf s -> view s i = Some (t, d) -> len d <= MAX_SIZE.
Proof.
  intros Hwf. unfold view. destruct (ext_file s i) as [f|] eqn:Ef; [|done]. intros [= <- <-].
  by destruct (ext_file_ok _ _ _ Hwf Ef) as (_ & _ & _ & ?).
Qed.

Definition type_is (s : S) (t i : Z) : bool :=
  match view s i with Some (t', _) => t' =? t | None => false end.

Lemma attr_type s t i : ext_wf s -> 0 < t < 2 ^ 15 ->
  (a_type (attr_of (ext_file s i)) =? t) = type_is s t i.
Proof.
  intros Hwf Ht. unfold type_is, view. destruct (ext_file s i) as [f|] eqn:Ef; cbn [attr_of a_type fmap option_fmap option_map]; [|lia].
  apply u32_type; [|lia]. by destruct (ext_file_ok _ _ _ Hwf Ef) as (_ & ? & _).
Qed.

Lemma wp_has_type t i s (Q : bool -> S -> Prop) :
  ext_wf s -> 0 < t < 2 ^ 15 -> Q (type_is s t (ext_id i)) s -> wp (chfs_client.has_type t i) Q s.
Proof.
  intros Hwf Ht HQ. unfold chfs_client.has_type. eapply wp_call; [by apply law_getattr|].
  intros r s' [-> ->]. cbn [negb Z.eqb OK]. rewrite attr_type by done.
  by destruct (type_is s t (ext_id i)).
Qed.

Lemma wp_check_dir i s (Q : Z -> S -> Prop) :
  ext_wf s -> Q (if type_is s T_DIR (ext_id i) then OK else IOERR) s ->
  wp (chfs_client.check_dir_inode i) Q s.
Proof.
  intros Hwf HQ. unfold chfs_client.check_dir_inode. eapply wp_call; [by apply law_getattr|].
  intros r s' [-> ->]. cbn [negb Z.eqb OK]. rewrite attr_type by (unfold T_DIR; done || lia).
  by destruct (type_is s T_DIR (ext_id i)).
Qed.

Lemma wp_get_view i s (Q : Z * bytes -> S -> Prop) :
  ext_wf s -> (forall s', quiet s s' -> Q (OK, data_of (ext_file s (ext_id i))) s') ->
  wp (ec_get i) Q s.
Proof.
  intros Hwf HQ. eapply wp_mono; [by apply law_get|].
  intros r s' (-> & Hwf' & Hroom & Hother & t & Hsame). apply HQ. split; [done|done|].
  intros j. unfold view. destruct (decide (j = ext_id i)) as [->|Hj]; [|by rewrite Hother].
  rewrite Hsame. by destruct (ext_file s (ext_id i)).
Qed.

Lemma wp_get_data i s t d (Q : Z * bytes -> S -> Prop) :
  ext_wf s -> view s i = Some (t, d) -> (forall s', quiet s s' -> Q (OK, d) s') ->
  wp (ec_get i) Q s.
Proof.
  intros Hwf Hv HQ. apply wp_get_view; [done|]. rewrite (view_id s i _ Hwf Hv).
  unfold view in Hv. destruct (ext_file s i) as [f|]; [|done]. by injection Hv as <- <-.
Qed.

Lemma wp_put_view i buf t d slack s (Q : Z -> S -> Prop) :
  ext_wf s -> view s i = Some (t, d) -> len buf <= MAX_SIZE ->
  (blocks_needed (len d) (len buf) + slack <= ext_room s)%nat ->
  (forall s', ext_wf s' -> (slack <= ext_room s')%nat -> view s' i = Some (t, buf) ->
     (forall j, j <> i -> view s' j = view s j) -> Q OK s') ->
  wp (ec_put i buf) Q s.
Proof.
  intros Hwf Hv Hlen Hroom HQ. pose proof (view_id s i _ Hwf Hv) as Hi. unfold view in Hv.
  destruct (ext_file s i) as [f|] eqn:Ef; [|done]. injection Hv as <- <-. rewrite <- Hi in Ef.
  eapply wp_mono; [by eapply law_put|]. intros r s' (-> & Hwf' & Hs & Hother & t1 & t2 & t3 & Hf).
  rewrite Hi in *. apply HQ; [done|done|unfold view; by rewrite Hf|].
  intros j Hj. unfold view. by rewrite Hother.
Qed.

Lemma wp_create_view type s (Q : Z * Z -> S -> Prop) :
  ext_wf s -> i16 type = type -> type <> 0 ->
  (forall k s', 1 <= k <= INODE_NUM -> view s k = None -> ext_wf s' -> ext_room s' = ext_room s ->
     view s' k = Some (type, []) -> (forall j, j <> k -> view s' j = view s j) -> Q (OK, k) s') ->
  ((forall j, 1 <= j < INODE_NUM -> view s j <> None) -> forall s', quiet s s' -> Q (OK, 0) s') ->
  wp (ec_create type) Q s.
Proof.
  intros Hwf Ht Hnz Hok Hfull. eapply wp_mono; [apply (law_create type s Hwf); congruence|].
  intros [r k] s' (Hr & Hwf' & Hroom & Hcase). cbn [fst snd] in *. subst r.
  destruct Hcase as [(Hk & Hnone & [t Hf] & Hother)|(-> & Hall & Hsame)].
  - apply Hok; [done|unfold view; by rewrite Hnone|done|done| |].
    + unfold view. rewrite Hf. cbn. by rewrite Ht.
    + intros j Hj. unfold view. by rewrite Hother.
  - apply Hfull.
    + intros j Hj. unfold view. specialize (Hall j Hj). by destruct (ext_file s j).
    + split; [done|done|]. intros j. unfold view. by rewrite Hsame.
Qed.

Lemma wp_remove_view i x s (Q : Z -> S -> Prop) :
  ext_wf s -> view s i = Some x ->
  (forall s', ext_wf s' -> (ext_room s <= ext_room s')%nat -> view s' i = None ->
     (forall j, j <> i -> view s' j = view s j) -> Q OK s') ->
  wp (ec_remove i) Q s.
Proof.
  intros Hwf Hv HQ. pose proof (view_id s i _ Hwf Hv) as Hi.
  eapply wp_mono; [by apply law_remove|]. intros r s' (-> & Hwf' & Hroom & Hnone & Hother).
  rewrite Hi in *. apply HQ; [done|done|unfold view; by rewrite Hnone|].
  intros j Hj. unfold view. by rewrite Hother.
Qed.

(** ** Directories *)

(** [d] is a directory whose text is that of the entries [l]. *)
Record dir_at (s : S) (d : Z) (l : list dirent) : Prop := {
  da_view : view s d = Some (T_DIR, dir_text l);
  da_ok : Forall entry_ok l
}.

Lemma dir_type s d l : dir_at s d l -> type_is s T_DIR d = true.
Proof. intros [Hv _]. unfold type_is. by rewrite Hv. Qed.

Lemma dir_at_view s s' d l : dir_at s d l -> view s' d = view s d -> dir_at s' d l.
Proof. intros [Hv Ho] E. split; [by rewrite E|done]. Qed.

Lemma dir_at_quiet s s' d l : quiet s s' -> dir_at s d l -> dir_at s' d l.
Proof. intros [_ _ Hq] Hd. by eapply dir_at_view. Qed.

Lemma wp_check_is_dir d l s (Q : Z -> S -> Prop) :
  ext_wf s -> dir_at s d l -> Q OK s -> wp (chfs_client.check_dir_inode d) Q s.
Proof.
  intros Hwf Hd HQ. apply wp_check_dir; [done|].
  rewrite (view_id s d _ Hwf (da_view _ _ _ Hd)). by rewrite (dir_type _ _ _ Hd).
Qed.

Lemma wp_readdir d l acc s (Q : Z * list dirent -> S -> Prop) :
  ext_wf s -> dir_at s d l -> (forall s', quiet s s' -> Q (OK, acc ++ l) s') ->
  wp (chfs_client.readdir junk d acc) Q s.
Proof.
  intros Hwf Hd HQ. unfold chfs_client.readdir. wp_step. eapply wp_check_is_dir; [done|done|].
  cbn [negb Z.eqb OK]. wp_step. eapply wp_get_data; [done|apply Hd|]. intros s' Hq.
  cbn [negb Z.eqb OK]. pose proof (view_len _ _ _ _ Hwf (da_view _ _ _ Hd)) as Hlen.
  rewrite parse_dir_text; [|apply Hd|unfold MAX_SIZE in Hlen; lia]. wp_step. by apply HQ.
Qed.

Lemma wp_lookup d l name found ino s (Q : Z * bool * Z -> S -> Prop) :
  ext_wf s -> dir_at s d l ->
  (forall s', quiet s s' ->
     Q (OK, match find_entry name l with Some _ => true | None => found end,
        match find_entry name l with Some k => k | None => ino end) s') ->
  wp (chfs_client.lookup junk d name found ino) Q s.
Proof.
  intros Hwf Hd HQ. unfold chfs_client.lookup. wp_step. eapply wp_check_is_dir; [done|done|].
  cbn [negb Z.eqb OK]. wp_step. eapply wp_readdir; [done|done|]. intros s' Hq.
  cbn [negb Z.eqb OK app]. specialize (HQ s' Hq). destruct (find_entry name l); by wp_step.
Qed.
End spec.
