(* ===== verification/ChfsOps.v ===== *)
(** The operations of [chfs_client] that change the file system, specified
    against the extent protocol. *)
From S2P Require Import Prelude Monad Disk BlockManager Inode InodeManager FsInv WriteFile.
From S2P Require Import WriteSpec Protocol DirFormat ChfsClient ChfsSpec.
From Stdlib Require Import Ascii ZArith Lia.
From stdpp Require Import base gmap numbers list.
#[local] Open Scope Z_scope.

(** The tests [ret != OK] of the successful path. *)
Ltac ok_step := cbn [negb Z.eqb OK]; wp_step.

(** [read] of [size] bytes at [off], and the file after a [write]. *)
Definition slice (off size : Z) (d : bytes) : bytes := take (Z.to_nat size) (drop (Z.to_nat off) d).
Definition overwrite (off : Z) (new d : bytes) : bytes :=
  take (Z.to_nat off) (d ++ replicate (Z.to_nat (off - len d)) NUL) ++ new ++
  drop (Z.to_nat off + length new) d.

Lemma len_overwrite off new d :
  0 <= off -> len (overwrite off new d) = Z.max (len d) (off + len new).
Proof.
  intros Hoff. unfold overwrite, len.
  rewrite !length_app, length_take, length_drop, length_app, length_replicate. lia.
Qed.

Lemma slice_overwrite off new d : 0 <= off -> slice off (len new) (overwrite off new d) = new.
Proof.
  intros Hoff. unfold slice, overwrite, len. rewrite Nat2Z.id.
  rewrite drop_app_length' by (rewrite length_take, length_app, length_replicate; lia).
  by rewrite take_app_length.
Qed.

Section ops.
Context {S : Type} `{EL : ExtentLaws S}.
Context (junk : Z -> Z).

(** ** create, mkdir and create_symbolic_link *)

(** There is room for an entry called [name] and [extra] more blocks. *)
Definition entry_room (s : S) (l : list dirent) (name : bytes) (extra : nat) : Prop :=
  len (dir_text l) + len name + 6 <= MAX_SIZE /\
  (blocks_needed (len (dir_text l)) (len (dir_text l) + len name + 6) + extra <= ext_room s)%nat.

Lemma entry_fits s l name k extra :
  entry_room s l name extra -> 0 <= k <= INODE_NUM ->
  let t := dir_text l ++ inum_name_pair name k in
  len t <= MAX_SIZE /\ (blocks_needed (len (dir_text l)) (len t) + extra <= ext_room s)%nat.
Proof.
  intros [Hlen Hroom] Hk. cbv zeta. pose proof (len_pair name k Hk). rewrite len_app.
  split; [lia|]. etrans; [|exact Hroom]. apply Nat.add_le_mono_r, blocks_needed_mono. lia.
Qed.

(** Appending an entry to the text of a directory. *)
Lemma wp_add_entry d l name k extra s (Q : Z -> S -> Prop) :
  ext_wf s -> dir_at s d l -> SLASH ∉ name -> 0 <= k <= INODE_NUM -> entry_room s l name extra ->
  (forall s', ext_wf s' -> (extra <= ext_room s')%nat -> dir_at s' d (l ++ [mk_dirent name k]) ->
     (forall j, j <> d -> view s' j = view s j) -> Q OK s') ->
  wp (ec_put d (dir_text l ++ inum_name_pair name k)) Q s.
Proof.
  intros Hwf Hd Hname Hk Hroom HQ. destruct (entry_fits s l name k extra Hroom Hk) as [Hlen Hfit].
  eapply wp_put_view; [done|apply Hd|exact Hlen|exact Hfit|].
  intros s' Hwf' Hr' Hv' Hother. apply HQ; [done|done| |done]. split.
  - by rewrite dir_text_snoc.
  - apply Forall_app. split; [apply Hd|]. constructor; [|done]. unfold INODE_NUM in Hk.
    split; cbn [d_inum d_name]; [lia|done].
Qed.

(** A new entry: either with a fresh inode, or, when the inode table is
    exhausted, with the number 0. *)
Lemma wp_create_entry type d l name ino extra s (Q : Z * Z -> S -> Prop) :
  ext_wf s -> dir_at s d l -> SLASH ∉ name -> name ∉ names l -> entry_room s l name extra ->
  i16 type = type -> type <> 0 ->
  (forall k s', 1 <= k <= INODE_NUM -> view s k = None -> ext_wf s' -> (extra <= ext_room s')%nat ->
     dir_at s' d (l ++ [mk_dirent name k]) -> view s' k = Some (type, []) ->
     (forall j, j <> d -> j <> k -> view s' j = view s j) -> Q (OK, k) s') ->
  ((forall j, 1 <= j < INODE_NUM -> view s j <> None) -> forall s', ext_wf s' ->
     (extra <= ext_room s')%nat -> dir_at s' d (l ++ [mk_dirent name 0]) ->
     (forall j, j <> d -> view s' j = view s j) -> Q (OK, 0) s') ->
  wp (chfs_client.create_entry junk type d name ino) Q s.
Proof.
  intros Hwf Hd Hname Hnew Hroom Ht Hnz Hok Hfull. unfold chfs_client.create_entry.
  wp_step. eapply wp_lookup; [done|done|]. intros s1 Hq1.
  rewrite (proj2 (find_entry_None name l)) by done. ok_step.
  assert (entry_room s1 l name extra) as Hroom1 by (unfold entry_room; by rewrite (qu_room _ _ Hq1)).
  pose proof (dir_at_quiet _ _ _ _ Hq1 Hd) as Hd1.
  apply wp_create_view; [apply Hq1|done|done|..].
  - intros k s2 Hk Hnone Hwf2 Hroom2 Hv2 Hother2. ok_step.
    assert (k <> d) as Hkd by (intros ->; by rewrite (da_view _ _ _ Hd1) in Hnone).
    assert (dir_at s2 d l) as Hd2 by (eapply dir_at_view; [done|by apply Hother2]).
    eapply wp_get_data; [done|apply Hd2|]. intros s3 Hq3. ok_step.
    pose proof (dir_at_quiet _ _ _ _ Hq3 Hd2) as Hd3.
    eapply wp_add_entry; [apply Hq3|exact Hd3|done|lia| |].
    { unfold entry_room. rewrite (qu_room _ _ Hq3), Hroom2. exact Hroom1. }
    intros s4 Hwf4 Hr4 Hd4 Hother4. ok_step. apply Hok; try done.
    + by rewrite <- (qu_view _ _ Hq1).
    + by rewrite Hother4, (qu_view _ _ Hq3).
    + intros j Hj1 Hj2. by rewrite Hother4, (qu_view _ _ Hq3), Hother2, (qu_view _ _ Hq1).
  - intros Hall s2 Hq2. ok_step. pose proof (dir_at_quiet _ _ _ _ Hq2 Hd1) as Hd2.
    eapply wp_get_data; [apply Hq2|apply Hd2|]. intros s3 Hq3. ok_step.
    pose proof (dir_at_quiet _ _ _ _ Hq3 Hd2) as Hd3.
    eapply wp_add_entry; [apply Hq3|exact Hd3|done|unfold INODE_NUM; lia| |].
    { unfold entry_room. rewrite (qu_room _ _ Hq3), (qu_room _ _ Hq2). exact Hroom1. }
    intros s4 Hwf4 Hr4 Hd4 Hother4. ok_step. apply Hfull; try done.
    + intros j Hj. rewrite <- (qu_view _ _ Hq1). by apply Hall.
    + intros j Hj. by rewrite Hother4, (qu_view _ _ Hq3), (qu_view _ _ Hq2), (qu_view _ _ Hq1).
Qed.

Lemma wp_create_exists type d l name k ino s (Q : Z * Z -> S -> Prop) :
  ext_wf s -> dir_at s d l -> find_entry name l = Some k ->
  (forall s', quiet s s' -> Q (EXIST, k) s') ->
  wp (chfs_client.create_entry junk type d name ino) Q s.
Proof.
  intros Hwf Hd Hf HQ. unfold chfs_client.create_entry. wp_step.
  eapply wp_lookup; [done|done|]. intros s1 Hq1. rewrite Hf. ok_step. by apply HQ.
Qed.

(** A symbolic link is an inode that holds the path. *)
Lemma wp_symlink d l path name ino extra s (Q : Z * Z -> S -> Prop) :
  ext_wf s -> dir_at s d l -> SLASH ∉ name -> name ∉ names l -> len path <= MAX_SIZE ->
  entry_room s l name (blocks_needed 0 (len path) + extra) ->
  (exists j, 1 <= j < INODE_NUM /\ view s j = None) ->
  (forall k s', 1 <= k <= INODE_NUM -> view s k = None -> ext_wf s' -> (extra <= ext_room s')%nat ->
     dir_at s' d (l ++ [mk_dirent name k]) -> view s' k = Some (T_SYMBOLIC, path) ->
     (forall j, j <> d -> j <> k -> view s' j = view s j) -> Q (OK, k) s') ->
  wp (chfs_client.create_symbolic_link junk d path name ino) Q s.
Proof.
  intros Hwf Hd Hname Hnew Hlen [He1 He2] (j & Hj & Hjnone) HQ.
  unfold chfs_client.create_symbolic_link. wp_step. eapply wp_check_is_dir; [done|done|]. ok_step.
  eapply wp_lookup; [done|done|]. intros s1 Hq1.
  rewrite (proj2 (find_entry_None name l)) by done. ok_step.
  pose proof (dir_at_quiet _ _ _ _ Hq1 Hd) as Hd1.
  apply wp_create_view; [apply Hq1|done|done|..].
  2:{ intros Hall. destruct (Hall j Hj). by rewrite (qu_view _ _ Hq1). }
  intros k s2 Hk Hnone Hwf2 Hroom2 Hv2 Hother2. ok_step.
  assert (k <> d) as Hkd by (intros ->; by rewrite (da_view _ _ _ Hd1) in Hnone).
  assert (dir_at s2 d l) as Hd2 by (eapply dir_at_view; [done|by apply Hother2]).
  eapply wp_get_data; [done|apply Hd2|]. intros s3 Hq3. ok_step.
  set (b := blocks_needed (len (dir_text l)) (len (dir_text l) + len name + 6)) in *.
  eapply (wp_put_view k path _ [] (b + extra)%nat);
    [apply Hq3|by rewrite (qu_view _ _ Hq3)|done| |].
  { rewrite (qu_room _ _ Hq3), Hroom2, (qu_room _ _ Hq1). change (len []) with 0. lia. }
  intros s4 Hwf4 Hr4 Hv4 Hother4. wp_step.
  assert (dir_at s4 d l) as Hd4.
  { eapply dir_at_view; [exact Hd2|]. rewrite Hother4 by done. apply Hq3. }
  eapply (wp_add_entry d l name k extra); [done|exact Hd4|done|lia|split; [exact He1|exact Hr4]|].
  intros s5 Hwf5 Hr5 Hd5 Hother5. ok_step. apply HQ; try done.
  - by rewrite <- (qu_view _ _ Hq1).
  - by rewrite Hother5.
  - intros i Hi1 Hi2. by rewrite Hother5, Hother4, (qu_view _ _ Hq3), Hother2, (qu_view _ _ Hq1).
Qed.

Lemma wp_readlink i path buf s (Q : Z * bytes -> S -> Prop) :
  ext_wf s -> view s i = Some (T_SYMBOLIC, path) ->
  (forall s', quiet s s' -> Q (OK, path) s') ->
  wp (chfs_client.parse_symbolic_link buf i) Q s.
Proof.
  intros Hwf Hv HQ. unfold chfs_client.parse_symbolic_link, chfs_client.issymlink. wp_step.
  apply wp_has_type; [done|done|]. rewrite (view_id _ _ _ Hwf Hv). unfold type_is.
  rewrite Hv, Z.eqb_refl. ok_step. eapply wp_get_data; [done|exact Hv|]. intros s' Hq. ok_step.
  by apply HQ.
Qed.

(** ** unlink *)
Lemma wp_unlink d l name k data s (Q : Z -> S -> Prop) :
  ext_wf s -> dir_at s d l -> find_entry name l = Some k -> view s k = Some (T_FILE, data) ->
  (forall s', ext_wf s' -> (ext_room s <= ext_room s')%nat -> view s' k = None ->
     dir_at s' d (filter (fun e => d_name e <> name) l) ->
     (forall j, j <> d -> j <> k -> view s' j = view s j) -> Q OK s') ->
  wp (chfs_client.unlink junk d name) Q s.
Proof.
  intros Hwf Hd Hf Hk HQ. unfold chfs_client.unlink. wp_step.
  eapply wp_check_is_dir; [done|done|]. ok_step.
  eapply wp_lookup; [done|done|]. intros s1 Hq1. rewrite Hf. ok_step.
  assert (view s1 k = Some (T_FILE, data)) as Hk1 by (by rewrite (qu_view _ _ Hq1)).
  unfold chfs_client.isfile. apply wp_has_type; [apply Hq1|done|].
  rewrite (view_id _ _ _ (qu_wf _ _ Hq1) Hk1). unfold type_is. rewrite Hk1, Z.eqb_refl. ok_step.
  eapply wp_remove_view; [apply Hq1|exact Hk1|]. intros s2 Hwf2 Hr2 Hnone2 Hother2. ok_step.
  assert (k <> d) as Hkd by (intros ->; rewrite (da_view _ _ _ Hd) in Hk; discriminate).
  pose proof (dir_at_quiet _ _ _ _ Hq1 Hd) as Hd1.
  assert (dir_at s2 d l) as Hd2 by (eapply dir_at_view; [exact Hd1|by apply Hother2]).
  eapply wp_readdir; [done|exact Hd2|]. intros s3 Hq3. cbn [app]. ok_step.
  pose proof (dir_at_quiet _ _ _ _ Hq3 Hd2) as Hd3.
  rewrite rebuild_spec. cbn [app]. set (l' := filter _ l).
  pose proof (dir_text_filter_le (fun e => d_name e <> name) l) as Hle. fold l' in Hle.
  pose proof (view_len _ _ _ _ Hwf (da_view _ _ _ Hd)) as Hmax.
  eapply (wp_put_view d (dir_text l') _ _ (ext_room s3));
    [apply Hq3|apply Hd3|unfold len in *; lia|rewrite blocks_needed_shrink; [done|unfold len; lia]|].
  intros s4 Hwf4 Hr4 Hv4 Hother4. ok_step.
  rewrite (qu_room _ _ Hq3) in Hr4. rewrite (qu_room _ _ Hq1) in Hr2.
  apply HQ; [done|lia| | |].
  - by rewrite Hother4, (qu_view _ _ Hq3).
  - split; [done|]. apply Forall_forall. intros e [_ He]%list_elem_of_filter.
    by apply (proj1 (Forall_forall _ _) (da_ok _ _ _ Hd)).
  - intros j H1 H2. by rewrite Hother4, (qu_view _ _ Hq3), Hother2, (qu_view _ _ Hq1).
Qed.

(** A name that is missing, or is not a regular file's. *)
Lemma wp_unlink_fails d l name s (Q : Z -> S -> Prop) :
  ext_wf s -> dir_at s d l ->
  (forall k, find_entry name l = Some k -> type_is s T_FILE (ext_id k) = false) ->
  (forall s', quiet s s' -> Q (match find_entry name l with Some _ => IOERR | None => NOENT end) s') ->
  wp (chfs_client.unlink junk d name) Q s.
Proof.
  intros Hwf Hd Hf HQ. unfold chfs_client.unlink. wp_step.
  eapply wp_check_is_dir; [done|done|]. ok_step.
  eapply wp_lookup; [done|done|]. intros s1 Hq1. specialize (HQ s1 Hq1).
  destruct (find_entry name l) as [k|]; ok_step; [|done].
  unfold chfs_client.isfile. apply wp_has_type; [apply Hq1|done|].
  assert (type_is s1 T_FILE (ext_id k) = false) as ->; [|by ok_step].
  unfold type_is. rewrite (qu_view _ _ Hq1). by apply Hf.
Qed.

(** ** read, write and setattr *)
(** What [read] makes of a storage that answers with [d]. *)
Lemma wp_read_answer i d size off data s (Q : Z * bytes -> S -> Prop) :
  len d <= MAX_SIZE -> 0 <= off -> 0 <= size -> off + size < 2 ^ 63 ->
  wp (ec_getattr i) (fun r s' => r.1 = OK /\
    wp (ec_get i) (fun r s'' => r = (OK, d) /\ Q (OK, slice off size d) s'') s') s ->
  wp (chfs_client.read i size off data) Q s.
Proof.
  intros Hlen Hoff Hsize Hsum Hw. assert (0 <= len d <= 116736) as Hd by (unfold len, MAX_SIZE in *; lia).
  unfold chfs_client.read. eapply wp_call; [exact Hw|]. intros [ret a] s' [Hr Hget]. cbn in Hr. subst ret. ok_step.
  eapply wp_mono; [exact Hget|]. intros r s1 [-> HQ].
  cbn [negb Z.eqb OK]. rewrite i64_id, !(u64_id (off + size)), !(u64_id off) by lia.
  unfold slice in HQ. apply wp_if; intros H1.
  - wp_step. rewrite drop_ge, take_nil in HQ by (unfold len in *; lia). done.
  - unfold str_substr. rewrite (proj2 (Z.ltb_ge _ _)) by lia.
    apply wp_if; intros H2; repeat wp_step; unfold substr.
    + rewrite u64_id by lia. rewrite (take_ge (drop _ d)) in HQ
        by (rewrite length_drop; unfold len in *; lia).
      by rewrite take_ge by (rewrite length_drop; unfold len in *; lia).
    + by rewrite Z.min_l by lia.
Qed.

Lemma wp_read i t d size off data s (Q : Z * bytes -> S -> Prop) :
  ext_wf s -> view s i = Some (t, d) -> 0 <= off -> 0 <= size -> off + size < 2 ^ 63 ->
  (forall s', quiet s s' -> Q (OK, slice off size d) s') ->
  wp (chfs_client.read i size off data) Q s.
Proof.
  intros Hwf Hv Hoff Hsize Hsum HQ. apply (wp_read_answer i d); [by eapply view_len|done..|].
  eapply wp_mono; [by apply law_getattr|]. intros r s' [-> ->]. split; [done|].
  eapply wp_get_data; [done|exact Hv|]. auto.
Qed.

(** [write] over a storage that answers with [d]. *)
Lemma wp_write_answer i d size off p written s (Q : Z * Z -> S -> Prop) :
  len d <= MAX_SIZE -> 0 <= off -> 0 <= size -> off + size <= MAX_SIZE ->
  wp (ec_getattr i) (fun r s' => r.1 = OK /\
    wp (ec_get i) (fun r s1 => r = (OK, d) /\
      wp (ec_put i (overwrite off (load p 0 size) d)) (fun r s2 => r = OK /\ Q (OK, size) s2) s1) s') s ->
  wp (chfs_client.write i size off p written) Q s.
Proof.
  intros Hlen Hoff Hsize Hsum Hw.
  assert (len (load p 0 size) = size) as Hl by (unfold len; rewrite length_load; lia).
  unfold MAX_SIZE in *. assert (0 <= len d) by (unfold len; lia).
  unfold chfs_client.write. eapply wp_call; [exact Hw|]. intros [ret a] s' [Hr Hget]. cbn in Hr. subst ret. ok_step.
  eapply wp_mono; [exact Hget|]. intros r s1 [-> HQ]. cbn [negb Z.eqb OK].
  rewrite i64_id, !(u64_id off) by lia. unfold str_resize.
  rewrite (proj2 (Z.ltb_ge STRING_MAX off)) by (unfold STRING_MAX; lia). wp_step.
  set (d' := d ++ replicate (Z.to_nat (off - len d)) NUL).
  assert (len d' = Z.max (len d) off) as Hd'
    by (unfold d', len in *; rewrite length_app, length_replicate; lia).
  assert (forall Q' : bytes -> S -> Prop, Q' d' s1 ->
    wp (if len d <? off then mret (take (Z.to_nat off) d ++ replicate (Z.to_nat (off - len d)) NUL)
        else mret d) Q' s1) as Hpad.
  { intros Q' HQ'. apply wp_if; intros H1; wp_step.
    - rewrite take_ge by (unfold len in *; lia). exact HQ'.
    - assert (d' = d) as ->; [|done]. unfold d'.
      replace (Z.to_nat (off - len d)) with 0%nat by lia. apply app_nil_r. }
  apply Hpad. wp_step. unfold str_replace. rewrite (proj2 (Z.ltb_ge _ _)) by lia. repeat wp_step.
  assert (take (Z.to_nat off) d' ++ load p 0 size ++
          drop (Z.to_nat (off + Z.min size (len d' - off))) d' = overwrite off (load p 0 size) d) as ->.
  { unfold overwrite. fold d'. f_equal. f_equal.
    destruct (decide (off + size <= len d)) as [Hin|Hout].
    - assert (d' = d) as ->.
      { unfold d'. replace (Z.to_nat (off - len d)) with 0%nat by lia. apply app_nil_r. }
      f_equal. unfold len in *. lia.
    - rewrite !drop_ge; [done|unfold len in *; lia..]. }
  eapply wp_mono; [exact HQ|]. intros r s2 [-> HQ2]. by ok_step.
Qed.

(** [write] up to its [put]. *)
Lemma wp_write_put i t d size off p written s (Q : Z * Z -> S -> Prop) :
  ext_wf s -> view s i = Some (t, d) -> 0 <= off -> 0 <= size -> off + size <= MAX_SIZE ->
  (forall s1, quiet s s1 -> wp (ec_put i (overwrite off (load p 0 size) d))
     (fun r s2 => r = OK /\ Q (OK, size) s2) s1) ->
  wp (chfs_client.write i size off p written) Q s.
Proof.
  intros Hwf Hv Hoff Hsize Hsum HQ. apply (wp_write_answer i d); [by eapply view_len|done..|].
  eapply wp_mono; [by apply law_getattr|]. intros r s' [-> ->]. split; [done|].
  eapply wp_get_data; [done|exact Hv|]. auto.
Qed.

Lemma wp_write i t d size off p written slack s (Q : Z * Z -> S -> Prop) :
  ext_wf s -> view s i = Some (t, d) -> 0 <= off -> 0 <= size -> off + size <= MAX_SIZE ->
  (blocks_needed (len d) (Z.max (len d) (off + size)) + slack <= ext_room s)%nat ->
  (forall s', ext_wf s' -> (slack <= ext_room s')%nat ->
     view s' i = Some (t, overwrite off (load p 0 size) d) ->
     (forall j, j <> i -> view s' j = view s j) -> Q (OK, size) s') ->
  wp (chfs_client.write i size off p written) Q s.
Proof.
  intros Hwf Hv Hoff Hsize Hsum Hroom HQ. pose proof (view_len _ _ _ _ Hwf Hv) as Hlen.
  eapply wp_write_put; [done|exact Hv|done..|]. intros s1 Hq.
  assert (len (overwrite off (load p 0 size) d) = Z.max (len d) (off + size)) as Ho
    by (rewrite len_overwrite by done; unfold len; rewrite length_load; lia).
  eapply (wp_put_view i _ t d slack);
    [apply Hq|by rewrite (qu_view _ _ Hq)|lia|rewrite Ho, (qu_room _ _ Hq); done|].
  intros s2 Hwf2 Hr2 Hv2 Hother2. split; [done|]. apply HQ; [done|done|done|].
  intros j Hj. by rewrite Hother2, (qu_view _ _ Hq).
Qed.

(** [setattr] cuts a file; it does not extend it. *)
Lemma wp_setattr i t d size s (Q : Z -> S -> Prop) :
  ext_wf s -> view s i = Some (t, d) -> 0 <= size ->
  (forall s', ext_wf s' -> (ext_room s <= ext_room s')%nat ->
     view s' i = Some (t, take (Z.to_nat size) d) ->
     (forall j, j <> i -> view s' j = view s j) -> Q OK s') ->
  wp (chfs_client.setattr i size) Q s.
Proof.
  intros Hwf Hv Hsize HQ. pose proof (view_len _ _ _ _ Hwf Hv) as Hlen.
  unfold chfs_client.setattr. wp_step. eapply wp_get_data; [done|exact Hv|].
  intros s1 Hq. cbn [negb Z.eqb OK]. assert (0 <= len d) by (unfold len; lia).
  apply wp_if; intros H1.
  - wp_step. apply HQ; [apply Hq|by rewrite (qu_room _ _ Hq)| |intros j _; apply Hq].
    rewrite (qu_view _ _ Hq), Hv, take_ge; [done|unfold len in *; lia].
  - wp_step.
    assert (forall Q' : bytes -> S -> Prop, Q' (take (Z.to_nat size) d) s1 ->
      wp (if len d <? size then str_substr d 0 size else str_resize d size) Q' s1) as Hcut.
    { intros Q' HQ'. apply wp_if; intros H2.
      - unfold str_substr. rewrite (proj2 (Z.ltb_ge _ _)) by lia. wp_step. unfold substr.
        rewrite drop_0, take_ge by (unfold len in *; lia).
        by rewrite take_ge in HQ' by (unfold len in *; lia).
      - unfold str_resize. unfold MAX_SIZE in Hlen.
        rewrite (proj2 (Z.ltb_ge STRING_MAX size)) by (unfold STRING_MAX; lia). wp_step.
        replace (Z.to_nat (size - len d)) with 0%nat by lia. by rewrite app_nil_r. }
    apply Hcut. wp_step.
    assert (len (take (Z.to_nat size) d) <= len d) as Hle by (unfold len; rewrite length_take; lia).
    eapply (wp_put_view i _ t d (ext_room s));
      [apply Hq|by rewrite (qu_view _ _ Hq)|lia|rewrite (qu_room _ _ Hq), blocks_needed_shrink by done; done|].
    intros s2 Hwf2 Hr2 Hv2 Hother2. ok_step. apply HQ; [done|done|done|].
    intros j Hj. by rewrite Hother2, (qu_view _ _ Hq).
Qed.
End ops.
