(* ===== verification/ChfsTree.v ===== *)
(** The invariant of the file system as [chfs_client] keeps it, and the states
    reachable through its operations.

    In a [tree_wf] state the root is a directory, every directory parses, its
    names are distinct, every entry names an inode in use, and no inode has two
    entries. *)
From S2P Require Import Prelude Monad Disk BlockManager Inode InodeManager FsInv WriteFile.
From S2P Require Import WriteSpec Protocol DirFormat ChfsClient ChfsSpec ChfsOps.
From Stdlib Require Import Ascii ZArith Lia.
From stdpp Require Import base gmap numbers list.
#[local] Open Scope Z_scope.

Section tree.
Context {S : Type} `{EL : ExtentLaws S}.
Context (junk : Z -> Z).

Record tree_wf (s : S) : Prop := {
  tw_wf : ext_wf s;
  tw_root : exists l, dir_at s 1 l;
  tw_dir : forall i d, view s i = Some (T_DIR, d) -> exists l, dir_at s i l /\ NoDup (names l);
  tw_used : forall i l e, dir_at s i l -> e ∈ l -> view s (d_inum e) <> None;
  tw_tree : forall i1 i2 l1 l2 e1 e2, dir_at s i1 l1 -> dir_at s i2 l2 -> e1 ∈ l1 -> e2 ∈ l2 ->
              d_inum e1 = d_inum e2 -> i1 = i2 /\ e1 = e2
}.

(** A directory's text determines its entries. *)
Lemma dir_at_fun s i l l' : ext_wf s -> dir_at s i l -> dir_at s i l' -> l = l'.
Proof.
  intros Hwf [Hv Ho] [Hv' Ho']. pose proof (view_len _ _ _ _ Hwf Hv) as Hlen.
  unfold MAX_SIZE in Hlen. rewrite Hv in Hv'. injection Hv' as E.
  pose proof (parse_dir_text junk l Ho ltac:(lia)) as P.
  rewrite E, parse_dir_text in P; [congruence|done|rewrite <- E; lia].
Qed.

Lemma tree_quiet s s' : quiet s s' -> tree_wf s -> tree_wf s'.
Proof.
  intros Hq [Hwf Hroot Hdir Hused Htree].
  assert (forall i l, dir_at s' i l <-> dir_at s i l) as Hd.
  { intros i l. split; intros Hdl; (eapply dir_at_view; [exact Hdl|]); [symmetry|]; apply Hq. }
  split; [apply Hq| | | |].
  - setoid_rewrite Hd. done.
  - intros i d. rewrite (qu_view _ _ Hq). setoid_rewrite Hd. apply Hdir.
  - intros i l e. rewrite Hd, (qu_view _ _ Hq). apply Hused.
  - intros i1 i2 l1 l2 e1 e2. rewrite !Hd. apply Htree.
Qed.

(** Appending an entry for a fresh inode. *)
Section add.
Context (s s' : S) (d k type : Z) (data : bytes) (l : list dirent) (name : bytes).
Hypothesis Hwf : tree_wf s.
Hypothesis Hwf' : ext_wf s'.
Hypothesis Hd : dir_at s d l.
Hypothesis Hnew : name ∉ names l.
Hypothesis Hk : view s k = None.
Hypothesis Hd' : dir_at s' d (l ++ [mk_dirent name k]).
Hypothesis Hk' : view s' k = Some (type, data).
Hypothesis Hdata : type = T_DIR -> data = [].
Hypothesis Hother : forall j, j <> d -> j <> k -> view s' j = view s j.

Lemma add_kd : k <> d.
Proof. intros ->. by rewrite (da_view _ _ _ Hd) in Hk. Qed.

(** The directories afterwards. *)
Lemma add_dirs i li : dir_at s' i li ->
  (i = d /\ li = l ++ [mk_dirent name k]) \/ (i = k /\ li = []) \/
  (i <> d /\ i <> k /\ dir_at s i li).
Proof.
  intros Hi. destruct (decide (i = d)) as [->|Hid].
  { left. split; [done|]. by eapply (dir_at_fun s'). }
  destruct (decide (i = k)) as [->|Hik].
  - right. left. split; [done|]. pose proof (da_view _ _ _ Hi) as Hv.
    rewrite Hk' in Hv. injection Hv as Ht Hl. rewrite (Hdata Ht) in Hl.
    apply (dir_at_fun s' k); [done|done|]. split; [|constructor]. by rewrite Hk', Ht, (Hdata Ht).
  - right. right. split; [done|]. split; [done|]. eapply dir_at_view; [exact Hi|].
    symmetry. by apply Hother.
Qed.

(** An entry is an old one of the same directory, or the new one. *)
Lemma add_entries i li e : dir_at s' i li -> e ∈ li ->
  (exists lo, dir_at s i lo /\ e ∈ lo) \/ (i = d /\ e = mk_dirent name k).
Proof.
  intros Hi He. destruct (add_dirs i li Hi) as [[-> ->]|[[-> ->]|(_ & _ & Ho)]].
  - apply elem_of_app in He as [He|He]; [left; by exists l|].
    right. by apply list_elem_of_singleton in He.
  - by apply not_elem_of_nil in He.
  - left. by exists li.
Qed.

Lemma add_tree : tree_wf s'.
Proof.
  destruct Hwf as [W [lr Hroot] Hdir Hused Htree]. pose proof add_kd as Hkd. split; [done| | | |].
  - destruct (decide (d = 1)) as [->|Hd1]; [eauto|]. exists lr. eapply dir_at_view; [exact Hroot|].
    apply Hother; [done|]. intros <-. by rewrite (da_view _ _ _ Hroot) in Hk.
  - intros i di Hv. destruct (decide (i = d)) as [->|Hid].
    + exists (l ++ [mk_dirent name k]). split; [done|]. destruct (Hdir d _ (da_view _ _ _ Hd)) as (l0 & H0 & Hnd).
      rewrite (dir_at_fun s d l0 l) in Hnd by done. unfold names. rewrite fmap_app.
      apply NoDup_app. split; [done|]. split; [|apply NoDup_singleton].
      by intros x Hx ->%list_elem_of_singleton.
    + destruct (decide (i = k)) as [->|Hik].
      * rewrite Hk' in Hv. injection Hv as Ht Hl. exists []. split; [|constructor].
        split; [|constructor]. by rewrite Hk', Ht, (Hdata Ht).
      * rewrite Hother in Hv by done. destruct (Hdir i _ Hv) as (li & Hi & Hnd). exists li.
        split; [|done]. eapply dir_at_view; [exact Hi|]. by apply Hother.
  - intros i li e Hi He. destruct (add_entries i li e Hi He) as [(lo & Ho & He')|[_ ->]].
    + assert (view s (d_inum e) <> None) as Hu by eauto.
      destruct (decide (d_inum e = d)) as [->|]; [by rewrite (da_view _ _ _ Hd')|].
      rewrite Hother; [done|done|]. congruence.
    + cbn. by rewrite Hk'.
  - intros i1 i2 l1 l2 e1 e2 H1 H2 He1 He2 E.
    destruct (add_entries _ _ _ H1 He1) as [(lo1 & Ho1 & Hi1)|[-> ->]],
      (add_entries _ _ _ H2 He2) as [(lo2 & Ho2 & Hi2)|[-> ->]]; cbn in E; [eauto|..|done].
    + destruct (Hused _ _ _ Ho1 Hi1). by rewrite E.
    + destruct (Hused _ _ _ Ho2 Hi2). by rewrite <- E.
Qed.
End add.

(** Removing the entry and the inode of a regular file. *)
Section remove.
Context (s s' : S) (d k : Z) (data : bytes) (l : list dirent) (name : bytes).
Hypothesis Hwf : tree_wf s.
Hypothesis Hwf' : ext_wf s'.
Hypothesis Hd : dir_at s d l.
Hypothesis Hf : find_entry name l = Some k.
Hypothesis Hk : view s k = Some (T_FILE, data).
Hypothesis Hk' : view s' k = None.
Hypothesis Hd' : dir_at s' d (filter (fun e => d_name e <> name) l).
Hypothesis Hother : forall j, j <> d -> j <> k -> view s' j = view s j.

Lemma remove_entries i li e : dir_at s' i li -> e ∈ li ->
  exists lo, dir_at s i lo /\ e ∈ lo /\ (i = d -> d_name e <> name).
Proof.
  intros Hi He. destruct (decide (i = d)) as [->|Hid].
  - rewrite (dir_at_fun s' d li _ Hwf' Hi Hd') in He. apply list_elem_of_filter in He as [Hn He]. eauto.
  - exists li. split; [|done]. eapply dir_at_view; [exact Hi|]. symmetry. apply Hother; [done|].
    intros ->. by rewrite (da_view _ _ _ Hi) in Hk'.
Qed.

(** No remaining entry has the number of the removed file. *)
Lemma remove_gone i li e : dir_at s' i li -> e ∈ li -> d_inum e <> k.
Proof.
  intros Hi He E. destruct (remove_entries i li e Hi He) as (lo & Ho & He' & Hn).
  destruct (find_entry_Some _ _ _ Hf) as (e0 & He0 & Hn0 & Hk0).
  destruct (tw_tree _ Hwf i d lo l e e0) as [-> ->]; [done..|congruence|]. by apply Hn.
Qed.

Lemma remove_tree : tree_wf s'.
Proof.
  pose proof remove_entries as Hent. pose proof remove_gone as Hgone.
  destruct Hwf as [W [lr Hroot] Hdir Hused Htree]. split; [done| | | |].
  - destruct (decide (d = 1)) as [->|Hd1]; [eauto|]. exists lr. eapply dir_at_view; [exact Hroot|].
    apply Hother; [done|]. intros <-. rewrite (da_view _ _ _ Hroot) in Hk. discriminate.
  - intros i di Hv. destruct (decide (i = d)) as [->|Hid].
    + eexists. split; [exact Hd'|]. destruct (Hdir d _ (da_view _ _ _ Hd)) as (l0 & H0 & Hnd).
      rewrite (dir_at_fun s d l0 l) in Hnd by done. unfold names in *. apply (sublist_NoDup _ (d_name <$> l)); [exact Hnd|].
      apply fmap_sublist, sublist_filter.
    + assert (i <> k) as Hik by (intros ->; congruence). rewrite Hother in Hv by done.
      destruct (Hdir i _ Hv) as (li & Hi & Hnd). exists li. split; [|done].
      eapply dir_at_view; [exact Hi|]. by apply Hother.
  - intros i li e Hi He. destruct (Hent i li e Hi He) as (lo & Ho & He' & _).
    destruct (decide (d_inum e = d)) as [->|]; [by rewrite (da_view _ _ _ Hd')|].
    rewrite Hother; [eauto|done|eauto].
  - intros i1 i2 l1 l2 e1 e2 H1 H2 He1 He2 E.
    destruct (Hent _ _ _ H1 He1) as (lo1 & Ho1 & Hi1 & _).
    destruct (Hent _ _ _ H2 He2) as (lo2 & Ho2 & Hi2 & _). eauto.
Qed.
End remove.

(** Changing the bytes of something that is not a directory. *)
Lemma modify_tree s s' i t d d' :
  tree_wf s -> ext_wf s' -> view s i = Some (t, d) -> t <> T_DIR -> view s' i = Some (t, d') ->
  (forall j, j <> i -> view s' j = view s j) -> tree_wf s'.
Proof.
  intros [Hwf [lr Hroot] Hdir Hused Htree] Hwf' Hv Ht Hv' Hother.
  assert (forall j l, dir_at s' j l <-> dir_at s j l) as Hd.
  { intros j l. destruct (decide (j = i)) as [->|Hj].
    - split; intros [Hdv _]; congruence.
    - split; intros Hdl; (eapply dir_at_view; [exact Hdl|]); [symmetry|]; by apply Hother. }
  split; [done| | | |].
  - exists lr. by apply Hd.
  - intros j dj Hj. setoid_rewrite Hd. apply (Hdir j dj). rewrite <- Hother; [done|].
    intros ->. congruence.
  - intros j l e. rewrite Hd. intros Hl He. destruct (decide (d_inum e = i)) as [->|]; [congruence|].
    rewrite Hother by done. eauto.
  - intros i1 i2 l1 l2 e1 e2. rewrite !Hd. apply Htree.
Qed.
End tree.
