(* ===== verification/ChfsReach.v ===== *)
(** The operations of the file system as the steps of a transition system.

    [allowed] is what the kernel and the resources guarantee when an operation
    is called: names without a slash, offsets that are not negative, a free
    inode number and enough free blocks where something is added. *)
From S2P Require Import Prelude Monad Disk BlockManager Inode InodeManager FsInv WriteFile.
From S2P Require Import WriteSpec Protocol DirFormat ChfsClient ChfsSpec ChfsOps ChfsTree.
From Stdlib Require Import Ascii ZArith Lia.
From stdpp Require Import base gmap numbers list.
#[local] Open Scope Z_scope.

Inductive op : Type :=
| Op_create (parent : Z) (name : bytes) (mode ino : Z)
| Op_mkdir (parent : Z) (name : bytes) (mode ino : Z)
| Op_symlink (parent : Z) (path name : bytes) (ino : Z)
| Op_unlink (parent : Z) (name : bytes)
| Op_lookup (parent : Z) (name : bytes) (ino : Z)
| Op_readdir (dir : Z)
| Op_read (i size off : Z)
| Op_write (i size off : Z) (data : ptr)
| Op_setattr (i size : Z)
| Op_readlink (i : Z).

Section reach.
Context {S : Type} `{EL : ExtentLaws S}.
Context (junk : Z -> Z).

(** The status an operation returns. *)
Definition exec (o : op) : M S Z :=
  match o with
  | Op_create d name mode ino => r ← chfs_client.create junk d name mode ino; mret r.1
  | Op_mkdir d name mode ino => r ← chfs_client.mkdir junk d name mode ino; mret r.1
  | Op_symlink d path name ino => r ← chfs_client.create_symbolic_link junk d path name ino; mret r.1
  | Op_unlink d name => chfs_client.unlink junk d name
  | Op_lookup d name ino => r ← chfs_client.lookup junk d name false ino; mret r.1.1
  | Op_readdir d => r ← chfs_client.readdir junk d []; mret r.1
  | Op_read i size off => r ← chfs_client.read i size off []; mret r.1
  | Op_write i size off data => r ← chfs_client.write i size off data 0; mret r.1
  | Op_setattr i size => chfs_client.setattr i size
  | Op_readlink i => r ← chfs_client.parse_symbolic_link [] i; mret r.1
  end.

Definition free_inode_number (s : S) : Prop :=
  exists j, 1 <= j < INODE_NUM /\ view s j = None.

Definition adding (s : S) (d : Z) (name : bytes) (extra : nat) : Prop :=
  0 <= d < 2 ^ 31 /\ (SLASH ∉ name) /\ free_inode_number s /\
  forall l, dir_at s d l -> entry_room s l name extra.

Definition allowed (s : S) (o : op) : Prop :=
  match o with
  | Op_create d name _ _ | Op_mkdir d name _ _ => adding s d name 0
  | Op_symlink d path name _ =>
      len path <= MAX_SIZE /\ adding s d name (blocks_needed 0 (len path))
  | Op_unlink d _ | Op_lookup d _ _ | Op_readdir d | Op_readlink d => 0 <= d < 2 ^ 31
  | Op_read i size off =>
      view s i <> None /\ 0 <= size /\ 0 <= off /\ off + size < 2 ^ 63
  | Op_write i size off _ =>
      0 <= size /\ 0 <= off /\ off + size <= MAX_SIZE /\
      exists t d, view s i = Some (t, d) /\ t <> T_DIR /\
        (blocks_needed (len d) (Z.max (len d) (off + size)) <= ext_room s)%nat
  | Op_setattr i size =>
      0 <= size /\ exists t d, view s i = Some (t, d) /\ t <> T_DIR
  end.

(** A number that is not a directory's, or a directory with its entries. *)
Lemma tree_dir_cases s d :
  tree_wf s -> 0 <= d < 2 ^ 31 ->
  type_is s T_DIR (ext_id d) = false \/
  exists l, dir_at s d l /\ NoDup (names l).
Proof.
  intros Hwf Hd. rewrite ext_id_id by done. unfold type_is.
  destruct (view s d) as [[t b]|] eqn:Hv; [|by left]. destruct (Z.eqb_spec t T_DIR) as [->|]; [|by left].
  right. by apply (tw_dir _ Hwf d b).
Qed.

Lemma wp_not_dir {A} d (k : Z -> M S A) s Q :
  ext_wf s -> type_is s T_DIR (ext_id d) = false -> wp (k IOERR) Q s ->
  wp (chfs_client.check_dir_inode d ≫= k) Q s.
Proof. intros Hwf Hd HQ. wp_step. apply wp_check_dir; [done|]. by rewrite Hd. Qed.

(** The three operations that add an entry. *)
Lemma tree_create_entry type d l name ino s :
  tree_wf s -> dir_at s d l -> SLASH ∉ name -> entry_room s l name 0 -> free_inode_number s ->
  type = T_FILE \/ type = T_DIR ->
  wp (chfs_client.create_entry junk type d name ino) (fun _ s' => tree_wf s') s.
Proof.
  intros Hwf Hd Hname Hroom (j & Hj & Hjn) Ht. pose proof (tw_wf _ Hwf) as W.
  destruct (find_entry name l) as [k|] eqn:Hf.
  - eapply wp_create_exists; [done|exact Hd|exact Hf|]. intros s' Hq. by eapply tree_quiet.
  - apply find_entry_None in Hf.
    eapply wp_create_entry; [done|exact Hd|done|done|exact Hroom|by destruct Ht as [->| ->]|by destruct Ht as [->| ->]|..].
    + intros k s' Hk Hnone Hwf' _ Hd' Hv' Hother.
      by apply (add_tree junk s s' d k type [] l name).
    + intros Hall. by destruct (Hall j Hj).
Qed.

Lemma tree_adding type d name ino s :
  tree_wf s -> adding s d name 0 -> type = T_FILE \/ type = T_DIR ->
  wp (r ← chfs_client.check_dir_inode d;
      if negb (r =? OK) then mret (IOERR, ino) else chfs_client.create_entry junk type d name ino)
    (fun _ s' => tree_wf s') s.
Proof.
  intros Hwf (Hd & Hname & Hfree & Hroom) Ht. pose proof (tw_wf _ Hwf) as W.
  destruct (tree_dir_cases s d Hwf Hd) as [Hn|(l & Hl & _)].
  - apply wp_not_dir; [done|done|]. by cbn [negb Z.eqb OK IOERR]; wp_step.
  - wp_step. eapply wp_check_is_dir; [done|exact Hl|]. cbn [negb Z.eqb OK].
    eapply tree_create_entry; eauto.
Qed.

Lemma tree_mkdir d name mode ino s :
  tree_wf s -> adding s d name 0 ->
  wp (chfs_client.mkdir junk d name mode ino) (fun _ s' => tree_wf s') s.
Proof.
  intros Hwf Ha. unfold chfs_client.mkdir. destruct (decide (name = [DOT] \/ name = [DOT; DOT])).
  - wp_step. apply wp_check_dir; [apply Hwf|]. by destruct (type_is s T_DIR (ext_id d)); cbn [negb Z.eqb OK IOERR]; wp_step.
  - by apply (tree_adding T_DIR); [| |right].
Qed.

Lemma tree_symlink d path name ino s :
  tree_wf s -> len path <= MAX_SIZE -> adding s d name (blocks_needed 0 (len path)) ->
  wp (chfs_client.create_symbolic_link junk d path name ino) (fun _ s' => tree_wf s') s.
Proof.
  intros Hwf Hlen (Hd & Hname & Hfree & Hroom). pose proof (tw_wf _ Hwf) as W.
  destruct (tree_dir_cases s d Hwf Hd) as [Hn|(l & Hl & _)].
  - apply wp_not_dir; [done|done|]. by cbn [negb Z.eqb OK IOERR]; wp_step.
  - destruct (find_entry name l) as [k|] eqn:Hf.
    + unfold chfs_client.create_symbolic_link. wp_step. eapply wp_check_is_dir; [done|exact Hl|].
      ok_step. eapply wp_lookup; [done|exact Hl|]. intros s1 Hq. rewrite Hf. ok_step.
      by eapply tree_quiet.
    + apply find_entry_None in Hf.
      eapply (wp_symlink junk d l path name ino 0); [done|exact Hl|done|done|done| |exact Hfree|].
      { rewrite Nat.add_0_r. by apply Hroom. }
      intros k s' Hk Hnone Hwf' _ Hd' Hv' Hother.
      by apply (add_tree junk s s' d k T_SYMBOLIC path l name).
Qed.

Lemma tree_unlink d name s :
  tree_wf s -> 0 <= d < 2 ^ 31 ->
  wp (chfs_client.unlink junk d name) (fun _ s' => tree_wf s') s.
Proof.
  intros Hwf Hd. pose proof (tw_wf _ Hwf) as W.
  destruct (tree_dir_cases s d Hwf Hd) as [Hn|(l & Hl & _)].
  { apply wp_not_dir; [done|done|]. by cbn [negb Z.eqb OK IOERR]; wp_step. }
  assert (forall k, find_entry name l = Some k -> view s k <> None) as Hused.
  { intros k (e & He & _ & <-)%find_entry_Some. by eapply tw_used. }
  destruct (find_entry name l) as [k|] eqn:Hf;
    [destruct (type_is s T_FILE (ext_id k)) eqn:Ht|].
  - specialize (Hused k eq_refl). destruct (view s k) as [[t b]|] eqn:Hv; [|done].
    rewrite (view_id _ _ _ W Hv) in Ht. unfold type_is in Ht. rewrite Hv in Ht.
    apply Z.eqb_eq in Ht as ->. eapply wp_unlink; [done|exact Hl|exact Hf|exact Hv|].
    intros s' Hwf' _ Hk' Hd' Hother. by apply (remove_tree junk s s' d k b l name).
  - eapply wp_unlink_fails; [done|exact Hl| |].
    + intros k'. rewrite Hf. by intros [= <-].
    + intros s' Hq. by eapply tree_quiet.
  - eapply wp_unlink_fails; [done|exact Hl|by rewrite Hf|].
    intros s' Hq. by eapply tree_quiet.
Qed.

Lemma tree_lookup d name found ino s :
  tree_wf s -> 0 <= d < 2 ^ 31 ->
  wp (chfs_client.lookup junk d name found ino) (fun _ s' => tree_wf s') s.
Proof.
  intros Hwf Hd. pose proof (tw_wf _ Hwf) as W.
  destruct (tree_dir_cases s d Hwf Hd) as [Hn|(l & Hl & _)].
  - apply wp_not_dir; [done|done|]. by cbn [negb Z.eqb OK IOERR]; wp_step.
  - eapply wp_lookup; [done|exact Hl|]. intros s' Hq. by eapply tree_quiet.
Qed.

Lemma tree_readdir d acc s :
  tree_wf s -> 0 <= d < 2 ^ 31 ->
  wp (chfs_client.readdir junk d acc) (fun _ s' => tree_wf s') s.
Proof.
  intros Hwf Hd. pose proof (tw_wf _ Hwf) as W.
  destruct (tree_dir_cases s d Hwf Hd) as [Hn|(l & Hl & _)].
  - apply wp_not_dir; [done|done|]. by cbn [negb Z.eqb OK IOERR]; wp_step.
  - eapply wp_readdir; [done|exact Hl|]. intros s' Hq. by eapply tree_quiet.
Qed.

Lemma tree_readlink buf i s :
  tree_wf s -> wp (chfs_client.parse_symbolic_link buf i) (fun _ s' => tree_wf s') s.
Proof.
  intros Hwf. pose proof (tw_wf _ Hwf) as W.
  unfold chfs_client.parse_symbolic_link, chfs_client.issymlink. wp_step.
  apply wp_has_type; [done|done|]. destruct (type_is s T_SYMBOLIC (ext_id i)); cbn [negb]; wp_step; [|done]. 
  apply wp_get_view; [done|]. intros s' Hq. ok_step. by eapply tree_quiet.
Qed.

(** Every allowed operation returns, and keeps the invariant. *)
Lemma wp_exec o s : tree_wf s -> allowed s o -> wp (exec o) (fun _ s' => tree_wf s') s.
Proof.
  intros Hwf Ha. pose proof (tw_wf _ Hwf) as W.
  assert (forall A (m : M S A) (f : A -> Z), wp m (fun _ s' => tree_wf s') s ->
            wp (r ← m; mret (f r)) (fun _ s' => tree_wf s') s) as Hret.
  { intros A m f Hm. eapply wp_call; [exact Hm|]. intros a s' Hs'. by wp_step. }
  destruct o as [d name mode ino|d name mode ino|d path name ino|d name|d name ino|d|i size off|
                 i size off p|i size|i]; cbn [exec allowed] in *; try apply Hret.
  - apply (tree_adding T_FILE); auto.
  - by apply tree_mkdir.
  - destruct Ha as [Hlen Ha]. by apply tree_symlink.
  - by apply tree_unlink.
  - by apply tree_lookup.
  - by apply tree_readdir.
  - destruct Ha as (Hv & Hs & Ho & Hsum). destruct (view s i) as [[t b]|] eqn:Ev; [|done].
    eapply wp_read; [done|exact Ev|done|done|done|]. intros s' Hq. by eapply tree_quiet.
  - destruct Ha as (Hs & Ho & Hsum & t & b & Hv & Ht & Hroom).
    eapply (wp_write i t b size off p 0 0); [done|exact Hv|done|done|done|lia|].
    intros s' Hwf' _ Hv' Hother. by eapply (modify_tree s s' i).
  - destruct Ha as (Hs & t & b & Hv & Ht).
    eapply wp_setattr; [done|exact Hv|done|]. intros s' Hwf' _ Hv' Hother.
    by eapply (modify_tree s s' i).
  - by apply tree_readlink.
Qed.

(** ** Reachable states *)
Inductive reachable (s0 : S) : S -> Prop :=
| reach_init : reachable s0 s0
| reach_step s o r s' :
    reachable s0 s -> allowed s o -> exec o s = Ok (r, s') -> reachable s0 s'.

Lemma reachable_tree s0 s : tree_wf s0 -> reachable s0 s -> tree_wf s.
Proof.
  intros H0 Hr. induction Hr as [|s o r s' _ IH Ha Hrun]; [done|].
  by eapply (wp_Ok _ _ _ _ _ (wp_exec o s IH Ha)).
Qed.
End reach.
