(* ===== verification/Fuse.v ===== *)
(** The FUSE handlers of fuse.cc, one definition per handler.

    A handler returns the replies it sends, in order ([fuse_reply_err],
    [fuse_reply_attr], ...).  [request] and [dispatch] are the operation table
    [fuseserver_oper] that [main] fills.

    The layout of a directory record is libfuse's: [dirent_size] and
    [add_dirent] are parameters.  [ino0] is the value of the uninitialised
    [inum] locals. *)
From S2P Require Import Prelude Monad InodeManager Protocol DirFormat ChfsClient.
From Stdlib Require Import Ascii ZArith Lia.
From stdpp Require Import base gmap numbers list.
#[local] Open Scope Z_scope.

Record stat := mk_stat {
  st_ino : Z; st_mode : Z; st_nlink : Z; st_size : Z; st_atime : Z; st_mtime : Z; st_ctime : Z
}.

(** [bzero(&st, sizeof(st))] *)
Definition zero_stat : stat := mk_stat 0 0 0 0 0 0 0.

(** [struct fuse_entry_param]; the timeouts are 0.0. *)
Record fuse_entry_param := mk_entry { e_ino : Z; e_generation : Z; e_attr : stat }.

Definition S_IFREG : Z := 32768.
Definition S_IFDIR : Z := 16384.
Definition S_IFLNK : Z := 40960.
Definition ENOENT : Z := 2.
Definition EEXIST : Z := 17.
Definition ENOTDIR : Z := 20.
Definition ENOSYS : Z := 38.
Definition ENOTEMPTY : Z := 39.
Definition FUSE_SET_ATTR_SIZE : Z := 8.

Inductive reply : Type :=
| Reply_err (errno : Z)
| Reply_attr (st : stat)
| Reply_buf (data : bytes)
| Reply_write (count : Z)
| Reply_create (e : fuse_entry_param)
| Reply_entry (e : fuse_entry_param)
| Reply_open
| Reply_readlink (link : bytes)
| Reply_statfs (f_namemax f_bsize : Z).

(** The string a [const char *] to a [std::string]'s characters shows. *)
Fixpoint until_nul (s : bytes) : bytes :=
  match s with
  | [] => []
  | c :: s => if decide (c = NUL) then [] else c :: until_nul s
  end.

Record dirbuf := mk_dirbuf { db_p : bytes; db_size : Z }.

Inductive request : Type :=
| Getattr (ino : Z)
| Setattr (ino st_size to_set : Z)
| Read (ino size off : Z)
| Write (ino : Z) (buf : ptr) (size off : Z)
| Create (parent : Z) (name : bytes) (mode : Z)
| Mknod (parent : Z) (name : bytes) (mode rdev : Z)
| Lookup (parent : Z) (name : bytes)
| Readdir (ino size off : Z)
| Open (ino : Z)
| Mkdir (parent : Z) (name : bytes) (mode : Z)
| Unlink (parent : Z) (name : bytes)
| Symlink (link : bytes) (parent : Z) (name : bytes)
| Readlink (ino : Z)
| Statfs.

Module fuse.
Section fuse.
Context {S : Type} `{ES : ExtentService S}.
Context (junk : Z -> Z) (ino0 : Z).
Context (dirent_size : Z -> Z) (add_dirent : bytes -> Z -> Z -> bytes).

Definition getattr (inum : Z) : M S (Z * stat) :=
  _ ← chfs_client.isfile inum; (* the argument of the [printf] *)
  file ← chfs_client.isfile inum;
  if (file : bool) then
    r ← chfs_client.getfile inum (mk_fileinfo 0 0 0 0);
    let '(ret, info) := r in
    if negb (ret =? OK) then mret (ret, mk_stat inum 0 0 0 0 0 0)
    else mret (OK, mk_stat inum (Z.lor S_IFREG 438) 1 (fi_size info)
                     (fi_atime info) (fi_mtime info) (fi_ctime info))
  else
    dir ← chfs_client.isdir inum;
    if (dir : bool) then
      r ← chfs_client.getdir inum (mk_dirinfo 0 0 0);
      let '(ret, info) := r in
      if negb (ret =? OK) then mret (ret, mk_stat inum 0 0 0 0 0 0)
      else mret (OK, mk_stat inum (Z.lor S_IFDIR 511) 2 0
                       (di_atime info) (di_mtime info) (di_ctime info))
    else
      r ← chfs_client.getfile inum (mk_fileinfo 0 0 0 0);
      let '(ret, info) := r in
      if negb (ret =? OK) then mret (ret, mk_stat inum 0 0 0 0 0 0)
      else mret (OK, mk_stat inum (Z.lor S_IFLNK 511) 1 (fi_size info)
                       (fi_atime info) (fi_mtime info) (fi_ctime info)).

Definition fuseserver_getattr (ino : Z) : M S (list reply) :=
  r ← getattr ino;
  let '(ret, st) := r in
  if negb (ret =? OK) then mret [Reply_err ENOENT] else mret [Reply_attr st].

Definition fuseserver_setattr (ino st_size to_set : Z) : M S (list reply) :=
  if negb (Z.land FUSE_SET_ATTR_SIZE to_set =? 0) then
    ret ← chfs_client.setattr ino (u64 st_size);
    if ret =? OK then
      r ← getattr ino;
      let '(ret_2, st) := r in
      if ret_2 =? OK then mret [Reply_attr st] else mret []
    else mret []
  else mret [Reply_err ENOSYS].

Definition fuseserver_read (ino size off : Z) : M S (list reply) :=
  r ← chfs_client.read ino size off [];
  let '(ret, data) := r in
  if ret =? OK then mret [Reply_buf data] else mret [Reply_err ENOENT].

Definition fuseserver_write (ino : Z) (buf : ptr) (size off : Z) : M S (list reply) :=
  r ← chfs_client.write ino size off buf 0;
  let '(ret, byte_written) := r in
  if ret =? OK then mret [Reply_write byte_written] else mret [Reply_err ENOENT].

Definition fuseserver_createhelper (parent : Z) (name : bytes) (mode type : Z)
    : M S (Z * fuse_entry_param) :=
  r ← (if type =? T_FILE then chfs_client.create junk parent name mode ino0
       else chfs_client.mkdir junk parent name mode ino0);
  let '(ret, inum) := r in
  if negb (ret =? OK) then mret (ret, mk_entry 0 0 zero_stat)
  else
    r ← getattr inum;
    let '(ret, attr) := r in
    mret (ret, mk_entry inum 0 attr).

Definition fuseserver_create (parent : Z) (name : bytes) (mode : Z) : M S (list reply) :=
  r ← fuseserver_createhelper parent name mode T_FILE;
  let '(ret, e) := r in
  if ret =? OK then mret [Reply_create e]
  else if ret =? EXIST then mret [Reply_err EEXIST] else mret [Reply_err ENOENT].

Definition fuseserver_mknod (parent : Z) (name : bytes) (mode rdev : Z) : M S (list reply) :=
  r ← fuseserver_createhelper parent name mode T_FILE;
  let '(ret, e) := r in
  if ret =? OK then mret [Reply_entry e]
  else if ret =? EXIST then mret [Reply_err EEXIST] else mret [Reply_err ENOENT].

Definition fuseserver_lookup (parent : Z) (name : bytes) : M S (list reply) :=
  r ← chfs_client.lookup junk parent name false ino0;
  let '(_, found, ino) := r in
  if (found : bool) then
    r ← getattr ino;
    mret [Reply_entry (mk_entry ino 0 r.2)]
  else mret [Reply_err ENOENT].

Definition dirbuf_add (b : dirbuf) (name : bytes) (ino : Z) : dirbuf :=
  let size := db_size b + dirent_size (len name) in
  mk_dirbuf (db_p b ++ add_dirent name ino size) size.

Definition reply_buf_limited (buf : bytes) (bufsize off maxsize : Z) : reply :=
  if u64 off <? bufsize
  then Reply_buf (take (Z.to_nat (Z.min (bufsize - u64 off) maxsize)) (drop (Z.to_nat (u64 off)) buf))
  else Reply_buf [].

Definition fuseserver_readdir (ino size off : Z) : M S (list reply) :=
  dir ← chfs_client.isdir ino;
  if negb dir then mret [Reply_err ENOTDIR]
  else
    r ← chfs_client.readdir junk ino [];
    let entries := r.2 in
    let b := foldl (fun b e => dirbuf_add b (until_nul (d_name e)) (d_inum e))
               (mk_dirbuf [] 0) entries in
    mret [reply_buf_limited (db_p b) (db_size b) off size].

Definition fuseserver_open (ino : Z) : M S (list reply) := mret [Reply_open].

Definition fuseserver_mkdir (parent : Z) (name : bytes) (mode : Z) : M S (list reply) :=
  r ← fuseserver_createhelper parent name mode T_DIR;
  let '(ret, e) := r in
  if ret =? OK then mret [Reply_entry e]
  else if ret =? EXIST then mret [Reply_err EEXIST] else mret [Reply_err ENOENT].

Definition fuseserver_unlink (parent : Z) (name : bytes) : M S (list reply) :=
  r ← chfs_client.unlink junk parent name;
  if r =? OK then mret [Reply_err 0]
  else if r =? NOENT then mret [Reply_err ENOENT] else mret [Reply_err ENOTEMPTY].

Definition fuseserver_symlink (link : bytes) (parent : Z) (name : bytes) : M S (list reply) :=
  r ← chfs_client.create_symbolic_link junk parent link name ino0;
  let '(ret, inum) := r in
  if ret =? OK then
    r ← getattr inum;
    let '(ret_2, attr) := r in
    if ret_2 =? OK then mret [Reply_entry (mk_entry inum 0 attr)] else mret []
  else if ret =? EXIST then mret [Reply_err EEXIST] else mret [Reply_err ENOENT].

Definition fuseserver_readlink (ino : Z) : M S (list reply) :=
  r ← chfs_client.parse_symbolic_link [] ino;
  let '(ret, data) := r in
  if ret =? OK then mret [Reply_readlink (until_nul data)] else mret [Reply_err ENOENT].

Definition fuseserver_statfs : M S (list reply) := mret [Reply_statfs 255 512].

(** The operation table. *)
Definition dispatch (r : request) : M S (list reply) :=
  match r with
  | Getattr ino => fuseserver_getattr ino
  | Statfs => fuseserver_statfs
  | Readdir ino size off => fuseserver_readdir ino size off
  | Lookup parent name => fuseserver_lookup parent name
  | Create parent name mode => fuseserver_create parent name mode
  | Mknod parent name mode rdev => fuseserver_mknod parent name mode rdev
  | Open ino => fuseserver_open ino
  | Read ino size off => fuseserver_read ino size off
  | Write ino buf size off => fuseserver_write ino buf size off
  | Setattr ino st_size to_set => fuseserver_setattr ino st_size to_set
  | Unlink parent name => fuseserver_unlink parent name
  | Mkdir parent name mode => fuseserver_mkdir parent name mode
  | Readlink ino => fuseserver_readlink ino
  | Symlink link parent name => fuseserver_symlink link parent name
  end.
End fuse.
End fuse.
