(* ===== verification/FuseSpec.v ===== *)
(** The handlers of fuse.cc, specified against the extent protocol. *)
From S2P Require Import Prelude Monad Disk BlockManager Inode InodeManager FsInv WriteFile.
From S2P Require Import WriteSpec Protocol DirFormat ChfsClient ChfsSpec ChfsOps ChfsTree.
From S2P Require Import ChfsReach Fuse.
From Stdlib Require Import Ascii ZArith Lia.
From stdpp Require Import base gmap numbers list.
#[local] Open Scope Z_scope.

(** The [struct stat] of a file: whatever is neither a regular file nor a
    directory is shown as a symbolic link. *)
Definition stat_of (inum : Z) (o : option file) : stat :=
  let a := attr_of o in
  if a_type a =? T_FILE
  then mk_stat inum (Z.lor S_IFREG 438) 1 (a_size a) (a_atime a) (a_mtime a) (a_ctime a)
  else if a_type a =? T_DIR
  then mk_stat inum (Z.lor S_IFDIR 511) 2 0 (a_atime a) (a_mtime a) (a_ctime a)
  else mk_stat inum (Z.lor S_IFLNK 511) 1 (a_size a) (a_atime a) (a_mtime a) (a_ctime a).

(** ** Listing a directory *)

(** Successive pages of [m] bytes. *)
Fixpoint pages (n : nat) (buf : bytes) (bufsize off m : Z) : bytes :=
  match n with
  | O => []
  | S n =>
      match fuse.reply_buf_limited buf bufsize off m with
      | Reply_buf d => d ++ pages n buf bufsize (off + m) m
      | _ => []
      end
  end.

Lemma pages_all n buf off m :
  0 < m -> 0 <= off -> len buf + m * Z.of_nat n < 2 ^ 64 -> off + m * Z.of_nat n < 2 ^ 64 ->
  pages n buf (len buf) off m = take (Z.to_nat (m * Z.of_nat n)) (drop (Z.to_nat off) buf).
Proof.
  intros Hm. revert off. induction n as [|n IH]; intros off Hoff Hl Ho; cbn [pages].
  { rewrite Z.mul_0_r. done. }
  unfold fuse.reply_buf_limited. rewrite u64_id by lia.
  destruct (Z.ltb_spec off (len buf)) as [Hlt|Hge].
  - rewrite IH by lia. replace (Z.to_nat (m * Z.of_nat (S n))) with (Z.to_nat m + Z.to_nat (m * Z.of_nat n))%nat by lia.
    rewrite <- take_take_drop, drop_drop. f_equal; [|f_equal; f_equal; lia].
    destruct (decide (m <= len buf - off)).
    + by rewrite Z.min_r by lia.
    + rewrite Z.min_l by lia. unfold len in *. rewrite !take_ge by (rewrite length_drop; lia). done.
  - rewrite IH by lia. unfold len in Hge. rewrite !drop_ge by lia. by rewrite !take_nil.
Qed.

(** The records of a directory, each with the offset of the next one. *)
Fixpoint listing (dirent_size : Z -> Z) (add_dirent : bytes -> Z -> Z -> bytes)
    (l : list dirent) (off : Z) : bytes :=
  match l with
  | [] => []
  | e :: l =>
      let off := off + dirent_size (len (until_nul (d_name e))) in
      add_dirent (until_nul (d_name e)) (d_inum e) off ++ listing dirent_size add_dirent l off
  end.

Lemma dirbuf_listing dirent_size add_dirent :
  (forall name ino next, len (add_dirent name ino next) = dirent_size (len name)) ->
  forall l b, db_size b = len (db_p b) ->
  let b' := foldl (fun b e => fuse.dirbuf_add dirent_size add_dirent b (until_nul (d_name e)) (d_inum e)) b l in
  db_p b' = db_p b ++ listing dirent_size add_dirent l (db_size b) /\ db_size b' = len (db_p b').
Proof.
  intros Hsize l. induction l as [|e l IH]; intros b Hb; cbn [foldl listing].
  { split; [by rewrite app_nil_r|done]. }
  set (b1 := fuse.dirbuf_add _ _ b _ _).
  assert (db_size b1 = len (db_p b1)) as Hb1.
  { cbn [b1 fuse.dirbuf_add db_size db_p]. by rewrite len_app, Hsize, Hb. }
  destruct (IH b1 Hb1) as [Hp Hn]. split; [|exact Hn]. rewrite Hp.
  cbn [b1 fuse.dirbuf_add db_size db_p]. by rewrite <- (assoc_L (++)).
Qed.

(** ** Replies *)

(** The replies a request can get: those of its kind, and the errors of its handler. *)
Definition is_reply (r : request) (p : reply) : bool :=
  match r, p with
  | (Getattr ino | Setattr ino _ _), Reply_attr st => st_ino st =? ino
  | Setattr _ _ _, Reply_err e => e =? ENOSYS
  | (Read _ _ _ | Readdir _ _ _), Reply_buf _ | Write _ _ _ _, Reply_write _ => true
  | Readdir _ _ _, Reply_err e => e =? ENOTDIR
  | Create _ _ _, Reply_create _ => true
  | (Mknod _ _ _ _ | Mkdir _ _ _ | Symlink _ _ _ | Fuse.Lookup _ _), Reply_entry _ => true
  | (Create _ _ _ | Mknod _ _ _ _ | Mkdir _ _ _ | Symlink _ _ _), Reply_err e =>
      (e =? EEXIST) || (e =? ENOENT)
  | Unlink _ _, Reply_err e => (e =? 0) || (e =? ENOENT) || (e =? ENOTEMPTY)
  | Readlink _, Reply_readlink l => bool_decide (NUL ∉ l)
  | (Read _ _ _ | Write _ _ _ _ | Fuse.Lookup _ _ | Readlink _), Reply_err e => e =? ENOENT
  | Open _, Reply_open => true
  | Statfs, Reply_statfs namemax bsize => (namemax =? 255) && (bsize =? 512)
  | _, _ => false
  end.

Definition answered (r : request) (rs : list reply) : Prop :=
  match rs with [p] => is_reply r p = true | _ => False end.

Lemma until_nul_clean l : NUL ∉ until_nul l.
Proof.
  induction l as [|c l IH]; cbn [until_nul]; [by intros ?%not_elem_of_nil|].
  case_decide; [by intros ?%not_elem_of_nil|]. rewrite not_elem_of_cons. auto.
Qed.

Section spec.
Context {S : Type} `{EL : ExtentLaws S}.
Context (junk : Z -> Z) (ino0 : Z).
Context (dirent_size : Z -> Z) (add_dirent : bytes -> Z -> Z -> bytes).

Lemma wp_getattr_law id s (Q : Z * attr -> S -> Prop) :
  ext_wf s -> Q (OK, attr_of (ext_file s (ext_id id))) s -> wp (ec_getattr id) Q s.
Proof. intros Hwf HQ. eapply wp_mono; [by apply law_getattr|]. by intros r s' [-> ->]. Qed.

Lemma wp_test_type t id s (Q : bool -> S -> Prop) :
  ext_wf s -> Q (a_type (attr_of (ext_file s (ext_id id))) =? t) s ->
  wp (chfs_client.has_type t id) Q s.
Proof.
  intros Hwf HQ. unfold chfs_client.has_type. wp_step. apply wp_getattr_law; [done|].
  cbn [negb Z.eqb OK]. by destruct (_ =? t).
Qed.

(** [getattr] never fails and changes nothing. *)
Lemma wp_getattr i s (Q : Z * stat -> S -> Prop) :
  ext_wf s -> Q (OK, stat_of i (ext_file s (ext_id i))) s -> wp (fuse.getattr i) Q s.
Proof.
  intros Hwf HQ. unfold fuse.getattr, chfs_client.isfile, chfs_client.isdir. unfold stat_of in HQ.
  set (a := attr_of _) in HQ. wp_step. apply wp_test_type; [done|]. wp_step.
  apply wp_test_type; [done|]. fold a. destruct (a_type a =? T_FILE).
  - wp_step. unfold chfs_client.getfile. wp_step. apply wp_getattr_law; [done|]. fold a.
    by repeat ok_step.
  - wp_step. apply wp_test_type; [done|]. fold a. destruct (a_type a =? T_DIR); wp_step.
    + unfold chfs_client.getdir. wp_step. apply wp_getattr_law; [done|]. fold a. by repeat ok_step.
    + unfold chfs_client.getfile. wp_step. apply wp_getattr_law; [done|]. fold a. by repeat ok_step.
Qed.

Lemma returns_getattr i : returns (fuse.getattr i) (fun r => r.1 = OK /\ st_ino r.2 = i).
Proof.
  assert (forall fin, returns (chfs_client.getfile i fin) (fun r => r.1 = OK)) as Hfile.
  { intros fin. eapply returns_bind; [apply law_status_getattr|]. intros [ret a] Hr.
    cbn in Hr. subst ret. by apply returns_ret. }
  assert (forall din, returns (chfs_client.getdir i din) (fun r => r.1 = OK)) as Hdir.
  { intros din. eapply returns_bind; [apply law_status_getattr|]. intros [ret a] Hr.
    cbn in Hr. subst ret. by apply returns_ret. }
  unfold fuse.getattr. eapply returns_bind; [apply returns_any|]. intros _ _.
  eapply returns_bind; [apply returns_any|]. intros file _. apply returns_if; intros _.
  { eapply returns_bind; [apply Hfile|]. intros [ret info] Hr. cbn in Hr. subst ret. by apply returns_ret. }
  eapply returns_bind; [apply returns_any|]. intros dir _. apply returns_if; intros _.
  - eapply returns_bind; [apply Hdir|]. intros [ret info] Hr. cbn in Hr. subst ret. by apply returns_ret.
  - eapply returns_bind; [apply Hfile|]. intros [ret info] Hr. cbn in Hr. subst ret. by apply returns_ret.
Qed.

Lemma returns_setattr i n : returns (chfs_client.setattr i n) (fun r => r = OK).
Proof.
  eapply returns_bind; [apply law_status_get|]. intros [ret buf] Hr. cbn in Hr. subst ret.
  cbn [negb Z.eqb OK]. apply returns_if; intros _; [by apply returns_ret|].
  eapply returns_bind; [apply returns_any|]. intros buf' _.
  eapply returns_bind; [apply law_status_put|]. intros ret ->. by apply returns_ret.
Qed.

(** Handlers that reply whatever the status is. *)
Ltac reply_step :=
  first [apply returns_ret; reflexivity | apply returns_if; intros _];
  try (apply returns_ret; reflexivity).

Lemma returns_createhelper parent name mode type (f : Z * fuse_entry_param -> M S (list reply)) P :
  (forall r, returns (f r) P) ->
  returns (fuse.fuseserver_createhelper junk ino0 parent name mode type ≫= f) P.
Proof. intros Hf. eapply returns_bind; [apply returns_any|]. intros r _. apply Hf. Qed.

Lemma returns_dispatch r :
  returns (fuse.dispatch junk ino0 dirent_size add_dirent r) (answered r).
Proof.
  destruct r; cbn [fuse.dispatch].
  - eapply returns_bind; [apply returns_getattr|]. intros [ret st] [Hr Hi]. cbn in Hr, Hi. subst ret.
    apply returns_ret. by apply Z.eqb_eq.
  - apply returns_if; intros _; [|reply_step].
    eapply returns_bind; [apply returns_setattr|]. intros ret ->. cbn [Z.eqb OK].
    eapply returns_bind; [apply returns_getattr|]. intros [ret st] [Hr Hi]. cbn in Hr, Hi. subst ret.
    apply returns_ret. by apply Z.eqb_eq.
  - eapply returns_bind; [apply returns_any|]. intros [ret data] _. repeat reply_step.
  - eapply returns_bind; [apply returns_any|]. intros [ret n] _. repeat reply_step.
  - apply returns_createhelper. intros [ret e]. repeat reply_step.
  - apply returns_createhelper. intros [ret e]. repeat reply_step.
  - eapply returns_bind; [apply returns_any|]. intros [[ret found] ino] _.
    apply returns_if; intros _; [|reply_step].
    eapply returns_bind; [apply returns_any|]. intros r _. reply_step.
  - eapply returns_bind; [apply returns_any|]. intros dir _. apply returns_if; intros _; [reply_step|].
    eapply returns_bind; [apply returns_any|]. intros r _. apply returns_ret.
    unfold fuse.reply_buf_limited. by case_match.
  - reply_step.
  - apply returns_createhelper. intros [ret e]. repeat reply_step.
  - eapply returns_bind; [apply returns_any|]. intros ret _. repeat reply_step.
  - eapply returns_bind; [apply returns_any|]. intros [ret inum] _.
    apply returns_if; intros _; [|repeat reply_step].
    eapply returns_bind; [apply returns_getattr|]. intros [ret2 st] [Hr _]. cbn in Hr. subst ret2. reply_step.
  - eapply returns_bind; [apply returns_any|]. intros [ret data] _. apply returns_if; intros _; [|reply_step].
    apply returns_ret. apply bool_decide_eq_true, until_nul_clean.
  - reply_step.
Qed.

(** ** Handlers *)
Definition file_stat (s : S) (k : Z) : stat := stat_of k (ext_file s (ext_id k)).

Lemma wp_createhelper parent name mode type s (Q : Z * fuse_entry_param -> S -> Prop) :
  wp (if type =? T_FILE then chfs_client.create junk parent name mode ino0
      else chfs_client.mkdir junk parent name mode ino0)
    (fun r s' => if r.1 =? OK
                 then ext_wf s' /\ Q (OK, mk_entry r.2 0 (file_stat s' r.2)) s'
                 else Q (r.1, mk_entry 0 0 zero_stat) s') s ->
  wp (fuse.fuseserver_createhelper junk ino0 parent name mode type) Q s.
Proof.
  intros Hc. unfold fuse.fuseserver_createhelper. eapply wp_call; [exact Hc|].
  intros [ret ino] s' HQ. cbn [fst snd] in HQ. destruct (Z.eqb_spec ret OK) as [->|]; cbn [negb].
  - destruct HQ as [Hwf HQ]. wp_step. apply wp_getattr; [done|]. by wp_step.
  - by wp_step.
Qed.

(** The attributes of a file of which the type and the bytes are known. *)
Lemma file_stat_view s k t d :
  ext_wf s -> view s k = Some (t, d) ->
  exists ta tm tc, file_stat s k =
    if t =? T_FILE then mk_stat k (Z.lor S_IFREG 438) 1 (len d) ta tm tc
    else if t =? T_DIR then mk_stat k (Z.lor S_IFDIR 511) 2 0 ta tm tc
    else mk_stat k (Z.lor S_IFLNK 511) 1 (len d) ta tm tc.
Proof.
  intros Hwf Hv. pose proof (attr_type s T_FILE k Hwf ltac:(done)) as H1.
  pose proof (attr_type s T_DIR k Hwf ltac:(done)) as H2. unfold type_is in H1, H2.
  rewrite Hv in H1, H2. unfold file_stat, stat_of. rewrite (view_id s k (t, d)) by done.
  rewrite H1, H2. unfold view in Hv. destruct (ext_file s k) as [f|]; [|done].
  injection Hv as <- <-. cbn. do 3 eexists. reflexivity.
Qed.

Lemma wp_lookup_handler d l name k s (Q : list reply -> S -> Prop) :
  ext_wf s -> dir_at s d l -> find_entry name l = Some k ->
  (forall s', quiet s s' -> Q [Reply_entry (mk_entry k 0 (file_stat s' k))] s') ->
  wp (fuse.fuseserver_lookup junk ino0 d name) Q s.
Proof.
  intros Hwf Hd Hf HQ. unfold fuse.fuseserver_lookup. wp_step.
  eapply wp_lookup; [done|exact Hd|]. intros s' Hq. rewrite Hf. wp_step.
  apply wp_getattr; [apply Hq|]. wp_step. by apply HQ.
Qed.
End spec.
