(* ===== verification/Refinement.v ===== *)
(** An abstract specification of the extent service, and the refinement that
    the inode layer implements it.

    The abstract state is a table from numbers to a type and a byte string; a
    call is one atomic change of it.  Disk blocks, inodes, the bitmap and the
    clock do not appear. *)
From S2P Require Import Prelude Monad Disk BlockManager Inode InodeManager FsInv WriteFile.
From S2P Require Import WriteSpec Protocol Extent DirFormat ChfsClient ChfsSpec.
From Stdlib Require Import Ascii ZArith Lia.
From stdpp Require Import base gmap numbers list.
#[local] Open Scope Z_scope.

Abbreviation table := (Z -> option (Z * bytes)).

Inductive call : Type :=
| Call_create (type : Z)
| Call_get (id : Z)
| Call_getattr (id : Z)
| Call_put (id : Z) (buf : bytes)
| Call_remove (id : Z).

Inductive answer : Type :=
| Answer_status (ret : Z)
| Answer_id (ret id : Z)
| Answer_data (ret : Z) (buf : bytes)
| Answer_attr (ret type size : Z).

Definition bytes_at (T : table) (i : Z) : bytes := from_option snd [] (T i).

(** What a call may answer, and the table it leaves. *)
Inductive abs_step (T : table) : call -> answer -> table -> Prop :=
| abs_create type k T' :
    1 <= k <= INODE_NUM -> T k = None -> T' k = Some (type, []) ->
    (forall j, j <> k -> T' j = T j) ->
    abs_step T (Call_create type) (Answer_id OK k) T'
| abs_create_full type T' :
    (forall j, 1 <= j < INODE_NUM -> T j <> None) -> (forall j, T' j = T j) ->
    abs_step T (Call_create type) (Answer_id OK 0) T'
| abs_get id T' :
    (forall j, T' j = T j) ->
    abs_step T (Call_get id) (Answer_data OK (bytes_at T (ext_id id))) T'
| abs_getattr id T' :
    (forall j, T' j = T j) ->
    abs_step T (Call_getattr id)
      (Answer_attr OK (from_option (fun x => u32 x.1) 0 (T (ext_id id)))
         (len (bytes_at T (ext_id id)))) T'
| abs_put id buf T' :
    T' (ext_id id) = (fun x => (x.1, buf)) <$> T (ext_id id) ->
    (forall j, j <> ext_id id -> T' j = T j) ->
    abs_step T (Call_put id buf) (Answer_status OK) T'
| abs_remove id T' :
    T' (ext_id id) = None -> (forall j, j <> ext_id id -> T' j = T j) ->
    abs_step T (Call_remove id) (Answer_status OK) T'.

Section refinement.
Context {S : Type} `{EL : ExtentLaws S}.

(** The concrete calls. *)
Definition run_call (c : call) : M S answer :=
  match c with
  | Call_create type => r ← ec_create type; mret (Answer_id r.1 r.2)
  | Call_get id => r ← ec_get id; mret (Answer_data r.1 r.2)
  | Call_getattr id => r ← ec_getattr id; mret (Answer_attr r.1 (a_type r.2) (a_size r.2))
  | Call_put id buf => ret ← ec_put id buf; mret (Answer_status ret)
  | Call_remove id => ret ← ec_remove id; mret (Answer_status ret)
  end.

(** The resources a call needs. *)
Definition fits (s : S) (c : call) : Prop :=
  match c with
  | Call_create type => i16 type = type /\ type <> 0
  | Call_put id buf =>
      len buf <= MAX_SIZE /\
      forall t d, view s (ext_id id) = Some (t, d) ->
        (blocks_needed (len d) (len buf) <= ext_room s)%nat
  | _ => True
  end.

Lemma data_of_view s i : data_of (ext_file s i) = bytes_at (view s) i.
Proof. unfold bytes_at, view. by destruct (ext_file s i). Qed.

Lemma view_None s i : view s i = None <-> ext_file s i = None.
Proof. unfold view. by destruct (ext_file s i). Qed.

Lemma ext_id_ext_id id : ext_id (ext_id id) = ext_id id.
Proof. apply ext_id_id, ext_id_range. Qed.

Lemma wp_run_call c s :
  ext_wf s -> fits s c ->
  wp (run_call c) (fun r s' => ext_wf s' /\ abs_step (view s) c r (view s')) s.
Proof.
  intros Hwf Hfit. destruct c as [type|id|id|id buf|id]; cbn [run_call fits] in *; wp_step.
  - destruct Hfit as [Ht Hnz]. apply wp_create_view; [done|done|done|..].
    + intros k s' Hk Hnone Hwf' _ Hv Hother. wp_step. split; [done|]. by apply abs_create.
    + intros Hall s' Hq. wp_step. split; [apply Hq|]. apply abs_create_full; [done|apply Hq].
  - apply wp_get_view; [done|]. intros s' Hq. wp_step. split; [apply Hq|]. cbn [fst snd].
    rewrite data_of_view. apply abs_get, Hq.
  - eapply wp_mono; [by apply law_getattr|]. intros r s' [-> ->]. wp_step. split; [done|].
    cbn [fst snd].
    assert (a_type (attr_of (ext_file s (ext_id id))) =
            from_option (fun x => u32 x.1) 0 (view s (ext_id id))) as ->
      by (unfold view; by destruct (ext_file s (ext_id id))).
    assert (a_size (attr_of (ext_file s (ext_id id))) = len (bytes_at (view s) (ext_id id))) as ->
      by (rewrite <- data_of_view; by destruct (ext_file s (ext_id id))).
    by apply abs_getattr.
  - destruct Hfit as [Hlen Hroom]. destruct (ext_file s (ext_id id)) as [f|] eqn:Ef.
    + assert (view s (ext_id id) = Some (f_type f, f_data f)) as Hv by (unfold view; by rewrite Ef).
      eapply wp_mono; [apply (law_put id buf f 0 s Hwf Ef Hlen)|].
      { rewrite Nat.add_0_r. by eapply Hroom. }
      intros r s' (-> & Hwf' & _ & Hother & t1 & t2 & t3 & Hf). wp_step. split; [done|].
      apply abs_put.
      * rewrite Hv. unfold view. by rewrite Hf.
      * intros j Hj. unfold view. by rewrite Hother.
    + eapply wp_mono; [by apply (law_put_none id buf s)|]. intros r s' (-> & Hwf' & _ & Hsame).
      wp_step. split; [done|]. apply abs_put.
      * unfold view. by rewrite Hsame, Ef.
      * intros j Hj. unfold view. by rewrite Hsame.
  - eapply wp_mono; [by apply law_remove|]. intros r s' (-> & Hwf' & _ & Hnone & Hother).
    wp_step. split; [done|]. apply abs_remove.
    + by apply view_None.
    + intros j Hj. unfold view. by rewrite Hother.
Qed.
End refinement.
