(* ===== verification/System.v ===== *)
(** The assembled system: the constructors of [chfs_client] over the extent
    client, the freshly booted file system, and a concrete machine on which the
    theorems are evaluated. *)
From S2P Require Import Prelude Monad Disk BlockManager Inode InodeManager FsInv WriteFile.
From S2P Require Import WriteSpec ReadFile AllocInode RemoveFile Protocol Extent DirFormat.
From S2P Require Import ChfsClient ChfsSpec ChfsOps ChfsTree ChfsReach.
From Stdlib Require Import Ascii ZArith Lia.
From stdpp Require Import base gmap numbers list.
#[local] Open Scope Z_scope.

(** [chfs_client::chfs_client()] *)
Definition chfs_client_new `{E : Env} (last0 : Z) : outcome inode_manager :=
  extent_client.new last0.

(** [chfs_client::chfs_client(std::string, std::string)]; a failed [put] is
    only printed. *)
Definition chfs_client_new2 `{E : Env} (last0 : Z) : outcome inode_manager :=
  match extent_client.new last0 with
  | Ok s => run_st (_ ← extent_client.put 1 []; mret tt) s
  | o => o
  end.

Lemma nfree_unused b : (forall c, used b c = false) -> nfree b = Z.to_nat (BLOCK_NUM - FIRST_DATA).
Proof.
  intros Hu. unfold nfree, data_blocks. generalize FIRST_DATA at 1. intros z.
  generalize (Z.to_nat (BLOCK_NUM - FIRST_DATA)). intros n. revert z.
  induction n as [|n IH]; intros z; cbn [zrange]; [done|].
  rewrite filter_cons, decide_True by apply Hu. cbn [length]. by rewrite IH.
Qed.

Section boot.
Context `{E : Env}.

(** What the constructor leaves: an empty root and a free disk. *)
Record just_booted (s : inode_manager) : Prop := {
  fr_wf : fs_wf s;
  fr_last : last_alloced s = 0;
  fr_root : file_at s 1 = Some (empty_file T_DIR (time_at 0));
  fr_none : forall j, j <> 1 -> file_at s j = None;
  fr_room : Z.of_nat (nfree (bm s)) = 31732
}.

Lemma new_fresh last0 :
  0 <= last0 < 2 ^ 32 ->
  if to_alloc last0 1 =? 1 then exists s, inode_manager_new last0 = Ok s /\ just_booted s
  else inode_manager_new last0 = Exit 0.
Proof.
  intros Hl. pose proof (inode_manager_new_run last0 Hl) as H.
  destruct (to_alloc last0 1 =? 1); [|done].
  destruct H as (s & Hrun & Hwf & Hlast & Hroot & Hnone & Hu & _). exists s. split; [done|].
  split; [done..|]. by rewrite nfree_unused, Z2Nat.id by done.
Qed.

(** The numbers last given out, as found in memory, for which the root gets number 1. *)
Lemma first_is_root last0 : 0 <= last0 < 2 ^ 32 ->
  to_alloc last0 1 = 1 <->
    last0 = 0 \/ (1023 <= last0 /\ last0 <> 2 ^ 32 - 1 /\ (last0 + 1) mod 1024 = 0).
Proof.
  intros Hl. unfold to_alloc, INODE_NUM. rewrite (Z.add_comm 1).
  destruct (decide (last0 = 2 ^ 32 - 1)) as [->|Hne].
  - change (u32 (2 ^ 32 - 1 + 1)) with 0. cbn [Z.leb Z.compare]. lia.
  - rewrite (u32_id (last0 + 1)) by lia. destruct (Z.leb_spec 1024 (last0 + 1)).
    + rewrite u32_id by (pose proof (Z.mod_pos_bound (last0 + 1) 1024); lia). lia.
    + lia.
Qed.

(** A freshly booted file system is a tree with one empty directory. *)
Lemma fresh_tree s : just_booted s -> tree_wf s.
Proof.
  intros [Hwf _ Hroot Hnone _].
  assert (view s 1 = Some (T_DIR, [])) as H1 by (unfold view; cbn [ext_file extent_laws]; by rewrite Hroot).
  assert (forall j, j <> 1 -> view s j = None) as H2
    by (intros j Hj; unfold view; cbn [ext_file extent_laws]; by rewrite Hnone).
  assert (dir_at s 1 []) as Hd by (split; [done|constructor]).
  assert (forall i l, dir_at s i l -> i = 1 /\ l = []) as Hfun.
  { intros i l Hi. destruct (decide (i = 1)) as [->|Hne].
    - split; [done|]. by eapply (dir_at_fun (fun _ => 0)).
    - destruct Hi as [Hv _]. by rewrite H2 in Hv. }
  split; [done|by exists []| | |].
  - intros i d Hv. destruct (decide (i = 1)) as [->|Hne]; [|by rewrite H2 in Hv].
    exists []. split; [done|constructor].
  - intros i l e Hi He. destruct (Hfun _ _ Hi) as [-> ->]. by apply not_elem_of_nil in He.
  - intros i1 i2 l1 l2 e1 e2 Hi1 _ He1. destruct (Hfun _ _ Hi1) as [-> ->].
    by apply not_elem_of_nil in He1.
Qed.
End boot.

(** ** The concrete machine, booted *)
Definition booted : inode_manager :=
  match @inode_manager_new machine 0 with
  | Ok s => s
  | _ => mk_im block_manager_new 0 0
  end.

Lemma booted_fresh : @just_booted machine booted.
Proof.
  pose proof (@new_fresh machine 0 ltac:(lia)) as H. cbn -[inode_manager_new] in H.
  destruct H as (s & Hrun & Hs). unfold booted. by rewrite Hrun.
Qed.

Lemma booted_wf : fs_wf booted.
Proof. apply booted_fresh. Qed.

Lemma booted_tree : @tree_wf _ _ (@extent_laws machine) booted.
Proof. apply fresh_tree, booted_fresh. Qed.

(** It is what the constructor makes. *)
Lemma booted_new : @chfs_client_new machine 0 = Ok booted.
Proof.
  pose proof (@new_fresh machine 0 ltac:(lia)) as H. cbn -[inode_manager_new] in H.
  destruct H as (s & Hrun & _). unfold chfs_client_new, extent_client.new, extent_server.new, booted.
  by rewrite Hrun.
Qed.

(** [booted] is known through [booted_fresh] only. *)
#[global] Opaque booted.
