(* ===== verification/Scenarios.v ===== *)
(** Concrete states on which the theorems are evaluated: the booted file system
    of the concrete machine, with bytes in its root, with an entry in its root,
    and with every inode in use. *)
From S2P Require Import Prelude Monad Disk BlockManager Inode InodeManager FsInv WriteFile.
From S2P Require Import WriteSpec ReadFile AllocInode RemoveFile Protocol Extent DirFormat.
From S2P Require Import ChfsClient ChfsSpec ChfsOps ChfsTree ChfsReach Refinement System.
From Stdlib Require Import Ascii ZArith Lia.
From stdpp Require Import base gmap numbers list.
#[local] Open Scope Z_scope.

#[local] Existing Instance machine.

Definition letters : ptr := fun _ => byte_of_Z 65.

(** The root of the booted file system with [n] bytes in it. *)
Lemma with_root n : 0 <= n <= MAX_SIZE ->
  exists s f, fs_wf s /\ file_at s 1 = Some f /\ f_data f = load letters 0 n /\ len (f_data f) = n.
Proof.
  intros Hn. destruct booted_fresh as [Hwf _ Hroot _ Hroom].
  apply file_at_Some in Hroot as (nd & Hnd & Hf).
  assert (len (f_data (file_of (bm booted) nd)) = 0) as Hl by by rewrite <- Hf.
  cbn [file_of f_data] in Hl. rewrite (len_content booted 1) in Hl by done.
  assert (wp (write_file 1 letters n) (fun _ s => exists f, fs_wf s /\ file_at s 1 = Some f /\
    f_data f = load letters 0 n) booted) as H.
  { eapply (wp_write_file 1 nd letters n 0); [done|done|done| |].
    - rewrite Hl. unfold blocks_needed. pose proof (nb_range n Hn). change (nb 0) with 0.
      case_decide; lia.
    - intros s e Hs _ _ Hfile _ _ _ _ _. eexists. split; [exact Hs|]. split; [exact Hfile|done]. }
  apply wp_run in H as (_ & s & _ & f & Hs & Hfile & Hd). exists s, f. split; [done|]. split; [done|].
  split; [done|]. rewrite Hd. unfold len. rewrite length_load. lia.
Qed.

Lemma booted_root : file_at booted 1 = Some (empty_file T_DIR 1000).
Proof. apply booted_fresh. Qed.

Lemma booted_room n : (n <= 31732)%Z -> (Z.to_nat n <= nfree (bm booted))%nat.
Proof. pose proof (fr_room booted booted_fresh). lia. Qed.

(** ** States with files *)
Definition name_a : bytes := [byte_of_Z 97].
#[local] Abbreviation no_junk := (fun _ : Z => 0).

Lemma booted_dir : dir_at booted 1 [].
Proof.
  split; [|constructor]. unfold view. cbn [ext_file extent_laws].
  by rewrite (fr_root booted booted_fresh).
Qed.

Lemma booted_free : free_inode_number booted.
Proof.
  exists 2. split; [done|]. unfold view. cbn [ext_file extent_laws].
  by rewrite (fr_none booted booted_fresh).
Qed.

Lemma name_a_ok : SLASH ∉ name_a.
Proof. intros H%list_elem_of_singleton. discriminate. Qed.

(** A directory entry of [name_a] in the root fits in any state with room. *)
Lemma root_entry_room (s : inode_manager) extra :
  (1 + extra <= nfree (bm s))%nat -> entry_room s [] name_a extra.
Proof. intros H. by split. Qed.

Lemma booted_entry_room : entry_room booted [] name_a 100.
Proof.
  apply root_entry_room. pose proof (fr_room booted booted_fresh). lia.
Qed.

(** [name_a] can be added to the root. *)
Lemma booted_adding : adding booted 1 name_a 0.
Proof.
  split; [lia|]. split; [exact name_a_ok|]. split; [exact booted_free|]. intros l Hl.
  assert (l = []) as -> by (eapply (dir_at_fun no_junk booted 1); [exact booted_wf|exact Hl|exact booted_dir]).
  apply root_entry_room. pose proof (fr_room booted booted_fresh). lia.
Qed.

(** The booted file system with an entry [name_a] of the given type. *)
Lemma with_entry type : type = T_FILE \/ type = T_DIR ->
  exists s k, fs_wf s /\ dir_at s 1 [mk_dirent name_a k] /\ view s k = Some (type, []) /\
    (100 <= ext_room s)%nat.
Proof.
  intros Ht.
  assert (wp (chfs_client.create_entry no_junk type 1 name_a 0) (fun _ s => exists k,
    fs_wf s /\ dir_at s 1 [mk_dirent name_a k] /\ view s k = Some (type, []) /\
    (100 <= ext_room s)%nat) booted) as H.
  { eapply (wp_create_entry no_junk type 1 [] name_a 0 100);
      [exact booted_wf|exact booted_dir|exact name_a_ok|by intros ?%not_elem_of_nil|
       exact booted_entry_room|by destruct Ht as [->| ->]|by destruct Ht as [->| ->]|..].
    - intros k s' _ _ Hwf' Hr Hd' Hv' _. by exists k.
    - intros Hall. destruct booted_free as (j & Hj & Hn). by destruct (Hall j Hj). }
  apply wp_run in H as (r & s & _ & k & H). by exists s, k.
Qed.

(** States in which exactly the numbers up to [k] are in use. *)
Definition filled_to (k : Z) (s : inode_manager) : Prop :=
  fs_wf s /\ file_at s 1 = Some (empty_file T_DIR 1000) /\
  (forall j, 1 <= j <= k -> file_at s j <> None) /\ (forall j, k < j -> file_at s j = None) /\
  nfree (bm s) = nfree (bm booted).

Lemma fill_next k s i :
  filled_to k s -> 1 <= k <= 1023 -> 1 <= i <= INODE_NUM -> to_alloc (last_alloced s) i = k + 1 ->
  (forall i', 1 <= i' < i -> 1 <= to_alloc (last_alloced s) i' <= k) ->
  exists s', filled_to (k + 1) s' /\ last_alloced s' = k + 1.
Proof.
  intros (Hwf & Hroot & Hin & Hout & Hroom) Hk Hi Hnext Hbusy.
  assert (wp (alloc_inode T_FILE) (fun _ s' => filled_to (k + 1) s' /\ last_alloced s' = k + 1) s) as H.
  { apply wp_alloc_inode; [done|done|..].
    - intros i0 s' Hi0 k0 Hfree0 Hbusy0 Hwf' Hlast' Hfile' Hother _ Hu'.
      assert (i0 = i) as ->.
      { destruct (Z.lt_trichotomy i0 i) as [Hlt|[?|Hgt]]; [|done|].
        - destruct (Hin k0); [apply Hbusy; lia|done].
        - destruct (Hbusy0 i); [lia|]. rewrite Hnext. apply Hout. lia. }
      unfold k0 in *. rewrite Hnext in *. split; [|done]. split; [done|].
      split; [rewrite Hother by lia; done|]. split; [|split].
      + intros j Hj. destruct (decide (j = k + 1)) as [->|]; [by rewrite Hfile'|].
        rewrite Hother by done. apply Hin. lia.
      + intros j Hj. rewrite Hother by lia. apply Hout. lia.
      + rewrite <- Hroom. by apply nfree_used_ext.
    - intros Hall. destruct (Hall i Hi). rewrite Hnext. apply Hout. lia. }
  apply wp_run in H as (r & s' & _ & H). by exists s'.
Qed.

Lemma fill_to n : (n <= 1021)%nat ->
  exists s, filled_to (2 + Z.of_nat n) s /\ last_alloced s = 2 + Z.of_nat n.
Proof.
  induction n as [|n IH]; intros Hn.
  - destruct booted_fresh as [Hwf Hlast Hroot Hnone Hroom].
    assert (filled_to 1 booted) as H1.
    { split; [exact Hwf|]. split; [exact Hroot|]. split; [|split; [|reflexivity]].
      - intros j Hj. assert (j = 1) as -> by lia. by rewrite Hroot.
      - intros j Hj. apply Hnone. lia. }
    apply (fill_next 1 booted 2 H1); [lia|unfold INODE_NUM; lia|rewrite Hlast; reflexivity|].
    intros i' Hi'. assert (i' = 1) as -> by lia. rewrite Hlast. change (to_alloc 0 1) with 1. lia.
  - destruct IH as (s & Hs & Hlast); [lia|].
    destruct (fill_next (2 + Z.of_nat n) s 1) as (s' & H1 & H2); [done|lia|done| |lia|].
    + unfold to_alloc, INODE_NUM. rewrite Hlast, u32_id by lia.
      rewrite (proj2 (Z.leb_gt _ _)) by lia. lia.
    + exists s'. by replace (2 + Z.of_nat (S n)) with (2 + Z.of_nat n + 1) by lia.
Qed.

Lemma full_table : exists s, filled_to 1024 s.
Proof.
  destruct (fill_to 1021) as (s & Hs & Hlast); [lia|].
  destruct (fill_next 1023 s 1024) as (s' & H1 & _); [exact Hs|lia|done| | |by exists s'].
  - rewrite Hlast. reflexivity.
  - intros i' Hi'. rewrite Hlast. change (2 + Z.of_nat 1021) with 1023. unfold to_alloc, INODE_NUM.
    rewrite u32_id by lia. rewrite (proj2 (Z.leb_le _ _)) by lia.
    rewrite u32_id by (pose proof (Z.mod_pos_bound (i' + 1023) 1024); lia). revert Hi'. dlia.
Qed.
