(* ===== verification/Namespace.v ===== *)
(** An abstract file system, and the refinement that [chfs_client] implements it.

    The abstract state maps numbers to directories with their entries, regular files
    with their bytes and symbolic links with their paths.  Every operation is one
    atomic change of this map; the text of directories, the extent protocol, blocks
    and times do not appear. *)
From S2P Require Import Prelude Monad Disk BlockManager Inode InodeManager FsInv WriteFile.
From S2P Require Import WriteSpec Protocol Extent DirFormat ChfsClient ChfsSpec ChfsOps ChfsTree.
From S2P Require Import ChfsReach System Scenarios.
From Stdlib Require Import Ascii ZArith Lia.
From stdpp Require Import base gmap numbers list.
#[local] Open Scope Z_scope.

Inductive node : Type :=
| Dir (entries : list dirent)
| Reg (data : bytes)
| Sym (path : bytes).

Abbreviation tree := (gmap Z node).

Inductive answer : Type :=
| An_status (ret : Z)
| An_ino (ret ino : Z)
| An_lookup (ret : Z) (found : bool) (ino : Z)
| An_dir (ret : Z) (entries : list dirent)
| An_data (ret : Z) (data : bytes)
| An_count (ret count : Z).

Definition node_type (n : node) : Z :=
  match n with Dir _ => T_DIR | Reg _ => T_FILE | Sym _ => T_SYMBOLIC end.
Definition node_bytes (n : node) : bytes :=
  match n with Dir l => dir_text l | Reg data => data | Sym path => path end.
(** The same kind of node with other bytes; directories are not written to. *)
Definition with_bytes (n : node) (data : bytes) : node :=
  match n with Dir l => Dir l | Reg _ => Reg data | Sym _ => Sym data end.

Definition is_dir (A : tree) (d : Z) : Prop := exists l, A !! d = Some (Dir l).
Definition is_file (A : tree) (k : Z) : Prop := exists data, A !! k = Some (Reg data).
Definition is_link (A : tree) (k : Z) : Prop := exists path, A !! k = Some (Sym path).

(** The operations that add an entry: where, under which name, and what. *)
Definition adds (o : op) : option (Z * bytes * Z * node) :=
  match o with
  | Op_create d name _ ino => Some (d, name, ino, Reg [])
  | Op_mkdir d name _ ino => Some (d, name, ino, Dir [])
  | Op_symlink d path name ino => Some (d, name, ino, Sym path)
  | _ => None
  end.
Definition reserved (o : op) : Prop :=
  match o with Op_mkdir _ name _ _ => name = [DOT] \/ name = [DOT; DOT] | _ => False end.

(** What an operation may answer, and the map it leaves. *)
Inductive tree_step (A : tree) : op -> answer -> tree -> Prop :=
| step_add o d name ino new l k :
    adds o = Some (d, name, ino, new) -> ~ reserved o -> A !! d = Some (Dir l) -> name ∉ names l ->
    1 <= k <= INODE_NUM -> A !! k = None ->
    tree_step A o (An_ino OK k) (<[d := Dir (l ++ [mk_dirent name k])]> (<[k := new]> A))
| step_exists o d name ino new l k :
    adds o = Some (d, name, ino, new) -> ~ reserved o -> A !! d = Some (Dir l) ->
    find_entry name l = Some k -> tree_step A o (An_ino EXIST k) A
| step_add_refused o d name ino new :
    adds o = Some (d, name, ino, new) -> ~ is_dir A d \/ reserved o ->
    tree_step A o (An_ino IOERR ino) A
| step_unlink d name l k data :
    A !! d = Some (Dir l) -> find_entry name l = Some k -> A !! k = Some (Reg data) ->
    tree_step A (Op_unlink d name) (An_status OK)
      (<[d := Dir (filter (fun e => d_name e <> name) l)]> (delete k A))
| step_unlink_missing d name l :
    A !! d = Some (Dir l) -> name ∉ names l -> tree_step A (Op_unlink d name) (An_status NOENT) A
| step_unlink_refused d name :
    ~ is_dir A d \/
    (exists l k, A !! d = Some (Dir l) /\ find_entry name l = Some k /\ ~ is_file A k) ->
    tree_step A (Op_unlink d name) (An_status IOERR) A
| step_lookup d name ino l k :
    A !! d = Some (Dir l) -> find_entry name l = Some k ->
    tree_step A (Op_lookup d name ino) (An_lookup OK true k) A
| step_lookup_missing d name ino l :
    A !! d = Some (Dir l) -> name ∉ names l ->
    tree_step A (Op_lookup d name ino) (An_lookup OK false ino) A
| step_lookup_refused d name ino :
    ~ is_dir A d -> tree_step A (Op_lookup d name ino) (An_lookup IOERR false ino) A
| step_readdir d l :
    A !! d = Some (Dir l) -> tree_step A (Op_readdir d) (An_dir OK l) A
| step_readdir_refused d :
    ~ is_dir A d -> tree_step A (Op_readdir d) (An_dir IOERR []) A
| step_read i size off n :
    A !! i = Some n -> tree_step A (Op_read i size off) (An_data OK (slice off size (node_bytes n))) A
| step_write i size off p n :
    A !! i = Some n ->
    tree_step A (Op_write i size off p) (An_count OK size)
      (<[i := with_bytes n (overwrite off (load p 0 size) (node_bytes n))]> A)
| step_setattr i size n :
    A !! i = Some n ->
    tree_step A (Op_setattr i size) (An_status OK)
      (<[i := with_bytes n (take (Z.to_nat size) (node_bytes n))]> A)
| step_readlink i path :
    A !! i = Some (Sym path) -> tree_step A (Op_readlink i) (An_data OK path) A
| step_readlink_refused i :
    ~ is_link A i -> tree_step A (Op_readlink i) (An_data IOERR []) A.

Section refinement.
Context {S : Type} `{EL : ExtentLaws S}.
Context (junk : Z -> Z).

(** The operations with all they return. *)
Definition act (o : op) : M S answer :=
  match o with
  | Op_create d name mode ino => r ← chfs_client.create junk d name mode ino; mret (An_ino r.1 r.2)
  | Op_mkdir d name mode ino => r ← chfs_client.mkdir junk d name mode ino; mret (An_ino r.1 r.2)
  | Op_symlink d path name ino =>
      r ← chfs_client.create_symbolic_link junk d path name ino; mret (An_ino r.1 r.2)
  | Op_unlink d name => ret ← chfs_client.unlink junk d name; mret (An_status ret)
  | Op_lookup d name ino =>
      r ← chfs_client.lookup junk d name false ino; mret (An_lookup r.1.1 r.1.2 r.2)
  | Op_readdir d => r ← chfs_client.readdir junk d []; mret (An_dir r.1 r.2)
  | Op_read i size off => r ← chfs_client.read i size off []; mret (An_data r.1 r.2)
  | Op_write i size off data => r ← chfs_client.write i size off data 0; mret (An_count r.1 r.2)
  | Op_setattr i size => ret ← chfs_client.setattr i size; mret (An_status ret)
  | Op_readlink i => r ← chfs_client.parse_symbolic_link [] i; mret (An_data r.1 r.2)
  end.

(** ** The abstraction *)
Definition node_at_view (s : S) (i : Z) (o : option node) : Prop :=
  match o with
  | None => view s i = None
  | Some n => view s i = Some (node_type n, node_bytes n) /\
              match n with Dir l => Forall entry_ok l | _ => True end
  end.

Definition nodes (s : S) (A : tree) : Prop := forall i, node_at_view s i (A !! i).

Record represents (s : S) (A : tree) : Prop := {
  rp_tree : tree_wf s;
  rp_nodes : nodes s A
}.

Lemma nodes_dir s A d l : nodes s A -> A !! d = Some (Dir l) -> dir_at s d l.
Proof. intros Hn Hd. specialize (Hn d). rewrite Hd in Hn. destruct Hn as [Hv Ho]. by split. Qed.

Lemma nodes_view s A i n : nodes s A -> A !! i = Some n -> view s i = Some (node_type n, node_bytes n).
Proof. intros Hn Hi. specialize (Hn i). rewrite Hi in Hn. apply Hn. Qed.

Lemma nodes_None s A i : nodes s A -> view s i = None -> A !! i = None.
Proof. intros Hn Hi. specialize (Hn i). destruct (A !! i); [|done]. destruct Hn as [Hv _]. congruence. Qed.

Lemma nodes_Some s A i x : nodes s A -> view s i = Some x ->
  exists n, A !! i = Some n /\ x = (node_type n, node_bytes n).
Proof.
  intros Hn Hi. specialize (Hn i). destruct (A !! i) as [n|]; [|cbn in Hn; congruence].
  destruct Hn as [Hv _]. exists n. split; [done|congruence].
Qed.

Lemma nodes_type s A t i : nodes s A ->
  type_is s t i = match A !! i with Some n => node_type n =? t | None => false end.
Proof.
  intros Hn. unfold type_is. specialize (Hn i). destruct (A !! i) as [n|]; cbn in Hn.
  - by destruct Hn as [-> _].
  - by rewrite Hn.
Qed.

(** Only the numbers in [js] have changed. *)
Lemma nodes_update s s' A A' (js : list Z) :
  nodes s A -> (forall j, j ∉ js -> view s' j = view s j /\ A' !! j = A !! j) ->
  (forall j, j ∈ js -> node_at_view s' j (A' !! j)) -> nodes s' A'.
Proof.
  intros Hn Hother Hin j. destruct (decide (j ∈ js)) as [Hj|Hj]; [by apply Hin|].
  destruct (Hother j Hj) as [Hv ->]. specialize (Hn j). unfold node_at_view in *. by rewrite Hv.
Qed.

Lemma nodes_quiet s s' A : nodes s A -> quiet s s' -> nodes s' A.
Proof.
  intros Hn Hq. apply (nodes_update s s' A A []); [done|intros j _; split; [apply Hq|done]|].
  by intros j ?%elem_of_nil.
Qed.

Lemma nodes_add s s' A d k new l :
  nodes s A -> d <> k -> dir_at s' d l ->
  view s' k = Some (node_type new, node_bytes new) -> match new with Dir l => Forall entry_ok l | _ => True end ->
  (forall j, j <> d -> j <> k -> view s' j = view s j) ->
  nodes s' (<[d := Dir l]> (<[k := new]> A)).
Proof.
  intros Hn Hdk [Hd Hok] Hk Hnew Hother.
  apply (nodes_update s s' A _ [d; k]); [done|..].
  - intros j [Hj1 [Hj2 _]%not_elem_of_cons]%not_elem_of_cons. split; [by apply Hother|].
    by rewrite !lookup_insert_ne.
  - intros j [->|[->|[]%elem_of_nil]%elem_of_cons]%elem_of_cons.
    + by rewrite lookup_insert_eq.
    + by rewrite lookup_insert_ne, lookup_insert_eq.
Qed.

Lemma nodes_remove s s' A d k l :
  nodes s A -> d <> k -> dir_at s' d l -> view s' k = None ->
  (forall j, j <> d -> j <> k -> view s' j = view s j) ->
  nodes s' (<[d := Dir l]> (delete k A)).
Proof.
  intros Hn Hdk [Hd Hok] Hk Hother.
  apply (nodes_update s s' A _ [d; k]); [done|..].
  - intros j [Hj1 [Hj2 _]%not_elem_of_cons]%not_elem_of_cons. split; [by apply Hother|].
    by rewrite lookup_insert_ne, lookup_delete_ne.
  - intros j [->|[->|[]%elem_of_nil]%elem_of_cons]%elem_of_cons.
    + by rewrite lookup_insert_eq.
    + by rewrite lookup_insert_ne, lookup_delete_eq.
Qed.

Lemma nodes_write s s' A i n data :
  nodes s A -> A !! i = Some n -> node_type n <> T_DIR -> view s' i = Some (node_type n, data) ->
  (forall j, j <> i -> view s' j = view s j) -> nodes s' (<[i := with_bytes n data]> A).
Proof.
  intros Hn Hi Ht Hv Hother. apply (nodes_update s s' A _ [i]); [done|..].
  - intros j [Hj _]%not_elem_of_cons. split; [by apply Hother|]. by rewrite lookup_insert_ne.
  - intros j ->%list_elem_of_singleton. rewrite lookup_insert_eq. by destruct n.
Qed.

(** ** The operations *)
Definition simulates (A : tree) (o : op) (s : S) : Prop :=
  wp (act o) (fun ans s' => exists A', tree_step A o ans A' /\ nodes s' A') s.

(** The map stays; the answer has to fit. *)
Lemma sim_same A o ans s s' :
  nodes s A -> quiet s s' -> tree_step A o ans A -> exists A', tree_step A o ans A' /\ nodes s' A'.
Proof. intros Hn Hq Hs. exists A. split; [done|]. by eapply nodes_quiet. Qed.

Lemma dir_cases s A d : nodes s A -> 0 <= d < 2 ^ 31 ->
  (~ is_dir A d /\ type_is s T_DIR (ext_id d) = false) \/
  exists l, A !! d = Some (Dir l) /\ dir_at s d l.
Proof.
  intros Hn Hd. rewrite ext_id_id, (nodes_type s A) by done.
  destruct (A !! d) as [[l|b|p]|] eqn:Hl; cbn [node_type].
  - right. exists l. split; [done|]. by eapply nodes_dir.
  - left. split; [|done]. intros [l Hl']. congruence.
  - left. split; [|done]. intros [l Hl']. congruence.
  - left. split; [|done]. intros [l Hl']. congruence.
Qed.

Lemma sim_refused {A0} (o : op) (m : M S A0) (g : A0 -> answer) bad d A s :
  act o = (r ← (r ← chfs_client.check_dir_inode d; if negb (r =? OK) then mret bad else m); mret (g r)) ->
  tree_wf s -> nodes s A -> type_is s T_DIR (ext_id d) = false ->
  tree_step A o (g bad) A -> simulates A o s.
Proof.
  intros Ho Hwf Hn Ht Hs. unfold simulates. rewrite Ho. wp_step. wp_step. apply wp_check_dir; [apply Hwf|].
  rewrite Ht. cbn [negb Z.eqb OK IOERR]. wp_step. wp_step. eapply sim_same; [done|apply quiet_refl, Hwf|done].
Qed.

Lemma sim_create_entry o type d name ino new l A s :
  act o = (r ← (r ← chfs_client.check_dir_inode d;
               if negb (r =? OK) then mret (IOERR, ino) else chfs_client.create_entry junk type d name ino);
           mret (An_ino r.1 r.2)) ->
  adds o = Some (d, name, ino, new) -> ~ reserved o -> node_type new = type -> node_bytes new = [] ->
  match new with Dir l => l = [] | _ => True end -> type = T_FILE \/ type = T_DIR ->
  tree_wf s -> nodes s A -> A !! d = Some (Dir l) -> dir_at s d l -> SLASH ∉ name ->
  free_inode_number s -> entry_room s l name 0 -> simulates A o s.
Proof.
  intros Ho Ha Hr Ht Hb Hnew Hty Hwf Hn Hl Hd Hname (j & Hj & Hjn) Hroom.
  pose proof (tw_wf _ Hwf) as W. unfold simulates. rewrite Ho. wp_step. wp_step.
  eapply wp_check_is_dir; [done|exact Hd|]. cbn [negb Z.eqb OK].
  destruct (find_entry name l) as [k|] eqn:Hf.
  - eapply wp_create_exists; [done|exact Hd|exact Hf|]. intros s' Hq. wp_step.
    eapply sim_same; [done|done|]. by eapply step_exists.
  - apply find_entry_None in Hf.
    eapply wp_create_entry; [done|exact Hd|done|done|exact Hroom|by destruct Hty as [->| ->]|by destruct Hty as [->| ->]|..].
    + intros k s' Hk Hnone _ _ Hd' Hv' Hother. wp_step. cbn [fst snd]. eexists. split.
      { eapply step_add; try done. by eapply nodes_None. }
      apply (nodes_add s); [done| |done|by rewrite Ht, Hb| |done].
      * intros ->. by rewrite (da_view _ _ _ Hd) in Hnone.
      * destruct new; [subst; constructor|done|done].
    + intros Hall. by destruct (Hall j Hj).
Qed.

Lemma sim_symlink d path name ino l A s :
  tree_wf s -> nodes s A -> A !! d = Some (Dir l) -> dir_at s d l -> SLASH ∉ name -> len path <= MAX_SIZE ->
  free_inode_number s -> entry_room s l name (blocks_needed 0 (len path)) ->
  simulates A (Op_symlink d path name ino) s.
Proof.
  intros Hwf Hn Hl Hd Hname Hlen Hfree Hroom. pose proof (tw_wf _ Hwf) as W. unfold simulates. cbn [act]. wp_step.
  destruct (find_entry name l) as [k|] eqn:Hf.
  - unfold chfs_client.create_symbolic_link. wp_step. eapply wp_check_is_dir; [done|exact Hd|].
    ok_step. eapply wp_lookup; [done|exact Hd|]. intros s1 Hq. rewrite Hf. ok_step. wp_step.
    eapply sim_same; [done|done|]. eapply (step_exists _ (Op_symlink d path name ino)); try done. by intros [].
  - apply find_entry_None in Hf.
    eapply (wp_symlink junk d l path name ino 0); [done|exact Hd|done|done|done| |exact Hfree|].
    { by rewrite Nat.add_0_r. }
    intros k s' Hk Hnone _ _ Hd' Hv' Hother. wp_step. cbn [fst snd]. eexists. split.
    { eapply (step_add _ (Op_symlink d path name ino)); try done; [by intros []|by eapply nodes_None]. }
    apply (nodes_add s); [done| |done|done|done|done].
    intros ->. by rewrite (da_view _ _ _ Hd) in Hnone.
Qed.

Lemma sim_unlink d name l A s :
  tree_wf s -> nodes s A -> A !! d = Some (Dir l) -> dir_at s d l -> simulates A (Op_unlink d name) s.
Proof.
  intros Hwf Hn Hl Hd. pose proof (tw_wf _ Hwf) as W. unfold simulates. cbn [act]. wp_step.
  destruct (find_entry name l) as [k|] eqn:Hf.
  - destruct (find_entry_Some _ _ _ Hf) as (e & He & _ & Hk).
    pose proof (tw_used _ Hwf d l e Hd He) as Hused. rewrite Hk in Hused.
    destruct (view s k) as [x|] eqn:Hv; [|done]. destruct (nodes_Some s A k x Hn Hv) as (n & Hkn & ->).
    destruct (decide (node_type n = T_FILE)) as [Ht|Ht].
    + destruct n as [|data|]; try done. eapply wp_unlink; [done|exact Hd|exact Hf|exact Hv|].
      intros s' _ _ Hk' Hd' Hother. wp_step. eexists. split; [by eapply step_unlink|].
      apply (nodes_remove s); [done| |done|done|done]. intros ->. congruence.
    + eapply wp_unlink_fails; [done|exact Hd| |].
      * intros k'. rewrite Hf. intros [= <-]. rewrite (view_id _ _ _ W Hv), (nodes_type s A) by done.
        rewrite Hkn. by apply Z.eqb_neq.
      * intros s' Hq. wp_step. rewrite Hf. eapply sim_same; [done|done|]. apply step_unlink_refused. right.
        exists l, k. split; [done|]. split; [done|]. intros [data Hdata]. by simplify_eq/=.
  - eapply wp_unlink_fails; [done|exact Hd|by rewrite Hf|]. intros s' Hq. wp_step. rewrite Hf.
    eapply sim_same; [done|done|]. eapply step_unlink_missing; [done|]. by apply find_entry_None.
Qed.

Lemma sim_lookup d name ino l A s :
  tree_wf s -> nodes s A -> A !! d = Some (Dir l) -> dir_at s d l -> simulates A (Op_lookup d name ino) s.
Proof.
  intros Hwf Hn Hl Hd. unfold simulates. cbn [act]. wp_step.
  eapply wp_lookup; [apply Hwf|exact Hd|]. intros s' Hq. wp_step. cbn [fst snd].
  eapply sim_same; [done|done|]. destruct (find_entry name l) as [k|] eqn:Hf.
  - by eapply step_lookup.
  - eapply step_lookup_missing; [done|]. by apply find_entry_None.
Qed.

Lemma sim_readlink i A s : tree_wf s -> nodes s A -> 0 <= i < 2 ^ 31 -> simulates A (Op_readlink i) s.
Proof.
  intros Hwf Hn Hi. pose proof (tw_wf _ Hwf) as W. unfold simulates. cbn [act]. wp_step.
  destruct (type_is s T_SYMBOLIC i) eqn:Ht.
  - rewrite (nodes_type s A) in Ht by done. destruct (A !! i) as [[|b|p]|] eqn:Hl; try done.
    eapply wp_readlink; [done|by apply (nodes_view s A i (Sym p))|]. intros s' Hq. wp_step.
    eapply sim_same; [done|done|]. by apply step_readlink.
  - unfold chfs_client.parse_symbolic_link, chfs_client.issymlink. wp_step.
    apply wp_has_type; [done|done|]. rewrite ext_id_id, Ht by done. cbn [negb]. wp_step. wp_step.
    eapply sim_same; [done|by apply quiet_refl|]. apply step_readlink_refused. intros [p Hp].
    rewrite (nodes_type s A), Hp in Ht by done. done.
Qed.

Lemma sim_read i size off A s :
  tree_wf s -> nodes s A -> allowed s (Op_read i size off) -> simulates A (Op_read i size off) s.
Proof.
  intros Hwf Hn (Hv & Hs & Ho & Hsum). unfold simulates. cbn [act]. wp_step.
  destruct (view s i) as [x|] eqn:Ev; [|done]. destruct (nodes_Some s A i x Hn Ev) as (n & Hi & ->).
  eapply wp_read; [apply Hwf|exact Ev|done|done|done|]. intros s' Hq. wp_step.
  eapply sim_same; [done|done|]. by apply step_read.
Qed.

Lemma sim_write i size off p A s :
  tree_wf s -> nodes s A -> allowed s (Op_write i size off p) -> simulates A (Op_write i size off p) s.
Proof.
  intros Hwf Hn (Hs & Ho & Hsum & t & b & Hv & Ht & Hroom). unfold simulates. cbn [act]. wp_step.
  destruct (nodes_Some s A i _ Hn Hv) as (n & Hi & [= -> ->]).
  eapply (wp_write i _ _ size off p 0 0); [apply Hwf|exact Hv|done|done|done|lia|].
  intros s' _ _ Hv' Hother. wp_step. eexists. split; [by apply step_write|]. by apply (nodes_write s).
Qed.

Lemma sim_setattr i size A s :
  tree_wf s -> nodes s A -> allowed s (Op_setattr i size) -> simulates A (Op_setattr i size) s.
Proof.
  intros Hwf Hn (Hs & t & b & Hv & Ht). unfold simulates. cbn [act]. wp_step.
  destruct (nodes_Some s A i _ Hn Hv) as (n & Hi & [= -> ->]).
  eapply wp_setattr; [apply Hwf|exact Hv|done|].
  intros s' _ _ Hv' Hother. wp_step. eexists. split; [by apply step_setattr|]. by apply (nodes_write s).
Qed.

Lemma sim_mkdir d name mode ino A s :
  tree_wf s -> nodes s A -> adding s d name 0 -> simulates A (Op_mkdir d name mode ino) s.
Proof.
  intros Hwf Hn (Hd & Hname & Hfree & Hroom).
  destruct (dir_cases s A d Hn Hd) as [[Hno Ht]|(l & Hl & Hdl)].
  - eapply (sim_refused _ _ (fun r => An_ino r.1 r.2) (IOERR, ino) d); [reflexivity|done|done|done|].
    eapply (step_add_refused _ (Op_mkdir d name mode ino)); [reflexivity|by left].
  - destruct (decide (name = [DOT] \/ name = [DOT; DOT])) as [Hdot|Hdot].
    + unfold simulates. cbn [act]. unfold chfs_client.mkdir. wp_step. wp_step.
      eapply wp_check_is_dir; [apply Hwf|exact Hdl|]. cbn [negb Z.eqb OK]. rewrite decide_True by done.
      wp_step. wp_step. eapply sim_same; [done|apply quiet_refl, Hwf|].
      eapply (step_add_refused _ (Op_mkdir d name mode ino)); [reflexivity|by right].
    + eapply (sim_create_entry _ T_DIR d name ino (Dir []) l); try done; [|by right|by apply Hroom].
      cbn [act]. unfold chfs_client.mkdir. by rewrite decide_False.
Qed.

Lemma sim_allowed o A s : tree_wf s -> nodes s A -> allowed s o -> simulates A o s.
Proof.
  intros Hwf Hn Ha. destruct o as [d name mode ino|d name mode ino|d path name ino|d name|d name ino|d|
    i size off|i size off p|i size|i]; cbn [allowed] in Ha.
  - destruct Ha as (Hd & Hname & Hfree & Hroom).
    destruct (dir_cases s A d Hn Hd) as [[Hno Ht]|(l & Hl & Hdl)].
    + eapply (sim_refused _ _ (fun r => An_ino r.1 r.2) (IOERR, ino) d); [reflexivity|done|done|done|].
      eapply (step_add_refused _ (Op_create d name mode ino)); [reflexivity|by left].
    + eapply (sim_create_entry _ T_FILE d name ino (Reg []) l); try done; [by intros []|by left|by apply Hroom].
  - by apply sim_mkdir.
  - destruct Ha as (Hlen & Hd & Hname & Hfree & Hroom).
    destruct (dir_cases s A d Hn Hd) as [[Hno Ht]|(l & Hl & Hdl)].
    + eapply (sim_refused _ _ (fun r => An_ino r.1 r.2) (IOERR, ino) d); [reflexivity|done|done|done|].
      eapply (step_add_refused _ (Op_symlink d path name ino)); [reflexivity|by left].
    + eapply sim_symlink; [done|done|exact Hl|done|done|done|done|by apply Hroom].
  - destruct (dir_cases s A d Hn Ha) as [[Hno Ht]|(l & Hl & Hdl)]; [|by eapply sim_unlink].
    eapply (sim_refused _ _ An_status IOERR d); [reflexivity|done|done|done|].
    apply step_unlink_refused. by left.
  - destruct (dir_cases s A d Hn Ha) as [[Hno Ht]|(l & Hl & Hdl)]; [|by eapply sim_lookup].
    eapply (sim_refused _ _ (fun r => An_lookup r.1.1 r.1.2 r.2) (IOERR, false, ino) d);
      [reflexivity|done|done|done|]. by apply step_lookup_refused.
  - destruct (dir_cases s A d Hn Ha) as [[Hno Ht]|(l & Hl & Hdl)].
    + eapply (sim_refused _ _ (fun r => An_dir r.1 r.2) (IOERR, []) d); [reflexivity|done|done|done|].
      by apply step_readdir_refused.
    + unfold simulates. cbn [act]. wp_step. eapply wp_readdir; [apply Hwf|exact Hdl|].
      intros s' Hq. wp_step. eapply sim_same; [done|done|]. by apply step_readdir.
  - by apply sim_read.
  - by apply sim_write.
  - by apply sim_setattr.
  - by apply sim_readlink.
Qed.

(** [act] keeps what [exec] keeps. *)
Lemma wp_other_result {A B C} (m : M S A) (f : A -> B) (g : A -> C) (P : S -> Prop) s :
  wp (r ← m; mret (f r)) (fun _ s' => P s') s -> wp (r ← m; mret (g r)) (fun _ s' => P s') s.
Proof. unfold wp, mbind, M_bind, mret, M_ret. by destruct (m s) as [[a s']| | | | |]. Qed.

Lemma act_exec o (P : S -> Prop) s :
  wp (exec junk o) (fun _ s' => P s') s -> wp (act o) (fun _ s' => P s') s.
Proof.
  destruct o; cbn [exec act]; try apply wp_other_result;
    intros Hw; (eapply wp_call; [exact Hw|]; intros r s' HP; by apply wp_ret).
Qed.

Lemma wp_act o A s : represents s A -> allowed s o ->
  wp (act o) (fun ans s' => exists A', tree_step A o ans A' /\ represents s' A') s.
Proof.
  intros [Hwf Hn] Ha. pose proof (sim_allowed o A s Hwf Hn Ha) as H1.
  pose proof (act_exec o tree_wf s (wp_exec junk o s Hwf Ha)) as H2.
  eapply wp_mono; [exact (wp_and _ _ _ _ H1 H2)|].
  intros ans s' [(A' & Hs & Hn') Hwf']. by exists A'.
Qed.

(** ** Runs *)
Inductive client_run : S -> list (op * answer) -> S -> Prop :=
| client_run_nil s : client_run s [] s
| client_run_cons s o ans s1 tr s2 :
    allowed s o -> act o s = Ok (ans, s1) -> client_run s1 tr s2 -> client_run s ((o, ans) :: tr) s2.
End refinement.

Inductive tree_run : tree -> list (op * answer) -> tree -> Prop :=
| tree_run_nil A : tree_run A [] A
| tree_run_cons A o ans A1 tr A2 :
    tree_step A o ans A1 -> tree_run A1 tr A2 -> tree_run A ((o, ans) :: tr) A2.

Lemma client_run_tree {S : Type} `{EL : ExtentLaws S} (junk : Z -> Z) s A tr s' :
  represents s A -> client_run junk s tr s' -> exists A', tree_run A tr A' /\ represents s' A'.
Proof.
  intros Hr Hrun. revert A Hr. induction Hrun as [s|s o ans s1 tr s2 Ha Hact _ IH]; intros A Hr.
  - exists A. split; [constructor|done].
  - destruct (wp_Ok _ _ _ _ _ (wp_act junk o A s Hr Ha) Hact) as (A1 & Hs & Hr1).
    destruct (IH A1 Hr1) as (A2 & H1 & H2). exists A2. split; [by econstructor|done].
Qed.

(** C4 [chfs_client] refines the abstract file system: over any storage with the laws
    of the extent protocol, the answers of any run of allowed operations are those of
    a run of the abstract map, which the state it ends in represents; and there every
    allowed operation returns. *)
Theorem client_refines_tree {S : Type} `{EL : ExtentLaws S} (junk : Z -> Z) s A tr s' :
  represents s A -> client_run junk s tr s' ->
  exists A', tree_run A tr A' /\ represents s' A' /\
    forall o, allowed s' o -> exists ans s2, act junk o s' = Ok (ans, s2).
Proof.
  intros Hr Hrun. destruct (client_run_tree junk s A tr s' Hr Hrun) as (A' & H1 & H2).
  exists A'. split; [done|]. split; [done|]. intros o Ha.
  pose proof (wp_act junk o A' s' H2 Ha) as Hw. apply wp_run in Hw as (ans & s2 & H3 & _). by exists ans, s2.
Qed.

(** A freshly booted file system is an empty root. *)
Lemma fresh_represents `{E : Env} s : just_booted s -> represents s {[ 1 := Dir [] ]}.
Proof.
  intros Hs. split; [by apply fresh_tree|]. intros i. destruct (decide (i = 1)) as [->|Hi].
  - rewrite lookup_singleton_eq. split; [|constructor]. unfold view. cbn [ext_file extent_laws].
    by rewrite (fr_root s Hs).
  - rewrite lookup_singleton_ne by done. cbn. unfold view. cbn [ext_file extent_laws].
    by rewrite (fr_none s Hs).
Qed.

#[local] Existing Instance machine.

Lemma client_refines_tree_witness :
  exists ans s1, act (fun _ => 0) (Op_create 1 name_a 420 0) booted = Ok (ans, s1) /\
    exists A', tree_run {[ 1 := Dir [] ]} [(Op_create 1 name_a 420 0, ans)] A' /\ represents s1 A'.
Proof.
  assert (allowed booted (Op_create 1 name_a 420 0)) as Ha by exact booted_adding.
  pose proof (fresh_represents booted booted_fresh) as Hr.
  destruct (client_refines_tree (fun _ => 0) booted {[ 1 := Dir [] ]} [] booted Hr) as (_ & _ & _ & Hret);
    [constructor|].
  destruct (Hret _ Ha) as (ans & s1 & Hact). exists ans, s1. split; [exact Hact|].
  destruct (client_refines_tree (fun _ => 0) booted {[ 1 := Dir [] ]} [(Op_create 1 name_a 420 0, ans)] s1 Hr)
    as (A' & H1 & H2 & _).
  - econstructor; [exact Ha|exact Hact|constructor].
  - exists A'. split; [exact H1|exact H2].
Defined.
