(* ===== verification/Paths.v ===== *)
(** The shape of the directory tree: every file has exactly one path from the root.

    The invariant is kept by the steps of the abstract file system of Namespace.v, and
    the refinement carries it over to the states of [chfs_client]. *)
From S2P Require Import Prelude Monad Disk BlockManager Inode InodeManager FsInv WriteFile.
From S2P Require Import WriteSpec Protocol Extent DirFormat ChfsClient ChfsSpec ChfsOps ChfsTree.
From S2P Require Import ChfsReach System Scenarios Namespace.
From Stdlib Require Import Ascii ZArith Lia.
From stdpp Require Import base gmap numbers list.
#[local] Open Scope Z_scope.

(** ** In the map *)
Definition entry_in (A : tree) (d : Z) (name : bytes) (k : Z) : Prop :=
  exists l, A !! d = Some (Dir l) /\ mk_dirent name k ∈ l.

Inductive path_to (A : tree) : list bytes -> Z -> Prop :=
| path_root : path_to A [] 1
| path_entry p d name k : path_to A p d -> entry_in A d name k -> path_to A (p ++ [name]) k.

Record tree_ok (A : tree) : Prop := {
  tk_root : exists l, A !! 1 = Some (Dir l);
  tk_names : forall d l, A !! d = Some (Dir l) -> NoDup (names l);
  tk_used : forall d name k, entry_in A d name k -> is_Some (A !! k);
  tk_unique : forall d1 d2 n1 n2 k, entry_in A d1 n1 k -> entry_in A d2 n2 k -> d1 = d2 /\ n1 = n2;
  tk_noroot : forall d name, ~ entry_in A d name 1;
  tk_reach : forall i, is_Some (A !! i) -> exists p, path_to A p i
}.

Lemma path_mono A A' p i :
  (forall d name k, entry_in A d name k -> entry_in A' d name k) -> path_to A p i -> path_to A' p i.
Proof. intros He. induction 1; [constructor|by eapply path_entry; eauto]. Qed.

Lemma path_unique A p q i : tree_ok A -> path_to A p i -> path_to A q i -> p = q.
Proof.
  intros [_ _ _ Hu Hr _] Hp. revert q. induction Hp as [|p d name k _ IH He]; intros q Hq.
  - inversion Hq as [|p' d' name' k' _ He']; [done|]. by apply Hr in He'.
  - inversion Hq as [|p' d' name' k' Hp' He']; subst; [by apply Hr in He|].
    destruct (Hu _ _ _ _ _ He He') as [<- <-]. by rewrite (IH p').
Qed.

(** Names are distinct, so a directory has one entry of a name. *)
Lemma entry_find l name k : NoDup (names l) -> mk_dirent name k ∈ l <-> find_entry name l = Some k.
Proof.
  intros Hnd. split; [|intros ([n i] & He & Hn & Hi)%find_entry_Some; cbn in Hn, Hi; by subst].
  induction l as [|e l IH]; [by intros ?%elem_of_nil|]. cbn [find_entry].
  unfold names in Hnd. rewrite fmap_cons in Hnd. apply NoDup_cons in Hnd as [Hne Hnd].
  intros [<-|Hin]%elem_of_cons; [by rewrite decide_True|]. case_decide as Hd; [|by apply IH].
  destruct Hne. rewrite Hd. apply list_elem_of_fmap. by exists (mk_dirent name k).
Qed.

(** *** Adding *)
Lemma tree_ok_add A A' d name k l :
  tree_ok A -> A !! d = Some (Dir l) -> A !! k = None ->
  (forall d' n' k', entry_in A' d' n' k' <-> entry_in A d' n' k' \/ (d' = d /\ n' = name /\ k' = k)) ->
  (forall i, is_Some (A' !! i) <-> is_Some (A !! i) \/ i = k) ->
  (exists l, A' !! 1 = Some (Dir l)) ->
  (forall d l, A' !! d = Some (Dir l) -> NoDup (names l)) -> tree_ok A'.
Proof.
  intros [Hroot Hnames Hused Huniq Hnoroot Hreach] Hd Hk Hent Hdom Hroot' Hnames'.
  assert (forall d' n', ~ entry_in A d' n' k) as Hfresh.
  { intros d' n' He%Hused. rewrite Hk in He. by destruct He. }
  split; [done|done|..].
  - intros d' n' k' [He| (_ & _ & ->)]%Hent; apply Hdom; [left; eauto|by right].
  - intros d1 d2 n1 n2 k' [H1|(-> & -> & ->)]%Hent [H2|(-> & -> & E)]%Hent; subst; eauto.
    + by apply Hfresh in H1.
    + by apply Hfresh in H2.
  - intros d' n' [He|(_ & _ & E)]%Hent; [by eapply Hnoroot|]. destruct Hroot as [lr Hr]. congruence.
  - assert (forall p i, path_to A p i -> path_to A' p i) as Hmono
      by (intros p i; apply path_mono; intros; apply Hent; by left).
    intros i [Hi| ->]%Hdom.
    + destruct (Hreach i Hi) as [p Hp]. exists p. by apply Hmono.
    + destruct (Hreach d) as [p Hp]; [by exists (Dir l)|]. exists (p ++ [name]).
      eapply path_entry; [by apply Hmono|]. apply Hent. by right.
Qed.

Lemma add_step_ok A d name k new l :
  tree_ok A -> A !! d = Some (Dir l) -> A !! k = None -> name ∉ names l ->
  match new with Dir l => l = [] | _ => True end ->
  tree_ok (<[d := Dir (l ++ [mk_dirent name k])]> (<[k := new]> A)).
Proof.
  intros Ht Hd Hk Hname Hnew. assert (d <> k) as Hdk by (intros ->; congruence).
  set (A' := <[d := _]> _).
  assert (A' !! d = Some (Dir (l ++ [mk_dirent name k]))) as Hd' by apply lookup_insert_eq.
  assert (A' !! k = Some new) as Hk' by (unfold A'; by rewrite lookup_insert_ne, lookup_insert_eq).
  assert (forall i, i <> d -> i <> k -> A' !! i = A !! i) as Hother
    by (intros; unfold A'; by rewrite !lookup_insert_ne).
  apply (tree_ok_add A A' d name k l); [done..| | | |].
  - intros d' n' k'. unfold entry_in. destruct (decide (d' = d)) as [->|Hdd]; [|destruct (decide (d' = k)) as [->|Hdk']].
    + rewrite Hd', Hd. split.
      * intros (l' & [= <-] & [Hin|[= -> ->]%list_elem_of_singleton]%elem_of_app); [left; by exists l|by right].
      * intros [(l' & [= <-] & Hin)|(_ & -> & ->)]; eexists; (split; [done|]); apply elem_of_app; [by left|right].
        by apply list_elem_of_singleton.
    + rewrite Hk', Hk. split; [|by intros [(? & ? & _)|(? & _)]]. intros (l' & [= ->] & Hin). subst l'.
      by apply elem_of_nil in Hin.
    + rewrite Hother by done. split; [by left|by intros [?|[? _]]].
  - intros i. destruct (decide (i = d)) as [->|Hid]; [rewrite Hd', Hd; by split; [left|]|].
    destruct (decide (i = k)) as [->|Hik]; [rewrite Hk'; by split; [right|]|].
    rewrite Hother by done. split; [by left|by intros [?|?]].
  - destruct (tk_root _ Ht) as [lr Hr]. destruct (decide (1 = d)) as [<-|]; [by eexists|].
    exists lr. rewrite Hother; [done|done|]. congruence.
  - intros d' l' Hl'. destruct (decide (d' = d)) as [->|Hdd].
    + rewrite Hd' in Hl'. injection Hl' as <-. unfold names. rewrite fmap_app. apply NoDup_app.
      split; [by apply (tk_names _ Ht d)|]. split; [by intros x Hx ->%list_elem_of_singleton|apply NoDup_singleton].
    + destruct (decide (d' = k)) as [->|Hdk']; [|rewrite Hother in Hl' by done; by apply (tk_names _ Ht d')].
      rewrite Hk' in Hl'. injection Hl' as ->. subst l'. constructor.
Qed.

(** *** Removing *)
Lemma NoDup_names_filter (P : dirent -> Prop) `{!forall e, Decision (P e)} l :
  NoDup (names l) -> NoDup (names (filter P l)).
Proof. intros Hnd. apply (sublist_NoDup _ (names l)); [done|]. unfold names. apply fmap_sublist, sublist_filter. Qed.

Lemma remove_step_ok A d name k l data :
  tree_ok A -> A !! d = Some (Dir l) -> find_entry name l = Some k -> A !! k = Some (Reg data) ->
  tree_ok (<[d := Dir (filter (fun e => d_name e <> name) l)]> (delete k A)).
Proof.
  intros Ht Hd Hf Hk. assert (d <> k) as Hdk by (intros ->; congruence).
  set (A' := <[d := _]> _). pose proof (tk_names _ Ht d l Hd) as Hnd.
  assert (A' !! d = Some (Dir (filter (fun e => d_name e <> name) l))) as Hd' by apply lookup_insert_eq.
  assert (A' !! k = None) as Hk' by (unfold A'; by rewrite lookup_insert_ne, lookup_delete_eq).
  assert (forall i, i <> d -> i <> k -> A' !! i = A !! i) as Hother
    by (intros; unfold A'; by rewrite lookup_insert_ne, lookup_delete_ne).
  assert (forall d' n' k', entry_in A' d' n' k' <-> entry_in A d' n' k' /\ k' <> k) as Hent.
  { assert (entry_in A d name k) as Hentry by (exists l; split; [done|by apply entry_find]).
    intros d' n' k'. unfold entry_in. destruct (decide (d' = d)) as [->|Hdd]; [|destruct (decide (d' = k)) as [->|Hdk']].
    - rewrite Hd'. split.
      + intros (l' & [= <-] & [Hn Hin]%list_elem_of_filter). cbn in Hn. split; [by exists l|]. intros ->.
        apply Hn. apply (tk_unique _ Ht d d n' name k); [by exists l|done].
      + intros ((l' & Hl' & Hin) & Hne). rewrite Hd in Hl'. injection Hl' as <-. eexists. split; [done|].
        apply list_elem_of_filter. split; [|done]. cbn. intros ->. apply entry_find in Hin; [|done]. congruence.
    - rewrite Hk', Hk. split; [by intros (? & ? & _)|by intros [(? & ? & _) _]].
    - rewrite Hother by done. split; [|by intros [? _]]. intros He. split; [done|]. intros ->.
      by destruct (tk_unique _ Ht d' d n' name k He Hentry). }
  split.
  - destruct (tk_root _ Ht) as [lr Hr]. destruct (decide (1 = d)) as [<-|]; [by eexists|].
    exists lr. rewrite Hother; [done|done|]. congruence.
  - intros d' l' Hl'. destruct (decide (d' = d)) as [->|Hdd].
    + rewrite Hd' in Hl'. injection Hl' as <-. by apply NoDup_names_filter.
    + destruct (decide (d' = k)) as [->|]; [congruence|]. rewrite Hother in Hl' by done. by apply (tk_names _ Ht d').
  - intros d' n' k' [He Hne]%Hent. destruct (decide (k' = d)) as [->|]; [by rewrite Hd'|].
    rewrite Hother by done. by eapply tk_used.
  - intros d1 d2 n1 n2 k' [H1 _]%Hent [H2 _]%Hent. by eapply tk_unique.
  - intros d' n' [He _]%Hent. by eapply tk_noroot.
  - assert (forall p i, path_to A p i -> i <> k -> path_to A' p i) as Hpath.
    { intros p i. induction 1 as [|p d0 n0 k0 _ IH He]; [constructor|]. intros Hne.
      eapply path_entry; [apply IH|by apply Hent]. intros ->. destruct He as (? & ? & _). congruence. }
    intros i Hi. destruct (decide (i = k)) as [->|Hik]; [rewrite Hk' in Hi; by destruct Hi|].
    destruct (tk_reach _ Ht i) as [p Hp]; [|exists p; by apply Hpath].
    destruct (decide (i = d)) as [->|]; [by exists (Dir l)|]. by rewrite <- Hother.
Qed.

(** *** Every step *)

(** A step that changes the bytes of a file or of a link only. *)
Lemma write_step_ok A i n data :
  tree_ok A -> A !! i = Some n -> tree_ok (<[i := with_bytes n data]> A).
Proof.
  intros Ht Hi. set (A' := <[i := _]> A).
  assert (forall j l, A' !! j = Some (Dir l) <-> A !! j = Some (Dir l)) as Hdir.
  { intros j l. unfold A'. destruct (decide (j = i)) as [->|Hj]; [|by rewrite lookup_insert_ne].
    rewrite lookup_insert_eq, Hi. by destruct n. }
  assert (forall d name k, entry_in A' d name k <-> entry_in A d name k) as Hent
    by (intros d name k; unfold entry_in; by setoid_rewrite Hdir).
  assert (forall j, is_Some (A' !! j) <-> is_Some (A !! j)) as Hdom.
  { intros j. unfold A'. destruct (decide (j = i)) as [->|Hj]; [|by rewrite lookup_insert_ne].
    rewrite lookup_insert_eq, Hi. split; by eexists. }
  destruct Ht. split.
  - destruct tk_root0 as [l Hl]. exists l. by apply Hdir.
  - intros d l Hl%Hdir. eauto.
  - intros d name k He%Hent. apply Hdom. eauto.
  - intros d1 d2 n1 n2 k H1%Hent H2%Hent. eauto.
  - intros d name He%Hent. by eapply tk_noroot0.
  - intros j [p Hp]%Hdom%tk_reach0. exists p. eapply path_mono; [|exact Hp]. intros d name k. apply Hent.
Qed.

Lemma adds_new o d name ino new : adds o = Some (d, name, ino, new) ->
  match new with Dir l => l = [] | _ => True end.
Proof. by destruct o; intros [= _ _ _ <-]. Qed.

Lemma tree_step_ok A o ans A' : tree_ok A -> tree_step A o ans A' -> tree_ok A'.
Proof.
  intros Ht. destruct 1; try done.
  - eapply add_step_ok; [done..|]. by eapply adds_new.
  - by eapply remove_step_ok.
  - by apply write_step_ok.
  - by apply write_step_ok.
Qed.

Lemma tree_run_ok A tr A' : tree_run A tr A' -> tree_ok A -> tree_ok A'.
Proof. induction 1 as [|A o ans A1 tr A2 Hs _ IH]; intros Ht; [done|]. by apply IH; eapply tree_step_ok. Qed.

Lemma root_ok : tree_ok {[ 1 := Dir [] ]}.
Proof.
  assert (forall d n, ({[ 1 := Dir [] ]} : tree) !! d = Some n -> d = 1 /\ n = Dir []) as H
    by by intros d n [<- <-]%lookup_singleton_Some.
  assert (forall d name k, ~ entry_in {[ 1 := Dir [] ]} d name k) as He.
  { intros d name k (l & [_ [= ->]]%H & Hin). by apply elem_of_nil in Hin. }
  split.
  - exists []. by rewrite lookup_singleton_eq.
  - intros d l [_ [= ->]]%H. constructor.
  - by intros d name k ?%He.
  - by intros d1 d2 n1 n2 k ?%He.
  - by intros d name ?%He.
  - intros i [n [-> _]%H]. exists []. constructor.
Qed.

(** ** In the program *)
Section paths.
Context {S : Type} `{EL : ExtentLaws S}.

(** The path [p] leads from the root to number [i], through entries that [lookup] finds. *)
Inductive resolves (s : S) : list bytes -> Z -> Prop :=
| resolves_root : resolves s [] 1
| resolves_entry p d l name k :
    resolves s p d -> dir_at s d l -> find_entry name l = Some k -> resolves s (p ++ [name]) k.

Lemma resolves_path s A p i : represents s A -> tree_ok A -> resolves s p i <-> path_to A p i.
Proof.
  intros [Hwf Hn] Ht. assert (forall d l, dir_at s d l <-> A !! d = Some (Dir l)) as Hdir.
  { intros d l. split; [|by eapply nodes_dir]. intros Hd.
    destruct (nodes_Some s A d _ Hn (da_view _ _ _ Hd)) as (n & HA & En). destruct n as [l'|b|b]; try done.
    rewrite HA. do 2 f_equal. symmetry.
    apply (dir_at_fun (fun _ => 0) s d); [apply Hwf|done|by eapply nodes_dir]. }
  split.
  - induction 1 as [|q d l name k _ IH Hd Hf]; [constructor|]. apply Hdir in Hd.
    eapply path_entry; [exact IH|]. exists l. split; [done|]. apply entry_find; [|done].
    by apply (tk_names _ Ht d).
  - induction 1 as [|q d name k _ IH (l & Hl & Hin)]; [constructor|].
    eapply resolves_entry; [exact IH|by apply Hdir|]. apply entry_find; [|done]. by apply (tk_names _ Ht d).
Qed.
End paths.

(** C6 The directory tree is a tree: after any run of allowed operations on an empty
    root, every number in use has exactly one path from the root, so nothing is lost
    behind a directory, shared, or on a cycle; and a path leads to a number in use. *)
Theorem one_path {S : Type} `{EL : ExtentLaws S} (junk : Z -> Z) s tr s' :
  represents s {[ 1 := Dir [] ]} -> client_run junk s tr s' ->
  forall i, (view s' i <> None -> exists p, resolves s' p i /\ forall q, resolves s' q i -> q = p) /\
            (forall p, resolves s' p i -> view s' i <> None).
Proof.
  intros Hr Hrun. destruct (client_run_tree junk s _ tr s' Hr Hrun) as (A & HA & Hr').
  pose proof (tree_run_ok _ _ _ HA root_ok) as Ht. intros i. split.
  - intros Hv. destruct (view s' i) as [x|] eqn:Ei; [|done].
    destruct (nodes_Some s' A i x (rp_nodes _ _ Hr') Ei) as (n & Hi & _).
    destruct (tk_reach _ Ht i) as [p Hp]; [by exists n|]. exists p.
    split; [by eapply resolves_path|]. intros q Hq. eapply (path_unique A); [done| |exact Hp].
    by eapply resolves_path.
  - intros p Hp Hv. apply (resolves_path s' A p i Hr' Ht) in Hp.
    assert (is_Some (A !! i)) as [n Hi].
    { inversion Hp as [|? ? ? ? _ He]; subst; [|by eapply tk_used].
      destruct (tk_root _ Ht) as [l Hl]. by exists (Dir l). }
    by rewrite (nodes_view s' A i n (rp_nodes _ _ Hr') Hi) in Hv.
Qed.

#[local] Existing Instance machine.

(** A directory that was made in the root has one path. *)
Lemma one_path_witness :
  exists tr s', client_run (fun _ => 0) booted tr s' /\ tr <> [] /\
    forall i, view s' i <> None -> exists p, resolves s' p i /\ forall q, resolves s' q i -> q = p.
Proof.
  assert (allowed booted (Op_mkdir 1 name_a 420 0)) as Ha by exact booted_adding.
  pose proof (fresh_represents booted booted_fresh) as Hr.
  pose proof (wp_act (fun _ => 0) (Op_mkdir 1 name_a 420 0) _ booted Hr Ha) as Hw.
  apply wp_run in Hw as (ans & s' & Hrun & _).
  exists [(Op_mkdir 1 name_a 420 0, ans)], s'.
  assert (client_run (fun _ => 0) booted [(Op_mkdir 1 name_a 420 0, ans)] s') as Hc
    by (econstructor; [exact Ha|exact Hrun|constructor]).
  split; [exact Hc|]. split; [discriminate|]. intros i.
  apply (one_path (fun _ => 0) booted _ s' Hr Hc i).
Defined.
