(* ===== verification/FuseTree.v ===== *)
(** The handlers of fuse.cc refine the abstract file system of Namespace.v.

    [fuse_step] says what a request may be answered and how it changes the map of
    directories, files and links: through the step of the client operation that the
    handler calls, and with the attributes of the map it leaves. *)
From S2P Require Import Prelude Monad Disk BlockManager Inode InodeManager FsInv WriteFile.
From S2P Require Import WriteSpec Protocol Extent DirFormat ChfsClient ChfsSpec ChfsOps ChfsTree.
From S2P Require Import ChfsReach Fuse FuseSpec System Scenarios Namespace Paths.
From Stdlib Require Import Ascii ZArith Lia.
From stdpp Require Import base gmap numbers list.
#[local] Open Scope Z_scope.

(** The attributes of a number in the map; the times are free.  A number that is not
    in use looks like an empty link of the epoch. *)
Definition stat_is (A : tree) (i : Z) (st : stat) : Prop :=
  exists ta tm tc,
    st = match A !! ext_id i with
         | Some (Reg data) => mk_stat i (Z.lor S_IFREG 438) 1 (len data) ta tm tc
         | Some (Dir _) => mk_stat i (Z.lor S_IFDIR 511) 2 0 ta tm tc
         | Some (Sym path) => mk_stat i (Z.lor S_IFLNK 511) 1 (len path) ta tm tc
         | None => mk_stat i (Z.lor S_IFLNK 511) 1 0 0 0 0
         end.

Definition entry_is (A : tree) (k : Z) (e : fuse_entry_param) : Prop :=
  exists st, e = mk_entry k 0 st /\ stat_is A k st.

Section steps.
Context (ino0 : Z) (dirent_size : Z -> Z) (add_dirent : bytes -> Z -> Z -> bytes).

(** The requests that make something: the operation, and the reply with the entry. *)
Definition makes (r : request) : option (op * (fuse_entry_param -> reply)) :=
  match r with
  | Create d name mode => Some (Op_create d name mode ino0, Reply_create)
  | Mknod d name mode _ => Some (Op_create d name mode ino0, Reply_entry)
  | Mkdir d name mode => Some (Op_mkdir d name mode ino0, Reply_entry)
  | Symlink link d name => Some (Op_symlink d link name ino0, Reply_entry)
  | _ => None
  end.

(** The error for a status of the client. *)
Definition make_errno (ret : Z) : Z := if ret =? EXIST then EEXIST else ENOENT.
Definition unlink_errno (ret : Z) : Z :=
  if ret =? OK then 0 else if ret =? NOENT then ENOENT else ENOTEMPTY.

Inductive fuse_step (A : tree) : request -> reply -> tree -> Prop :=
| fs_getattr ino st :
    stat_is A ino st -> fuse_step A (Getattr ino) (Reply_attr st) A
| fs_setattr ino size set st A' :
    Z.land FUSE_SET_ATTR_SIZE set <> 0 ->
    tree_step A (Op_setattr ino (u64 size)) (An_status OK) A' -> stat_is A' ino st ->
    fuse_step A (Setattr ino size set) (Reply_attr st) A'
| fs_setattr_other ino size set :
    Z.land FUSE_SET_ATTR_SIZE set = 0 -> fuse_step A (Setattr ino size set) (Reply_err ENOSYS) A
| fs_read ino size off data A' :
    tree_step A (Op_read ino size off) (An_data OK data) A' ->
    fuse_step A (Read ino size off) (Reply_buf data) A'
| fs_write ino buf size off n A' :
    tree_step A (Op_write ino size off buf) (An_count OK n) A' ->
    fuse_step A (Write ino buf size off) (Reply_write n) A'
| fs_make r o reply k e A' :
    makes r = Some (o, reply) -> tree_step A o (An_ino OK k) A' -> entry_is A' k e ->
    fuse_step A r (reply e) A'
| fs_make_refused r o reply ret k A' :
    makes r = Some (o, reply) -> tree_step A o (An_ino ret k) A' -> ret <> OK ->
    fuse_step A r (Reply_err (make_errno ret)) A'
| fs_lookup d name k e ret A' :
    tree_step A (Op_lookup d name ino0) (An_lookup ret true k) A' -> entry_is A' k e ->
    fuse_step A (Fuse.Lookup d name) (Reply_entry e) A'
| fs_lookup_missing d name k ret A' :
    tree_step A (Op_lookup d name ino0) (An_lookup ret false k) A' ->
    fuse_step A (Fuse.Lookup d name) (Reply_err ENOENT) A'
| fs_readdir ino size off l A' :
    tree_step A (Op_readdir ino) (An_dir OK l) A' ->
    let buf := listing dirent_size add_dirent l 0 in
    fuse_step A (Readdir ino size off) (fuse.reply_buf_limited buf (len buf) off size) A'
| fs_readdir_refused ino size off :
    ~ is_dir A ino -> fuse_step A (Readdir ino size off) (Reply_err ENOTDIR) A
| fs_open ino : fuse_step A (Open ino) Reply_open A
| fs_unlink d name ret A' :
    tree_step A (Op_unlink d name) (An_status ret) A' ->
    fuse_step A (Unlink d name) (Reply_err (unlink_errno ret)) A'
| fs_readlink ino path A' :
    tree_step A (Op_readlink ino) (An_data OK path) A' ->
    fuse_step A (Readlink ino) (Reply_readlink (until_nul path)) A'
| fs_readlink_refused ino ret path A' :
    tree_step A (Op_readlink ino) (An_data ret path) A' -> ret <> OK ->
    fuse_step A (Readlink ino) (Reply_err ENOENT) A'
| fs_statfs : fuse_step A Statfs (Reply_statfs 255 512) A.

(** Requests one after the other, each with its replies. *)
Inductive fuse_run : tree -> list request -> list (list reply) -> tree -> Prop :=
| fuse_run_nil A : fuse_run A [] [] A
| fuse_run_cons A r p A1 reqs out A2 :
    fuse_step A r p A1 -> fuse_run A1 reqs out A2 -> fuse_run A (r :: reqs) ([p] :: out) A2.
End steps.

Section refinement.
Context {S : Type} `{EL : ExtentLaws S}.
Context (junk : Z -> Z) (ino0 : Z).
Context (dirent_size : Z -> Z) (add_dirent : bytes -> Z -> Z -> bytes).
Hypothesis add_dirent_size : forall name ino next, len (add_dirent name ino next) = dirent_size (len name).
#[local] Abbreviation dispatch := (fuse.dispatch junk ino0 dirent_size add_dirent).
#[local] Abbreviation step := (fuse_step ino0 dirent_size add_dirent).

(** What the kernel and the resources guarantee when a request comes. *)
Definition request_allowed (s : S) (r : request) : Prop :=
  match r with
  | Getattr _ | Open _ | Statfs => True
  | Setattr ino st_size to_set =>
      Z.land FUSE_SET_ATTR_SIZE to_set <> 0 -> allowed s (Op_setattr ino (u64 st_size))
  | Read ino size off => allowed s (Op_read ino size off)
  | Write ino buf size off => allowed s (Op_write ino size off buf)
  | Create parent name mode | Mknod parent name mode _ => allowed s (Op_create parent name mode ino0)
  | Mkdir parent name mode => allowed s (Op_mkdir parent name mode ino0)
  | Fuse.Lookup parent name => allowed s (Op_lookup parent name ino0)
  | Readdir ino _ _ => allowed s (Op_readdir ino)
  | Unlink parent name => allowed s (Op_unlink parent name)
  | Symlink link parent name => allowed s (Op_symlink parent link name ino0)
  | Readlink ino => allowed s (Op_readlink ino)
  end.

(** What a handler ends with. *)
Definition answers (A : tree) (r : request) (rs : list reply) (s : S) : Prop :=
  exists p A', rs = [p] /\ step A r p A' /\ represents s A'.

Lemma wp_answer A A' r p s : step A r p A' -> represents s A' -> wp (mret [p]) (answers A r) s.
Proof. intros Hs Hr. apply wp_ret. by exists p, A'. Qed.

(** A handler goes on after a call of the client, which has made its step. *)
Lemma wp_client_op {X B} o (m : M S X) (g : X -> answer) (f : X -> M S B) (Q : B -> S -> Prop) A s :
  act junk o = (r ← m; mret (g r)) -> represents s A -> allowed s o ->
  (forall x s' A', tree_step A o (g x) A' -> represents s' A' -> wp (f x) Q s') -> wp (m ≫= f) Q s.
Proof.
  intros Ho Hr Ha Hf. pose proof (wp_act junk o A s Hr Ha) as Hw. rewrite Ho in Hw.
  unfold wp, mbind, M_bind, mret, M_ret in *. destruct (m s) as [[x s']| | | | |]; [|done..].
  destruct Hw as (A' & Hs & Hr'). by eapply Hf.
Qed.

Lemma represents_stat s A i : represents s A -> stat_is A i (stat_of i (ext_file s (ext_id i))).
Proof.
  intros [Hwf Hn]. pose proof (tw_wf _ Hwf) as W. unfold stat_is, stat_of.
  rewrite !attr_type, !(nodes_type s A) by done. specialize (Hn (ext_id i)). unfold node_at_view, view in Hn.
  destruct (A !! ext_id i) as [n|]; destruct (ext_file s (ext_id i)) as [[t ta tm tc b]|];
    cbn [fmap option_fmap option_map] in Hn; [|by destruct Hn as [[=] _]|done|by exists 0, 0, 0].
  destruct Hn as [[= -> ->] _]. exists ta, tm, tc. by destruct n.
Qed.

Lemma wp_stat {B} s A i (f : Z * stat -> M S B) (Q : B -> S -> Prop) :
  represents s A -> (forall st, stat_is A i st -> wp (f (OK, st)) Q s) -> wp (fuse.getattr i ≫= f) Q s.
Proof.
  intros Hr Hf. wp_step. apply wp_getattr; [apply Hr|]. by apply Hf, represents_stat.
Qed.

(** ** The requests that make something *)
Definition made (A : tree) (r : request) (reply : fuse_entry_param -> reply) (x : Z * fuse_entry_param)
    (s : S) : Prop :=
  exists A', represents s A' /\
    step A r (if x.1 =? OK then reply x.2 else Reply_err (make_errno x.1)) A'.

Lemma wp_createhelper_tree parent name mode type r o reply A s :
  makes ino0 r = Some (o, reply) ->
  act junk o = (x ← (if type =? T_FILE then chfs_client.create junk parent name mode ino0
                     else chfs_client.mkdir junk parent name mode ino0); mret (An_ino x.1 x.2)) ->
  represents s A -> allowed s o ->
  wp (fuse.fuseserver_createhelper junk ino0 parent name mode type) (made A r reply) s.
Proof.
  intros Hm Ho Hr Ha. unfold fuse.fuseserver_createhelper.
  eapply wp_client_op; [exact Ho|exact Hr|exact Ha|]. intros [ret k] s' A' Hs Hr'. cbn [fst snd] in Hs.
  destruct (Z.eqb_spec ret OK) as [->|Hne]; cbn [negb].
  - apply (wp_stat s' A' k); [done|]. intros st Hst. apply wp_ret. exists A'. split; [done|].
    cbn [fst snd Z.eqb OK]. eapply fs_make; [done|exact Hs|by exists st].
  - apply wp_ret. exists A'. split; [done|]. cbn [fst snd]. rewrite (proj2 (Z.eqb_neq _ _)) by done.
    by eapply fs_make_refused.
Qed.

Lemma wp_made A r reply x s :
  made A r reply x s ->
  wp (let '(ret, e) := x in
      if ret =? OK then mret [reply e]
      else if ret =? EXIST then mret [Reply_err EEXIST] else mret [Reply_err ENOENT]) (answers A r) s.
Proof.
  destruct x as [ret e]. intros (A' & Hr & Hs). cbn [fst snd] in Hs. unfold make_errno in Hs.
  destruct (ret =? OK); [by eapply wp_answer|]. destruct (ret =? EXIST); by eapply wp_answer.
Qed.

(** ** Listing a directory *)
Lemma wp_readdir_tree ino size off A s :
  represents s A -> allowed s (Op_readdir ino) ->
  wp (fuse.fuseserver_readdir junk dirent_size add_dirent ino size off)
    (answers A (Readdir ino size off)) s.
Proof.
  intros Hr Ha. pose proof (tw_wf _ (rp_tree _ _ Hr)) as W. unfold fuse.fuseserver_readdir, chfs_client.isdir.
  wp_step. apply wp_has_type; [done|done|].
  destruct (dir_cases s A ino (rp_nodes _ _ Hr) Ha) as [[Hno ->]|(l & Hl & Hd)].
  - eapply wp_answer; [by apply fs_readdir_refused|done].
  - rewrite ext_id_id, (dir_type _ _ _ Hd) by done. cbn [negb].
    eapply (wp_client_op (Op_readdir ino)); [reflexivity|done|done|].
    intros [ret entries] s' A' Hs Hr'. cbn [fst snd] in Hs |- *.
    assert (is_dir A ino) by (by exists l).
    assert (ret = OK) as -> by (inversion Hs; subst; [done|contradiction]).
    pose proof (dirbuf_listing dirent_size add_dirent add_dirent_size entries (mk_dirbuf [] 0) eq_refl) as [Hp Hsz].
    cbn [db_p db_size app] in Hp, Hsz. rewrite Hsz, Hp. eapply wp_answer; [|done]. by apply (fs_readdir _ _ _ A).
Qed.

(** ** Every handler *)
Lemma wp_symlink_tree link d name A s :
  represents s A -> allowed s (Op_symlink d link name ino0) ->
  wp (fuse.fuseserver_symlink junk ino0 link d name) (answers A (Symlink link d name)) s.
Proof.
  intros Hr Ha. unfold fuse.fuseserver_symlink. eapply (wp_client_op (Op_symlink d link name ino0)); [reflexivity|done|done|].
  intros [ret k] s' A' Hs Hr'. cbn [fst snd] in Hs. destruct (Z.eqb_spec ret OK) as [->|Hne].
  - apply (wp_stat s' A' k); [done|]. intros st Hst. cbn [Z.eqb OK].
    eapply wp_answer; [|done]. eapply (fs_make _ _ _ A (Symlink link d name)); [done|exact Hs|by exists st].
  - eapply (fs_make_refused _ dirent_size add_dirent A (Symlink link d name)) in Hs; [|done..].
    unfold make_errno in Hs. destruct (ret =? EXIST); by eapply wp_answer.
Qed.

Lemma wp_dispatch_tree r A s :
  represents s A -> request_allowed s r -> wp (dispatch r) (answers A r) s.
Proof.
  intros Hr Ha. destruct r as [ino|ino sz set|ino size off|ino buf size off|d name mode|d name mode rdev|
    d name|ino size off|ino|d name mode|d name|link d name|ino|]; cbn [fuse.dispatch request_allowed] in *.
  - unfold fuse.fuseserver_getattr. apply (wp_stat s A ino); [done|]. intros st Hst.
    eapply wp_answer; [by apply fs_getattr|done].
  - unfold fuse.fuseserver_setattr. destruct (Z.eqb_spec (Z.land FUSE_SET_ATTR_SIZE set) 0) as [He|Hne]; cbn [negb].
    { eapply wp_answer; [by apply fs_setattr_other|done]. }
    eapply (wp_client_op (Op_setattr ino (u64 sz))); [reflexivity|done|by apply Ha|]. intros ret s' A' Hs Hr'.
    assert (ret = OK) as -> by by inversion Hs. cbn [Z.eqb OK].
    apply (wp_stat s' A' ino); [done|]. intros st Hst. eapply wp_answer; [by eapply fs_setattr|done].
  - unfold fuse.fuseserver_read. eapply (wp_client_op (Op_read ino size off)); [reflexivity|done|done|].
    intros [ret data] s' A' Hs Hr'. assert (ret = OK) as -> by by inversion Hs.
    eapply wp_answer; [by apply fs_read|done].
  - unfold fuse.fuseserver_write. eapply (wp_client_op (Op_write ino size off buf)); [reflexivity|done|done|].
    intros [ret n] s' A' Hs Hr'. assert (ret = OK) as -> by by inversion Hs.
    eapply wp_answer; [by apply fs_write|done].
  - eapply wp_call; [|intros x s'; apply wp_made].
    by eapply (wp_createhelper_tree d name mode T_FILE (Create d name mode) _ Reply_create).
  - eapply wp_call; [|intros x s'; apply wp_made].
    by eapply (wp_createhelper_tree d name mode T_FILE (Mknod d name mode rdev) _ Reply_entry).
  - unfold fuse.fuseserver_lookup. eapply (wp_client_op (Op_lookup d name ino0)); [reflexivity|done|done|].
    intros [[ret found] k] s' A' Hs Hr'. cbn [fst snd] in Hs. destruct found.
    + apply (wp_stat s' A' k); [done|]. intros st Hst.
      eapply wp_answer; [|done]. eapply fs_lookup; [exact Hs|]. by exists st.
    + eapply wp_answer; [by eapply fs_lookup_missing|done].
  - by apply wp_readdir_tree.
  - eapply wp_answer; [by apply fs_open|done].
  - eapply wp_call; [|intros x s'; apply wp_made].
    by eapply (wp_createhelper_tree d name mode T_DIR (Mkdir d name mode) _ Reply_entry).
  - unfold fuse.fuseserver_unlink. eapply (wp_client_op (Op_unlink d name)); [reflexivity|done|done|].
    intros ret s' A' Hs%(fs_unlink ino0 dirent_size add_dirent) Hr'. unfold unlink_errno in Hs.
    destruct (ret =? OK); [by eapply wp_answer|]. destruct (ret =? NOENT); by eapply wp_answer.
  - by apply wp_symlink_tree.
  - unfold fuse.fuseserver_readlink. eapply (wp_client_op (Op_readlink ino)); [reflexivity|done|done|].
    intros [ret data] s' A' Hs Hr'. cbn [fst snd] in Hs. destruct (Z.eqb_spec ret OK) as [->|Hne].
    + eapply wp_answer; [by apply fs_readlink|done].
    + eapply wp_answer; [by eapply fs_readlink_refused|done].
  - eapply wp_answer; [by apply fs_statfs|done].
Qed.

(** ** Sessions *)

(** Every request is allowed in the state in which it comes. *)
Fixpoint session_allowed (reqs : list request) (s : S) : Prop :=
  match reqs with
  | [] => True
  | r :: reqs =>
      request_allowed s r /\
      forall rs s', dispatch r s = Ok (rs, s') -> session_allowed reqs s'
  end.
End refinement.

(** The operation table called for one request after the other. *)
Fixpoint deliver {S} (op : request -> M S (list reply)) (reqs : list request) : M S (list (list reply)) :=
  match reqs with
  | [] => mret []
  | r :: reqs => rs ← op r; rest ← deliver op reqs; mret (rs :: rest)
  end.

Section sessions.
Context {S : Type} `{EL : ExtentLaws S}.
Context (junk : Z -> Z) (ino0 : Z).
Context (dirent_size : Z -> Z) (add_dirent : bytes -> Z -> Z -> bytes).
Hypothesis add_dirent_size : forall name ino next, len (add_dirent name ino next) = dirent_size (len name).
#[local] Abbreviation dispatch := (fuse.dispatch junk ino0 dirent_size add_dirent).

Lemma wp_session reqs A s :
  represents s A -> session_allowed junk ino0 dirent_size add_dirent reqs s ->
  wp (deliver dispatch reqs) (fun out s' => exists A',
    fuse_run ino0 dirent_size add_dirent A reqs out A' /\ represents s' A') s.
Proof.
  revert A s. induction reqs as [|r reqs IH]; intros A s Hr Ha; cbn [deliver].
  { apply wp_ret. exists A. split; [constructor|done]. }
  destruct Ha as [Hreq Hrest].
  pose proof (wp_dispatch_tree junk ino0 dirent_size add_dirent add_dirent_size r A s Hr Hreq) as Hd.
  apply wp_run in Hd as (rs & s1 & Hrun & p & A1 & -> & Hs & Hr1).
  wp_step. eapply wp_of_run; [exact Hrun|]. eapply wp_call; [apply (IH A1); [done|by eapply Hrest]|].
  intros out s2 (A2 & H2 & Hr2). apply wp_ret. exists A2. split; [by econstructor|done].
Qed.

(** The replies of a run are of the type of their requests. *)
Lemma fuse_step_reply A r p A' :
  fuse_step ino0 dirent_size add_dirent A r p A' -> is_reply r p = true.
Proof.
  assert (forall ret, (make_errno ret =? EEXIST) || (make_errno ret =? ENOENT) = true) as Hmake
    by (intros ret; unfold make_errno; by destruct (ret =? EXIST)).
  destruct 1 as [? ? (? & ? & ? & ->)|? ? ? ? ? ? ? (? & ? & ? & ->)| | | |r ? ? ? ? ? Hm|r ? ? ? ? ? Hm| | | | | |
    ? ? ret| | |]; cbn [is_reply]; try done.
  - apply Z.eqb_eq. by destruct (A !! _) as [[]|].
  - apply Z.eqb_eq. by destruct (A' !! _) as [[]|].
  - by destruct r; simplify_eq/=.
  - destruct r; simplify_eq/=; apply Hmake.
  - unfold fuse.reply_buf_limited. by destruct (u64 _ <? _).
  - unfold unlink_errno. by destruct (ret =? OK), (ret =? NOENT).
  - apply bool_decide_eq_true, until_nul_clean.
Qed.

Lemma fuse_run_answered A reqs out A' :
  fuse_run ino0 dirent_size add_dirent A reqs out A' -> Forall2 answered reqs out.
Proof. induction 1; constructor; [by eapply fuse_step_reply|done]. Qed.

(** A session keeps the tree a tree. *)
Lemma fuse_run_ok A reqs out A' :
  fuse_run ino0 dirent_size add_dirent A reqs out A' -> tree_ok A -> tree_ok A'.
Proof.
  induction 1 as [|A r p A1 reqs out A2 Hs _ IH]; intros Ht; [done|]. apply IH.
  destruct Hs; first [done | by eapply tree_step_ok].
Qed.
End sessions.

(** C5 The FUSE server refines the abstract file system: over any storage with the
    laws of the extent protocol, every session of allowed requests runs to its end,
    and its replies are those of a run of the abstract map, which the state it ends
    in represents. *)
Theorem fuse_refines_tree {S : Type} `{EL : ExtentLaws S} (junk : Z -> Z) ino0
    (dirent_size : Z -> Z) (add_dirent : bytes -> Z -> Z -> bytes) s A reqs :
  (forall name ino next, len (add_dirent name ino next) = dirent_size (len name)) ->
  represents s A -> session_allowed junk ino0 dirent_size add_dirent reqs s ->
  exists out s' A',
    deliver (fuse.dispatch junk ino0 dirent_size add_dirent) reqs s = Ok (out, s') /\
    fuse_run ino0 dirent_size add_dirent A reqs out A' /\ represents s' A'.
Proof.
  intros Hsize Hr Ha. pose proof (wp_session junk ino0 dirent_size add_dirent Hsize reqs A s Hr Ha) as Hw.
  apply wp_run in Hw as (out & s' & Hrun & A' & H1 & H2). by exists out, s', A'.
Qed.

(** ** Witness *)
#[local] Existing Instance machine.
#[local] Definition size24 (n : Z) : Z := 24 + n.
#[local] Definition record24 (name : bytes) (ino next : Z) : bytes := replicate 24 NUL ++ name.

Lemma fuse_refines_tree_witness :
  exists out s' A',
    deliver (fuse.dispatch (fun _ => 0) 0 size24 record24)
      [Create 1 name_a 420; Fuse.Lookup 1 name_a; Readdir 1 4096 0; Getattr 1] booted = Ok (out, s') /\
    fuse_run 0 size24 record24 {[ 1 := Dir [] ]}
      [Create 1 name_a 420; Fuse.Lookup 1 name_a; Readdir 1 4096 0; Getattr 1] out A' /\ represents s' A'.
Proof.
  apply (fuse_refines_tree (fun _ => 0) 0 size24 record24 booted {[ 1 := Dir [] ]}
    [Create 1 name_a 420; Fuse.Lookup 1 name_a; Readdir 1 4096 0; Getattr 1]).
  - intros name ino next. unfold record24, size24. by rewrite len_app.
  - apply fresh_represents, booted_fresh.
  - cbn [session_allowed request_allowed allowed]. split; [exact booted_adding|].
    intros. split; [lia|]. intros. split; [lia|]. intros. split; [exact I|]. intros. exact I.
Defined.
