(* ===== verification/InodeTheorems.v ===== *)
(** What the inode layer does: the closed theorems about [inode_manager] and the
    extent client over it. *)
From S2P Require Import Prelude Monad Disk BlockManager Inode InodeManager FsInv WriteFile.
From S2P Require Import WriteSpec ReadFile AllocInode RemoveFile Protocol Extent DirFormat.
From S2P Require Import ChfsClient ChfsSpec ChfsOps ChfsTree ChfsReach Refinement System.
From S2P Require Import Scenarios.
From Stdlib Require Import Ascii ZArith Lia.
From stdpp Require Import base gmap numbers list.
#[local] Open Scope Z_scope.

Section theorems.
Context `{E : Env}.

(** C1 [write_file] of at most [MAX_SIZE] bytes, with room for the blocks it
    needs, returns normally; the file then holds exactly those bytes (whatever
    memory behind the buffer held), with its type kept and its three times from
    the clock; every other file is unchanged; and the blocks marked afterwards
    are exactly those marked before that were not the file's, and the file's:
    no block leaks and none is shared. *)
Theorem write_file_correct s i f buf size :
  fs_wf s -> file_at s i = Some f -> 0 <= size <= MAX_SIZE ->
  (blocks_needed (len (f_data f)) size <= nfree (bm s))%nat ->
  exists s' e, write_file i buf size s = Ok (tt, s') /\ fs_wf s' /\
    file_at s' i = Some (mk_file (f_type f) (u32 (time_at e)) (u32 (time_at (S (S e))))
                           (u32 (time_at (S e))) (load buf 0 size)) /\
    (forall j, j <> i -> file_at s' j = file_at s j) /\
    (forall c, used (bm s') c = true <->
       (used (bm s) c = true /\ ~ owns s i c) \/ owns s' i c).
Proof.
  intros Hwf (n & Hn & ->)%file_at_Some Hsize Hroom. cbn [file_of f_data f_type] in *.
  rewrite (len_content s i) in Hroom by done.
  assert (wp (write_file i buf size) (fun _ s' => exists e, fs_wf s' /\
    file_at s' i = Some (mk_file (i_type n) (u32 (time_at e)) (u32 (time_at (S (S e))))
                           (u32 (time_at (S e))) (load buf 0 size)) /\
    (forall j, j <> i -> file_at s' j = file_at s j) /\
    (forall c, used (bm s') c = true <->
       (used (bm s) c = true /\ ~ owns s i c) \/ owns s' i c)) s) as H.
  { eapply (wp_write_file i n buf size 0); [done|done|done|lia|].
    intros s' e Hs _ _ Hfile Hother Hused _ _ _. by exists e. }
  apply wp_run in H as ([] & s' & Hrun & e & H). by exists s', e.
Qed.

(** C11 [read_file] of an allocated inode returns its size and a buffer that
    starts with its contents, whatever [malloc]ed memory held; only the access
    time of that file changes, and no block changes its owner. *)
Theorem read_file_correct s i f size0 :
  fs_wf s -> file_at s i = Some f ->
  exists out s' e, read_file i size0 s = Ok ((Some out, len (f_data f)), s') /\ fs_wf s' /\
    take (Z.to_nat (len (f_data f))) out = f_data f /\
    file_at s' i = Some (mk_file (f_type f) (u32 (time_at e)) (f_mtime f) (f_ctime f) (f_data f)) /\
    (forall j, j <> i -> file_at s' j = file_at s j) /\
    (forall j c, owns s' j c <-> owns s j c) /\
    (forall c, used (bm s') c = used (bm s) c).
Proof.
  intros Hwf (n & Hn & ->)%file_at_Some. cbn [file_of f_data f_type f_mtime f_ctime].
  assert (wp (read_file i size0) (fun r s' => exists out e, r = (Some out, i_size n) /\ fs_wf s' /\
    take (Z.to_nat (i_size n)) out = content (bm s) n /\
    file_at s' i = Some (mk_file (i_type n) (u32 (time_at e)) (i_mtime n) (i_ctime n)
                           (content (bm s) n)) /\
    (forall j, j <> i -> file_at s' j = file_at s j) /\
    (forall j c, owns s' j c <-> owns s j c) /\
    (forall c, used (bm s') c = used (bm s) c)) s) as H.
  { eapply wp_read_file; [done|done|]. intros out s' e Hs _ Hout Hfile Hother Howns Hu.
    exists out, e. done. }
  apply wp_run in H as (r & s' & Hrun & out & e & -> & H). exists out, s', e.
  by rewrite (len_content s i).
Qed.

(** C15 Storing a string of at most [MAX_SIZE] bytes, for which there are free blocks, in
    a file with [extent_client::put] and fetching it with [extent_client::get] gives it
    back, NUL bytes included. *)
Theorem put_get_roundtrip s id f buf :
  fs_wf s -> file_at s (ext_id id) = Some f -> len buf <= MAX_SIZE ->
  (blocks_needed (len (f_data f)) (len buf) <= nfree (bm s))%nat ->
  exists s1 s2, extent_client.put id buf s = Ok (OK, s1) /\
    extent_client.get id s1 = Ok ((OK, buf), s2).
Proof.
  intros Hwf Hf Hlen Hroom.
  pose proof (impl_put id buf f 0 s Hwf Hf Hlen ltac:(unfold room; lia)) as H.
  apply wp_run in H as (r & s1 & Hput & -> & Hwf1 & _ & _ & t1 & t2 & t3 & Hf1).
  pose proof (impl_get id s1 Hwf1) as H. apply wp_run in H as (r & s2 & Hget & -> & _).
  exists s1, s2. split; [exact Hput|]. rewrite Hf1 in Hget. exact Hget.
Qed.

(** C13 [alloc_inode] tries the numbers in cyclic order behind the last one it
    gave out: it returns the first free one, which becomes an empty file of the
    given type with its times from the clock, or 0 when all candidates are in
    use; other files, and the blocks, do not change. *)
Theorem alloc_inode_correct s type :
  fs_wf s -> i16 type <> 0 ->
  let next := to_alloc (last_alloced s) in
  (exists i s', 1 <= i <= INODE_NUM /\ alloc_inode type s = Ok (next i, s') /\
     file_at s (next i) = None /\ (forall i', 1 <= i' < i -> file_at s (next i') <> None) /\
     fs_wf s' /\ last_alloced s' = next i /\
     file_at s' (next i) = Some (empty_file type (time_at (epoch s))) /\
     (forall j, j <> next i -> file_at s' j = file_at s j) /\
     (forall j c, owns s' j c <-> owns s j c) /\
     (forall c, used (bm s') c = used (bm s) c)) \/
  (exists s', alloc_inode type s = Ok (0, s') /\
     (forall i, 1 <= i <= INODE_NUM -> file_at s (next i) <> None) /\
     bm s' = bm s /\ last_alloced s' = last_alloced s).
Proof.
  intros Hwf Ht next.
  assert (wp (alloc_inode type) (fun r s' =>
    (exists i, 1 <= i <= INODE_NUM /\ r = next i /\
       file_at s (next i) = None /\ (forall i', 1 <= i' < i -> file_at s (next i') <> None) /\
       fs_wf s' /\ last_alloced s' = next i /\
       file_at s' (next i) = Some (empty_file type (time_at (epoch s))) /\
       (forall j, j <> next i -> file_at s' j = file_at s j) /\
       (forall j c, owns s' j c <-> owns s j c) /\
       (forall c, used (bm s') c = used (bm s) c)) \/
    (r = 0 /\ (forall i, 1 <= i <= INODE_NUM -> file_at s (next i) <> None) /\
       bm s' = bm s /\ last_alloced s' = last_alloced s)) s) as H.
  { apply wp_alloc_inode; [done|done|..].
    - intros i s' Hi k Hk Hbusy H1 H2 H3 H4 H5 H6. left. by exists i.
    - intros Hall. by right. }
  apply wp_run in H as (r & s' & Hrun & [(i & Hi & -> & H)|[-> H]]).
  - left. exists i, s'. split; [done|]. split; [done|]. exact H.
  - right. exists s'. split; [done|]. exact H.
Qed.

(** [alloc_inode] does not fail while one of the numbers 1..1023 is free
    (1024 alone may be missed). *)
Theorem alloc_inode_complete s type :
  fs_wf s -> i16 type <> 0 -> (exists j, 1 <= j < INODE_NUM /\ file_at s j = None) ->
  exists k s', alloc_inode type s = Ok (k, s') /\ 1 <= k <= INODE_NUM.
Proof.
  intros Hwf Ht (j & Hj & Hnone). pose proof (fw_last _ Hwf) as Hlast.
  assert (wp (alloc_inode type) (fun k _ => 1 <= k <= INODE_NUM) s) as H.
  { apply wp_alloc_inode; [done|done|..].
    - intros i s' Hi k _ _ _ _ _ _ _ _. by apply to_alloc_range.
    - intros Hall. destruct (to_alloc_onto (last_alloced s) j Hlast Hj) as (i & Hi & Ei).
      destruct (Hall i Hi). by rewrite Ei. }
  apply wp_run in H as (k & s' & Hrun & Hk). by exists k, s'.
Qed.

(** C22 The constructor reads [_last_alloced] before it sets it.  From a value
    [last0] of that memory it builds the file system (an empty root directory,
    nothing else, 31732 free blocks) if the first candidate is 1, that is if
    [last0] is 0 or 1 less than a positive multiple of 1024; from any other it
    exits, with status 0. *)
Theorem constructor_correct last0 :
  0 <= last0 < 2 ^ 32 ->
  if decide (last0 = 0 \/ (1023 <= last0 /\ last0 <> 2 ^ 32 - 1 /\ (last0 + 1) mod 1024 = 0))
  then exists s, inode_manager_new last0 = Ok s /\ just_booted s
  else inode_manager_new last0 = Exit 0.
Proof.
  intros Hl. pose proof (new_fresh last0 Hl) as H.
  pose proof (first_is_root last0 Hl) as Hiff.
  case_decide as Hd.
  - by rewrite (proj2 (Z.eqb_eq _ _)) in H by by apply Hiff.
  - by rewrite (proj2 (Z.eqb_neq _ _)) in H by by rewrite Hiff.
Qed.

(** C12 [remove_file] of an allocated inode makes its number free, keeps every
    other file and its blocks, and releases the direct blocks of the file and
    its indirect block. *)
Theorem remove_file_correct s i n :
  fs_wf s -> node_at s i = Some n ->
  exists s', remove_file i s = Ok (tt, s') /\ fs_wf s' /\ file_at s' i = None /\
    (forall j, j <> i -> file_at s' j = file_at s j) /\
    (forall j c, j <> i -> owns s' j c <-> owns s j c) /\
    (forall c, used (bm s') c = true <-> used (bm s) c = true /\ ~ released (bm s) n c).
Proof.
  intros Hwf Hn.
  assert (wp (remove_file i) (fun _ s' => fs_wf s' /\ file_at s' i = None /\
    (forall j, j <> i -> file_at s' j = file_at s j) /\
    (forall j c, j <> i -> owns s' j c <-> owns s j c) /\
    (forall c, used (bm s') c = true <-> used (bm s) c = true /\ ~ released (bm s) n c)) s) as H.
  { eapply wp_remove_file; [done|done|]. intros s' H1 _ H2 H3 H4 H5. done. }
  apply wp_run in H as ([] & s' & Hrun & H). by exists s'.
Qed.

(** Removing a file of more than 100 blocks leaks: afterwards there is a
    marked block that no file owns. *)
Theorem remove_file_leaks s i f :
  fs_wf s -> file_at s i = Some f -> 51200 < len (f_data f) ->
  exists s' c, remove_file i s = Ok (tt, s') /\ file_at s' i = None /\
    used (bm s') c = true /\ forall j, ~ owns s' j c.
Proof.
  intros Hwf (n & Hn & ->)%file_at_Some Hlen. cbn [file_of f_data] in Hlen.
  rewrite (len_content s i) in Hlen by done. pose proof (fw_node _ Hwf _ _ Hn) as Hnw.
  pose proof (proj1 (nb_le_iff (i_size n) 100)) as Hnb1.
  pose proof (proj2 (nb_le_iff (i_size n) 100)) as Hnb2.
  assert (slot (bm s) n 100 <> 0) as Hnz by (apply (nw_full _ _ Hnw); lia).
  assert (~ released (bm s) n (slot (bm s) n 100)) as Hrel.
  { intros [(j & Hj & Ej)|[_ Ej]].
    - assert (j = 100); [|lia]. apply (nw_inj _ _ Hnw); [lia|lia|congruence|done].
    - by apply (nw_ind_ne _ _ Hnw 100) in Ej. }
  pose proof (wp_remove_file_leaks i n _ s Hwf Hn (owned_slot _ _ 100 ltac:(lia) Hnz) Hrel) as H.
  apply wp_run in H as ([] & s' & Hrun & Hnone & Hu & Ho). by exists s', (slot (bm s) n 100).
Qed.

(** Removing a file of 1 to 100 blocks leaks nothing: exactly its blocks
    are released. *)
Theorem remove_file_releases s i f :
  fs_wf s -> file_at s i = Some f -> 0 < len (f_data f) <= 51200 ->
  exists s', remove_file i s = Ok (tt, s') /\
    forall c, used (bm s') c = true <-> used (bm s) c = true /\ ~ owns s i c.
Proof.
  intros Hwf (n & Hn & ->)%file_at_Some Hlen. cbn [file_of f_data] in Hlen.
  rewrite (len_content s i) in Hlen by done. pose proof (fw_node _ Hwf _ _ Hn) as Hnw.
  pose proof (proj1 (nb_le_iff (i_size n) 100)) as Hnb. pose proof (nb_pos (i_size n)) as Hpos.
  assert (forall c, owns s i c <-> released (bm s) n c) as Ho.
  { intros c. transitivity (owned (bm s) n c).
    { unfold owns. rewrite Hn. split; [by intros (m & [= <-] & Hm)|eauto]. }
    split; [|by apply released_owned]. intros [Hc [->|(j & Hj & <-)]].
    - destruct Hc. apply (nw_ind _ _ Hnw). lia.
    - left. exists j. split; [|done]. destruct (decide (j < nb (i_size n))); [lia|].
      destruct Hc. apply (nw_hole _ _ Hnw). lia. }
  assert (wp (remove_file i) (fun _ s' => forall c, used (bm s') c = true <->
    used (bm s) c = true /\ ~ owns s i c) s) as H.
  { eapply wp_remove_file; [done|exact Hn|]. intros s' _ _ _ _ _ Hu c. by rewrite Ho, Hu. }
  apply wp_run in H as ([] & s' & Hrun & H). by exists s'.
Qed.

(** [free_inode] frees the number alone: the file is gone, other files and
    all marks of blocks stay; a number that is free, or out of range, is left
    as it is. *)
Theorem free_inode_correct s i :
  fs_wf s -> 0 <= i ->
  exists s', free_inode i s = Ok (tt, s') /\ fs_wf s' /\ file_at s' i = None /\
    (forall j, j <> i -> file_at s' j = file_at s j) /\
    (forall c, used (bm s') c = used (bm s) c) /\
    (file_at s i = None -> s' = s).
Proof.
  intros Hwf Hi. pose proof (fw_bm _ Hwf) as Hb.
  assert (wp (free_inode i) (fun _ s' => fs_wf s' /\ file_at s' i = None /\
    (forall j, j <> i -> file_at s' j = file_at s j) /\
    (forall c, used (bm s') c = used (bm s) c) /\ (file_at s i = None -> s' = s)) s) as H.
  { apply wp_free_inode; [done|done|..].
    - intros Hsome. assert (0 < i <= INODE_NUM) as Hr.
      { destruct (node_at s i) as [n|] eqn:En; [|done].
        pose proof (proj1 (node_at_Some _ _ _) En) as (Hi' & _).
        destruct (decide (i = 0)) as [->|]; [by rewrite (fw_zero _ Hwf) in En|lia]. }
      destruct (clear_spec s i (bm s) (epoch s) Hwf Hr Hb) as (H1 & H2 & H3 & _); [done|done|].
      split; [exact H1|]. split; [exact H2|]. split; [exact H3|]. split; [done|].
      intros Hnone. by apply file_at_None in Hnone.
    - intros Hnone. split; [done|]. split; [by apply file_at_None|]. done. }
  apply wp_run in H as ([] & s' & Hrun & H). by exists s'.
Qed.

(** [get_attr] reports the type, the times and the size of an allocated
    inode, leaves the caller's struct alone otherwise, and changes nothing. *)
Theorem get_attr_correct s i a :
  fs_wf s -> 0 <= i ->
  get_attr i a s =
    Ok (match file_at s i with
        | Some f => mk_attr (u32 (f_type f)) (f_atime f) (f_mtime f) (f_ctime f) (len (f_data f))
        | None => a
        end, s).
Proof.
  intros Hwf Hi.
  assert (wp (get_attr i a) (fun r s' => s' = s /\ r = match file_at s i with
    | Some f => mk_attr (u32 (f_type f)) (f_atime f) (f_mtime f) (f_ctime f) (len (f_data f))
    | None => a end) s) as H.
  { apply wp_get_attr; [apply Hwf|done|]. split; [done|]. unfold file_at.
    destruct (node_at s i) as [n|] eqn:En; [|done]. cbn. by rewrite (len_content s i). }
  apply wp_run in H as (r & s' & Hrun & -> & ->). done.
Qed.

(** Writing to a number that is not in use is reported as a success and
    stores nothing. *)
Theorem put_missing_succeeds s id buf :
  fs_wf s -> file_at s (ext_id id) = None ->
  exists s', extent_client.put id buf s = Ok (OK, s') /\ fs_wf s' /\
    forall j, file_at s' j = file_at s j.
Proof.
  intros Hwf Hnone. pose proof (impl_put_none id buf s Hwf Hnone) as H.
  apply wp_run in H as (r & s' & Hrun & -> & Hwf' & _ & Hsame). by exists s'.
Qed.

(** C3 The extent client refines the abstract table of files for the calls that fit: in
    a well-formed state such a call returns, keeps the state well formed, and its answer
    and effect are those of one abstract step.  A [create] fits with a type of 16 bits
    that is not 0, a [put] with at most [MAX_SIZE] bytes for which there are free blocks,
    every other call always; Oversize.v and DiskFull.v say what other puts do. *)
Theorem extent_client_refines s c :
  fs_wf s -> fits (S:=inode_manager) s c ->
  exists r s', run_call c s = Ok (r, s') /\ fs_wf s' /\
    abs_step (view (S:=inode_manager) s) c r (view (S:=inode_manager) s').
Proof.
  intros Hwf Hfit. pose proof (wp_run_call (S:=inode_manager) c s Hwf Hfit) as H.
  apply wp_run in H as (r & s' & Hrun & Hwf' & Hstep). by exists r, s'.
Qed.
End theorems.
(** ** Witnesses *)
#[local] Existing Instance machine.

Lemma write_file_correct_witness :
  exists s', write_file 1 letters 60000 booted = Ok (tt, s') /\
    f_data <$> file_at s' 1 = Some (load letters 0 60000).
Proof.
  destruct (write_file_correct booted 1 (empty_file T_DIR 1000) letters 60000)
    as (s' & e & H & _ & Hf & _).
  - exact booted_wf.
  - exact booted_root.
  - unfold MAX_SIZE. lia.
  - exact (booted_room 119 ltac:(lia)).
  - exists s'. split; [exact H|]. by rewrite Hf.
Defined.

Lemma read_file_correct_witness :
  exists out s', read_file 1 0 booted = Ok ((Some out, 0), s').
Proof.
  destruct (read_file_correct booted 1 (empty_file T_DIR 1000) 0) as (out & s' & e & H & _);
    [exact booted_wf|exact booted_root|]. exists out, s'. exact H.
Defined.

Lemma put_get_roundtrip_witness :
  exists s1 s2, extent_client.put 1 [NUL; byte_of_Z 65; NUL] booted = Ok (OK, s1) /\
    extent_client.get 1 s1 = Ok ((OK, [NUL; byte_of_Z 65; NUL]), s2).
Proof.
  apply (put_get_roundtrip booted 1 (empty_file T_DIR 1000) [NUL; byte_of_Z 65; NUL]).
  - exact booted_wf.
  - exact booted_root.
  - unfold len, MAX_SIZE. simpl. lia.
  - exact (booted_room 1 ltac:(lia)).
Defined.

Lemma alloc_inode_correct_witness :
  exists k s', alloc_inode T_FILE booted = Ok (k, s').
Proof.
  destruct (alloc_inode_correct booted T_FILE) as [(i & s' & _ & H & _)|(s' & H & _)];
    [exact booted_wf|done|by eexists _, s'|by eexists _, s'].
Defined.

Lemma constructor_correct_witness :
  exists s, inode_manager_new 1023 = Ok s /\ just_booted s.
Proof. exact (constructor_correct 1023 ltac:(lia)). Defined.

Lemma remove_file_correct_witness :
  exists s', remove_file 1 booted = Ok (tt, s') /\ file_at s' 1 = None.
Proof.
  destruct (proj1 (file_at_Some _ _ _) booted_root) as (n & Hn & _).
  destruct (remove_file_correct booted 1 n) as (s' & H & _ & Hnone & _); [exact booted_wf|exact Hn|].
  exists s'. split; [exact H|exact Hnone].
Defined.

Lemma extent_client_refines_witness :
  exists r s', run_call (Call_create T_FILE) booted = Ok (r, s') /\ fs_wf s'.
Proof.
  destruct (extent_client_refines booted (Call_create T_FILE)) as (r & s' & H & Hwf & _);
    [exact booted_wf|done|]. exists r, s'. split; [exact H|exact Hwf].
Defined.
