(* ===== verification/ChfsTheorems.v ===== *)
(** What the file-system layer does: the closed theorems about [chfs_client],
    its directory format, and the states reachable through it.

    The theorems hold over every storage that satisfies the laws of Protocol.v;
    the witnesses run them on the booted file system. *)
From S2P Require Import Prelude Monad Disk BlockManager Inode InodeManager FsInv WriteFile.
From S2P Require Import WriteSpec ReadFile AllocInode RemoveFile Protocol Extent DirFormat.
From S2P Require Import ChfsClient ChfsSpec ChfsOps ChfsTree ChfsReach Refinement System.
From S2P Require Import Scenarios.
From Stdlib Require Import Ascii ZArith Lia.
From stdpp Require Import base gmap numbers list.
#[local] Open Scope Z_scope.

(** ** The directory format *)

(** [n2i] reads back what [filename] prints, for every 64-bit number and
    whatever the uninitialised variable held. *)
Theorem n2i_filename_roundtrip junk i : 0 <= i < 2 ^ 64 -> n2i junk (filename i) = i.
Proof. apply n2i_filename. Qed.

(** C19 Parsing a directory text returns exactly the entries it was printed from,
    in order, if no name has a slash. *)
Theorem parse_print_directory junk l :
  Forall entry_ok l -> len (dir_text l) < 2 ^ 31 -> parse_dir junk (dir_text l) = Some (OK, l).
Proof. apply parse_dir_text. Qed.

Lemma parse_print_directory_witness :
  parse_dir (fun _ => 0) (dir_text [mk_dirent [byte_of_Z 97] 12]) =
    Some (OK, [mk_dirent [byte_of_Z 97] 12]).
Proof.
  apply (parse_print_directory (fun _ => 0) [mk_dirent [byte_of_Z 97] 12]).
  - constructor; [|constructor]. split; cbn; [lia|].
    intros H%list_elem_of_singleton. discriminate.
  - unfold len. vm_compute. reflexivity.
Defined.

(** C40 The parsing loop ends on every text shorter than 2^31, well formed or
    not, and reports [OK] or [IOERR]. *)
Theorem parse_dir_terminates junk buf :
  len buf < 2 ^ 31 -> exists st l, parse_dir junk buf = Some (st, l) /\ (st = OK \/ st = IOERR).
Proof.
  intros Hlen. unfold parse_dir. rewrite i32_id by (unfold len in *; lia).
  pose proof (parse_loop_total junk (S (length buf)) buf 0 [] Hlen ltac:(lia) ltac:(unfold len; lia)) as H.
  destruct (parse_loop _ _ _ _ _ _) as [[st l]|] eqn:E; [|done]. exists st, l. split; [done|].
  by eapply parse_loop_status.
Qed.

Lemma parse_dir_terminates_witness :
  exists st l, parse_dir (fun _ => 0) [SLASH; SLASH; SLASH] = Some (st, l) /\ (st = OK \/ st = IOERR).
Proof. apply (parse_dir_terminates (fun _ => 0) [SLASH; SLASH; SLASH]). reflexivity. Defined.

Section theorems.
Context {S : Type} `{EL : ExtentLaws S}.
Context (junk : Z -> Z).

(** C9 [create] of a new name in a directory, with room for the entry and a
    free inode number, returns a number that was free and now holds an empty
    regular file; the directory has one entry more, at the end; a following
    [lookup] finds it; nothing else changes. *)
Theorem create_correct s d l name mode ino0 :
  ext_wf s -> dir_at s d l -> SLASH ∉ name -> name ∉ names l -> entry_room s l name 0 ->
  free_inode_number s ->
  exists k s1 s2, chfs_client.create junk d name mode ino0 s = Ok ((OK, k), s1) /\
    view s k = None /\ view s1 k = Some (T_FILE, []) /\ dir_at s1 d (l ++ [mk_dirent name k]) /\
    (forall j, j <> d -> j <> k -> view s1 j = view s j) /\
    chfs_client.lookup junk d name false ino0 s1 = Ok ((OK, true, k), s2) /\ quiet s1 s2.
Proof.
  intros Hwf Hd Hname Hnew Hroom (j & Hj & Hjn).
  assert (wp (chfs_client.create junk d name mode ino0) (fun r s1 => exists k, r = (OK, k) /\
    ext_wf s1 /\ view s k = None /\ view s1 k = Some (T_FILE, []) /\
    dir_at s1 d (l ++ [mk_dirent name k]) /\
    (forall j, j <> d -> j <> k -> view s1 j = view s j)) s) as Hc.
  { unfold chfs_client.create. wp_step. eapply wp_check_is_dir; [done|exact Hd|].
    cbn [negb Z.eqb OK]. eapply wp_create_entry; [done|exact Hd|done|done|exact Hroom|done|done|..].
    - intros k s' _ Hk Hwf' _ Hd' Hv' Hother. by exists k.
    - intros Hall. by destruct (Hall j Hj). }
  apply wp_run in Hc as (r & s1 & Hrun & k & -> & Hwf1 & Hk & Hv1 & Hd1 & Hother).
  assert (wp (chfs_client.lookup junk d name false ino0)
    (fun r s2 => r = (OK, true, k) /\ quiet s1 s2) s1) as Hl.
  { eapply wp_lookup; [done|exact Hd1|]. intros s' Hq. by rewrite find_entry_snoc. }
  apply wp_run in Hl as (r & s2 & Hlook & -> & Hq). exists k, s1, s2. done.
Qed.

(** C37 With every inode number in use, [create] still reports a success: the
    directory gets an entry whose inode number is 0, and no inode is made. *)
Theorem create_full_table s d l name mode ino0 :
  ext_wf s -> dir_at s d l -> SLASH ∉ name -> name ∉ names l -> entry_room s l name 0 ->
  (forall j, 1 <= j <= INODE_NUM -> view s j <> None) ->
  exists s', chfs_client.create junk d name mode ino0 s = Ok ((OK, 0), s') /\
    dir_at s' d (l ++ [mk_dirent name 0]) /\ forall j, j <> d -> view s' j = view s j.
Proof.
  intros Hwf Hd Hname Hnew Hroom Hall.
  assert (wp (chfs_client.create junk d name mode ino0) (fun r s' => r = (OK, 0) /\
    dir_at s' d (l ++ [mk_dirent name 0]) /\ forall j, j <> d -> view s' j = view s j) s) as Hc.
  { unfold chfs_client.create. wp_step. eapply wp_check_is_dir; [done|exact Hd|].
    cbn [negb Z.eqb OK]. eapply wp_create_entry; [done|exact Hd|done|done|exact Hroom|done|done|..].
    - intros k s' Hk Hnone. by destruct (Hall k Hk).
    - done. }
  apply wp_run in Hc as (r & s' & Hrun & -> & H'). by exists s'.
Qed.

(** [mkdir] makes an empty directory under the same conditions, and refuses
    the names "." and "..". *)
Theorem mkdir_correct s d l name mode ino0 :
  ext_wf s -> dir_at s d l -> SLASH ∉ name -> name ∉ names l -> entry_room s l name 0 ->
  free_inode_number s ->
  if decide (name = [DOT] \/ name = [DOT; DOT])
  then chfs_client.mkdir junk d name mode ino0 s = Ok ((IOERR, ino0), s)
  else exists k s', chfs_client.mkdir junk d name mode ino0 s = Ok ((OK, k), s') /\
    view s k = None /\ dir_at s' k [] /\ dir_at s' d (l ++ [mk_dirent name k]) /\
    (forall j, j <> d -> j <> k -> view s' j = view s j).
Proof.
  intros Hwf Hd Hname Hnew Hroom (j & Hj & Hjn). unfold chfs_client.mkdir.
  pose proof (wp_check_is_dir d l s (fun r s' => r = OK /\ s' = s) Hwf Hd ltac:(done)) as Hc.
  apply wp_run in Hc as (r & s' & Hrun & -> & ->). rewrite (bind_Ok _ _ _ _ _ Hrun).
  cbn [negb Z.eqb OK]. case_decide; [done|].
  assert (wp (chfs_client.create_entry junk T_DIR d name ino0) (fun r s' => exists k, r = (OK, k) /\
    view s k = None /\ dir_at s' k [] /\ dir_at s' d (l ++ [mk_dirent name k]) /\
    (forall j, j <> d -> j <> k -> view s' j = view s j)) s) as Hw.
  { eapply wp_create_entry; [done|exact Hd|done|done|exact Hroom|done|done|..].
    - intros k s' _ Hk Hwf' _ Hd' Hv' Hother. exists k. split; [done|]. split; [done|].
      split; [by split; [|constructor]|]. done.
    - intros Hall. by destruct (Hall j Hj). }
  apply wp_run in Hw as (r & s' & Hrun' & k & -> & H'). by exists k, s'.
Qed.

(** A name that exists is reported with [EXIST] and its number, by [create],
    [mkdir] and [create_symbolic_link] alike, and nothing changes. *)
Theorem existing_name s d l name path mode ino0 k :
  ext_wf s -> dir_at s d l -> find_entry name l = Some k -> name <> [DOT] -> name <> [DOT; DOT] ->
  (exists s', chfs_client.create junk d name mode ino0 s = Ok ((EXIST, k), s') /\ quiet s s') /\
  (exists s', chfs_client.mkdir junk d name mode ino0 s = Ok ((EXIST, k), s') /\ quiet s s') /\
  (exists s', chfs_client.create_symbolic_link junk d path name ino0 s = Ok ((EXIST, k), s') /\
     quiet s s').
Proof.
  intros Hwf Hd Hf Hn1 Hn2.
  pose proof (wp_check_is_dir d l s (fun r s' => r = OK /\ s' = s) Hwf Hd ltac:(done)) as Hc.
  apply wp_run in Hc as (r & s0 & Hrun & -> & ->).
  assert (forall type, exists s', chfs_client.create_entry junk type d name ino0 s = Ok ((EXIST, k), s') /\
    quiet s s') as He.
  { intros type. assert (wp (chfs_client.create_entry junk type d name ino0)
      (fun r s' => r = (EXIST, k) /\ quiet s s') s) as Hw by by eapply wp_create_exists.
    apply wp_run in Hw as (r & s' & Hr & -> & Hq). by exists s'. }
  split; [|split].
  - unfold chfs_client.create. rewrite (bind_Ok _ _ _ _ _ Hrun). apply He.
  - unfold chfs_client.mkdir. rewrite (bind_Ok _ _ _ _ _ Hrun). cbn [negb Z.eqb OK].
    rewrite decide_False by (intros [?|?]; done). apply He.
  - assert (wp (chfs_client.create_symbolic_link junk d path name ino0)
      (fun r s' => r = (EXIST, k) /\ quiet s s') s) as Hw.
    { unfold chfs_client.create_symbolic_link. wp_step. eapply wp_check_is_dir; [done|exact Hd|].
      ok_step. eapply wp_lookup; [done|exact Hd|]. intros s1 Hq. rewrite Hf. by ok_step. }
    apply wp_run in Hw as (r & s' & Hr & -> & Hq). by exists s'.
Qed.

(** In something that is not a directory, or does not exist, no name can be
    created, looked up, listed or removed: the answer is [IOERR] and nothing
    changes. *)
Theorem not_a_directory s d name path mode found ino0 :
  ext_wf s -> type_is s T_DIR (ext_id d) = false ->
  chfs_client.create junk d name mode ino0 s = Ok ((IOERR, ino0), s) /\
  chfs_client.mkdir junk d name mode ino0 s = Ok ((IOERR, ino0), s) /\
  chfs_client.create_symbolic_link junk d path name ino0 s = Ok ((IOERR, ino0), s) /\
  chfs_client.lookup junk d name found ino0 s = Ok ((IOERR, found, ino0), s) /\
  chfs_client.readdir junk d [] s = Ok ((IOERR, []), s) /\
  chfs_client.unlink junk d name s = Ok (IOERR, s).
Proof.
  intros Hwf Hd.
  assert (chfs_client.check_dir_inode d s = Ok (IOERR, s)) as Hc.
  { assert (wp (chfs_client.check_dir_inode d) (fun r s' => r = IOERR /\ s' = s) s) as Hw
      by (apply wp_check_dir; [done|]; by rewrite Hd).
    apply wp_run in Hw as (r & s' & Hr & -> & ->). done. }
  unfold chfs_client.create, chfs_client.mkdir, chfs_client.create_symbolic_link,
    chfs_client.lookup, chfs_client.readdir, chfs_client.unlink.
  by rewrite !(bind_Ok _ _ _ _ _ Hc).
Qed.

(** C10 [unlink] of a regular file frees its inode and removes its name from
    the directory, keeping the other entries and their order; nothing else
    changes, and no block becomes scarcer. *)
Theorem unlink_correct s d l name k data :
  ext_wf s -> dir_at s d l -> find_entry name l = Some k -> view s k = Some (T_FILE, data) ->
  exists s', chfs_client.unlink junk d name s = Ok (OK, s') /\ ext_wf s' /\ view s' k = None /\
    dir_at s' d (filter (fun e => d_name e <> name) l) /\
    (forall j, j <> d -> j <> k -> view s' j = view s j) /\ (ext_room s <= ext_room s')%nat.
Proof.
  intros Hwf Hd Hf Hk.
  assert (wp (chfs_client.unlink junk d name) (fun r s' => r = OK /\ ext_wf s' /\ view s' k = None /\
    dir_at s' d (filter (fun e => d_name e <> name) l) /\
    (forall j, j <> d -> j <> k -> view s' j = view s j) /\ (ext_room s <= ext_room s')%nat) s) as Hw
    by by eapply wp_unlink.
  apply wp_run in Hw as (r & s' & Hrun & -> & H'). by exists s'.
Qed.

(** C39 [unlink] fails with [NOENT] for a missing name, and with [IOERR] for a
    directory and for a symbolic link; nothing changes. *)
Theorem unlink_refuses s d l name :
  ext_wf s -> dir_at s d l ->
  (forall k, find_entry name l = Some k -> type_is s T_FILE (ext_id k) = false) ->
  exists s', chfs_client.unlink junk d name s =
    Ok (match find_entry name l with Some _ => IOERR | None => NOENT end, s') /\ quiet s s'.
Proof.
  intros Hwf Hd Hf.
  assert (wp (chfs_client.unlink junk d name)
    (fun r s' => r = match find_entry name l with Some _ => IOERR | None => NOENT end /\ quiet s s') s)
    as Hw by by eapply wp_unlink_fails.
  apply wp_run in Hw as (r & s' & Hrun & -> & Hq). by exists s'.
Qed.

(** [read] returns the bytes of the file from [off], as many as there are up
    to [size] (none behind the end), and changes nothing. *)
Theorem read_correct s i t d size off :
  ext_wf s -> view s i = Some (t, d) -> 0 <= off -> 0 <= size -> off + size < 2 ^ 63 ->
  exists s', chfs_client.read i size off [] s = Ok ((OK, slice off size d), s') /\ quiet s s'.
Proof.
  intros Hwf Hv Ho Hs Hsum.
  assert (wp (chfs_client.read i size off [])
    (fun r s' => r = (OK, slice off size d) /\ quiet s s') s) as Hw by by eapply wp_read.
  apply wp_run in Hw as (r & s' & Hrun & -> & Hq). by exists s'.
Qed.

(** C8 [write] that ends within [MAX_SIZE], with free blocks for what it adds, replaces
    the bytes at [off], extends the file where the write
    goes behind its end, fills a gap before [off] with NUL bytes, keeps every
    other byte and every other file; reading the range back gives the bytes
    written. *)
Theorem write_read_correct s i t d size off p :
  ext_wf s -> view s i = Some (t, d) -> 0 <= off -> 0 <= size -> off + size <= MAX_SIZE ->
  (blocks_needed (len d) (Z.max (len d) (off + size)) <= ext_room s)%nat ->
  exists s1 s2, chfs_client.write i size off p 0 s = Ok ((OK, size), s1) /\
    view s1 i = Some (t, overwrite off (load p 0 size) d) /\
    (forall j, j <> i -> view s1 j = view s j) /\
    chfs_client.read i size off [] s1 = Ok ((OK, load p 0 size), s2).
Proof.
  intros Hwf Hv Ho Hs Hsum Hroom.
  assert (wp (chfs_client.write i size off p 0) (fun r s' => r = (OK, size) /\ ext_wf s' /\
    view s' i = Some (t, overwrite off (load p 0 size) d) /\
    (forall j, j <> i -> view s' j = view s j)) s) as Hw.
  { eapply (wp_write i t d size off p 0 0); [done|exact Hv|done|done|done|lia|]. done. }
  apply wp_run in Hw as (r & s1 & Hrun & -> & Hwf1 & Hv1 & Hother).
  assert (wp (chfs_client.read i size off [])
    (fun r s' => r = (OK, slice off size (overwrite off (load p 0 size) d)) /\ quiet s1 s') s1) as Hr.
  { eapply wp_read; [done|exact Hv1|done|done|unfold MAX_SIZE in Hsum; lia|done]. }
  apply wp_run in Hr as (r & s2 & Hread & -> & _). exists s1, s2. split; [done|]. split; [done|].
  split; [done|]. rewrite Hread. do 3 f_equal.
  assert (len (load p 0 size) = size) as Hl by (unfold len; rewrite length_load; lia).
  rewrite <- Hl at 1. by apply slice_overwrite.
Qed.

(** C38 [setattr] to a smaller size cuts the file; to a larger one it leaves
    the contents as they are, and reports a success. *)
Theorem setattr_correct s i t d size :
  ext_wf s -> view s i = Some (t, d) -> 0 <= size ->
  exists s', chfs_client.setattr i size s = Ok (OK, s') /\
    view s' i = Some (t, if decide (size < len d) then take (Z.to_nat size) d else d) /\
    (forall j, j <> i -> view s' j = view s j).
Proof.
  intros Hwf Hv Hs.
  assert (wp (chfs_client.setattr i size) (fun r s' => r = OK /\
    view s' i = Some (t, if decide (size < len d) then take (Z.to_nat size) d else d) /\
    (forall j, j <> i -> view s' j = view s j)) s) as Hw.
  { eapply wp_setattr; [done|exact Hv|done|]. intros s' _ _ Hv' Hother. split; [done|].
    split; [|done]. rewrite Hv'. do 2 f_equal. case_decide; [done|].
    rewrite take_ge; [done|unfold len in *; lia]. }
  apply wp_run in Hw as (r & s' & Hrun & -> & H'). by exists s'.
Qed.

(** A symbolic link made by [create_symbolic_link] reads back, through
    [parse_symbolic_link], as the path it was given. *)
Theorem symlink_readlink s d l path name ino0 buf :
  ext_wf s -> dir_at s d l -> SLASH ∉ name -> name ∉ names l -> len path <= MAX_SIZE ->
  entry_room s l name (blocks_needed 0 (len path)) -> free_inode_number s ->
  exists k s1 s2, chfs_client.create_symbolic_link junk d path name ino0 s = Ok ((OK, k), s1) /\
    dir_at s1 d (l ++ [mk_dirent name k]) /\ view s1 k = Some (T_SYMBOLIC, path) /\
    chfs_client.parse_symbolic_link buf k s1 = Ok ((OK, path), s2).
Proof.
  intros Hwf Hd Hname Hnew Hlen Hroom Hfree.
  assert (wp (chfs_client.create_symbolic_link junk d path name ino0) (fun r s1 => exists k,
    r = (OK, k) /\ ext_wf s1 /\ dir_at s1 d (l ++ [mk_dirent name k]) /\
    view s1 k = Some (T_SYMBOLIC, path)) s) as Hw.
  { eapply (wp_symlink junk d l path name ino0 0); [done|exact Hd|done|done|done| |exact Hfree|].
    - by rewrite Nat.add_0_r.
    - intros k s' _ _ Hwf' _ Hd' Hv' _. by exists k. }
  apply wp_run in Hw as (r & s1 & Hrun & k & -> & Hwf1 & Hd1 & Hv1).
  assert (wp (chfs_client.parse_symbolic_link buf k)
    (fun r s2 => r = (OK, path)) s1) as Hr by by eapply wp_readlink.
  apply wp_run in Hr as (r & s2 & Hread & ->). by exists k, s1, s2.
Qed.

(** C2 Safety and progress: in every state reachable by allowed operations from a state
    in which the tree invariant holds, it holds, and every allowed operation returns (no
    assertion fails, no memory is misused, no loop runs forever).  Allowed ([allowed])
    are: adding a name without a slash, with a free inode number and room (within
    [MAX_SIZE] and with free blocks) for the entry and for the path of a link; writes
    that end within [MAX_SIZE], with free blocks, and [setattr] of numbers in use that are
    no directories; reads of numbers in use; everything else with a number below 2^31.
    An operation that is not allowed can break the invariant: see [create_full_table]. *)
Theorem reachable_safe s0 s :
  tree_wf s0 -> reachable junk s0 s ->
  tree_wf s /\ forall o, allowed s o -> exists r s', exec junk o s = Ok (r, s') /\ tree_wf s'.
Proof.
  intros H0 Hr. pose proof (reachable_tree junk s0 s H0 Hr) as Ht. split; [done|].
  intros o Ha. pose proof (wp_exec junk o s Ht Ha) as Hw.
  apply wp_run in Hw as (r & s' & Hrun & H'). by exists r, s'.
Qed.
End theorems.

(** ** Witnesses *)
#[local] Existing Instance machine.
#[local] Abbreviation no_junk := (fun _ : Z => 0).

Lemma create_correct_witness :
  exists k s1 s2, chfs_client.create no_junk 1 name_a 420 0 booted = Ok ((OK, k), s1) /\
    chfs_client.lookup no_junk 1 name_a false 0 s1 = Ok ((OK, true, k), s2).
Proof.
  destruct (create_correct no_junk booted 1 [] name_a 420 0) as (k & s1 & s2 & H1 & _ & _ & _ & _ & H2 & _).
  - exact booted_wf.
  - exact booted_dir.
  - exact name_a_ok.
  - by intros ?%not_elem_of_nil.
  - destruct booted_entry_room as [Ha Hb]. split; [exact Ha|lia].
  - exact booted_free.
  - exists k, s1, s2. split; [exact H1|exact H2].
Defined.

Lemma create_full_table_witness :
  exists s s', chfs_client.create no_junk 1 name_a 420 0 s = Ok ((OK, 0), s').
Proof.
  destruct full_table as (s & Hwf & Hroot & Hin & _ & Hroom).
  destruct (create_full_table no_junk s 1 [] name_a 420 0) as (s' & H & _).
  - exact Hwf.
  - split; [|constructor]. unfold view. cbn [ext_file extent_laws]. by rewrite Hroot.
  - exact name_a_ok.
  - by intros ?%not_elem_of_nil.
  - apply root_entry_room. rewrite Hroom. pose proof (fr_room booted booted_fresh). lia.
  - intros j Hj Hv. apply (Hin j Hj). by apply view_None in Hv.
  - exists s, s'. exact H.
Defined.

Lemma unlink_correct_witness :
  exists s k s', chfs_client.unlink no_junk 1 name_a s = Ok (OK, s') /\ view s' k = None.
Proof.
  destruct (with_entry T_FILE) as (s & k & Hwf & Hd & Hv & _); [by left|].
  destruct (unlink_correct no_junk s 1 [mk_dirent name_a k] name_a k []) as (s' & H & _ & Hnone & _);
    [exact Hwf|exact Hd|reflexivity|exact Hv|]. exists s, k, s'. split; [exact H|exact Hnone].
Defined.

Lemma unlink_refuses_witness :
  exists s s', chfs_client.unlink no_junk 1 name_a s = Ok (IOERR, s').
Proof.
  destruct (with_entry T_DIR) as (s & k & Hwf & Hd & Hv & _); [by right|].
  destruct (unlink_refuses no_junk s 1 [mk_dirent name_a k] name_a) as (s' & H & _).
  - exact Hwf.
  - exact Hd.
  - intros k' E. injection E as <-. rewrite (view_id s k (T_DIR, [])); [|exact Hwf|exact Hv]. unfold type_is. by rewrite Hv.
  - exists s, s'. exact H.
Defined.

Lemma write_read_correct_witness :
  exists s i s1 s2, chfs_client.write i 3 600 (fun _ => byte_of_Z 66) 0 s = Ok ((OK, 3), s1) /\
    chfs_client.read i 3 600 [] s1 = Ok ((OK, replicate 3 (byte_of_Z 66)), s2).
Proof.
  destruct (with_entry T_FILE) as (s & k & Hwf & _ & Hv & Hroom); [by left|].
  destruct (write_read_correct s k T_FILE [] 3 600 (fun _ => byte_of_Z 66)) as (s1 & s2 & H1 & _ & _ & H2).
  - exact Hwf.
  - exact Hv.
  - lia.
  - lia.
  - unfold MAX_SIZE. lia.
  - etrans; [|exact Hroom]. apply Nat.leb_le. reflexivity.
  - exists s, k, s1, s2. split; [exact H1|exact H2].
Defined.

Lemma setattr_correct_witness :
  exists s', chfs_client.setattr 1 700 booted = Ok (OK, s') /\ view s' 1 = Some (T_DIR, []).
Proof.
  destruct (setattr_correct booted 1 T_DIR [] 700) as (s' & H & Hv & _);
    [exact booted_wf|apply booted_dir|lia|]. exists s'. split; [exact H|exact Hv].
Defined.

Lemma reachable_safe_witness :
  tree_wf booted /\ forall o, allowed booted o -> exists r s', exec no_junk o booted = Ok (r, s') /\ tree_wf s'.
Proof. apply (reachable_safe no_junk booted booted); [exact booted_tree|apply reach_init]. Defined.
