(* ===== verification/FuseTheorems.v ===== *)
(** What the FUSE handlers do: the closed theorems about fuse.cc, over every
    storage that satisfies the laws of Protocol.v. *)
From S2P Require Import Prelude Monad Disk BlockManager Inode InodeManager FsInv WriteFile.
From S2P Require Import WriteSpec ReadFile AllocInode RemoveFile Protocol Extent DirFormat.
From S2P Require Import ChfsClient ChfsSpec ChfsOps ChfsTree ChfsReach Fuse FuseSpec.
From S2P Require Import Refinement System Scenarios.
From Stdlib Require Import Ascii ZArith Lia.
From stdpp Require Import base gmap numbers list.
#[local] Open Scope Z_scope.

Lemma until_nul_id l : NUL ∉ l -> until_nul l = l.
Proof.
  induction l as [|c l IH]; intros Hl; cbn [until_nul]; [done|].
  apply not_elem_of_cons in Hl as [Hc Hl]. rewrite decide_False by congruence. by rewrite IH.
Qed.

Section theorems.
Context {S : Type} `{EL : ExtentLaws S}.
Context (junk : Z -> Z) (ino0 : Z).
Context (dirent_size : Z -> Z) (add_dirent : bytes -> Z -> Z -> bytes).

(** C21 Replies have the type of their requests: every request that a handler
    finishes is answered exactly once, whatever the state, with a reply of the kind
    that libfuse expects for it, or an error that its handler can give. *)
Theorem answered_once r s rs s' :
  fuse.dispatch junk ino0 dirent_size add_dirent r s = Ok (rs, s') ->
  exists p, rs = [p] /\ is_reply r p = true.
Proof. intros Hr%returns_dispatch. destruct rs as [|p [|]]; try done. by exists p. Qed.

(** C23 [fuseserver_getattr] always answers with attributes and changes nothing:
    those of a regular file, of a directory, or of a symbolic link, with times
    and size from the inode.  A number that is not in use is not reported as
    [ENOENT] but as an empty symbolic link of the epoch. *)
Theorem getattr_correct ino s :
  ext_wf s ->
  fuse.fuseserver_getattr ino s =
    Ok ([Reply_attr
           match ext_file s (ext_id ino) with
           | Some (mk_file type atime mtime ctime data) =>
               if type =? T_FILE
               then mk_stat ino (Z.lor S_IFREG 438) 1 (len data) atime mtime ctime
               else if type =? T_DIR
               then mk_stat ino (Z.lor S_IFDIR 511) 2 0 atime mtime ctime
               else mk_stat ino (Z.lor S_IFLNK 511) 1 (len data) atime mtime ctime
           | None => mk_stat ino (Z.lor S_IFLNK 511) 1 0 0 0 0
           end], s).
Proof.
  intros Hwf.
  assert (wp (fuse.fuseserver_getattr ino) (fun rs s' => s' = s /\
    rs = [Reply_attr (stat_of ino (ext_file s (ext_id ino)))]) s) as Hw.
  { unfold fuse.fuseserver_getattr. wp_step. apply wp_getattr; [done|]. by ok_step. }
  apply wp_run in Hw as (rs & s' & -> & -> & ->). do 4 f_equal. unfold stat_of.
  rewrite !attr_type by done. unfold type_is, view.
  by destruct (ext_file s (ext_id ino)) as [[type atime mtime ctime data]|].
Qed.

(** [fuseserver_create] answers a new name with the entry of an empty
    regular file, an existing one with [EEXIST]; in a parent that is not a
    directory it answers [ENOENT]. *)
Theorem create_handler s d l name mode :
  ext_wf s ->
  (type_is s T_DIR (ext_id d) = false ->
     fuse.fuseserver_create junk ino0 d name mode s = Ok ([Reply_err ENOENT], s)) /\
  (dir_at s d l -> forall k, find_entry name l = Some k ->
     exists s', fuse.fuseserver_create junk ino0 d name mode s = Ok ([Reply_err EEXIST], s') /\
       quiet s s') /\
  (dir_at s d l -> SLASH ∉ name -> name ∉ names l -> entry_room s l name 0 -> free_inode_number s ->
     exists k ta tm tc s', fuse.fuseserver_create junk ino0 d name mode s =
       Ok ([Reply_create (mk_entry k 0 (mk_stat k (Z.lor S_IFREG 438) 1 0 ta tm tc))], s') /\
       view s k = None /\ view s' k = Some (T_FILE, []) /\
       dir_at s' d (l ++ [mk_dirent name k])).
Proof.
  intros Hwf. split; [|split].
  - intros Hd. unfold fuse.fuseserver_create, fuse.fuseserver_createhelper, chfs_client.create.
    assert (wp (chfs_client.check_dir_inode d) (fun r s' => r = IOERR /\ s' = s) s) as Hw
      by (apply wp_check_dir; [done|]; by rewrite Hd).
    apply wp_run in Hw as (r & s' & Hr & -> & ->). cbn [Z.eqb T_FILE Pos.eqb].
    unfold mbind, M_bind. by rewrite Hr.
  - intros Hd k Hf.
    assert (wp (fuse.fuseserver_create junk ino0 d name mode)
      (fun rs s' => rs = [Reply_err EEXIST] /\ quiet s s') s) as Hw.
    { unfold fuse.fuseserver_create. wp_step. apply wp_createhelper.
      cbn [Z.eqb T_FILE Pos.eqb]. unfold chfs_client.create. wp_step.
      eapply wp_check_is_dir; [done|exact Hd|]. cbn [negb Z.eqb OK].
      eapply wp_create_exists; [done|exact Hd|exact Hf|]. intros s' Hq.
      cbn [fst snd Z.eqb EXIST OK Pos.eqb]. by wp_step. }
    apply wp_run in Hw as (rs & s' & Hrun & -> & Hq). by exists s'.
  - intros Hd Hname Hnew Hroom (j & Hj & Hjn).
    assert (wp (fuse.fuseserver_create junk ino0 d name mode) (fun rs s' => exists k ta tm tc,
      rs = [Reply_create (mk_entry k 0 (mk_stat k (Z.lor S_IFREG 438) 1 0 ta tm tc))] /\
      view s k = None /\ view s' k = Some (T_FILE, []) /\ dir_at s' d (l ++ [mk_dirent name k])) s)
      as Hw; [|apply wp_run in Hw as (rs & s' & Hrun & k & ta & tm & tc & -> & H');
               by exists k, ta, tm, tc, s'].
    unfold fuse.fuseserver_create. wp_step. apply wp_createhelper.
    cbn [Z.eqb T_FILE Pos.eqb]. unfold chfs_client.create. wp_step.
    eapply wp_check_is_dir; [done|exact Hd|]. cbn [negb Z.eqb OK].
    eapply wp_create_entry; [done|exact Hd|done|done|exact Hroom|done|done|..].
    + intros k s' _ Hk Hwf' _ Hd' Hv' _. cbn [fst snd Z.eqb OK]. split; [done|]. wp_step.
      destruct (file_stat_view s' k _ _ Hwf' Hv') as (ta & tm & tc & ->). by exists k, ta, tm, tc.
    + intros Hall. by destruct (Hall j Hj).
Qed.

(** [fuseserver_lookup] answers a name with the number and the attributes of
    its entry, and [ENOENT] when the name is missing or the parent is not a
    directory. *)
Theorem lookup_handler s d l name :
  ext_wf s -> dir_at s d l ->
  exists s', quiet s s' /\
    fuse.fuseserver_lookup junk ino0 d name s =
      Ok (match find_entry name l with
          | Some k => [Reply_entry (mk_entry k 0 (file_stat s' k))]
          | None => [Reply_err ENOENT]
          end, s').
Proof.
  intros Hwf Hd.
  assert (wp (fuse.fuseserver_lookup junk ino0 d name) (fun rs s' => quiet s s' /\
    rs = match find_entry name l with
         | Some k => [Reply_entry (mk_entry k 0 (file_stat s' k))]
         | None => [Reply_err ENOENT]
         end) s) as Hw.
  { destruct (find_entry name l) as [k|] eqn:Hf.
    - by eapply wp_lookup_handler.
    - unfold fuse.fuseserver_lookup. wp_step. eapply wp_lookup; [done|exact Hd|].
      intros s' Hq. rewrite Hf. by wp_step. }
  apply wp_run in Hw as (rs & s' & Hrun & Hq & ->). by exists s'.
Qed.

(** [fuseserver_unlink] answers 0 for a regular file, whose name is then
    gone, [ENOENT] for a missing name, and [ENOTEMPTY] for a directory, a
    symbolic link, and a parent that is not a directory. *)
Theorem unlink_handler s d l name :
  ext_wf s -> dir_at s d l ->
  match find_entry name l with
  | None => exists s', fuse.fuseserver_unlink junk d name s = Ok ([Reply_err ENOENT], s') /\ quiet s s'
  | Some k =>
      match view s k with
      | Some (t, _) =>
          if t =? T_FILE
          then exists s', fuse.fuseserver_unlink junk d name s = Ok ([Reply_err 0], s') /\
                 view s' k = None /\ dir_at s' d (filter (fun e => d_name e <> name) l)
          else exists s', fuse.fuseserver_unlink junk d name s = Ok ([Reply_err ENOTEMPTY], s') /\
                 quiet s s'
      | None => True
      end
  end.
Proof.
  intros Hwf Hd.
  assert (forall e, (forall k, find_entry name l = Some k -> type_is s T_FILE (ext_id k) = false) ->
    e = match find_entry name l with Some _ => ENOTEMPTY | None => ENOENT end ->
    exists s', fuse.fuseserver_unlink junk d name s = Ok ([Reply_err e], s') /\ quiet s s') as Hfail.
  { intros e Hf ->. assert (wp (fuse.fuseserver_unlink junk d name) (fun rs s' => quiet s s' /\
      rs = [Reply_err (match find_entry name l with Some _ => ENOTEMPTY | None => ENOENT end)]) s) as Hw.
    { unfold fuse.fuseserver_unlink. wp_step. eapply wp_unlink_fails; [done|exact Hd|exact Hf|].
      intros s' Hq. by destruct (find_entry name l); cbn [Z.eqb OK IOERR NOENT Pos.eqb]; wp_step. }
    apply wp_run in Hw as (rs & s' & Hrun & Hq & ->). by exists s'. }
  destruct (find_entry name l) as [k|] eqn:Hf; [|by apply Hfail].
  destruct (view s k) as [[t b]|] eqn:Hv; [|done]. destruct (Z.eqb_spec t T_FILE) as [->|Ht].
  - assert (wp (fuse.fuseserver_unlink junk d name) (fun rs s' => rs = [Reply_err 0] /\
      view s' k = None /\ dir_at s' d (filter (fun e => d_name e <> name) l)) s) as Hw.
    { unfold fuse.fuseserver_unlink. wp_step. eapply wp_unlink; [done|exact Hd|exact Hf|exact Hv|].
      intros s' _ _ Hnone Hd' _. cbn [Z.eqb OK]. by wp_step. }
    apply wp_run in Hw as (rs & s' & Hrun & -> & H'). by exists s'.
  - apply Hfail; [|done]. intros k' [= <-]. rewrite (view_id s k _ Hwf Hv). unfold type_is.
    rewrite Hv. by apply Z.eqb_neq.
Qed.

(** [fuseserver_readdir] of a directory answers with one page of the listing
    of its entries, in the order of the directory; of anything else with
    [ENOTDIR]. *)
Theorem readdir_handler s d size off :
  ext_wf s ->
  (type_is s T_DIR (ext_id d) = false ->
     fuse.fuseserver_readdir junk dirent_size add_dirent d size off s = Ok ([Reply_err ENOTDIR], s)) /\
  (forall l, dir_at s d l ->
     (forall name ino next, len (add_dirent name ino next) = dirent_size (len name)) ->
     let buf := listing dirent_size add_dirent l 0 in
     exists s', fuse.fuseserver_readdir junk dirent_size add_dirent d size off s =
       Ok ([fuse.reply_buf_limited buf (len buf) off size], s') /\ quiet s s').
Proof.
  intros Hwf. split.
  - intros Hd. assert (wp (fuse.fuseserver_readdir junk dirent_size add_dirent d size off)
      (fun rs s' => rs = [Reply_err ENOTDIR] /\ s' = s) s) as Hw.
    { unfold fuse.fuseserver_readdir, chfs_client.isdir. wp_step.
      apply wp_has_type; [done|done|]. rewrite Hd. by ok_step. }
    apply wp_run in Hw as (rs & s' & Hrun & -> & ->). exact Hrun.
  - intros l Hd Hsize buf. subst buf.
    pose proof (dirbuf_listing dirent_size add_dirent Hsize l (mk_dirbuf [] 0) eq_refl) as [Hp Hn].
    cbn [db_p db_size app] in Hp, Hn.
    assert (wp (fuse.fuseserver_readdir junk dirent_size add_dirent d size off) (fun rs s' =>
      rs = [fuse.reply_buf_limited (listing dirent_size add_dirent l 0)
              (len (listing dirent_size add_dirent l 0)) off size] /\ quiet s s') s) as Hw.
    { unfold fuse.fuseserver_readdir, chfs_client.isdir. wp_step.
      apply wp_has_type; [done|done|]. rewrite (view_id s d _ Hwf (da_view _ _ _ Hd)).
      rewrite (dir_type _ _ _ Hd). ok_step. eapply wp_readdir; [done|exact Hd|]. intros s' Hq.
      wp_step. split; [|done]. cbn [snd app]. by rewrite Hn, Hp. }
    apply wp_run in Hw as (rs & s' & Hrun & -> & Hq). by exists s'.
Qed.

(** [fuseserver_readlink] answers with the path [fuseserver_symlink] was
    given (a C string, so without NUL). *)
Theorem symlink_readlink_handlers s d l path name :
  ext_wf s -> dir_at s d l -> SLASH ∉ name -> name ∉ names l -> NUL ∉ path -> len path <= MAX_SIZE ->
  entry_room s l name (blocks_needed 0 (len path)) -> free_inode_number s ->
  exists k ta tm tc s1 s2, fuse.fuseserver_symlink junk ino0 path d name s =
      Ok ([Reply_entry (mk_entry k 0 (mk_stat k (Z.lor S_IFLNK 511) 1 (len path) ta tm tc))], s1) /\
    fuse.fuseserver_readlink k s1 = Ok ([Reply_readlink path], s2).
Proof.
  intros Hwf Hd Hname Hnew Hnul Hlen Hroom Hfree.
  assert (wp (fuse.fuseserver_symlink junk ino0 path d name) (fun rs s1 => exists k ta tm tc,
    rs = [Reply_entry (mk_entry k 0 (mk_stat k (Z.lor S_IFLNK 511) 1 (len path) ta tm tc))] /\
    ext_wf s1 /\ view s1 k = Some (T_SYMBOLIC, path)) s) as Hw.
  { unfold fuse.fuseserver_symlink. wp_step.
    eapply (wp_symlink junk d l path name ino0 0); [done|exact Hd|done|done|done| |exact Hfree|].
    { by rewrite Nat.add_0_r. }
    intros k s' _ _ Hwf' _ _ Hv' _. cbn [Z.eqb OK]. wp_step. apply wp_getattr; [done|].
    cbn [Z.eqb OK]. wp_step. destruct (file_stat_view s' k _ _ Hwf' Hv') as (ta & tm & tc & E).
    unfold file_stat in E. rewrite E. by exists k, ta, tm, tc. }
  apply wp_run in Hw as (rs & s1 & Hrun & k & ta & tm & tc & -> & Hwf1 & Hv1).
  assert (wp (fuse.fuseserver_readlink k) (fun rs s' => rs = [Reply_readlink path]) s1) as Hr.
  { unfold fuse.fuseserver_readlink. wp_step. eapply wp_readlink; [done|exact Hv1|].
    intros s' _. cbn [Z.eqb OK]. wp_step. by rewrite until_nul_id. }
  apply wp_run in Hr as (rs & s2 & Hread & ->). by exists k, ta, tm, tc, s1, s2.
Qed.
End theorems.

(** Reading a directory page by page, [m] bytes at a time from offset 0, gives
    the whole listing. *)
Theorem pages_cover buf m n :
  0 < m -> len buf <= m * Z.of_nat n -> len buf + m * Z.of_nat n < 2 ^ 64 ->
  pages n buf (len buf) 0 m = buf.
Proof.
  intros Hm Hn Hmax. assert (0 <= len buf) by (unfold len; lia). rewrite pages_all by lia.
  rewrite drop_0. apply take_ge. unfold len in *. lia.
Qed.

(** ** Witnesses *)
#[local] Existing Instance machine.
#[local] Abbreviation no_junk := (fun _ : Z => 0).

(** A directory record of 24 bytes and the name. *)
#[local] Definition size24 (n : Z) : Z := 24 + n.
#[local] Definition record24 (name : bytes) (ino next : Z) : bytes := replicate 24 NUL ++ name.

Lemma answered_once_witness :
  exists p, [Reply_statfs 255 512] = [p] /\ is_reply Statfs p = true.
Proof. exact (answered_once no_junk 0 size24 record24 Statfs booted _ booted eq_refl). Defined.

Lemma getattr_correct_witness :
  fuse.fuseserver_getattr 9 booted = Ok ([Reply_attr (mk_stat 9 (Z.lor S_IFLNK 511) 1 0 0 0 0)], booted).
Proof.
  rewrite (getattr_correct 9 booted); [|exact booted_wf]. cbn [ext_file extent_laws].
  by rewrite (fr_none booted booted_fresh).
Defined.
