(* ===== verification/Fifo.v ===== *)
(** The queue of the RPC library (rpc/fifo.h), whose operations run in several
    threads: a transition system whose steps are the points where a thread takes
    or releases the mutex, touches the queue, waits, or signals.

    A condition variable has no state of its own: its waiters are the threads in
    [pthread_cond_wait].  A signal wakes one of them when there is one, and a
    waiter may also wake up without a signal, as POSIX allows.  The calls that
    initialise the mutex and the condition variables succeed. *)
From S2P Require Import Prelude Monad.
From Stdlib Require Import ZArith Lia.
From stdpp Require Import base gmap list.
#[local] Open Scope Z_scope.

Section fifo.
Context {T : Type}.

(** The methods. *)
Inductive op :=
| Enq (e : T) (blocking : bool)
| Deq
| SizeOf.

Inductive result :=
| REnq (r : bool)
| RDeq (e : T)
| RSize (r : bool).

(** Where a thread is in a method. *)
Inductive pc :=
| EnqLock (e : T) (blocking : bool)   (* ScopedLock ml(&m_) *)
| EnqLoop (e : T) (blocking : bool)   (* while (1), with the mutex *)
| EnqWait (e : T)                     (* waits for has_space_c_ *)
| EnqWoken (e : T)                    (* takes the mutex again *)
| EnqSignal                           (* signals non_empty_c_ *)
| EnqUnlock (r : bool)                (* returns; ~ScopedLock *)
| DeqLock
| DeqLoop
| DeqWait                             (* waits for non_empty_c_ *)
| DeqWoken
| DeqSignal (e : T)                   (* signals has_space_c_ if there is space *)
| DeqUnlock (e : T)
| SizeLock
| SizeRead
| SizeUnlock (r : bool).

Record fifo := mk_fifo {
  q_ : list T;
  max_ : Z;
  owner : option nat;        (* the thread that holds m_ *)
  threads : gmap nat pc      (* the threads inside a method *)
}.

(** [fifo(int limit) : max_(limit)] *)
Definition fifo_new (limit : Z) : fifo := mk_fifo [] (u32 limit) None ∅.

Definition qlen (q : list T) : Z := Z.of_nat (length q).

(** [!max_ || q_.size() < max_] *)
Definition has_space (max : Z) (q : list T) : bool := (max =? 0) || (qlen q <? max).

Definition entry (o : op) : pc :=
  match o with
  | Enq e b => EnqLock e b
  | Deq => DeqLock
  | SizeOf => SizeLock
  end.

(** Taking the mutex, at the start of a method or at the end of a wait. *)
Definition locked (p : pc) : option pc :=
  match p with
  | EnqLock e b => Some (EnqLoop e b)
  | EnqWoken e => Some (EnqLoop e true)
  | DeqLock | DeqWoken => Some DeqLoop
  | SizeLock => Some SizeRead
  | _ => None
  end.

(** What a thread does to the queue. *)
Inductive qevent :=
| Push (e : T)
| Pop (e : T)
| Nothing.

(** One turn of the loop of [enq]. *)
Definition enq_body (max : Z) (q : list T) (e : T) (blocking : bool) : pc * list T * qevent :=
  if has_space max q then (EnqSignal, q ++ [e], Push e)
  else if blocking then (EnqWait e, q, Nothing)
  else (EnqUnlock false, q, Nothing).

(** One turn of the loop of [deq]. *)
Definition deq_body (q : list T) : pc * list T * qevent :=
  match q with
  | [] => (DeqWait, q, Nothing)
  | e :: q' => (DeqSignal e, q', Pop e)
  end.

(** [return q_.size()], converted to [bool]. *)
Definition size_body (q : list T) : pc * list T * qevent :=
  (SizeUnlock (negb (qlen q =? 0)), q, Nothing).

Definition body (max : Z) (q : list T) (p : pc) : option (pc * list T * qevent) :=
  match p with
  | EnqLoop e b => Some (enq_body max q e b)
  | DeqLoop => Some (deq_body q)
  | SizeRead => Some (size_body q)
  | _ => None
  end.

(** Does a thread at [p] hold the mutex? *)
Definition holds (p : pc) : bool :=
  match p with
  | EnqLoop _ _ | EnqSignal | EnqUnlock _ | DeqLoop | DeqSignal _ | DeqUnlock _
  | SizeRead | SizeUnlock _ => true
  | _ => false
  end.

(** The waiters of the two condition variables, and what waking them does. *)
Definition wake_space (p : pc) : option pc :=
  match p with EnqWait e => Some (EnqWoken e) | _ => None end.
Definition wake_item (p : pc) : option pc :=
  match p with DeqWait => Some DeqWoken | _ => None end.

(** [pthread_cond_signal] *)
Definition signal (wake : pc -> option pc) (m m' : gmap nat pc) : Prop :=
  ((forall t p, m !! t = Some p -> wake p = None) /\ m' = m) \/
  (exists t p p', m !! t = Some p /\ wake p = Some p' /\ m' = <[t := p']> m).

(** The signal of a thread that is done with the queue, and where it goes. *)
Definition signals (max : Z) (q : list T) (p : pc) (m m' : gmap nat pc) : option pc * Prop :=
  match p with
  | EnqSignal => (Some (EnqUnlock true), signal wake_item m m')
  | DeqSignal e =>
      (Some (DeqUnlock e),
       if negb (max =? 0) && (qlen q <? max) then signal wake_space m m' else m' = m)
  | _ => (None, False)
  end.

(** [fifo::~fifo]: destroying a mutex that a thread holds, or a condition variable that a
    thread waits for, is undefined. *)
Definition fifo_delete (s : fifo) : outcome unit :=
  if decide (owner s = None) then
    if decide (map_Forall (fun _ p => wake_item p = None /\ wake_space p = None) (threads s)) then Ok tt else UB
  else UB.

Definition returned (p : pc) : option result :=
  match p with
  | EnqUnlock r => Some (REnq r)
  | DeqUnlock e => Some (RDeq e)
  | SizeUnlock r => Some (RSize r)
  | _ => None
  end.

Inductive label :=
| Call (t : nat) (o : op)
| Ret (t : nat) (r : result)
| Queue (t : nat) (ev : qevent)
| Lock (t : nat)
| Signal (t : nat)
| Spurious (t : nat).

Inductive step : label -> fifo -> fifo -> Prop :=
| step_call t o q max ow m :
    m !! t = None ->
    step (Call t o) (mk_fifo q max ow m) (mk_fifo q max ow (<[t := entry o]> m))
| step_lock t p p' q max m :
    m !! t = Some p -> locked p = Some p' ->
    step (Lock t) (mk_fifo q max None m) (mk_fifo q max (Some t) (<[t := p']> m))
| step_body t p p' q q' ev max m :
    m !! t = Some p -> body max q p = Some (p', q', ev) ->
    step (Queue t ev) (mk_fifo q max (Some t) m)
      (mk_fifo q' max (if holds p' then Some t else None) (<[t := p']> m))
| step_signal t p p' q max m m' :
    m !! t = Some p -> (signals max q p m m').1 = Some p' -> (signals max q p m m').2 ->
    step (Signal t) (mk_fifo q max (Some t) m) (mk_fifo q max (Some t) (<[t := p']> m'))
| step_return t p r q max m :
    m !! t = Some p -> returned p = Some r ->
    step (Ret t r) (mk_fifo q max (Some t) m) (mk_fifo q max None (delete t m))
| step_spurious t p p' q max ow m :
    m !! t = Some p -> (wake_space p = Some p' \/ wake_item p = Some p') ->
    step (Spurious t) (mk_fifo q max ow m) (mk_fifo q max ow (<[t := p']> m)).

Inductive steps : fifo -> list label -> fifo -> Prop :=
| steps_nil s : steps s [] s
| steps_snoc s tr s' l s'' : steps s tr s' -> step l s' s'' -> steps s (tr ++ [l]) s''.

(** The elements that go in and out in a run. *)
Definition pushed (tr : list label) : list T :=
  tr ≫= (fun l => match l with Queue _ (Push e) => [e] | _ => [] end).
Definition popped (tr : list label) : list T :=
  tr ≫= (fun l => match l with Queue _ (Pop e) => [e] | _ => [] end).
End fifo.
Arguments op : clear implicits.
Arguments result : clear implicits.
Arguments pc : clear implicits.
Arguments fifo : clear implicits.
Arguments label : clear implicits.
