(* ===== verification/FifoSpec.v ===== *)
(** The invariant of the threads in a queue, and the atomic queue that the code
    refines. *)
From S2P Require Import Prelude Fifo.
From Stdlib Require Import ZArith Lia.
From stdpp Require Import base gmap list.
#[local] Open Scope Z_scope.

(** ** Counting threads *)
Section count.
Context {P : Type}.
Implicit Types (f : P -> Z) (m : gmap nat P).

Definition count f m : Z := map_fold (fun _ p n => f p + n) 0 m.

Lemma count_insert_new f m t p : m !! t = None -> count f (<[t := p]> m) = f p + count f m.
Proof. intros Ht. unfold count. rewrite map_fold_insert_L; [done|intros; lia|done]. Qed.

Lemma count_delete f m t p : m !! t = Some p -> count f m = f p + count f (delete t m).
Proof. intros Ht. unfold count. erewrite map_fold_delete_L; [done|intros; lia|done]. Qed.

Lemma count_insert f m t p p' :
  m !! t = Some p -> count f (<[t := p']> m) = f p' - f p + count f m.
Proof.
  intros Ht. rewrite (count_delete f m t p) by done.
  rewrite <- insert_delete_eq, count_insert_new by apply lookup_delete_eq. lia.
Qed.

Lemma count_pos f m : (forall p, 0 <= f p) -> 0 < count f m ->
  exists t p, m !! t = Some p /\ 0 < f p.
Proof.
  intros Hf. induction m as [|t p m Ht IH] using map_ind; [done|].
  rewrite count_insert_new by done. intros Hc.
  destruct (decide (0 < f p)) as [Hp|Hp]; [exists t, p; by rewrite lookup_insert_eq|].
  specialize (Hf p). destruct IH as (t' & p' & Hm & Hp'); [lia|].
  exists t', p'. rewrite lookup_insert_ne; [done|congruence].
Qed.

Lemma count_nonneg f m : (forall p, 0 <= f p) -> 0 <= count f m.
Proof.
  intros Hf. induction m as [|t p m Ht IH] using map_ind; [done|].
  rewrite count_insert_new by done. specialize (Hf p). lia.
Qed.
End count.

Section spec.
Context {T : Type}.
Implicit Types (s : fifo T) (m : gmap nat (pc T)) (p : pc T).

(** ** The invariant *)

Definition waits_space p : bool := match p with EnqWait _ => true | _ => false end.
Definition waits_item p : bool := match p with DeqWait => true | _ => false end.

(** Threads that will look at the queue, or will wake one that does. *)
Definition sees_space p : Z :=
  match p with EnqWoken _ | EnqLoop _ _ | DeqSignal _ => 1 | _ => 0 end.
Definition sees_item p : Z :=
  match p with DeqWoken | DeqLoop | EnqSignal => 1 | _ => 0 end.

(** Nobody waits for what is there, unless somebody is about to see to it; [ks]
    and [ki] are spare threads, between a signal and the move of its sender. *)
Record inv_slack (ks ki : Z) s : Prop := {
  inv_max : 0 <= max_ s;
  inv_bound : max_ s <> 0 -> qlen (q_ s) <= max_ s;
  inv_owner t p : threads s !! t = Some p -> holds p = true <-> owner s = Some t;
  inv_thread t : owner s = Some t -> is_Some (threads s !! t);
  inv_space t p : threads s !! t = Some p -> waits_space p = true ->
    max_ s <> 0 /\ max_ s - qlen (q_ s) + ks <= count sees_space (threads s);
  inv_item t p : threads s !! t = Some p -> waits_item p = true ->
    qlen (q_ s) + ki <= count sees_item (threads s)
}.

Definition inv s : Prop := inv_slack 0 0 s.

Lemma inv_new limit : inv (fifo_new limit).
Proof.
  split; cbn; try done; unfold qlen; simpl; pose proof (u32_range limit); lia.
Qed.

Lemma qlen_app (q : list T) e : qlen (q ++ [e]) = qlen q + 1.
Proof. unfold qlen. rewrite length_app. simpl. lia. Qed.

Lemma qlen_cons (q : list T) e : qlen (e :: q) = qlen q + 1.
Proof. unfold qlen. simpl. lia. Qed.

Lemma sees_space_nonneg p : 0 <= sees_space p.
Proof. by destruct p. Qed.

Lemma sees_item_nonneg p : 0 <= sees_item p.
Proof. by destruct p. Qed.

(** Changing the queue, the owner and one thread. *)
Lemma inv_update ks ki ks' ki' q q' max ow ow' m t p p' :
  inv_slack ks ki (mk_fifo q max ow m) -> m !! t = Some p ->
  (max <> 0 -> qlen q' <= max) ->
  (holds p' = true <-> ow' = Some t) ->
  (forall t', t' <> t -> ow' = Some t' <-> ow = Some t') ->
  (waits_space p' = true -> max <> 0 /\ max - qlen q' + ks' <= 0) ->
  (waits_item p' = true -> qlen q' + ki' <= 0) ->
  max - qlen q' + ks' <= 0 \/ ks' - qlen q' <= sees_space p' - sees_space p + ks - qlen q ->
  qlen q' + ki' <= 0 \/ ki' + qlen q' <= sees_item p' - sees_item p + ki + qlen q ->
  inv_slack ks' ki' (mk_fifo q' max ow' (<[t := p']> m)).
Proof.
  intros Hi Ht Hb Hh Ho Hs Hit Hq1 Hq2.
  pose proof (count_nonneg sees_space (<[t := p']> m) sees_space_nonneg) as Hns.
  pose proof (count_nonneg sees_item (<[t := p']> m) sees_item_nonneg) as Hni.
  pose proof (count_insert sees_space _ _ _ p' Ht) as Ecs.
  pose proof (count_insert sees_item _ _ _ p' Ht) as Eci.
  split; cbn [max_ q_ owner threads].
  - apply Hi.
  - done.
  - intros t' p1. destruct (decide (t' = t)) as [->|Hne].
    + rewrite lookup_insert_eq. by intros [= <-].
    + rewrite lookup_insert_ne by done. intros Hp. rewrite Ho by done.
      exact (inv_owner _ _ _ Hi _ _ Hp).
  - intros t' Hw. destruct (decide (t' = t)) as [->|Hne]; [by rewrite lookup_insert_eq|].
    rewrite lookup_insert_ne by done. apply (inv_thread _ _ _ Hi), Ho; done.
  - intros t' p1. destruct (decide (t' = t)) as [->|Hne].
    + rewrite lookup_insert_eq. intros [= <-] Hw. specialize (Hs Hw). lia.
    + rewrite lookup_insert_ne by done. intros Hp Hw.
      destruct (inv_space _ _ _ Hi _ _ Hp Hw). cbn [q_ max_ threads] in *. split; [done|lia].
  - intros t' p1. destruct (decide (t' = t)) as [->|Hne].
    + rewrite lookup_insert_eq. intros [= <-] Hw. specialize (Hit Hw). lia.
    + rewrite lookup_insert_ne by done. intros Hp Hw.
      pose proof (inv_item _ _ _ Hi _ _ Hp Hw). cbn [q_ max_ threads] in *. lia.
Qed.

(** Waking a waiter: it is a thread more that will look. *)
Lemma inv_wake_space q max ow m t p p' :
  inv (mk_fifo q max ow m) -> m !! t = Some p -> wake_space p = Some p' ->
  inv_slack 1 0 (mk_fifo q max ow (<[t := p']> m)).
Proof.
  intros Hi Ht Hw. destruct p; simplify_eq/=.
  pose proof (inv_owner _ _ _ Hi _ _ Ht) as Ho. cbn in Ho.
  eapply inv_update; [exact Hi|exact Ht|apply Hi|done|done|done|done|cbn; lia..].
Qed.

Lemma inv_wake_item q max ow m t p p' :
  inv (mk_fifo q max ow m) -> m !! t = Some p -> wake_item p = Some p' ->
  inv_slack 0 1 (mk_fifo q max ow (<[t := p']> m)).
Proof.
  intros Hi Ht Hw. destruct p; simplify_eq/=.
  pose proof (inv_owner _ _ _ Hi _ _ Ht) as Ho. cbn in Ho.
  eapply inv_update; [exact Hi|exact Ht|apply Hi|done|done|done|done|cbn; lia..].
Qed.

Lemma inv_weaken ks ki ks' ki' s :
  inv_slack ks ki s -> ks' <= ks -> ki' <= ki -> inv_slack ks' ki' s.
Proof.
  intros Hi Hs Hk. split; try apply Hi.
  - intros t p Hp Hw. destruct (inv_space _ _ _ Hi _ _ Hp Hw). split; [done|lia].
  - intros t p Hp Hw. pose proof (inv_item _ _ _ Hi _ _ Hp Hw). lia.
Qed.

(** A signal without a waiter leaves any number of spare threads. *)
Lemma inv_signal_space q max ow m m' :
  inv (mk_fifo q max ow m) -> signal wake_space m m' -> inv_slack 1 0 (mk_fifo q max ow m').
Proof.
  intros Hi [[Hnone ->]|(t & p & p' & Ht & Hw & ->)]; [|by eapply inv_wake_space].
  split; try apply Hi. intros t p Hp Hw. specialize (Hnone _ _ Hp). by destruct p.
Qed.

Lemma inv_signal_item q max ow m m' :
  inv (mk_fifo q max ow m) -> signal wake_item m m' -> inv_slack 0 1 (mk_fifo q max ow m').
Proof.
  intros Hi [[Hnone ->]|(t & p & p' & Ht & Hw & ->)]; [|by eapply inv_wake_item].
  split; try apply Hi. intros t p Hp Hw. specialize (Hnone _ _ Hp). by destruct p.
Qed.

(** The sender of a signal is no waiter. *)
Lemma signal_other wake m m' t p :
  signal wake m m' -> m !! t = Some p -> wake p = None -> m' !! t = Some p.
Proof.
  intros [[_ ->]|(t' & p1 & p' & Ht & Hw & ->)] Hp Hn; [done|].
  rewrite lookup_insert_ne; [done|congruence].
Qed.

Lemma inv_call q max ow m t o :
  inv (mk_fifo q max ow m) -> m !! t = None -> inv (mk_fifo q max ow (<[t := entry o]> m)).
Proof.
  intros Hi Ht. assert (ow <> Some t) as How.
  { intros Hw. destruct (inv_thread _ _ _ Hi t Hw) as [p Hp]. cbn in Hp. congruence. }
  split; cbn [max_ q_ owner threads].
  - apply Hi.
  - apply Hi.
  - intros t' p. destruct (decide (t' = t)) as [->|Hne].
    + rewrite lookup_insert_eq. intros [= <-]. by destruct o.
    + rewrite lookup_insert_ne by done. exact (inv_owner _ _ _ Hi t' p).
  - intros t' Hw. rewrite lookup_insert_ne by congruence. exact (inv_thread _ _ _ Hi t' Hw).
  - intros t' p. rewrite count_insert_new by done. destruct (decide (t' = t)) as [->|Hne].
    + rewrite lookup_insert_eq. intros [= <-] Hw. by destruct o.
    + rewrite lookup_insert_ne by done. intros Hp Hw.
      destruct (inv_space _ _ _ Hi _ _ Hp Hw). cbn in *. destruct o; cbn; lia.
  - intros t' p. rewrite count_insert_new by done. destruct (decide (t' = t)) as [->|Hne].
    + rewrite lookup_insert_eq. intros [= <-] Hw. by destruct o.
    + rewrite lookup_insert_ne by done. intros Hp Hw.
      pose proof (inv_item _ _ _ Hi _ _ Hp Hw). cbn in *. destruct o; cbn; lia.
Qed.

Lemma inv_return q max m t p r :
  inv (mk_fifo q max (Some t) m) -> m !! t = Some p -> returned p = Some r ->
  inv (mk_fifo q max None (delete t m)).
Proof.
  intros Hi Ht Hr. assert (sees_space p = 0 /\ sees_item p = 0) as [Hs0 Hi0] by by destruct p.
  split; cbn [max_ q_ owner threads]; try done; try apply Hi.
  - intros t' p' [Hne Hp]%lookup_delete_Some. pose proof (inv_owner _ _ _ Hi _ _ Hp) as Ho.
    cbn in Ho. rewrite Ho. split; [congruence|done].
  - intros t' p' [Hne Hp]%lookup_delete_Some Hw. destruct (inv_space _ _ _ Hi _ _ Hp Hw).
    cbn in *. pose proof (count_delete sees_space m t p Ht). split; [done|lia].
  - intros t' p' [Hne Hp]%lookup_delete_Some Hw. pose proof (inv_item _ _ _ Hi _ _ Hp Hw).
    cbn in *. pose proof (count_delete sees_item m t p Ht). lia.
Qed.

Lemma inv_lock q max m t p p' :
  inv (mk_fifo q max None m) -> m !! t = Some p -> locked p = Some p' ->
  inv (mk_fifo q max (Some t) (<[t := p']> m)).
Proof.
  intros Hi Ht Hl. eapply inv_update; [exact Hi|exact Ht|apply Hi|..].
  - by destruct p; simplify_eq/=.
  - intros t' Hne. split; congruence.
  - by destruct p; simplify_eq/=.
  - by destruct p; simplify_eq/=.
  - destruct p; simplify_eq/=; lia.
  - destruct p; simplify_eq/=; lia.
Qed.

Lemma has_space_spec max (q : list T) :
  has_space max q = true <-> (max <> 0 -> qlen q < max).
Proof. unfold has_space. rewrite orb_true_iff, Z.eqb_eq, Z.ltb_lt. lia. Qed.

Lemma has_space_false max (q : list T) :
  has_space max q = false <-> max <> 0 /\ max <= qlen q.
Proof. unfold has_space. rewrite orb_false_iff, Z.eqb_neq, Z.ltb_ge. lia. Qed.

Lemma inv_body q q' max m t p p' ev :
  inv (mk_fifo q max (Some t) m) -> m !! t = Some p -> body max q p = Some (p', q', ev) ->
  inv (mk_fifo q' max (if holds p' then Some t else None) (<[t := p']> m)).
Proof.
  intros Hi Ht Hb.
  assert (forall t', t' <> t -> (if holds p' then Some t else None) = Some t' <-> Some t = Some t')
    as Ho by (intros t' Hne; destruct (holds p'); split; congruence).
  assert (holds p' = true <-> (if holds p' then Some t else None) = Some t) as Hh
    by by destruct (holds p').
  pose proof (inv_bound _ _ _ Hi) as Hbound. cbn in Hbound.
  destruct p as [| e b| | | | | | | | | | | | |]; simplify_eq/=.
  - unfold enq_body in Hb. destruct (has_space max q) eqn:Hsp; [|destruct b]; simplify_eq.
    + pose proof (proj1 (has_space_spec _ _) Hsp). pose proof (qlen_app q e).
      eapply inv_update; [exact Hi|exact Ht|lia|done|exact Ho|done|done|cbn; lia..].
    + apply has_space_false in Hsp.
      eapply inv_update; [exact Hi|exact Ht|exact Hbound|done|exact Ho|cbn; lia|done|cbn; lia..].
    + apply has_space_false in Hsp.
      eapply inv_update; [exact Hi|exact Ht|exact Hbound|done|exact Ho|done|done|cbn; lia..].
  - destruct q as [|e q]; simplify_eq/=.
    + assert (qlen (@nil T) = 0) as Hnil by done.
      eapply inv_update; [exact Hi|exact Ht|exact Hbound|done|exact Ho|done|done|cbn; lia..].
    + pose proof (qlen_cons q' e).
      eapply inv_update; [exact Hi|exact Ht|lia|done|exact Ho|done|done|cbn; lia..].
  - unfold size_body in Hb. simplify_eq.
    eapply inv_update; [exact Hi|exact Ht|exact Hbound|done|exact Ho|done|done|cbn; lia..].
Qed.

Lemma inv_send q max m m' t p p' :
  inv (mk_fifo q max (Some t) m) -> m !! t = Some p ->
  (signals max q p m m').1 = Some p' -> (signals max q p m m').2 ->
  inv (mk_fifo q max (Some t) (<[t := p']> m')).
Proof.
  intros Hi Ht H1 H2. pose proof (inv_bound _ _ _ Hi) as Hb. cbn in Hb.
  assert (forall t', t' <> t -> Some t = Some t' <-> Some t = Some t') as Ho by done.
  destruct p; simplify_eq/=.
  - pose proof (signal_other _ _ _ _ _ H2 Ht eq_refl) as Ht'.
    apply (inv_signal_item _ _ _ _ _ Hi) in H2.
    eapply inv_update; [exact H2|exact Ht'|exact Hb|done|exact Ho|done|done|cbn; lia..].
  - destruct (negb (max =? 0) && (qlen q <? max)) eqn:Hc.
    + pose proof (signal_other _ _ _ _ _ H2 Ht eq_refl) as Ht'.
      apply (inv_signal_space _ _ _ _ _ Hi) in H2.
      eapply inv_update; [exact H2|exact Ht'|exact Hb|done|exact Ho|done|done|cbn; lia..].
    + subst m'. destruct (decide (max = 0)) as [->|Hmax].
      * pose proof Hi as [Hi1 _ Hi3 Hi4 Hi5 _].
        assert (inv_slack 1 0 (mk_fifo q 0 (Some t) m)) as Hi'.
        { split; try apply Hi. intros t' p' Hp Hw. by destruct (Hi5 _ _ Hp Hw). }
        eapply inv_update; [exact Hi'|exact Ht|exact Hb|done|exact Ho|done|done|cbn; lia..].
      * eapply inv_update; [exact Hi|exact Ht|exact Hb|done|exact Ho|done|done|cbn; lia..].
Qed.

Lemma step_inv l s s' : step l s s' -> inv s -> inv s'.
Proof.
  destruct 1 as [t o q max ow m Ht|t p p' q max m Ht Hl|t p p' q q' ev max m Ht Hb
    |t p p' q max m m' Ht H1 H2|t p r q max m Ht Hr|t p p' q max ow m Ht Hw]; intros Hi.
  - by apply inv_call.
  - by eapply inv_lock.
  - by eapply inv_body.
  - by eapply inv_send.
  - by eapply inv_return.
  - destruct Hw as [Hw|Hw].
    + eapply inv_weaken; [by eapply inv_wake_space|lia..].
    + eapply inv_weaken; [by eapply inv_wake_item|lia..].
Qed.

Lemma steps_inv s tr s' : steps s tr s' -> inv s -> inv s'.
Proof. induction 1; [done|]. eauto using step_inv. Qed.

Lemma step_max l s s' : step l s s' -> max_ s' = max_ s.
Proof. by destruct 1. Qed.

Lemma steps_max s tr s' : steps s tr s' -> max_ s' = max_ s.
Proof. induction 1; [done|]. etrans; [by eapply step_max|done]. Qed.

(** ** The order of the elements *)

Lemma body_order max q p p' q' ev : body max q p = Some (p', q', ev) ->
  (match ev with Pop e => [e] | _ => [] end) ++ q' = q ++ match ev with Push e => [e] | _ => [] end.
Proof.
  destruct p; intros [=]; simplify_eq.
  - unfold enq_body in *. repeat case_match; simplify_eq/=; by rewrite ?app_nil_r.
  - unfold deq_body in *. repeat case_match; simplify_eq/=; by rewrite ?app_nil_r.
  - unfold size_body in *. simplify_eq/=. by rewrite app_nil_r.
Qed.

Lemma steps_order s tr s' : steps s tr s' -> popped tr ++ q_ s' = q_ s ++ pushed tr.
Proof.
  induction 1 as [s|s tr s' l s'' _ IH Hl]; [by rewrite app_nil_r|].
  unfold popped, pushed in *. rewrite !bind_app, <- app_assoc. cbn [mbind list_bind].
  rewrite !app_nil_r.
  destruct Hl as [| |t p p' q q' ev max m Ht Hb| | |]; cbn [q_] in *;
    try (by rewrite !app_nil_r).
  rewrite (body_order _ _ _ _ _ _ Hb), !app_assoc. by rewrite IH.
Qed.
End spec.
