(* ===== verification/FifoTheorems.v ===== *)
(** The queue of threads refines an atomic queue, keeps the order and the bound,
    and loses no wakeup. *)
From S2P Require Import Prelude Monad Fifo FifoSpec.
From Stdlib Require Import ZArith Lia.
From stdpp Require Import base gmap list.
#[local] Open Scope Z_scope.

(** ** The atomic queue *)
Section atomic.
Context {T : Type}.

Inductive status :=
| Pending (o : op T)
| Completed (r : result T).

Record aqueue := mk_aqueue {
  aq : list T;
  amax : Z;
  acalls : gmap nat status
}.

(** The effect of a method at one instant; [None] when it has to wait. *)
Definition atomic (max : Z) (q : list T) (o : op T) : option (result T * list T) :=
  match o with
  | Enq e b =>
      if has_space max q then Some (REnq true, q ++ [e])
      else if b then None else Some (REnq false, q)
  | Deq => match q with [] => None | e :: q' => Some (RDeq e, q') end
  | SizeOf => Some (RSize (negb (qlen q =? 0)), q)
  end.

(** The calls and returns the threads see. *)
Inductive history :=
| HCall (t : nat) (o : op T)
| HRet (t : nat) (r : result T).

Inductive arun (limit : Z) : list history -> aqueue -> Prop :=
| arun_new : arun limit [] (mk_aqueue [] (u32 limit) ∅)
| arun_call h q max c t o :
    arun limit h (mk_aqueue q max c) -> c !! t = None ->
    arun limit (h ++ [HCall t o]) (mk_aqueue q max (<[t := Pending o]> c))
| arun_act h q max c t o r q' :
    arun limit h (mk_aqueue q max c) -> c !! t = Some (Pending o) ->
    atomic max q o = Some (r, q') ->
    arun limit h (mk_aqueue q' max (<[t := Completed r]> c))
| arun_ret h q max c t r :
    arun limit h (mk_aqueue q max c) -> c !! t = Some (Completed r) ->
    arun limit (h ++ [HRet t r]) (mk_aqueue q max (delete t c)).

Definition seen (tr : list (label T)) : list history :=
  tr ≫= (fun l => match l with Call t o => [HCall t o] | Ret t r => [HRet t r] | _ => [] end).

Definition status_of (p : pc T) : status :=
  match p with
  | EnqLock e b | EnqLoop e b => Pending (Enq e b)
  | EnqWait e | EnqWoken e => Pending (Enq e true)
  | EnqSignal => Completed (REnq true)
  | EnqUnlock r => Completed (REnq r)
  | DeqLock | DeqLoop | DeqWait | DeqWoken => Pending Deq
  | DeqSignal e | DeqUnlock e => Completed (RDeq e)
  | SizeLock | SizeRead => Pending SizeOf
  | SizeUnlock r => Completed (RSize r)
  end.

Definition abs (s : fifo T) : aqueue := mk_aqueue (q_ s) (max_ s) (status_of <$> threads s).

(** A move that does not change what a call stands for. *)
Lemma fmap_same (m : gmap nat (pc T)) t p p' :
  m !! t = Some p -> status_of p' = status_of p ->
  status_of <$> <[t := p']> m = status_of <$> m.
Proof.
  intros Ht E. rewrite fmap_insert. apply insert_id. by rewrite lookup_fmap, Ht, E.
Qed.

Lemma signal_same (wake : pc T -> option (pc T)) m m' :
  (forall p p', wake p = Some p' -> status_of p' = status_of p) ->
  signal wake m m' -> status_of <$> m' = status_of <$> m.
Proof.
  intros Hw [[_ ->]|(t & p & p' & Ht & E & ->)]; [done|]. eapply fmap_same; eauto.
Qed.

Lemma wake_space_same (p p' : pc T) : wake_space p = Some p' -> status_of p' = status_of p.
Proof. by destruct p; intros [= <-]. Qed.

Lemma wake_item_same (p p' : pc T) : wake_item p = Some p' -> status_of p' = status_of p.
Proof. by destruct p; intros [= <-]. Qed.

Lemma locked_same (p p' : pc T) : locked p = Some p' -> status_of p' = status_of p.
Proof. by destruct p; intros [= <-]. Qed.

Lemma signals_same max q (p p' : pc T) m m' t :
  m !! t = Some p -> (signals max q p m m').1 = Some p' -> (signals max q p m m').2 ->
  status_of <$> <[t := p']> m' = status_of <$> m.
Proof.
  intros Ht H1 H2. destruct p; simplify_eq/=.
  - rewrite (fmap_same m' t EnqSignal); [|by eapply signal_other|done].
    by eapply signal_same, H2; apply wake_item_same.
  - rewrite (fmap_same m' t (DeqSignal e)); [|by repeat case_match; subst; [eapply signal_other|..]|done].
    repeat case_match; [|by subst]. by eapply signal_same, H2; apply wake_space_same.
Qed.

(** A turn of a loop is the method's effect, or a wait. *)
Lemma body_atomic max q q' (p p' : pc T) ev :
  body max q p = Some (p', q', ev) ->
  (status_of p' = status_of p /\ q' = q) \/
  exists o r, status_of p = Pending o /\ status_of p' = Completed r /\ atomic max q o = Some (r, q').
Proof.
  destruct p as [| e b| | | | | | | | | | | | |]; intros [=]; simplify_eq.
  - unfold enq_body in *. destruct (has_space max q) eqn:Hs; [|destruct b]; simplify_eq/=;
      [right|by left|right]; do 2 eexists; (split; [done|]); (split; [done|]); cbn; by rewrite Hs.
  - destruct q; simplify_eq/=; [by left|right]. by do 2 eexists.
  - unfold size_body in *. simplify_eq/=. right. by do 2 eexists.
Qed.

Lemma arun_step limit l (s s' : fifo T) h :
  step l s s' -> arun limit h (abs s) -> arun limit (h ++ seen [l]) (abs s').
Proof.
  destruct 1 as [t o q max ow m Ht|t p p' q max m Ht Hl|t p p' q q' ev max m Ht Hb
    |t p p' q max m m' Ht H1 H2|t p r q max m Ht Hr|t p p' q max ow m Ht Hw]; intros Ha;
    unfold abs in *; cbn [q_ max_ threads seen mbind list_bind] in *; rewrite ?app_nil_r.
  - rewrite fmap_insert. replace (status_of (entry o)) with (Pending o) by by destruct o.
    apply arun_call; [done|]. by rewrite lookup_fmap, Ht.
  - rewrite (fmap_same m t p) by eauto using locked_same. done.
  - destruct (body_atomic _ _ _ _ _ _ Hb) as [[E ->]|(o & r & E1 & E2 & E)].
    + by rewrite (fmap_same m t p).
    + rewrite fmap_insert, E2. eapply arun_act; [done| |done]. by rewrite lookup_fmap, Ht, <- E1.
  - by rewrite (signals_same _ _ _ _ _ _ _ Ht H1 H2).
  - rewrite fmap_delete. apply arun_ret; [done|]. rewrite lookup_fmap, Ht. by destruct p; simplify_eq/=.
  - rewrite (fmap_same m t p); [done|done|]. destruct Hw; eauto using wake_space_same, wake_item_same.
Qed.

(** A state in which no thread moves by itself. *)
Definition blocked (s : fifo T) : Prop :=
  forall l s', step l s s' -> match l with Call _ _ | Spurious _ => True | _ => False end.

(** A thread that holds the mutex can go on. *)
Lemma holder_moves (s : fifo T) t p : threads s !! t = Some p -> owner s = Some t -> holds p = true ->
  exists l s', step l s s' /\ match l with Queue _ _ | Signal _ | Ret _ _ => True | _ => False end.
Proof.
  destruct s as [q max ow m]. cbn. intros Ht -> Hh.
  destruct (body max q p) as [[[p' q'] ev]|] eqn:Hb.
  { do 2 eexists. split; [by eapply step_body|done]. }
  destruct (returned p) as [r|] eqn:Hr.
  { do 2 eexists. split; [by eapply step_return|done]. }
  assert (exists p' m', (signals max q p m m').1 = Some p' /\ (signals max q p m m').2)
    as (p' & m' & H1 & H2).
  { assert (forall wake : pc T -> option (pc T), exists m', signal wake m m') as Hsig.
    { intros wake.
      destruct (decide (map_Exists (fun _ p => is_Some (wake p)) m)) as [(t' & p1 & Hp & p2 & Hw)|Hn].
      - eexists. right. by exists t', p1, p2.
      - exists m. left. split; [|done]. intros t' p' Hp. apply eq_None_not_Some. intros Hw.
        apply Hn. by exists t', p'. }
    destruct p; simplify_eq/=.
    - destruct (Hsig wake_item) as [m' Hm]. by exists (EnqUnlock true), m'.
    - destruct (Hsig wake_space) as [m' Hm].
      exists (DeqUnlock e). case_match; [by exists m'|by exists m]. }
  do 2 eexists. split; [by eapply step_signal|done].
Qed.

Lemma blocked_waiting (s : fifo T) : inv s -> blocked s ->
  forall t p, threads s !! t = Some p -> waits_space p = true \/ waits_item p = true.
Proof.
  intros Hi Hb t p Ht. destruct (owner s) as [t'|] eqn:Ho.
  - destruct (inv_thread _ _ _ Hi t' Ho) as [p' Hp'].
    destruct (holder_moves s t' p') as (l & s' & Hl & Hk); [done|done|by apply (inv_owner _ _ _ Hi _ _ Hp')|].
    specialize (Hb _ _ Hl). by destruct l.
  - destruct (locked p) as [p'|] eqn:Hl.
    + destruct s as [q max ow m]. cbn in *. subst. by destruct (Hb _ _ (step_lock _ _ _ _ _ _ Ht Hl)).
    + pose proof (inv_owner _ _ _ Hi _ _ Ht) as Hh. rewrite Ho in Hh.
      destruct p; cbn in *; auto; first [done|discriminate (proj1 Hh eq_refl)].
Qed.

Lemma blocked_count (s : fifo T) (f : pc T -> Z) : inv s -> blocked s -> (forall p, 0 <= f p) ->
  (forall p, waits_space p = true \/ waits_item p = true -> f p = 0) -> count f (threads s) = 0.
Proof.
  intros Hi Hb Hf Hz. destruct (decide (0 < count f (threads s))) as [Hc|Hc].
  - destruct (count_pos f _ Hf Hc) as (t & p & Ht & Hp).
    rewrite Hz in Hp; [lia|by eapply blocked_waiting].
  - pose proof (count_nonneg f (threads s) Hf). lia.
Qed.
End atomic.
Arguments history : clear implicits.
Arguments aqueue : clear implicits.

(** ** A run: a consumer waits, a producer hands it an element *)
Lemma steps_cons {T} l (s s1 s2 : fifo T) tr :
  step l s s1 -> steps s1 tr s2 -> steps s (l :: tr) s2.
Proof.
  intros Hl. induction 1 as [s1|s1 tr s2 l' s3 _ IH Hl'].
  - apply (steps_snoc _ [] s); [constructor|done].
  - apply (steps_snoc _ (l :: tr) s2); auto.
Qed.

Definition waiting : fifo Z := mk_fifo [] 1 None {[ 1%nat := DeqWait ]}.

Definition wait_trace : list (label Z) := [Call 1 Deq; Lock 1; Queue 1 Nothing].

Definition hand_over_trace : list (label Z) :=
  wait_trace ++ [Call 2 (Enq 7 true); Lock 2; Queue 2 (Push 7); Signal 2; Ret 2 (REnq true);
                 Lock 1; Queue 1 (Pop 7); Signal 1].

Definition handed_over : fifo Z := mk_fifo [] 1 (Some 1%nat) {[ 1%nat := DeqUnlock 7 ]}.

Ltac do_step rule := eapply steps_cons; [eapply rule; vm_compute; reflexivity|].

Lemma run_wait : steps (fifo_new 1) wait_trace waiting.
Proof. do_step @step_call. do_step @step_lock. do_step @step_body. apply steps_nil. Qed.

Lemma run_hand_over : steps (fifo_new 1) hand_over_trace handed_over.
Proof.
  do_step @step_call. do_step @step_lock. do_step @step_body.
  do_step @step_call. do_step @step_lock. do_step @step_body.
  eapply steps_cons.
  { eapply (step_signal 2%nat EnqSignal); [reflexivity|reflexivity|].
    right. exists 1%nat, DeqWait, DeqWoken. split; [reflexivity|]. by split. }
  do_step @step_return. do_step @step_lock. do_step @step_body.
  eapply steps_cons.
  { eapply (step_signal 1%nat (DeqSignal 7)); [reflexivity|reflexivity|].
    left. split; [|reflexivity].
    refine (bool_decide_unpack (map_Forall (fun _ p => wake_space p = None) _) _).
    vm_compute. exact I. }
  apply steps_nil.
Qed.

Lemma blocked_wait : blocked waiting.
Proof.
  intros l s'. unfold waiting. inversion 1; subst; try done;
    match goal with Hp : _ !! _ = Some _ |- _ => apply lookup_singleton_Some in Hp as [<- <-] end; done.
Qed.

(** ** Theorems *)
Section theorems.
Context {T : Type}.

(** C17 Every run of the threads in a queue is a run of an atomic queue: the calls and
    returns the threads see are those of methods that each take effect at one instant
    between their call and their return, on the queue of the atomic specification. *)
Theorem fifo_linearizable limit tr (s : fifo T) :
  steps (fifo_new limit) tr s -> arun limit (seen tr) (abs s).
Proof.
  remember (fifo_new limit) as s0 eqn:E. induction 1 as [s|s tr s' l s'' _ IH Hl]; subst.
  - unfold abs. cbn. rewrite fmap_empty. apply arun_new.
  - unfold seen in *. rewrite bind_app. eapply arun_step; [done|by apply IH].
Qed.

(** C34 In every reachable state of a queue the elements that came out, followed by those
    in the queue, are the elements that went in, in that order; the queue holds no more
    than its capacity when that is not zero; at most one thread is in a section guarded by
    the mutex; and without threads in its methods the queue can be deleted. *)
Theorem fifo_safe limit tr (s : fifo T) :
  steps (fifo_new limit) tr s ->
  popped tr ++ q_ s = pushed tr /\
  (u32 limit <> 0 -> qlen (q_ s) <= u32 limit) /\
  (forall t1 t2 p1 p2, threads s !! t1 = Some p1 -> threads s !! t2 = Some p2 ->
     holds p1 = true -> holds p2 = true -> t1 = t2) /\
  (threads s = ∅ -> fifo_delete s = Ok tt).
Proof.
  intros Hs. pose proof (steps_inv _ _ _ Hs (inv_new limit)) as Hi.
  split; [by rewrite (steps_order _ _ _ Hs)|]. split; [|split].
  - rewrite <- (steps_max _ _ _ Hs : max_ s = u32 limit). apply Hi.
  - intros t1 t2 p1 p2 E1 E2 H1 H2. apply (inv_owner _ _ _ Hi _ _ E1) in H1.
    apply (inv_owner _ _ _ Hi _ _ E2) in H2. congruence.
  - intros He. unfold fifo_delete. rewrite He. destruct (owner s) as [t|] eqn:Ho.
    + apply (inv_thread _ _ _ Hi) in Ho as [p Hp]. by rewrite He, lookup_empty in Hp.
    + rewrite !decide_True; [done|apply map_Forall_empty|done].
Qed.

(** C18 No wakeup is lost and no run gets stuck: where no thread can move by itself, every
    thread inside a method waits, those in [enq] only if the queue is full and those in
    [deq] only if it is empty, so that producers and consumers never wait together. *)
Theorem fifo_no_lost_wakeup limit tr (s : fifo T) :
  steps (fifo_new limit) tr s -> blocked s ->
  (forall t p, threads s !! t = Some p -> (exists e, p = EnqWait e) \/ p = DeqWait) /\
  (forall t e, threads s !! t = Some (EnqWait e) -> max_ s <> 0 /\ qlen (q_ s) = max_ s) /\
  (forall t, threads s !! t = Some DeqWait -> q_ s = []) /\
  (forall t e t', threads s !! t = Some (EnqWait e) -> threads s !! t' = Some DeqWait -> False).
Proof.
  intros Hs Hb. pose proof (steps_inv _ _ _ Hs (inv_new limit)) as Hi.
  assert (forall t e, threads s !! t = Some (EnqWait e) -> max_ s <> 0 /\ qlen (q_ s) = max_ s) as He.
  { intros t e Ht. destruct (inv_space _ _ _ Hi _ _ Ht eq_refl) as [Hm Hc].
    rewrite (blocked_count s sees_space) in Hc by
      (done || apply sees_space_nonneg || intros []; by (intros [|] || done)).
    pose proof (inv_bound _ _ _ Hi Hm). split; [done|lia]. }
  assert (forall t, threads s !! t = Some DeqWait -> q_ s = []) as Hd.
  { intros t Ht. pose proof (inv_item _ _ _ Hi _ _ Ht eq_refl) as Hc.
    rewrite (blocked_count s sees_item) in Hc by
      (done || apply sees_item_nonneg || intros []; by (intros [|] || done)).
    apply nil_length_inv. unfold qlen in Hc. lia. }
  split; [|split; [exact He|split; [exact Hd|]]].
  - intros t p Ht. destruct (blocked_waiting s Hi Hb t p Ht); destruct p; eauto; done.
  - intros t e t' H1 H2. apply He in H1 as [Hm Hq]. apply Hd in H2. rewrite H2 in Hq.
    unfold qlen in Hq. simpl in Hq. lia.
Qed.
End theorems.

Lemma fifo_linearizable_witness :
  steps (fifo_new 1) hand_over_trace handed_over /\
  arun 1 [HCall 1 Deq; HCall 2 (Enq 7 true); HRet 2 (REnq true)] (abs handed_over).
Proof. split; [exact run_hand_over|exact (fifo_linearizable 1 _ _ run_hand_over)]. Defined.

Lemma fifo_safe_witness :
  steps (fifo_new 1) hand_over_trace handed_over /\
  popped hand_over_trace = [7] /\ pushed hand_over_trace = [7].
Proof.
  destruct (fifo_safe 1 _ _ run_hand_over) as [Ho _]. split; [exact run_hand_over|].
  split; [|reflexivity]. rewrite <- (app_nil_r (popped _)). exact Ho.
Defined.

Lemma fifo_no_lost_wakeup_witness :
  blocked waiting /\ threads waiting !! 1%nat = Some DeqWait /\ q_ waiting = [].
Proof.
  split; [exact blocked_wait|]. split; [reflexivity|].
  destruct (fifo_no_lost_wakeup 1 _ _ run_wait blocked_wait) as (_ & _ & Hd & _).
  exact (Hd 1%nat eq_refl).
Defined.
