(* ===== verification/Marshall.v ===== *)
(** Marshalling (rpc/marshall.h): the two buffers, the headers, and the templates
    for vectors and maps.

    The operators on single values, [pack], [unpack] and [okdone] are declared in
    the header but their bodies are only in the binary librpc.a.  They are the
    parameters of class [Librpc]; what the templates rely on is [CodecLaws] and
    [LibrpcLaws]. *)
From S2P Require Import Prelude Monad Protocol InodeManager.
From Stdlib Require Import Ascii ZArith Lia.
From stdpp Require Import base list.
#[local] Open Scope Z_scope.

Record req_header := mk_req_header {
  xid : Z;           (* int *)
  proc : Z;          (* int *)
  clt_nonce : Z;     (* unsigned int *)
  srv_nonce : Z;     (* unsigned int *)
  xid_rep : Z        (* int *)
}.

Record reply_header := mk_reply_header {
  reply_xid : Z;     (* int *)
  ret : Z            (* int *)
}.

(** lang/algorithm.h *)
Definition static_max (A B : Z) : Z := if A >? B then A else B.
Definition static_min (A B : Z) : Z := if A <? B then A else B.

Definition sizeof_int : Z := 4.
Definition DEFAULT_RPC_SZ : Z := 1024.
(** [RPC_CHECKSUMMING] is not defined. *)
Definition RPC_HEADER_SZ : Z := static_max (5 * sizeof_int) (2 * sizeof_int) + sizeof_int.

Record marshall := mk_marshall { m_buf : bytes; m_capa : Z; m_ind : Z }.
Record unmarshall := mk_unmarshall { u_buf : bytes; u_sz : Z; u_ind : Z; u_ok : bool }.

(** [malloc] and [realloc]; [mem] is what the new memory holds. *)
Definition realloc (mem : Z -> byte) (old : bytes) (n : Z) : bytes :=
  take (Z.to_nat n) old ++ (mem <$> zrange (len old) (Z.to_nat (n - len old))).

Definition marshall_new (mem : Z -> byte) : marshall :=
  mk_marshall (realloc mem [] DEFAULT_RPC_SZ) DEFAULT_RPC_SZ RPC_HEADER_SZ.

(** [std::string(_buf+RPC_HEADER_SZ, _ind-RPC_HEADER_SZ)]; the length is a [size_t]. *)
Definition get_content (m : marshall) : bytes :=
  take (Z.to_nat (u64 (m_ind m - RPC_HEADER_SZ))) (drop (Z.to_nat RPC_HEADER_SZ) (m_buf m)).

Definition str (m : marshall) : bytes := get_content m.

(** The buffer changes hands and the object is left without one. *)
Definition take_buf (m : marshall) : (bytes * Z) * marshall :=
  ((m_buf m, m_ind m), mk_marshall [] (m_capa m) 0).

Definition unmarshall_new : unmarshall := mk_unmarshall [] 0 0 false.
Definition unmarshall_buf (b : bytes) (sz : Z) : unmarshall := mk_unmarshall b sz 0 true.

(** [take_content]: the string is copied behind the place of the header. *)
Definition take_content (mem : Z -> byte) (s : bytes) (u : unmarshall) : unmarshall :=
  let sz := i32 (u64 (len s + RPC_HEADER_SZ)) in
  let buf := realloc mem (u_buf u) sz in
  mk_unmarshall (take (Z.to_nat RPC_HEADER_SZ) buf ++ s ++
                 drop (Z.to_nat RPC_HEADER_SZ + length s) buf) sz RPC_HEADER_SZ true.

Definition unmarshall_str (mem : Z -> byte) (s : bytes) : unmarshall :=
  take_content mem s unmarshall_new.

Definition unmarshall_take_buf (u : unmarshall) : (bytes * Z) * unmarshall :=
  ((u_buf u, u_sz u), mk_unmarshall [] 0 0 (u_ok u)).

(** [operator<<] and [operator>>] of a type, and what a variable of the type holds
    that is declared without an initialiser.  [get] is given the old value of the
    variable it reads into. *)
Record codec (C : Type) := mk_codec {
  init : C;
  put : C -> M marshall unit;
  get : C -> M unmarshall C
}.
Arguments mk_codec {C} _ _ _.
Arguments init {C} _.
Arguments put {C} _ _.
Arguments get {C} _ _.

Class Librpc := {
  pack : Z -> M marshall unit;
  unpack : Z -> M unmarshall Z;
  okdone : unmarshall -> bool;
  c_int : codec Z;          (* int *)
  c_uint : codec Z;         (* unsigned int, uint32_t *)
  c_ull : codec Z;          (* unsigned long long *)
  c_string : codec bytes    (* std::string *)
}.

Section templates.
Context `{L : Librpc}.

Definition set_m_ind (i : Z) : M marshall unit :=
  fun m => Ok (tt, mk_marshall (m_buf m) (m_capa m) i).
Definition set_u_ind (i : Z) : M unmarshall unit :=
  fun u => Ok (tt, mk_unmarshall (u_buf u) (u_sz u) i (u_ok u)).

Definition pack_req_header (h : req_header) : M marshall unit :=
  m ← get_st;
  let saved_sz := m_ind m in
  _ ← set_m_ind sizeof_int;
  _ ← pack (xid h);
  _ ← pack (proc h);
  _ ← pack (i32 (clt_nonce h));
  _ ← pack (i32 (srv_nonce h));
  _ ← pack (xid_rep h);
  set_m_ind saved_sz.

Definition pack_reply_header (h : reply_header) : M marshall unit :=
  m ← get_st;
  let saved_sz := m_ind m in
  _ ← set_m_ind sizeof_int;
  _ ← pack (reply_xid h);
  _ ← pack (ret h);
  set_m_ind saved_sz.

(** [unpack((int * )&h->clt_nonce)] stores an [int] in an [unsigned int]. *)
Definition unpack_req_header (h : req_header) : M unmarshall req_header :=
  _ ← set_u_ind sizeof_int;
  x ← unpack (xid h);
  p ← unpack (proc h);
  c ← unpack (i32 (clt_nonce h));
  s ← unpack (i32 (srv_nonce h));
  r ← unpack (xid_rep h);
  _ ← set_u_ind RPC_HEADER_SZ;
  mret (mk_req_header x p (u32 c) (u32 s) r).

Definition unpack_reply_header (h : reply_header) : M unmarshall reply_header :=
  _ ← set_u_ind sizeof_int;
  x ← unpack (reply_xid h);
  r ← unpack (ret h);
  _ ← set_u_ind RPC_HEADER_SZ;
  mret (mk_reply_header x r).

Section vector.
Context {C : Type} (c : codec C).

(** The loop [for(unsigned i = 0; i < v.size(); i++) m << v[i];] *)
Definition put_vector_body (v : list C) (i : Z) : M marshall (ctl Z) :=
  if i <? Z.of_nat (length v) then
    match v !! Z.to_nat i with
    | Some x => _ ← put c x; mret (Next (u32 (i + 1)))
    | None => ub
    end
  else mret (Stop i).

Definition put_vector (v : list C) : M marshall unit :=
  _ ← put c_uint (u32 (Z.of_nat (length v)));
  _ ← loop (S (length v)) (put_vector_body v) 0;
  mret tt.

Definition get_vector_body (n : Z) (l : Z * list C) : M unmarshall (ctl (Z * list C)) :=
  let '(i, v) := l in
  if i <? n then
    z ← get c (init c);
    mret (Next (u32 (i + 1), v ++ [z]))
  else mret (Stop l).

Definition get_vector (v : list C) : M unmarshall (list C) :=
  n ← get c_uint (init c_uint);
  l ← loop (S (Z.to_nat n)) (get_vector_body n) (0, v);
  mret l.2.

Definition c_vector : codec (list C) := mk_codec [] put_vector get_vector.
End vector.

Section map.
(** A [std::map] is the list of its elements in the order of [operator<]. *)
Context {A B : Type} (lt : A -> A -> bool) (ca : codec A) (cb : codec B).

(** [d[a] = b] *)
Fixpoint map_set (a : A) (b : B) (d : list (A * B)) : list (A * B) :=
  match d with
  | [] => [(a, b)]
  | (a', b') :: d' =>
      if lt a a' then (a, b) :: d
      else if lt a' a then (a', b') :: map_set a b d'
      else (a', b) :: d'
  end.

Fixpoint put_entries (d : list (A * B)) : M marshall unit :=
  match d with
  | [] => mret tt
  | (a, b) :: d => _ ← put ca a; _ ← put cb b; put_entries d
  end.

Definition put_map (d : list (A * B)) : M marshall unit :=
  _ ← put c_uint (u32 (Z.of_nat (length d)));
  put_entries d.

Definition get_map_body (n : Z) (l : Z * list (A * B)) : M unmarshall (ctl (Z * list (A * B))) :=
  let '(lcv, d) := l in
  if lcv <? n then
    a ← get ca (init ca);
    b ← get cb (init cb);
    mret (Next (u32 (lcv + 1), map_set a b d))
  else mret (Stop l).

(** [d.clear()]: the old elements do not matter. *)
Definition get_map (d : list (A * B)) : M unmarshall (list (A * B)) :=
  n ← get c_uint (init c_uint);
  l ← loop (S (Z.to_nat n)) (get_map_body n) (0, []);
  mret l.2.

Definition c_map : codec (list (A * B)) := mk_codec [] put_map get_map.
End map.

(** The operators on [extent_protocol::attr] of extent_protocol.h. *)
Definition put_attr (a : attr) : M marshall unit :=
  _ ← put c_uint (a_type a);
  _ ← put c_uint (a_atime a);
  _ ← put c_uint (a_mtime a);
  _ ← put c_uint (a_ctime a);
  put c_uint (a_size a).

Definition get_attr_fields (a : attr) : M unmarshall attr :=
  ty ← get c_uint (a_type a);
  t1 ← get c_uint (a_atime a);
  t2 ← get c_uint (a_mtime a);
  t3 ← get c_uint (a_ctime a);
  sz ← get c_uint (a_size a);
  mret (mk_attr ty t1 t2 t3 sz).

Definition c_attr : codec attr :=
  mk_codec (mk_attr (init c_uint) (init c_uint) (init c_uint) (init c_uint) (init c_uint))
    put_attr get_attr_fields.
End templates.
