(* ===== verification/MarshallSpec.v ===== *)
(** What a type promises about its marshalling operators, and that the templates
    for vectors, maps and attributes keep the promise. *)
From S2P Require Import Prelude Monad Protocol InodeManager Marshall.
From Stdlib Require Import Ascii ZArith Lia.
From stdpp Require Import base list.
#[local] Open Scope Z_scope.

Definition INT_MAX : Z := 2 ^ 31 - 1.

(** ** Buffers *)

Definition m_wf (m : marshall) : Prop :=
  0 <= m_ind m <= m_capa m /\ len (m_buf m) = m_capa m.

(** The bytes below the head. *)
Definition written (m : marshall) : bytes := take (Z.to_nat (m_ind m)) (m_buf m).

(** [bs] was written at the head; what lay behind it stays. *)
Definition writes (bs : bytes) (m m' : marshall) : Prop :=
  m_wf m' /\ m_ind m' = m_ind m + len bs /\ written m' = written m ++ bs /\
  forall k, (Z.to_nat (m_ind m') <= k < length (m_buf m))%nat -> m_buf m' !! k = m_buf m !! k.

Lemma len_cat (l1 l2 : bytes) : len (l1 ++ l2) = len l1 + len l2.
Proof. unfold len. rewrite length_app. lia. Qed.

Lemma len_nonneg (l : bytes) : 0 <= len l.
Proof. unfold len. lia. Qed.

Lemma writes_nil m : m_wf m -> writes [] m m.
Proof. intros Hm. split; [done|]. rewrite app_nil_r. unfold len. simpl. split; [lia|done]. Qed.

Lemma writes_length bs m m' : writes bs m m' -> m_wf m ->
  (Z.to_nat (m_ind m') <= length (m_buf m'))%nat.
Proof. intros ([? ?] & _) _. unfold len in *. lia. Qed.

Lemma writes_trans bs1 bs2 m1 m2 m3 :
  writes bs1 m1 m2 -> writes bs2 m2 m3 -> writes (bs1 ++ bs2) m1 m3.
Proof.
  intros ([Hr2 Hl2] & Hi2 & Hw2 & Hb2) (Hm3 & Hi3 & Hw3 & Hb3).
  split; [done|]. rewrite len_cat. split; [lia|]. split; [by rewrite Hw3, Hw2, app_assoc|].
  intros k Hk. pose proof (len_nonneg bs2). destruct (decide (k < length (m_buf m2))%nat) as [Hlt|Hge].
  - rewrite Hb3 by lia. apply Hb2. lia.
  - rewrite <- Hb2 by lia. rewrite (lookup_ge_None_2 (m_buf m2)) by lia.
    exfalso. unfold len in *. destruct (m_buf m2 !! k) eqn:E; [|].
    + apply lookup_lt_Some in E. lia.
    + specialize (Hb2 k ltac:(lia)). rewrite E in Hb2. symmetry in Hb2.
      apply lookup_ge_None_1 in Hb2. lia.
Qed.

(** The bytes [bs] come next, and are read. *)
Definition next (bs : bytes) (u : unmarshall) : Prop :=
  u_ok u = true /\ 0 <= u_ind u /\ u_ind u + len bs <= u_sz u /\ u_sz u <= len (u_buf u) /\
  take (length bs) (drop (Z.to_nat (u_ind u)) (u_buf u)) = bs.

Definition skip (bs : bytes) (u : unmarshall) : unmarshall :=
  mk_unmarshall (u_buf u) (u_sz u) (u_ind u + len bs) (u_ok u).

Lemma next_app bs1 bs2 u : next (bs1 ++ bs2) u -> next bs1 u /\ next bs2 (skip bs1 u).
Proof.
  intros (Ho & Hi & Hs & Hb & Ht). rewrite len_cat in Hs. rewrite length_app in Ht.
  pose proof (len_nonneg bs1). pose proof (len_nonneg bs2).
  assert (take (length bs1) (drop (Z.to_nat (u_ind u)) (u_buf u)) = bs1) as E1.
  { apply (f_equal (take (length bs1))) in Ht. rewrite take_take, take_app_length in Ht.
    by rewrite Nat.min_l in Ht by lia. }
  split; (split; [done|]); cbn [skip u_ok u_ind u_sz u_buf]; repeat (split; [lia|]); [done|].
  apply (f_equal (drop (length bs1))) in Ht. rewrite drop_app_length, <- take_drop_commute in Ht.
  rewrite drop_drop in Ht. replace (Z.to_nat (u_ind u + len bs1))
    with (Z.to_nat (u_ind u) + length bs1)%nat by (unfold len in *; lia). done.
Qed.

Lemma skip_app bs1 bs2 u : skip (bs1 ++ bs2) u = skip bs2 (skip bs1 u).
Proof. unfold skip. cbn. rewrite len_cat. f_equal. lia. Qed.

Lemma skip_nil u : skip [] u = u.
Proof. destruct u. unfold skip, len. cbn. f_equal. lia. Qed.

(** ** The promise of a type *)

(** [ms] writes [bs]. *)
Definition emits (ms : M marshall unit) (bs : bytes) : Prop :=
  forall m, m_wf m -> m_ind m + len bs <= INT_MAX -> wp ms (fun _ m' => writes bs m m') m.

Lemma emits_seq ms1 ms2 bs1 bs2 :
  emits ms1 bs1 -> emits ms2 bs2 -> emits (_ ← ms1; ms2) (bs1 ++ bs2).
Proof.
  intros H1 H2 m Hm Hi. rewrite len_cat in Hi. pose proof (len_nonneg bs2).
  eapply wp_call; [apply H1; [done|lia]|]. intros [] m1 W1. cbn beta in *.
  assert (m_ind m1 = m_ind m + len bs1) as E1 by apply W1.
  eapply wp_mono; [apply H2; [apply W1|lia]|]. intros [] m2 W2. by eapply writes_trans.
Qed.

Lemma emits_nil : emits (mret tt) [].
Proof. intros m Hm _. apply wp_ret. by apply writes_nil. Qed.

(** [valid] are the values of the type, [enc] their bytes.  [blank] are the values a
    variable may hold before it is read into. *)
Class CodecLaws {C} (c : codec C) := {
  valid : C -> Prop;
  enc : C -> bytes;
  blank : C -> Prop;
  blank_init : blank (init c);
  law_put x : valid x -> emits (put c x) (enc x);
  law_next x old u : valid x -> blank old -> next (enc x) u ->
    wp (get c old) (fun r u' => r = x /\ u' = skip (enc x) u) u
}.
Arguments valid {C} c {_}.
Arguments enc {C} c {_}.
Arguments blank {C} c {_}.

(** The documented behaviour of librpc.a. *)
Class LibrpcLaws (L : Librpc) := {
  int_laws :: CodecLaws c_int;
  uint_laws :: CodecLaws c_uint;
  ull_laws :: CodecLaws c_ull;
  string_laws :: CodecLaws c_string;
  int_valid z : - 2 ^ 31 <= z < 2 ^ 31 -> valid c_int z;
  uint_valid z : 0 <= z < 2 ^ 32 -> valid c_uint z;
  ull_valid z : 0 <= z < 2 ^ 64 -> valid c_ull z;
  string_valid s : len s <= INT_MAX -> valid c_string s;
  scalar_blank z : blank c_int z /\ blank c_uint z /\ blank c_ull z;
  string_blank s : blank c_string s;
  (** [pack] and [unpack]: an [int] in [sizeof_int] bytes. *)
  pack_enc : Z -> bytes;
  pack_size z : len (pack_enc z) = sizeof_int;
  law_pack z : - 2 ^ 31 <= z < 2 ^ 31 -> emits (pack z) (pack_enc z);
  law_unpack z old u : - 2 ^ 31 <= z < 2 ^ 31 -> next (pack_enc z) u ->
    wp (unpack old) (fun r u' => r = z /\ u' = skip (pack_enc z) u) u;
  (** Everything was read. *)
  law_okdone u : okdone u = u_ok u && (u_ind u =? u_sz u)
}.

Section laws.
Context `{LL : LibrpcLaws}.

(** One [<<] and one [>>] of a chain. *)
Lemma wp_emits {B} ms bs (f : M marshall B) pre Q m0 m :
  emits ms bs -> writes pre m0 m -> m_ind m0 + (len pre + len bs) <= INT_MAX ->
  (forall m', writes (pre ++ bs) m0 m' -> wp f Q m') -> wp (_ ← ms; f) Q m.
Proof.
  intros He Hm Hi Hf. assert (m_ind m = m_ind m0 + len pre) as Em by apply Hm.
  eapply wp_call; [apply He; [apply Hm|lia]|]. intros [] m' Hw. cbn beta. apply Hf.
  by eapply writes_trans.
Qed.

Lemma wp_get {C B} (c : codec C) `{!CodecLaws c} x old rest (f : C -> M unmarshall B) Q u :
  valid c x -> blank c old -> next (enc c x ++ rest) u ->
  (next rest (skip (enc c x) u) -> wp (f x) Q (skip (enc c x) u)) ->
  wp (z ← get c old; f z) Q u.
Proof.
  intros Hx Hb [H1 H2]%next_app Hf. eapply wp_call; [by apply law_next|].
  intros z u' [-> ->]. by apply Hf.
Qed.

(** ** Vectors *)
Section vector.
Context {C : Type} (c : codec C) `{!CodecLaws c}.

Definition enc_all (v : list C) : bytes := v ≫= enc c.

Definition vector_valid (v : list C) : Prop :=
  Z.of_nat (length v) < 2 ^ 32 /\ Forall (valid c) v.

Definition vector_enc (v : list C) : bytes :=
  enc c_uint (Z.of_nat (length v)) ++ enc_all v.

Lemma enc_all_take v i x : v !! i = Some x -> enc_all (take (S i) v) = enc_all (take i v) ++ enc c x.
Proof.
  intros Hx. erewrite take_S_r by done. unfold enc_all. rewrite bind_app. cbn. by rewrite app_nil_r.
Qed.

Lemma len_enc_take v i : len (enc_all (take i v)) <= len (enc_all v).
Proof.
  rewrite <- (take_drop i v) at 2. unfold enc_all. rewrite bind_app, len_cat.
  pose proof (len_nonneg (drop i v ≫= enc c)). lia.
Qed.

Lemma vector_put v : vector_valid v -> emits (put_vector c v) (vector_enc v).
Proof.
  intros [Hlen Hv] m Hm Hi. unfold vector_enc in *. rewrite len_cat in Hi.
  pose proof (len_nonneg (enc_all v)). unfold put_vector. rewrite u32_id by lia.
  eapply (wp_emits _ _ _ [] _ m); [apply law_put, uint_valid; lia|by apply writes_nil|change (len []) with 0; lia|].
  intros m1 W1. rewrite app_nil_l in W1. apply wp_bind.
  eapply wp_loop with (Inv := fun i m' => 0 <= i <= Z.of_nat (length v) /\
      writes (enc c_uint (Z.of_nat (length v)) ++ enc_all (take (Z.to_nat i) v)) m m')
    (variant := fun i => (length v - Z.to_nat i)%nat); [| |lia].
  - intros i m' [Hi' Hw]. unfold put_vector_body. apply wp_if; intros Hc.
    + apply Z.ltb_lt in Hc. destruct (lookup_lt_is_Some_2 v (Z.to_nat i)) as [x Hx]; [lia|].
      rewrite Hx. pose proof (enc_all_take v _ x Hx) as Ex.
      pose proof (len_enc_take v (S (Z.to_nat i))) as Hl. rewrite Ex, len_cat in Hl.
      assert (valid c x) as Hvx by (rewrite Forall_lookup in Hv; by eapply Hv).
      eapply wp_emits; [by apply law_put|exact Hw|rewrite len_cat; lia|].
      intros m2 H2. apply wp_ret. rewrite u32_id by lia. split; [|lia]. split; [lia|].
      replace (Z.to_nat (i + 1)) with (S (Z.to_nat i)) by lia. by rewrite Ex, app_assoc.
    + apply Z.ltb_ge in Hc. apply wp_ret. cbn. apply wp_ret.
      rewrite take_ge in Hw by lia. done.
  - split; [lia|]. cbn. by rewrite app_nil_r.
Qed.

(** The elements are appended to what the vector held. *)
Lemma vector_get v old u : vector_valid v -> next (vector_enc v) u ->
  wp (get_vector c old) (fun r u' => r = old ++ v /\ u' = skip (vector_enc v) u) u.
Proof.
  intros [Hlen Hv] Hn. unfold get_vector. eapply (wp_get c_uint (Z.of_nat (length v)));
    [apply uint_valid; lia|apply blank_init|exact Hn|].
  intros Hn1. apply wp_bind.
  eapply wp_loop with (Inv := fun l u' => exists k, (k <= length v)%nat /\ l = (Z.of_nat k, old ++ take k v) /\
      next (enc_all (drop k v)) u' /\
      skip (enc_all (drop k v)) u' = skip (vector_enc v) u)
    (variant := fun l => (length v - Z.to_nat l.1)%nat); [| |cbn [fst]; lia].
  - intros l u' (k & Hk & -> & Hu & Es). unfold get_vector_body. apply wp_if; intros Hc.
    + apply Z.ltb_lt in Hc. destruct (lookup_lt_is_Some_2 v k) as [x Hx]; [lia|].
      rewrite (drop_S _ _ _ Hx) in Hu, Es. cbn [enc_all mbind list_bind] in Hu, Es.
      change (drop (S k) v ≫= enc c) with (enc_all (drop (S k) v)) in Hu, Es.
      eapply wp_get; [|apply blank_init|exact Hu|].
      { rewrite Forall_lookup in Hv. by eapply Hv. }
      intros Hu'. apply wp_ret. rewrite u32_id by lia. cbn [fst]. split; [|lia].
      exists (S k). split; [lia|]. rewrite (take_S_r _ _ _ Hx), app_assoc.
      split; [f_equal; lia|]. split; [done|]. by rewrite <- skip_app.
    + apply Z.ltb_ge in Hc. assert (k = length v) as -> by lia. rewrite drop_all in Es.
      cbn [enc_all mbind list_bind] in Es. rewrite skip_nil in Es. repeat apply wp_ret.
      cbn [snd]. by rewrite take_ge by lia.
  - exists 0%nat. split; [lia|]. rewrite app_nil_r, drop_0. split; [done|]. split; [done|].
    unfold vector_enc. by rewrite skip_app.
Qed.

#[export] Instance vector_laws : CodecLaws (c_vector c).
Proof.
  refine {| valid := vector_valid : list C -> Prop; enc := vector_enc; blank := fun v => v = [] |}.
  - done.
  - exact vector_put.
  - intros x old u Hx -> Hn. exact (vector_get x [] u Hx Hn).
Defined.
End vector.

(** ** Maps *)
Section map.
Context {A B : Type} (lt : A -> A -> bool) (ca : codec A) (cb : codec B).
Context `{!CodecLaws ca, !CodecLaws cb}.

(** [std::map] requires a strict order. *)
Hypothesis lt_asym : forall a a', lt a a' = true -> lt a' a = false.

Definition map_enc_all (d : list (A * B)) : bytes := d ≫= (fun e => enc ca e.1 ++ enc cb e.2).

Definition map_valid (d : list (A * B)) : Prop :=
  Z.of_nat (length d) < 2 ^ 32 /\
  Forall (fun e => valid ca e.1 /\ valid cb e.2) d /\
  (forall i j e e', (i < j)%nat -> d !! i = Some e -> d !! j = Some e' -> lt e.1 e'.1 = true).

Definition map_enc (d : list (A * B)) : bytes :=
  enc c_uint (Z.of_nat (length d)) ++ map_enc_all d.

(** A key above all others goes to the end. *)
Lemma map_set_last a (b : B) d :
  Forall (fun e => lt e.1 a = true) d -> map_set lt a b d = d ++ [(a, b)].
Proof.
  induction 1 as [|[a' b'] d Hl _ IH]; [done|]. cbn in *. rewrite (lt_asym a' a), Hl by done.
  by rewrite IH.
Qed.

Lemma map_put_entries d :
  Forall (fun e => valid ca e.1 /\ valid cb e.2) d -> emits (put_entries ca cb d) (map_enc_all d).
Proof.
  induction 1 as [|[a b] d [Ha Hb] _ IH]; [apply emits_nil|].
  cbn [put_entries map_enc_all mbind list_bind fst snd]. rewrite <- app_assoc.
  repeat apply emits_seq; auto using law_put.
Qed.

Lemma map_put d : map_valid d -> emits (put_map ca cb d) (map_enc d).
Proof.
  intros (Hlen & Hv & _). unfold put_map. rewrite u32_id by lia.
  apply emits_seq; [apply law_put, uint_valid; lia|by apply map_put_entries].
Qed.

Lemma map_get d old u : map_valid d -> next (map_enc d) u ->
  wp (get_map lt ca cb old) (fun r u' => r = d /\ u' = skip (map_enc d) u) u.
Proof.
  intros (Hlen & Hv & Hsort) Hn. unfold get_map. eapply (wp_get c_uint (Z.of_nat (length d)));
    [apply uint_valid; lia|apply blank_init|exact Hn|].
  intros Hn1. apply wp_bind.
  eapply wp_loop with (Inv := fun l u' => exists k, (k <= length d)%nat /\ l = (Z.of_nat k, take k d) /\
      next (map_enc_all (drop k d)) u' /\
      skip (map_enc_all (drop k d)) u' = skip (map_enc d) u)
    (variant := fun l => (length d - Z.to_nat l.1)%nat); [| |cbn [fst]; lia].
  - intros l u' (k & Hk & -> & Hu & Es). unfold get_map_body. apply wp_if; intros Hc.
    + apply Z.ltb_lt in Hc. destruct (lookup_lt_is_Some_2 d k) as [[a b] Hx]; [lia|].
      rewrite (drop_S _ _ _ Hx) in Hu, Es. cbn [map_enc_all mbind list_bind fst snd] in Hu, Es.
      change (drop (S k) d ≫= (fun e => enc ca e.1 ++ enc cb e.2))
        with (map_enc_all (drop (S k) d)) in Hu, Es.
      pose proof (proj1 (Forall_lookup _ _) Hv _ _ Hx) as [Ha Hb]. rewrite <- app_assoc in Hu, Es.
      eapply (wp_get ca); [exact Ha|apply blank_init|exact Hu|]. intros Hu1.
      eapply (wp_get cb); [exact Hb|apply blank_init|exact Hu1|]. intros Hu2.
      apply wp_ret. rewrite u32_id by lia. cbn [fst]. split; [|lia].
      exists (S k). split; [lia|]. rewrite map_set_last.
      * rewrite (take_S_r _ _ _ Hx). split; [f_equal; lia|]. split; [done|].
        by rewrite <- !skip_app.
      * apply Forall_lookup. intros j e He. apply lookup_take_Some in He as [He Hj].
        exact (Hsort j k e (a, b) Hj He Hx).
    + apply Z.ltb_ge in Hc. assert (k = length d) as -> by lia. rewrite drop_all in Es.
      cbn [map_enc_all mbind list_bind] in Es. rewrite skip_nil in Es. repeat apply wp_ret.
      cbn [snd]. by rewrite take_ge by lia.
  - exists 0%nat. split; [lia|]. rewrite drop_0. split; [done|]. split; [done|].
    unfold map_enc. by rewrite skip_app.
Qed.

(** Not an instance: the order is a hypothesis. *)
Definition map_laws : CodecLaws (c_map lt ca cb).
Proof.
  refine {| valid := map_valid : list (A * B) -> Prop; enc := map_enc; blank := fun _ => True |}.
  - done.
  - exact map_put.
  - intros x old u Hx _ Hn. by apply map_get.
Defined.
End map.

(** ** Attributes *)
Definition attr_valid (a : attr) : Prop :=
  valid c_uint (a_type a) /\ valid c_uint (a_atime a) /\ valid c_uint (a_mtime a) /\
  valid c_uint (a_ctime a) /\ valid c_uint (a_size a).

Definition attr_enc (a : attr) : bytes :=
  enc c_uint (a_type a) ++ enc c_uint (a_atime a) ++ enc c_uint (a_mtime a) ++
  enc c_uint (a_ctime a) ++ enc c_uint (a_size a).

#[export] Instance attr_laws : CodecLaws c_attr.
Proof.
  refine {| valid := attr_valid : attr -> Prop; enc := attr_enc; blank := fun _ => True |}.
  - done.
  - intros a (H1 & H2 & H3 & H4 & H5). cbn [put c_attr]. unfold put_attr, attr_enc.
    repeat apply emits_seq; by apply law_put.
  - intros a old u (H1 & H2 & H3 & H4 & H5) _ Hn. unfold attr_enc in *.
    cbn [get c_attr]. unfold get_attr_fields.
    eapply wp_get; [exact H1|apply scalar_blank|exact Hn|]. intros Hn1.
    eapply wp_get; [exact H2|apply scalar_blank|exact Hn1|]. intros Hn2.
    eapply wp_get; [exact H3|apply scalar_blank|exact Hn2|]. intros Hn3.
    eapply wp_get; [exact H4|apply scalar_blank|exact Hn3|]. intros Hn4.
    rewrite <- (app_nil_r (enc c_uint (a_size a))) in Hn4.
    eapply wp_get; [exact H5|apply scalar_blank|exact Hn4|]. intros Hn5.
    apply wp_ret. split; [by destruct a|]. by rewrite !skip_app.
Defined.

(** ** Messages *)

Lemma len_realloc mem old n : 0 <= n -> len (realloc mem old n) = n.
Proof.
  intros Hn. unfold realloc, len. rewrite length_app, length_take, length_fmap, length_zrange. lia.
Qed.

Lemma marshall_new_wf mem : m_wf (marshall_new mem).
Proof.
  unfold marshall_new, m_wf. cbn [m_ind m_capa m_buf]. by rewrite len_realloc.
Qed.

Lemma get_content_eq m : m_wf m -> RPC_HEADER_SZ <= m_ind m <= INT_MAX ->
  get_content m = drop (Z.to_nat RPC_HEADER_SZ) (written m).
Proof.
  intros [Hm Hl] Hi. unfold get_content, written. change RPC_HEADER_SZ with 24 in *.
  unfold INT_MAX in Hi. rewrite u64_id by lia.
  rewrite take_drop_commute. do 2 f_equal. lia.
Qed.

(** The content of a new buffer is what was written into it. *)
Lemma content_new mem bs m : writes bs (marshall_new mem) m -> RPC_HEADER_SZ + len bs <= INT_MAX ->
  get_content m = bs.
Proof.
  intros (Hm & Hi & Hw & _) Hl. pose proof (len_nonneg bs).
  change (m_ind (marshall_new mem)) with RPC_HEADER_SZ in Hi.
  rewrite get_content_eq, Hw by (done || lia). apply drop_app_length'. unfold written.
  rewrite length_take. pose proof (marshall_new_wf mem) as [Hr Hb]. unfold len in Hb.
  change (m_ind (marshall_new mem)) with RPC_HEADER_SZ in *. lia.
Qed.

(** An unmarshall of a string is about to read the string. *)
Lemma next_str mem bs : RPC_HEADER_SZ + len bs <= INT_MAX -> next bs (unmarshall_str mem bs).
Proof.
  intros Hl. pose proof (len_nonneg bs). unfold unmarshall_str, take_content.
  change RPC_HEADER_SZ with 24 in *. unfold INT_MAX in Hl.
  assert (i32 (u64 (len bs + 24)) = len bs + 24) as -> by (rewrite u64_id, i32_id by lia; done).
  pose proof (len_realloc mem (u_buf unmarshall_new) (len bs + 24) ltac:(lia)) as Hr.
  set (buf := realloc _ _ _) in *. unfold next. cbn [u_ok u_ind u_sz u_buf].
  assert (length (take (Z.to_nat 24) buf) = Z.to_nat 24) as Ht.
  { rewrite length_take. unfold len in Hr. lia. }
  split; [done|]. split; [lia|]. split; [lia|]. split.
  - rewrite !len_cat. unfold len in *. rewrite Ht, length_drop. lia.
  - rewrite drop_app_length' by done. by rewrite take_app_length.
Qed.

Lemma okdone_str mem bs : RPC_HEADER_SZ + len bs <= INT_MAX ->
  okdone (skip bs (unmarshall_str mem bs)) = true.
Proof.
  intros Hl. pose proof (len_nonneg bs). rewrite law_okdone. unfold unmarshall_str, take_content.
  change RPC_HEADER_SZ with 24 in *. unfold INT_MAX in Hl. cbn [skip u_ok u_ind u_sz].
  assert (i32 (u64 (len bs + 24)) = len bs + 24) as -> by (rewrite u64_id, i32_id by lia; done).
  apply Z.eqb_eq. lia.
Qed.

(** Bytes that are left over are noticed. *)
Lemma okdone_left mem bs extra : RPC_HEADER_SZ + len (bs ++ extra) <= INT_MAX -> extra <> [] ->
  okdone (skip bs (unmarshall_str mem (bs ++ extra))) = false.
Proof.
  intros Hl Hx. rewrite law_okdone. unfold unmarshall_str, take_content. rewrite len_cat in *.
  pose proof (len_nonneg bs). pose proof (len_nonneg extra).
  change RPC_HEADER_SZ with 24 in *. unfold INT_MAX in Hl. cbn [skip u_ok u_ind u_sz].
  rewrite u64_id, i32_id by lia. apply Z.eqb_neq.
  assert (length extra <> 0%nat) by by intros ?%nil_length_inv. unfold len. lia.
Qed.

(** ** Headers *)
Definition is_int (z : Z) : Prop := - 2 ^ 31 <= z < 2 ^ 31.

Lemma i32_is_int z : is_int (i32 z).
Proof. unfold is_int, i32. pose proof (Z.mod_pos_bound (z + 2 ^ 31) (2 ^ 32)). lia. Qed.

Lemma u32_i32 z : 0 <= z < 2 ^ 32 -> u32 (i32 z) = z.
Proof.
  intros Hz. unfold u32, i32. rewrite Zminus_mod_idemp_l.
  replace (z + 2 ^ 31 - 2 ^ 31) with z by lia. by apply Z.mod_small.
Qed.

Definition ints_enc (zs : list Z) : bytes := zs ≫= pack_enc.

Lemma len_ints_enc zs : len (ints_enc zs) = sizeof_int * Z.of_nat (length zs).
Proof.
  induction zs as [|z zs IH]; [done|]. cbn [ints_enc mbind list_bind].
  change (zs ≫= pack_enc) with (ints_enc zs). rewrite len_cat, pack_size, IH. simpl length. lia.
Qed.

Lemma wp_unpack {B} z zs old (f : Z -> M unmarshall B) Q u :
  is_int z -> next (ints_enc (z :: zs)) u ->
  (next (ints_enc zs) (skip (pack_enc z) u) -> wp (f z) Q (skip (pack_enc z) u)) ->
  wp (x ← unpack old; f x) Q u.
Proof.
  intros Hz [H1 H2]%next_app Hf. eapply wp_call; [by apply law_unpack|].
  intros x u' [-> ->]. by apply Hf.
Qed.

(** What packing at the place of the header leaves when the head is put back. *)
Lemma header_back zs m m' : m_wf m -> RPC_HEADER_SZ <= m_ind m <= INT_MAX ->
  sizeof_int * (1 + Z.of_nat (length zs)) <= RPC_HEADER_SZ ->
  writes (ints_enc zs) (mk_marshall (m_buf m) (m_capa m) sizeof_int) m' ->
  let m2 := mk_marshall (m_buf m') (m_capa m') (m_ind m) in
  m_wf m2 /\ get_content m2 = get_content m /\
  next (ints_enc zs) (mk_unmarshall (m_buf m2) (m_ind m2) sizeof_int true).
Proof.
  intros [Hr Hl] Hi Hz (Hm' & Hi' & Hw & Hb) m2. rewrite len_ints_enc in Hi'.
  cbn [m_ind m_capa m_buf] in *. change RPC_HEADER_SZ with 24 in *. change sizeof_int with 4 in *.
  unfold INT_MAX in Hi. destruct Hm' as [Hr' Hl'].
  assert (forall k, (Z.to_nat (m_ind m') <= k < Z.to_nat (m_ind m))%nat -> m_buf m' !! k = m_buf m !! k) as Hk.
  { intros k Hk. apply Hb. unfold len in Hl. lia. }
  assert (m_ind m <= len (m_buf m')) as Hle.
  { destruct (decide (m_ind m = m_ind m')) as [|Hne]; [lia|].
    destruct (lookup_lt_is_Some_2 (m_buf m) (Z.to_nat (m_ind m) - 1)) as [b Eb];
      [unfold len in Hl; lia|].
    rewrite <- Hk in Eb by lia. apply lookup_lt_Some in Eb. unfold len. lia. }
  split; [split; cbn; [lia|done]|]. split.
  - unfold get_content. change RPC_HEADER_SZ with 24. cbn [m2 m_ind m_buf]. rewrite u64_id by lia.
    apply list_eq. intros k. destruct (decide (k < Z.to_nat (m_ind m - 24))%nat) as [Hlt|Hge].
    + rewrite !lookup_take_lt, !lookup_drop by done. apply Hk. lia.
    + by rewrite !lookup_take_ge by lia.
  - unfold next. cbn [m2 u_ok u_ind u_sz u_buf m_buf m_ind]. rewrite len_ints_enc.
    split; [done|]. split; [lia|]. change sizeof_int with 4. split; [lia|]. split; [lia|].
    apply (f_equal (drop (Z.to_nat 4))) in Hw. unfold written in Hw. cbn [m_ind m_buf] in Hw.
    rewrite drop_app_length' in Hw by (rewrite length_take; unfold len in Hl; lia).
    rewrite <- Hw at 2. rewrite take_drop_commute. do 2 f_equal.
    pose proof (len_ints_enc zs). unfold len, sizeof_int in *. lia.
Qed.
Ltac pack_step W :=
  eapply wp_emits; [apply law_pack; first [assumption|apply i32_is_int]|exact W
    |rewrite ?len_cat, ?pack_size; change (len []) with 0; cbn [m_ind]; unfold sizeof_int, INT_MAX; lia|];
  clear W; intros ? W; cbn beta in W.

Lemma wf_header m : m_wf m -> RPC_HEADER_SZ <= m_ind m ->
  m_wf (mk_marshall (m_buf m) (m_capa m) sizeof_int).
Proof. intros [? ?] Hi. change RPC_HEADER_SZ with 24 in Hi. split; cbn [m_ind m_capa m_buf]; [unfold sizeof_int; lia|done]. Qed.

(** Packing a header changes the place of the header only, and a receiver of the
    buffer unpacks it. *)
Lemma wp_pack_req_header h h0 m : m_wf m -> RPC_HEADER_SZ <= m_ind m <= INT_MAX ->
  is_int (xid h) -> is_int (proc h) -> 0 <= clt_nonce h < 2 ^ 32 ->
  0 <= srv_nonce h < 2 ^ 32 -> is_int (xid_rep h) ->
  wp (pack_req_header h) (fun _ m' =>
    m_wf m' /\ m_ind m' = m_ind m /\ get_content m' = get_content m /\
    wp (unpack_req_header h0) (fun h' u => h' = h /\
        u = mk_unmarshall (m_buf m') (m_ind m') RPC_HEADER_SZ true)
      (unmarshall_buf (m_buf m') (m_ind m'))) m.
Proof.
  intros Hm Hi H1 H2 H3 H4 H5.
  pose proof (writes_nil _ (wf_header m Hm ltac:(lia))) as W.
  unfold pack_req_header. wp_step. wp_step. apply wp_bind. unfold set_m_ind at 1, wp at 1.
  do 5 pack_step W. unfold set_m_ind, wp at 1.
  rewrite app_nil_l, <- !app_assoc, <- (app_nil_r (pack_enc (xid_rep h))) in W.
  apply (header_back [xid h; proc h; i32 (clt_nonce h); i32 (srv_nonce h); xid_rep h] m _ Hm Hi) in W
    as (Hm' & Hc & Hn); [|by vm_compute].
  cbn [m_buf m_ind] in *. split; [done|]. split; [done|]. split; [done|].
  unfold unpack_req_header. apply wp_bind. unfold set_u_ind at 1, wp at 1.
  cbn [u_buf u_sz u_ok unmarshall_buf].
  eapply wp_unpack; [exact H1|exact Hn|]. intros Hn1.
  eapply wp_unpack; [exact H2|exact Hn1|]. intros Hn2.
  eapply wp_unpack; [apply i32_is_int|exact Hn2|]. intros Hn3.
  eapply wp_unpack; [apply i32_is_int|exact Hn3|]. intros Hn4.
  eapply wp_unpack; [exact H5|exact Hn4|]. intros _.
  apply wp_bind. unfold set_u_ind at 1, wp at 1. apply wp_ret. rewrite !u32_i32 by done.
  split; [by destruct h|done].
Qed.

Lemma wp_pack_reply_header h h0 m : m_wf m -> RPC_HEADER_SZ <= m_ind m <= INT_MAX ->
  is_int (reply_xid h) -> is_int (ret h) ->
  wp (pack_reply_header h) (fun _ m' =>
    m_wf m' /\ m_ind m' = m_ind m /\ get_content m' = get_content m /\
    wp (unpack_reply_header h0) (fun h' u => h' = h /\
        u = mk_unmarshall (m_buf m') (m_ind m') RPC_HEADER_SZ true)
      (unmarshall_buf (m_buf m') (m_ind m'))) m.
Proof.
  intros Hm Hi H1 H2.
  pose proof (writes_nil _ (wf_header m Hm ltac:(lia))) as W.
  unfold pack_reply_header. wp_step. wp_step. apply wp_bind. unfold set_m_ind at 1, wp at 1.
  do 2 pack_step W. unfold set_m_ind, wp at 1.
  rewrite app_nil_l, <- (app_nil_r (pack_enc (ret h))) in W.
  apply (header_back [reply_xid h; ret h] m _ Hm Hi) in W as (Hm' & Hc & Hn); [|by vm_compute].
  cbn [m_buf m_ind] in *. split; [done|]. split; [done|]. split; [done|].
  unfold unpack_reply_header. apply wp_bind. unfold set_u_ind at 1, wp at 1.
  cbn [u_buf u_sz u_ok unmarshall_buf].
  eapply wp_unpack; [exact H1|exact Hn|]. intros Hn1.
  eapply wp_unpack; [exact H2|exact Hn1|]. intros _.
  apply wp_bind. unfold set_u_ind at 1, wp at 1. apply wp_ret. split; [by destruct h|done].
Qed.
End laws.

Create HintDb marshall discriminated.
#[export] Hint Resolve law_put emits_nil : marshall.
