(* ===== verification/Rpc.v ===== *)
(** Remote calls (rpc/rpc.h): the templates [rpcc::call], which marshal the arguments
    of a call and unmarshal its result, and the handlers that [rpcs::reg] makes of
    methods.

    [call1], which sends a request and waits for the reply, is only in librpc.a and
    is a parameter; so is [reg1], and [reg_1] to [reg_7] are the handlers it is
    given. *)
From S2P Require Import Prelude Monad Protocol InodeManager Marshall.
From Stdlib Require Import Ascii ZArith Lia.
From stdpp Require Import base list.
#[local] Open Scope Z_scope.

(** [rpc_const] *)
Definition bind_proc : Z := 1.
Definition timeout_failure : Z := -1.
Definition unmarshal_args_failure : Z := -2.
Definition unmarshal_reply_failure : Z := -3.
Definition atmostonce_failure : Z := -4.
Definition oldsrv_failure : Z := -5.
Definition bind_failure : Z := -6.
Definition cancel_failure : Z := -7.

(** Running an operation of a local object. *)
Definition with_obj {W T A} (m : M T A) (t : T) : M W (A * T) :=
  fun w => match m t with
           | Ok (a, t') => Ok ((a, t'), w)
           | Assert_failed => Assert_failed
           | Exit c => Exit c
           | Throw => Throw
           | UB => UB
           | Diverged => Diverged
           end.

Section rpc.
Context `{L : Librpc}.
(** The state outside the buffers, and what fresh memory holds. *)
Context {W : Type} (mem : Z -> byte).

(** [handler::fn]: the return value and the two buffers. *)
Definition handler : Type := unmarshall -> marshall -> M W (Z * unmarshall * marshall).

(** [rpcc::call1(proc, req, rep, to)]: the return value and [rep]. *)
Context (call1 : Z -> marshall -> unmarshall -> Z -> M W (Z * unmarshall)).

Section calls.
Context {R : Type} (cr : codec R).

Definition call_m (proc : Z) (req : marshall) (r : R) (to : Z) : M W (Z * R) :=
  p ← call1 proc req unmarshall_new to;
  let '(intret, u) := p in
  if intret <? 0 then mret (intret, r)
  else
    p ← with_obj (get cr r) u;
    let '(r, u) := p in
    if negb (okdone u) then
      _ ← c_assert false;
      mret (unmarshal_reply_failure, r)
    else mret (intret, r).

(** [marshall m;] and the operators applied to it *)
Definition marshalled (ms : M marshall unit) : M W marshall :=
  p ← with_obj ms (marshall_new mem); mret p.2.

Definition call_0 (proc : Z) (r : R) (to : Z) : M W (Z * R) :=
  m ← marshalled (mret tt);
  call_m proc m r to.

Definition call_1 {A1} (c1 : codec A1) (proc : Z)
    (a1 : A1) (r : R) (to : Z) : M W (Z * R) :=
  m ← marshalled (put c1 a1);
  call_m proc m r to.

Definition call_2 {A1 A2} (c1 : codec A1) (c2 : codec A2) (proc : Z)
    (a1 : A1) (a2 : A2) (r : R) (to : Z) : M W (Z * R) :=
  m ← marshalled (_ ← put c1 a1; put c2 a2);
  call_m proc m r to.

Definition call_3 {A1 A2 A3} (c1 : codec A1) (c2 : codec A2) (c3 : codec A3) (proc : Z)
    (a1 : A1) (a2 : A2) (a3 : A3) (r : R) (to : Z) : M W (Z * R) :=
  m ← marshalled (_ ← put c1 a1; _ ← put c2 a2; put c3 a3);
  call_m proc m r to.

Definition call_4 {A1 A2 A3 A4} (c1 : codec A1) (c2 : codec A2) (c3 : codec A3) (c4 : codec A4) (proc : Z)
    (a1 : A1) (a2 : A2) (a3 : A3) (a4 : A4) (r : R) (to : Z) : M W (Z * R) :=
  m ← marshalled (_ ← put c1 a1; _ ← put c2 a2; _ ← put c3 a3; put c4 a4);
  call_m proc m r to.

Definition call_5 {A1 A2 A3 A4 A5} (c1 : codec A1) (c2 : codec A2) (c3 : codec A3) (c4 : codec A4) (c5 : codec A5) (proc : Z)
    (a1 : A1) (a2 : A2) (a3 : A3) (a4 : A4) (a5 : A5) (r : R) (to : Z) : M W (Z * R) :=
  m ← marshalled (_ ← put c1 a1; _ ← put c2 a2; _ ← put c3 a3; _ ← put c4 a4; put c5 a5);
  call_m proc m r to.

Definition call_6 {A1 A2 A3 A4 A5 A6} (c1 : codec A1) (c2 : codec A2) (c3 : codec A3) (c4 : codec A4) (c5 : codec A5) (c6 : codec A6) (proc : Z)
    (a1 : A1) (a2 : A2) (a3 : A3) (a4 : A4) (a5 : A5) (a6 : A6) (r : R) (to : Z) : M W (Z * R) :=
  m ← marshalled (_ ← put c1 a1; _ ← put c2 a2; _ ← put c3 a3; _ ← put c4 a4; _ ← put c5 a5; put c6 a6);
  call_m proc m r to.

Definition call_7 {A1 A2 A3 A4 A5 A6 A7} (c1 : codec A1) (c2 : codec A2) (c3 : codec A3) (c4 : codec A4) (c5 : codec A5) (c6 : codec A6) (c7 : codec A7) (proc : Z)
    (a1 : A1) (a2 : A2) (a3 : A3) (a4 : A4) (a5 : A5) (a6 : A6) (a7 : A7) (r : R) (to : Z) : M W (Z * R) :=
  m ← marshalled (_ ← put c1 a1; _ ← put c2 a2; _ ← put c3 a3; _ ← put c4 a4; _ ← put c5 a5; _ ← put c6 a6; put c7 a7);
  call_m proc m r to.
End calls.

Section handlers.
Context {R : Type} (cr : codec R).

(** The end of every [fn]: the arguments are complete, the method is called, and its
    result marshalled. *)
Definition reply_with (meth : R -> M W (Z * R)) (args : unmarshall) (ret : marshall) :
    M W (Z * unmarshall * marshall) :=
  if negb (okdone args) then mret (unmarshal_args_failure, args, ret)
  else
    p ← meth (init cr);
    let '(b, r) := p in
    q ← with_obj (put cr r) ret;
    let '(_, ret) := q in
    mret (b, args, ret).

Definition reg_1 {A1} (c1 : codec A1)
    (meth : A1 -> R -> M W (Z * R)) : handler := fun args ret =>
  p ← with_obj (get c1 (init c1)) args; let '(a1, args) := p in
  reply_with (meth a1) args ret.

Definition reg_2 {A1 A2} (c1 : codec A1) (c2 : codec A2)
    (meth : A1 -> A2 -> R -> M W (Z * R)) : handler := fun args ret =>
  p ← with_obj (get c1 (init c1)) args; let '(a1, args) := p in
  p ← with_obj (get c2 (init c2)) args; let '(a2, args) := p in
  reply_with (meth a1 a2) args ret.

Definition reg_3 {A1 A2 A3} (c1 : codec A1) (c2 : codec A2) (c3 : codec A3)
    (meth : A1 -> A2 -> A3 -> R -> M W (Z * R)) : handler := fun args ret =>
  p ← with_obj (get c1 (init c1)) args; let '(a1, args) := p in
  p ← with_obj (get c2 (init c2)) args; let '(a2, args) := p in
  p ← with_obj (get c3 (init c3)) args; let '(a3, args) := p in
  reply_with (meth a1 a2 a3) args ret.

Definition reg_4 {A1 A2 A3 A4} (c1 : codec A1) (c2 : codec A2) (c3 : codec A3) (c4 : codec A4)
    (meth : A1 -> A2 -> A3 -> A4 -> R -> M W (Z * R)) : handler := fun args ret =>
  p ← with_obj (get c1 (init c1)) args; let '(a1, args) := p in
  p ← with_obj (get c2 (init c2)) args; let '(a2, args) := p in
  p ← with_obj (get c3 (init c3)) args; let '(a3, args) := p in
  p ← with_obj (get c4 (init c4)) args; let '(a4, args) := p in
  reply_with (meth a1 a2 a3 a4) args ret.

Definition reg_5 {A1 A2 A3 A4 A5} (c1 : codec A1) (c2 : codec A2) (c3 : codec A3) (c4 : codec A4) (c5 : codec A5)
    (meth : A1 -> A2 -> A3 -> A4 -> A5 -> R -> M W (Z * R)) : handler := fun args ret =>
  p ← with_obj (get c1 (init c1)) args; let '(a1, args) := p in
  p ← with_obj (get c2 (init c2)) args; let '(a2, args) := p in
  p ← with_obj (get c3 (init c3)) args; let '(a3, args) := p in
  p ← with_obj (get c4 (init c4)) args; let '(a4, args) := p in
  p ← with_obj (get c5 (init c5)) args; let '(a5, args) := p in
  reply_with (meth a1 a2 a3 a4 a5) args ret.

Definition reg_6 {A1 A2 A3 A4 A5 A6} (c1 : codec A1) (c2 : codec A2) (c3 : codec A3) (c4 : codec A4) (c5 : codec A5) (c6 : codec A6)
    (meth : A1 -> A2 -> A3 -> A4 -> A5 -> A6 -> R -> M W (Z * R)) : handler := fun args ret =>
  p ← with_obj (get c1 (init c1)) args; let '(a1, args) := p in
  p ← with_obj (get c2 (init c2)) args; let '(a2, args) := p in
  p ← with_obj (get c3 (init c3)) args; let '(a3, args) := p in
  p ← with_obj (get c4 (init c4)) args; let '(a4, args) := p in
  p ← with_obj (get c5 (init c5)) args; let '(a5, args) := p in
  p ← with_obj (get c6 (init c6)) args; let '(a6, args) := p in
  reply_with (meth a1 a2 a3 a4 a5 a6) args ret.

Definition reg_7 {A1 A2 A3 A4 A5 A6 A7} (c1 : codec A1) (c2 : codec A2) (c3 : codec A3) (c4 : codec A4) (c5 : codec A5) (c6 : codec A6) (c7 : codec A7)
    (meth : A1 -> A2 -> A3 -> A4 -> A5 -> A6 -> A7 -> R -> M W (Z * R)) : handler := fun args ret =>
  p ← with_obj (get c1 (init c1)) args; let '(a1, args) := p in
  p ← with_obj (get c2 (init c2)) args; let '(a2, args) := p in
  p ← with_obj (get c3 (init c3)) args; let '(a3, args) := p in
  p ← with_obj (get c4 (init c4)) args; let '(a4, args) := p in
  p ← with_obj (get c5 (init c5)) args; let '(a5, args) := p in
  p ← with_obj (get c6 (init c6)) args; let '(a6, args) := p in
  p ← with_obj (get c7 (init c7)) args; let '(a7, args) := p in
  reply_with (meth a1 a2 a3 a4 a5 a6 a7) args ret.
End handlers.
End rpc.
