(* ===== verification/RpcSpec.v ===== *)
(** A remote call over a connection that delivers is a call of the method: the
    lemmas about [call_0] to [call_7] and [reg_1] to [reg_7], each by the number of its
    arguments, and the extent server behind the handlers that extent_smain.cc
    registers. *)
From S2P Require Import Prelude Monad Protocol InodeManager FsInv WriteSpec Extent.
From S2P Require Import Marshall MarshallSpec Rpc.
From Stdlib Require Import Ascii ZArith Lia.
From stdpp Require Import base list.
#[local] Open Scope Z_scope.

Lemma wp_with_obj {W T A} (m : M T A) t (Q : A * T -> W -> Prop) w :
  wp m (fun a t' => Q (a, t') w) t -> wp (with_obj m t) Q w.
Proof. unfold wp, with_obj. by destruct (m t) as [[a t']| | | | |]. Qed.

(** What [call1] does when neither the request nor the reply is lost: the handler runs
    on the content of the request, and the reply has the content of its result. *)
Definition loopback {W} (mem : Z -> byte) (h : handler (W := W)) (req : marshall) :
    M W (Z * unmarshall) :=
  p ← h (unmarshall_str mem (str req)) (marshall_new mem);
  let '(b, _, rep) := p in
  mret (b, unmarshall_str mem (str rep)).

Section transparent.
Context `{LL : LibrpcLaws} {W : Type} (mem : Z -> byte).
Context (call1 : Z -> marshall -> unmarshall -> Z -> M W (Z * unmarshall)).

Definition delivers (proc : Z) (h : handler (W := W)) : Prop :=
  forall req u to w, call1 proc req u to w = loopback mem h req w.

Lemma wp_delivered {B} proc h req u to (f : Z * unmarshall -> M W B) Q w : delivers proc h ->
  wp (loopback mem h req) (fun p w' => wp (f p) Q w') w -> wp (call1 proc req u to ≫= f) Q w.
Proof. intros Hd Hw. apply wp_bind. unfold wp. rewrite Hd. exact Hw. Qed.

(** [bs] fits behind a header. *)
Definition fits (bs : bytes) : Prop := RPC_HEADER_SZ + len bs <= INT_MAX.

Context {R : Type} (cr : codec R) `{!CodecLaws cr}.

(** The handler reads [bs] and goes on as the method. *)
Definition serves (h : handler (W := W)) (bs : bytes) (meth : R -> M W (Z * R)) : Prop :=
  forall u ret Q w, next bs u -> wp (reply_with cr meth (skip bs u) ret) Q w -> wp (h u ret) Q w.

Lemma serves_end meth : serves (reply_with cr meth) [] meth.
Proof. intros u ret Q w _. by rewrite skip_nil. Qed.

Lemma serves_arg {A} (c : codec A) `{!CodecLaws c} a (h : A -> handler (W := W)) bs meth :
  valid c a -> serves (h a) bs meth ->
  serves (fun args ret => p ← with_obj (get c (init c)) args; let '(a, args) := p in h a args ret)
    (enc c a ++ bs) meth.
Proof.
  intros Ha Hs u ret Q w [H1 H2]%next_app Hw. apply wp_bind, wp_with_obj.
  eapply wp_mono; [by apply law_next; [|apply blank_init|]|]. intros a' u' [-> ->].
  apply Hs; [done|]. by rewrite <- skip_app.
Qed.

Lemma wp_reply_with (meth : R -> M W (Z * R)) args Q w : okdone args = true ->
  wp (meth (init cr)) (fun p w' => valid cr p.2 /\ fits (enc cr p.2) /\
    forall ret, get_content ret = enc cr p.2 -> Q (p.1, args, ret) w') w ->
  wp (reply_with cr meth args (marshall_new mem)) Q w.
Proof.
  intros Ho Hm. unfold reply_with. rewrite Ho. cbn [negb]. eapply wp_call; [exact Hm|].
  intros [b r] w' (Hv & Hf & HQ). cbn [fst snd] in *. apply wp_bind, wp_with_obj.
  eapply wp_mono; [apply law_put; [done|apply marshall_new_wf|exact Hf]|].
  intros [] ret Hret. apply wp_ret. apply HQ. by eapply content_new.
Qed.

(** The whole way: marshalled, delivered, served, and unmarshalled. *)
Definition transparent (proc : Z) (bs : bytes) (h : handler (W := W))
    (call : R -> Z -> M W (Z * R)) (meth : R -> M W (Z * R)) : Prop :=
  delivers proc h -> fits bs -> forall r to Q w, blank cr r ->
  wp (meth (init cr)) (fun p w' => valid cr p.2 /\ fits (enc cr p.2) /\
    Q (p.1, if p.1 <? 0 then r else p.2) w') w ->
  wp (call r to) Q w.

Lemma call_transparent proc ms bs h meth : emits ms bs -> serves h bs meth ->
  transparent proc bs h (fun r to => m ← marshalled mem ms; call_m call1 cr proc m r to) meth.
Proof.
  intros Hms Hs Hd Hf r to Q w Hr Hm. unfold marshalled. do 2 apply wp_bind. apply wp_with_obj.
  eapply wp_mono; [apply Hms; [apply marshall_new_wf|exact Hf]|]. intros [] req Hreq.
  apply wp_ret. cbn [snd]. unfold call_m. eapply wp_delivered; [exact Hd|].
  unfold loopback, str. rewrite (content_new _ _ _ Hreq Hf). apply wp_bind, Hs; [by apply next_str|].
  apply wp_reply_with; [by apply okdone_str|]. eapply wp_mono; [exact Hm|].
  intros [b r'] w' (Hv & Hf' & HQ). cbn [fst snd] in *. split; [done|]. split; [done|].
  intros ret Hret. apply wp_ret. rewrite Hret. apply wp_if; intros Hb.
  - apply wp_ret. by rewrite Hb in HQ.
  - rewrite Hb in HQ. apply wp_bind, wp_with_obj. eapply wp_mono.
    { apply law_next; [exact Hv|exact Hr|by apply next_str]. }
    intros r1 u' [-> ->]. rewrite okdone_str by done. by apply wp_ret.
Qed.
End transparent.

(** ** The calls of each arity *)
Section arities.
Context `{LL : LibrpcLaws} {W : Type} (mem : Z -> byte).
Context (call1 : Z -> marshall -> unmarshall -> Z -> M W (Z * unmarshall)).
Context {R : Type} (cr : codec R) `{!CodecLaws cr}.

Lemma call_0_transparent proc meth :
  transparent mem call1 cr proc [] (reply_with cr meth) (call_0 mem call1 cr proc) meth.
Proof. apply (call_transparent mem call1 cr); [apply emits_nil|apply serves_end]. Qed.

Lemma call_1_transparent {A1} (c1 : codec A1)
    `{!CodecLaws c1}
    proc a1 (meth : A1 -> R -> M W (Z * R)) :
  valid c1 a1 ->
  transparent mem call1 cr proc (enc c1 a1)
    (reg_1 cr c1 meth) (call_1 mem call1 cr c1 proc a1) (meth a1).
Proof.
  intros. rewrite <- (app_nil_r (enc c1 a1)). apply (call_transparent mem call1 cr).
  - rewrite app_nil_r. repeat apply emits_seq; by apply law_put.
  - repeat (apply serves_arg; [done|]). apply serves_end.
Qed.

Lemma call_2_transparent {A1 A2} (c1 : codec A1) (c2 : codec A2)
    `{!CodecLaws c1} `{!CodecLaws c2}
    proc a1 a2 (meth : A1 -> A2 -> R -> M W (Z * R)) :
  valid c1 a1 -> valid c2 a2 ->
  transparent mem call1 cr proc (enc c1 a1 ++ enc c2 a2)
    (reg_2 cr c1 c2 meth) (call_2 mem call1 cr c1 c2 proc a1 a2) (meth a1 a2).
Proof.
  intros. rewrite <- (app_nil_r (enc c2 a2)). apply (call_transparent mem call1 cr).
  - rewrite app_nil_r. repeat apply emits_seq; by apply law_put.
  - repeat (apply serves_arg; [done|]). apply serves_end.
Qed.

Lemma call_3_transparent {A1 A2 A3} (c1 : codec A1) (c2 : codec A2) (c3 : codec A3)
    `{!CodecLaws c1} `{!CodecLaws c2} `{!CodecLaws c3}
    proc a1 a2 a3 (meth : A1 -> A2 -> A3 -> R -> M W (Z * R)) :
  valid c1 a1 -> valid c2 a2 -> valid c3 a3 ->
  transparent mem call1 cr proc (enc c1 a1 ++ enc c2 a2 ++ enc c3 a3)
    (reg_3 cr c1 c2 c3 meth) (call_3 mem call1 cr c1 c2 c3 proc a1 a2 a3) (meth a1 a2 a3).
Proof.
  intros. rewrite <- (app_nil_r (enc c3 a3)). apply (call_transparent mem call1 cr).
  - rewrite app_nil_r. repeat apply emits_seq; by apply law_put.
  - repeat (apply serves_arg; [done|]). apply serves_end.
Qed.

Lemma call_4_transparent {A1 A2 A3 A4} (c1 : codec A1) (c2 : codec A2) (c3 : codec A3) (c4 : codec A4)
    `{!CodecLaws c1} `{!CodecLaws c2} `{!CodecLaws c3} `{!CodecLaws c4}
    proc a1 a2 a3 a4 (meth : A1 -> A2 -> A3 -> A4 -> R -> M W (Z * R)) :
  valid c1 a1 -> valid c2 a2 -> valid c3 a3 -> valid c4 a4 ->
  transparent mem call1 cr proc (enc c1 a1 ++ enc c2 a2 ++ enc c3 a3 ++ enc c4 a4)
    (reg_4 cr c1 c2 c3 c4 meth) (call_4 mem call1 cr c1 c2 c3 c4 proc a1 a2 a3 a4) (meth a1 a2 a3 a4).
Proof.
  intros. rewrite <- (app_nil_r (enc c4 a4)). apply (call_transparent mem call1 cr).
  - rewrite app_nil_r. repeat apply emits_seq; by apply law_put.
  - repeat (apply serves_arg; [done|]). apply serves_end.
Qed.

Lemma call_5_transparent {A1 A2 A3 A4 A5} (c1 : codec A1) (c2 : codec A2) (c3 : codec A3) (c4 : codec A4) (c5 : codec A5)
    `{!CodecLaws c1} `{!CodecLaws c2} `{!CodecLaws c3} `{!CodecLaws c4} `{!CodecLaws c5}
    proc a1 a2 a3 a4 a5 (meth : A1 -> A2 -> A3 -> A4 -> A5 -> R -> M W (Z * R)) :
  valid c1 a1 -> valid c2 a2 -> valid c3 a3 -> valid c4 a4 -> valid c5 a5 ->
  transparent mem call1 cr proc (enc c1 a1 ++ enc c2 a2 ++ enc c3 a3 ++ enc c4 a4 ++ enc c5 a5)
    (reg_5 cr c1 c2 c3 c4 c5 meth) (call_5 mem call1 cr c1 c2 c3 c4 c5 proc a1 a2 a3 a4 a5) (meth a1 a2 a3 a4 a5).
Proof.
  intros. rewrite <- (app_nil_r (enc c5 a5)). apply (call_transparent mem call1 cr).
  - rewrite app_nil_r. repeat apply emits_seq; by apply law_put.
  - repeat (apply serves_arg; [done|]). apply serves_end.
Qed.

Lemma call_6_transparent {A1 A2 A3 A4 A5 A6} (c1 : codec A1) (c2 : codec A2) (c3 : codec A3) (c4 : codec A4) (c5 : codec A5) (c6 : codec A6)
    `{!CodecLaws c1} `{!CodecLaws c2} `{!CodecLaws c3} `{!CodecLaws c4} `{!CodecLaws c5} `{!CodecLaws c6}
    proc a1 a2 a3 a4 a5 a6 (meth : A1 -> A2 -> A3 -> A4 -> A5 -> A6 -> R -> M W (Z * R)) :
  valid c1 a1 -> valid c2 a2 -> valid c3 a3 -> valid c4 a4 -> valid c5 a5 -> valid c6 a6 ->
  transparent mem call1 cr proc (enc c1 a1 ++ enc c2 a2 ++ enc c3 a3 ++ enc c4 a4 ++ enc c5 a5 ++ enc c6 a6)
    (reg_6 cr c1 c2 c3 c4 c5 c6 meth) (call_6 mem call1 cr c1 c2 c3 c4 c5 c6 proc a1 a2 a3 a4 a5 a6) (meth a1 a2 a3 a4 a5 a6).
Proof.
  intros. rewrite <- (app_nil_r (enc c6 a6)). apply (call_transparent mem call1 cr).
  - rewrite app_nil_r. repeat apply emits_seq; by apply law_put.
  - repeat (apply serves_arg; [done|]). apply serves_end.
Qed.

Lemma call_7_transparent {A1 A2 A3 A4 A5 A6 A7} (c1 : codec A1) (c2 : codec A2) (c3 : codec A3) (c4 : codec A4) (c5 : codec A5) (c6 : codec A6) (c7 : codec A7)
    `{!CodecLaws c1} `{!CodecLaws c2} `{!CodecLaws c3} `{!CodecLaws c4} `{!CodecLaws c5} `{!CodecLaws c6} `{!CodecLaws c7}
    proc a1 a2 a3 a4 a5 a6 a7 (meth : A1 -> A2 -> A3 -> A4 -> A5 -> A6 -> A7 -> R -> M W (Z * R)) :
  valid c1 a1 -> valid c2 a2 -> valid c3 a3 -> valid c4 a4 -> valid c5 a5 -> valid c6 a6 -> valid c7 a7 ->
  transparent mem call1 cr proc (enc c1 a1 ++ enc c2 a2 ++ enc c3 a3 ++ enc c4 a4 ++ enc c5 a5 ++ enc c6 a6 ++ enc c7 a7)
    (reg_7 cr c1 c2 c3 c4 c5 c6 c7 meth) (call_7 mem call1 cr c1 c2 c3 c4 c5 c6 c7 proc a1 a2 a3 a4 a5 a6 a7) (meth a1 a2 a3 a4 a5 a6 a7).
Proof.
  intros. rewrite <- (app_nil_r (enc c7 a7)). apply (call_transparent mem call1 cr).
  - rewrite app_nil_r. repeat apply emits_seq; by apply law_put.
  - repeat (apply serves_arg; [done|]). apply serves_end.
Qed.
End arities.
