(* ===== verification/ExtentMain.v ===== *)
(** The server program extent_smain.cc: the methods of the extent server behind the
    templates of rpc/rpc.h, and [main].

    The result of [main] is the server as it is when the loop begins that sleeps for
    ever; what the server does then is in librpc.a.  The message about the usage and the
    buffering of [stdout] are left out. *)
From S2P Require Import Prelude Monad Protocol InodeManager Extent DirFormat Marshall Rpc.
From Stdlib Require Import Ascii ZArith Lia.
From stdpp Require Import base list.
#[local] Open Scope Z_scope.

(** [rpc_numbers] of extent_protocol.h *)
Definition rpc_put : Z := 0x6001.
Definition rpc_get : Z := rpc_put + 1.
Definition rpc_getattr : Z := rpc_get + 1.
Definition rpc_remove : Z := rpc_getattr + 1.

Section extent_main.
Context `{E : Env} `{L : Librpc}.

(** The methods with their out parameter, which [put] and [remove] leave alone. *)
Definition server_get (id : Z) (buf : bytes) : M inode_manager (Z * bytes) := extent_server.get id.
Definition server_getattr (id : Z) (a : attr) : M inode_manager (Z * attr) := extent_server.getattr id.
Definition server_put (id : Z) (buf : bytes) (r : Z) : M inode_manager (Z * Z) :=
  b ← extent_server.put id buf; mret (b, r).
Definition server_remove (id : Z) (r : Z) : M inode_manager (Z * Z) :=
  b ← extent_server.remove id; mret (b, r).

(** The calls of [server.reg], in their order. *)
Definition extent_handlers : list (Z * handler (W := inode_manager)) :=
  [(rpc_get, reg_1 c_string c_ull server_get);
   (rpc_getattr, reg_1 c_attr c_ull server_getattr);
   (rpc_put, reg_2 c_int c_ull c_string server_put);
   (rpc_remove, reg_1 c_int c_ull server_remove)].

(** [rpcs server(port, count)] and the handlers registered with it, in their order. *)
Record rpcs := mk_rpcs {
  port_ : Z;
  counting_ : Z;
  registered : list (Z * handler (W := inode_manager))
}.
Definition reg (server : rpcs) (p : Z * handler) : rpcs :=
  mk_rpcs (port_ server) (counting_ server) (registered server ++ [p]).

(** [atoi], undefined when the number is not an [int]. *)
Definition atoi (n : bytes) : outcome Z :=
  let v :=
    match skip_space n with
    | [] => 0
    | c :: n' =>
        if Z_of_byte c =? 45 then - get_digits n' 0
        else if Z_of_byte c =? 43 then get_digits n' 0 else get_digits (c :: n') 0
    end in
  if decide (- 2 ^ 31 <= v < 2 ^ 31) then Ok v else UB.

(** The server and the state of [ls]; [last0] is the memory that the constructor of the
    inode layer reads, [count_env] the variable [RPC_COUNT] of the environment. *)
Definition extent_main (argv : list bytes) (count_env : option bytes) (last0 : Z) :
    outcome (rpcs * inode_manager) :=
  match argv with
  | [_; port] =>
      after (match count_env with Some n => atoi n | None => Ok 0 end) (fun count =>
      after (atoi port) (fun port =>
      let server := mk_rpcs port count [] in
      after (extent_server.new last0) (fun ls =>
      Ok (foldl reg server extent_handlers, ls))))
  | _ => Exit 1
  end.

Lemma extent_main_run argv count_env last0 server ls :
  extent_main argv count_env last0 = Ok (server, ls) ->
  registered server = extent_handlers /\ extent_server.new last0 = Ok ls.
Proof.
  unfold extent_main. destruct argv as [|? [|port [|]]]; try done.
  destruct (match count_env with Some n => atoi n | None => Ok 0 end); try done. cbn [after].
  destruct (atoi port); try done. cbn [after]. destruct (extent_server.new last0); try done.
  cbn [after]. by intros [= <- <-].
Qed.
End extent_main.
