(* ===== verification/LibrpcSample.v ===== *)
(** A concrete instance of what librpc.a provides, on which the theorems about
    marshalling and remote calls are evaluated: little-endian integers, and strings
    behind their length.  It shows that the laws can hold; it is not the library. *)
From S2P Require Import Prelude Monad Protocol InodeManager Marshall MarshallSpec.
From Stdlib Require Import Ascii ZArith Lia.
From stdpp Require Import base list.
#[local] Open Scope Z_scope.

Module sample.
Definition write_bytes (bs : bytes) : M marshall unit := fun m =>
  let i := Z.to_nat (m_ind m) in
  let buf := take i (m_buf m) ++ bs ++ drop (i + length bs) (m_buf m) in
  Ok (tt, mk_marshall buf (len buf) (m_ind m + len bs)).

Definition read_bytes (n : Z) : M unmarshall bytes := fun u =>
  if u_ok u && (0 <=? n) && (u_ind u + n <=? u_sz u) then
    Ok (take (Z.to_nat n) (drop (Z.to_nat (u_ind u)) (u_buf u)),
        mk_unmarshall (u_buf u) (u_sz u) (u_ind u + n) true)
  else Ok (replicate (Z.to_nat n) NUL, mk_unmarshall (u_buf u) (u_sz u) (u_ind u) false).

(** An unsigned integer in [n] bytes. *)
Definition put_le (n : nat) (z : Z) : M marshall unit := write_bytes (le_bytes n z).
Definition get_le (n : nat) : M unmarshall Z := bs ← read_bytes (Z.of_nat n); mret (le_Z bs).

Definition c_unsigned (n : nat) : codec Z := mk_codec 0 (put_le n) (fun _ => get_le n).
Definition get_i32 : M unmarshall Z := z ← get_le 4; mret (i32 z).
Definition c_signed : codec Z := mk_codec 0 (put_le 4) (fun _ => get_i32).
Definition put_str (s : bytes) : M marshall unit := _ ← put_le 4 (len s); write_bytes s.
Definition get_str : M unmarshall bytes := n ← get_le 4; read_bytes n.
Definition c_str : codec bytes := mk_codec [] put_str (fun _ => get_str).

#[export] Instance librpc : Librpc := {
  pack := put_le 4;
  unpack := fun _ => get_i32;
  okdone := fun u => u_ok u && (u_ind u =? u_sz u);
  c_int := c_signed;
  c_uint := c_unsigned 4;
  c_ull := c_unsigned 8;
  c_string := c_str
}.

Lemma emits_write bs : emits (write_bytes bs) bs.
Proof.
  intros m [Hr Hl] _. unfold wp, write_bytes. set (i := Z.to_nat (m_ind m)).
  assert (length (take i (m_buf m)) = i) as Ht by (rewrite length_take; unfold len in Hl; lia).
  assert (Z.to_nat (m_ind m + len bs) = i + length bs)%nat as Ei by (unfold len; lia).
  split; [|split; [done|split]].
  - split; [|done]. cbn [m_ind m_capa]. rewrite !len_cat. unfold len. rewrite Ht. lia.
  - unfold written. cbn [m_ind m_buf]. rewrite Ei, app_assoc, take_app_length'; [done|].
    by rewrite length_app, Ht.
  - intros k. cbn [m_ind m_buf]. rewrite Ei. intros Hk.
    rewrite app_assoc, lookup_app_r by (rewrite length_app; lia).
    rewrite lookup_drop, length_app, Ht. f_equal. lia.
Qed.

Lemma wp_read_bytes bs u : next bs u -> wp (read_bytes (len bs)) (fun r u' => r = bs /\ u' = skip bs u) u.
Proof.
  intros (Ho & Hi & Hs & _ & Ht). unfold wp, read_bytes. pose proof (len_nonneg bs).
  rewrite Ho, (proj2 (Z.leb_le _ _)), (proj2 (Z.leb_le _ _)) by lia. cbn [andb].
  unfold len. rewrite Nat2Z.id. split; [done|]. unfold skip. by rewrite Ho.
Qed.

Lemma len_le n z : len (le_bytes n z) = Z.of_nat n.
Proof. unfold len. by rewrite length_le_bytes. Qed.

Lemma wp_get_le n z u : 0 <= z < 256 ^ Z.of_nat n -> next (le_bytes n z) u ->
  wp (get_le n) (fun r u' => r = z /\ u' = skip (le_bytes n z) u) u.
Proof.
  intros Hz Hn. unfold get_le. rewrite <- (len_le n z).
  eapply wp_call; [by apply wp_read_bytes|]. intros bs u' [-> ->]. apply wp_ret.
  rewrite le_Z_le_bytes, Z.mod_small by done. done.
Qed.

Lemma wp_get_i32 z u : is_int z -> next (le_bytes 4 z) u ->
  wp get_i32 (fun r u' => r = z /\ u' = skip (le_bytes 4 z) u) u.
Proof.
  intros Hz Hn. unfold get_i32, get_le. change (Z.of_nat 4) with (len (le_bytes 4 z)).
  apply wp_bind. eapply wp_call; [by apply wp_read_bytes|]. intros bs u' [-> ->]. repeat apply wp_ret.
  split; [|done]. rewrite le_Z_le_bytes. change (256 ^ Z.of_nat 4) with (2 ^ 32).
  unfold is_int in Hz. unfold i32. rewrite Zplus_mod_idemp_l. rewrite Z.mod_small by lia. lia.
Qed.

Definition unsigned_laws n : CodecLaws (c_unsigned n).
Proof.
  refine {| valid := fun z : Z => 0 <= z < 256 ^ Z.of_nat n; enc := le_bytes n;
            blank := fun _ => True |}.
  - done.
  - intros z _. apply emits_write.
  - intros z o u Hz _ Hn. by apply wp_get_le.
Defined.

Definition signed_laws : CodecLaws c_signed.
Proof.
  refine {| valid := is_int; enc := le_bytes 4; blank := fun _ : Z => True |}.
  - done.
  - intros z _. apply emits_write.
  - intros z o u Hz _ Hn. by apply wp_get_i32.
Defined.

Definition str_laws : CodecLaws c_str.
Proof.
  refine {| valid := fun s : bytes => len s <= INT_MAX;
            enc := fun s : bytes => le_bytes 4 (len s) ++ s; blank := fun _ => True |}.
  - done.
  - intros s _. apply emits_seq; apply emits_write.
  - intros s o u Hs _ [H1 H2]%next_app. cbn [get c_str]. unfold get_str.
    eapply wp_call; [apply wp_get_le; [|exact H1]|].
    + pose proof (len_nonneg s). unfold INT_MAX in Hs. change (256 ^ Z.of_nat 4) with (2 ^ 32). lia.
    + intros n u' [-> ->]. cbn beta. eapply wp_mono; [by apply wp_read_bytes|]. intros r u' [-> ->].
      split; [done|]. by rewrite skip_app.
Defined.

#[export] Instance laws : LibrpcLaws librpc.
Proof.
  refine {| int_laws := signed_laws; uint_laws := unsigned_laws 4; ull_laws := unsigned_laws 8;
            string_laws := str_laws; pack_enc := le_bytes 4 |}; try done.
  - intros z _. apply emits_write.
  - intros z o u Hz Hn. by apply wp_get_i32.
Defined.
End sample.
