(* ===== verification/RpcTheorems.v ===== *)
(** The closed theorems about marshalling and remote calls. *)
From S2P Require Import Prelude Monad BlockManager InodeManager FsInv WriteSpec RemoveFile Protocol.
From S2P Require Import AllocInode Extent System Scenarios Marshall MarshallSpec Rpc RpcSpec ExtentMain.
From S2P Require Import LibrpcSample.
From Stdlib Require Import Ascii ZArith Lia.
From stdpp Require Import base gmap numbers list.
#[local] Open Scope Z_scope.

(** The methods of the extent client hand the server's results on. *)
Lemma wp_client_pair {S A B} (m : M S (A * B)) Q s :
  wp (r ← m; let '(a, b) := r in mret (a, b)) Q s -> wp m Q s.
Proof. unfold wp, mbind, M_bind. by destruct (m s) as [[[a b] s']| | | | |]. Qed.

Lemma wp_client {S A} (m : M S A) Q s : wp (r ← m; mret r) Q s -> wp m Q s.
Proof. unfold wp, mbind, M_bind. by destruct (m s) as [[a s']| | | | |]. Qed.

Lemma delivered {A} (P : A -> Prop) a b c d :
  Forall P [a; b; c; d] -> P a /\ P b /\ P c /\ P d /\ True.
Proof. rewrite !Forall_cons. tauto. Qed.

Section theorems.
Context `{LL : LibrpcLaws}.

(** C35 A vector that [<<] writes into a new buffer is read back by [>>] from the string
    of the buffer: the elements are appended, in order, to those the vector already holds
    (it is not cleared, unlike a map), and nothing is left to read. *)
Theorem vector_roundtrip {C} (c : codec C) `{!CodecLaws c} mem v old :
  vector_valid c v -> fits (vector_enc c v) ->
  exists m u, put_vector c v (marshall_new mem) = Ok (tt, m) /\
    get_vector c old (unmarshall_str mem (str m)) = Ok (old ++ v, u) /\ okdone u = true.
Proof.
  intros Hv Hf.
  pose proof (vector_put c v Hv _ (marshall_new_wf mem) Hf) as H.
  apply wp_run in H as ([] & m & Hput & Hw). exists m.
  unfold str. rewrite (content_new _ _ _ Hw Hf).
  pose proof (vector_get c v old _ Hv (next_str mem _ Hf)) as H.
  apply wp_run in H as (r & u & Hget & -> & ->).
  eexists. split; [done|]. split; [exact Hget|]. by apply okdone_str.
Qed.

(** A map that [<<] writes into a new buffer is read back by [>>] from the string of
    the buffer, whatever the map held that it is read into, and nothing is left to read. *)
Theorem map_roundtrip {A B} (lt : A -> A -> bool) (ca : codec A) (cb : codec B)
    `{!CodecLaws ca, !CodecLaws cb} mem d old :
  (forall a a', lt a a' = true -> lt a' a = false) ->
  map_valid lt ca cb d -> fits (map_enc ca cb d) ->
  exists m u, put_map ca cb d (marshall_new mem) = Ok (tt, m) /\
    get_map lt ca cb old (unmarshall_str mem (str m)) = Ok (d, u) /\ okdone u = true.
Proof.
  intros Hlt Hv Hf.
  pose proof (map_put lt ca cb d Hv _ (marshall_new_wf mem) Hf) as H.
  apply wp_run in H as ([] & m & Hput & Hw). exists m.
  unfold str. rewrite (content_new _ _ _ Hw Hf).
  pose proof (map_get lt ca cb Hlt d old _ Hv (next_str mem _ Hf)) as H.
  apply wp_run in H as (r & u & Hget & -> & ->).
  eexists. split; [done|]. split; [exact Hget|]. by apply okdone_str.
Qed.

(** [pack_req_header] leaves the head and the content of the buffer as they are, and
    [unpack_req_header] on the buffer that [take_buf] hands over returns the header it
    was given, with the head at the content. *)
Theorem req_header_roundtrip h h0 m :
  m_wf m -> RPC_HEADER_SZ <= m_ind m <= INT_MAX ->
  is_int (xid h) -> is_int (proc h) -> 0 <= clt_nonce h < 2 ^ 32 ->
  0 <= srv_nonce h < 2 ^ 32 -> is_int (xid_rep h) ->
  exists m' b sz, pack_req_header h m = Ok (tt, m') /\ get_content m' = get_content m /\
    m_ind m' = m_ind m /\ (take_buf m').1 = (b, sz) /\
    unpack_req_header h0 (unmarshall_buf b sz) = Ok (h, mk_unmarshall b sz RPC_HEADER_SZ true).
Proof.
  intros Hm Hi H1 H2 H3 H4 H5.
  pose proof (wp_pack_req_header h h0 m Hm Hi H1 H2 H3 H4 H5) as H.
  apply wp_run in H as ([] & m' & Hrun & _ & Hind & Hc & H).
  apply wp_run in H as (h' & u & Hget & -> & ->).
  exists m', (m_buf m'), (m_ind m'). done.
Qed.

(** C24 Remote calls are transparent: over a connection that delivers, [rpcc::call] with
    one to seven arguments, to the handler [rpcs::reg] makes of a method, behaves as the
    method on the same arguments: same effects, same status, and the same result when the
    status is not negative; the caller's variable is left alone when it is. *)
Theorem calls_transparent {W R A1 A2 A3 A4 A5 A6 A7} mem call1 proc (cr : codec R) `{!CodecLaws cr}
    (c1 : codec A1) (c2 : codec A2) (c3 : codec A3) (c4 : codec A4) (c5 : codec A5) (c6 : codec A6) (c7 : codec A7)
    `{!CodecLaws c1} `{!CodecLaws c2} `{!CodecLaws c3} `{!CodecLaws c4} `{!CodecLaws c5} `{!CodecLaws c6} `{!CodecLaws c7}
    a1 a2 a3 a4 a5 a6 a7
    (m1 : A1 -> R -> M W (Z * R))
    (m2 : A1 -> A2 -> R -> M W (Z * R))
    (m3 : A1 -> A2 -> A3 -> R -> M W (Z * R))
    (m4 : A1 -> A2 -> A3 -> A4 -> R -> M W (Z * R))
    (m5 : A1 -> A2 -> A3 -> A4 -> A5 -> R -> M W (Z * R))
    (m6 : A1 -> A2 -> A3 -> A4 -> A5 -> A6 -> R -> M W (Z * R))
    (m7 : A1 -> A2 -> A3 -> A4 -> A5 -> A6 -> A7 -> R -> M W (Z * R)) :
  valid c1 a1 -> valid c2 a2 -> valid c3 a3 -> valid c4 a4 -> valid c5 a5 -> valid c6 a6 -> valid c7 a7 ->
  transparent mem call1 cr proc (enc c1 a1)
    (reg_1 cr c1 m1) (call_1 mem call1 cr c1 proc a1) (m1 a1) /\
  transparent mem call1 cr proc (enc c1 a1 ++ enc c2 a2)
    (reg_2 cr c1 c2 m2) (call_2 mem call1 cr c1 c2 proc a1 a2) (m2 a1 a2) /\
  transparent mem call1 cr proc (enc c1 a1 ++ enc c2 a2 ++ enc c3 a3)
    (reg_3 cr c1 c2 c3 m3) (call_3 mem call1 cr c1 c2 c3 proc a1 a2 a3) (m3 a1 a2 a3) /\
  transparent mem call1 cr proc (enc c1 a1 ++ enc c2 a2 ++ enc c3 a3 ++ enc c4 a4)
    (reg_4 cr c1 c2 c3 c4 m4) (call_4 mem call1 cr c1 c2 c3 c4 proc a1 a2 a3 a4) (m4 a1 a2 a3 a4) /\
  transparent mem call1 cr proc (enc c1 a1 ++ enc c2 a2 ++ enc c3 a3 ++ enc c4 a4 ++ enc c5 a5)
    (reg_5 cr c1 c2 c3 c4 c5 m5) (call_5 mem call1 cr c1 c2 c3 c4 c5 proc a1 a2 a3 a4 a5) (m5 a1 a2 a3 a4 a5) /\
  transparent mem call1 cr proc (enc c1 a1 ++ enc c2 a2 ++ enc c3 a3 ++ enc c4 a4 ++ enc c5 a5 ++ enc c6 a6)
    (reg_6 cr c1 c2 c3 c4 c5 c6 m6) (call_6 mem call1 cr c1 c2 c3 c4 c5 c6 proc a1 a2 a3 a4 a5 a6) (m6 a1 a2 a3 a4 a5 a6) /\
  transparent mem call1 cr proc (enc c1 a1 ++ enc c2 a2 ++ enc c3 a3 ++ enc c4 a4 ++ enc c5 a5 ++ enc c6 a6 ++ enc c7 a7)
    (reg_7 cr c1 c2 c3 c4 c5 c6 c7 m7) (call_7 mem call1 cr c1 c2 c3 c4 c5 c6 c7 proc a1 a2 a3 a4 a5 a6 a7) (m7 a1 a2 a3 a4 a5 a6 a7).
Proof.
  intros. repeat split; [by apply call_1_transparent|by apply call_2_transparent
    |by apply call_3_transparent|by apply call_4_transparent|by apply call_5_transparent
    |by apply call_6_transparent|by apply call_7_transparent].
Qed.

(** A request with bytes behind its last argument is refused: the handler returns
    [unmarshal_args_failure], the method is not called, and no reply is written. *)
Theorem handler_rejects {W A1 A2 R} (c1 : codec A1) (c2 : codec A2) (cr : codec R)
    `{!CodecLaws c1, !CodecLaws c2} mem a1 a2 extra (meth : A1 -> A2 -> R -> M W (Z * R)) ret w :
  valid c1 a1 -> valid c2 a2 -> extra <> [] -> fits (enc c1 a1 ++ enc c2 a2 ++ extra) ->
  exists u, reg_2 cr c1 c2 meth (unmarshall_str mem (enc c1 a1 ++ enc c2 a2 ++ extra)) ret w =
    Ok ((unmarshal_args_failure, u, ret), w).
Proof.
  intros H1 H2 Hx Hf. rewrite app_assoc in *. pose proof (next_str mem _ Hf) as [Hn _]%next_app.
  assert (serves cr (reg_2 cr c1 c2 meth) (enc c1 a1 ++ enc c2 a2) (meth a1 a2)) as Hs.
  { rewrite <- (app_nil_r (enc c2 a2)). repeat (apply serves_arg; [done|]). apply serves_end. }
  pose proof (Hs _ ret (fun p w' => exists u, p = (unmarshal_args_failure, u, ret) /\ w' = w) w Hn) as H.
  unfold reply_with in H. rewrite okdone_left in H by done.
  destruct (wp_run _ _ _ (H ltac:(apply wp_ret; by eexists))) as (p & w' & Hrun & u & -> & ->).
  by exists u.
Qed.

(** C16 The server program extent_smain.cc, once it has started: over a connection that
    delivers to the handlers it has registered, and whatever files its server holds, what
    a remote [put] of at most [MAX_SIZE] bytes, with free blocks for them, stores in a file
    a remote [get] returns, and after a remote [remove] the number is free and a remote
    [get] returns nothing. *)
Theorem extent_rpc `{E : Env} mem call1 argv count_env last0 server ls s id f buf r to :
  extent_main argv count_env last0 = Ok (server, ls) ->
  Forall (fun p => delivers mem call1 p.1 p.2) (registered server) ->
  fs_wf s -> file_at s (ext_id id) = Some f -> len buf <= MAX_SIZE ->
  (blocks_needed (len (f_data f)) (len buf) <= nfree (bm s))%nat ->
  valid c_ull id -> valid c_int (init c_int) -> fits (enc c_ull id ++ enc c_string buf) ->
  fits (enc c_string buf) -> fits (enc c_string []) -> fits (enc c_int (init c_int)) ->
  (exists s1 s2,
    call_2 mem call1 c_int c_ull c_string rpc_put id buf r to s = Ok ((OK, init c_int), s1) /\
    call_1 mem call1 c_string c_ull rpc_get id [] to s1 = Ok ((OK, buf), s2)) /\
  (exists s1 s2,
    call_1 mem call1 c_int c_ull rpc_remove id r to s = Ok ((OK, init c_int), s1) /\
    file_at s1 (ext_id id) = None /\
    call_1 mem call1 c_string c_ull rpc_get id [] to s1 = Ok ((OK, []), s2)).
Proof.
  intros [-> _]%extent_main_run (Dget & _ & Dput & Drem & _)%delivered Hwf Hf Hlen Hroom Hid Hi Hfp Hfb Hfn Hfi.
  assert (fits (enc c_ull id)) as Hfu.
  { unfold fits in *. rewrite len_cat in Hfp. pose proof (len_nonneg (enc c_string buf)). lia. }
  assert (valid c_string buf) as Hvb by (apply string_valid; unfold MAX_SIZE, INT_MAX in *; lia).
  assert (valid c_string []) as Hvn by (apply string_valid; by vm_compute).
  assert (forall d s, fs_wf s -> data_of (file_at s (ext_id id)) = d -> valid c_string d ->
    fits (enc c_string d) -> exists s',
    call_1 mem call1 c_string c_ull rpc_get id [] to s = Ok ((OK, d), s')) as Hget.
  { intros d s0 Hwf0 Hdata Hv Hfd.
    destruct (wp_run (call_1 mem call1 c_string c_ull rpc_get id [] to) (fun p _ => p = (OK, d)) s0)
      as (p & s' & Hrun & ->); [|by exists s'].
    eapply (call_1_transparent mem call1 c_string c_ull rpc_get id server_get Hid);
      [exact Dget|done|apply string_blank|].
    pose proof (impl_get id s0 Hwf0) as Hg. cbn [ec_get extent_service] in Hg.
    unfold extent_client.get in Hg. apply wp_client_pair in Hg. eapply wp_mono; [exact Hg|]. intros p s' (-> & _). cbn [fst snd].
    by rewrite Hdata. }
  split.
  - destruct (wp_run (call_2 mem call1 c_int c_ull c_string rpc_put id buf r to) (fun p s1 =>
      p = (OK, init c_int) /\ fs_wf s1 /\ data_of (file_at s1 (ext_id id)) = buf) s)
      as (p & s1 & Hrun & -> & Hwf1 & Hdata).
    { eapply (call_2_transparent mem call1 c_int c_ull c_string rpc_put id buf server_put Hid Hvb);
        [exact Dput|done|apply scalar_blank; exact 0|]. unfold server_put.
      pose proof (impl_put id buf f 0 s Hwf Hf Hlen ltac:(unfold room; lia)) as Hput.
      cbn [ec_put extent_service] in Hput. unfold extent_client.put in Hput.
      apply wp_client in Hput. eapply wp_call; [exact Hput|].
      intros b s1 (-> & Hwf1 & _ & _ & t1 & t2 & t3 & Hf1). apply wp_ret. cbn [fst snd].
      rewrite Hf1. done. }
    destruct (Hget buf s1 Hwf1 Hdata Hvb Hfb) as (s2 & Hrun2). by exists s1, s2.
  - destruct (wp_run (call_1 mem call1 c_int c_ull rpc_remove id r to) (fun p s1 =>
      p = (OK, init c_int) /\ fs_wf s1 /\ file_at s1 (ext_id id) = None) s)
      as (p & s1 & Hrun & -> & Hwf1 & Hnone).
    { eapply (call_1_transparent mem call1 c_int c_ull rpc_remove id server_remove Hid);
        [exact Drem|done|apply scalar_blank; exact 0|]. unfold server_remove.
      pose proof (impl_remove id s Hwf) as Hrem.
      cbn [ec_remove extent_service] in Hrem. unfold extent_client.remove in Hrem.
      apply wp_client in Hrem. eapply wp_call; [exact Hrem|].
      intros b s1 (-> & Hwf1 & _ & Hnone & _). apply wp_ret. cbn [fst snd]. done. }
    destruct (Hget [] s1 Hwf1 ltac:(by rewrite Hnone) Hvn Hfn) as (s2 & Hrun2). by exists s1, s2.
Qed.
End theorems.

(** ** Witnesses *)
Section witnesses.
#[local] Existing Instance machine.
Import sample.

Definition no_mem : Z -> byte := fun _ => NUL.

(** Two vectors of numbers. *)
Lemma vector_roundtrip_witness :
  exists u, get_vector c_uint [1] (unmarshall_str no_mem (le_bytes 4 2 ++ le_bytes 4 7 ++ le_bytes 4 8)) =
    Ok ([1; 7; 8], u).
Proof.
  destruct (vector_roundtrip c_uint no_mem [7; 8] [1]) as (m & u & Hput & Hget & _).
  - split; [done|]. repeat constructor; done.
  - done.
  - exists u. vm_compute in Hput. injection Hput as <-. exact Hget.
Defined.

(** Seven numbers are added up on the other side. *)
Definition sum7 (a1 a2 a3 a4 a5 a6 a7 r : Z) : M unit (Z * Z) :=
  mret (0, a1 + a2 + a3 + a4 + a5 + a6 + a7).

Definition add_call (proc : Z) (req : marshall) (u : unmarshall) (to : Z) : M unit (Z * unmarshall) :=
  loopback no_mem (reg_7 c_uint c_uint c_uint c_uint c_uint c_uint c_uint c_uint sum7) req.

Lemma calls_transparent_witness :
  wp (call_7 no_mem add_call c_uint c_uint c_uint c_uint c_uint c_uint c_uint c_uint 1
        1 2 3 4 5 6 7 0 0) (fun p _ => p = (0, 28)) tt.
Proof.
  destruct (calls_transparent no_mem add_call 1 c_uint c_uint c_uint c_uint c_uint c_uint c_uint c_uint
    1 2 3 4 5 6 7 (fun _ r => mret (0, r)) (fun _ _ r => mret (0, r)) (fun _ _ _ r => mret (0, r))
    (fun _ _ _ _ r => mret (0, r)) (fun _ _ _ _ _ r => mret (0, r)) (fun _ _ _ _ _ _ r => mret (0, r))
    sum7) as (_ & _ & _ & _ & _ & _ & H7); [done..|].
  refine (H7 _ _ 0 0 (fun p _ => p = (0, 28)) tt _ _).
  - intros req u to w. reflexivity.
  - clear H7. by vm_compute.
  - exact I.
  - clear H7. apply wp_ret. split; [by vm_compute|]. split; [by vm_compute|reflexivity].
Defined.

(** The extent server behind a connection that looks up the handler. *)
Definition extent_call (proc : Z) (req : marshall) (u : unmarshall) (to : Z) :
    M inode_manager (Z * unmarshall) :=
  match find (fun p => proc =? p.1) extent_handlers with
  | Some (_, h) => loopback no_mem h req
  | None => mret (bind_failure, u)
  end.

(** The server on port 1. *)
Lemma booted_server : extent_main [[]; [byte_of_Z 49]] None 0 = Ok (mk_rpcs 1 0 extent_handlers, booted).
Proof.
  unfold extent_main. replace (atoi [byte_of_Z 49]) with (Ok 1) by by vm_compute.
  pose proof booted_new as H. unfold chfs_client_new, extent_client.new in H. cbn [after]. by rewrite H.
Qed.

Lemma extent_rpc_witness :
  exists s1 s2, call_2 no_mem extent_call c_int c_ull c_string rpc_put 1 [NUL] 0 0 booted =
      Ok ((OK, init c_int), s1) /\
    call_1 no_mem extent_call c_string c_ull rpc_get 1 [] 0 s1 = Ok ((OK, [NUL]), s2).
Proof.
  assert (len [NUL] <= MAX_SIZE) as Hl by by vm_compute.
  assert (valid c_ull 1) as Hid by by vm_compute.
  assert (valid c_int (init c_int)) as Hi by by vm_compute.
  assert (fits (enc c_ull 1 ++ enc c_string [NUL])) as F1 by by vm_compute.
  assert (fits (enc c_string [NUL])) as F2 by by vm_compute.
  assert (fits (enc c_string [])) as F3 by by vm_compute.
  assert (fits (enc c_int (init c_int))) as F4 by by vm_compute.
  assert (file_at booted (ext_id 1) = Some (empty_file T_DIR 1000)) as Hroot.
  { change (ext_id 1) with 1. exact booted_root. }
  assert (Forall (fun p => delivers no_mem extent_call p.1 p.2) extent_handlers) as Hd.
  { clear Hroot. unfold extent_handlers. repeat constructor; intros req u to w; reflexivity. }
  assert (blocks_needed (len (f_data (empty_file T_DIR 1000))) (len [NUL]) <= nfree (bm booted))%nat as Hr.
  { etrans; [|apply (booted_room 1); done]. by apply Nat.leb_le. }
  destruct (extent_rpc no_mem extent_call [[]; [byte_of_Z 49]] None 0 _ booted booted 1 (empty_file T_DIR 1000) [NUL] 0 0
    booted_server Hd booted_wf Hroot Hl Hr Hid Hi F1 F2 F3 F4) as [Hp _].
  exact Hp.
Defined.
End witnesses.
