(* ===== verification/Ownership.v ===== *)
(** Which blocks are marked and who owns them, before and after each call of the
    extent client. *)
From S2P Require Import Prelude Monad Disk BlockManager Inode InodeManager FsInv WriteFile.
From S2P Require Import WriteSpec ReadFile AllocInode RemoveFile Protocol Extent.
From Stdlib Require Import Ascii ZArith Lia.
From stdpp Require Import base gmap numbers list.
#[local] Open Scope Z_scope.

(** Nothing is marked or released, and every block keeps its owner. *)
Record same_blocks (s s' : inode_manager) : Prop := {
  sb_owns : forall j c, owns s' j c <-> owns s j c;
  sb_used : forall c, used (bm s') c = used (bm s) c
}.

(** The files keep their blocks, that of number [i] apart. *)
Definition owns_but (i : Z) (s s' : inode_manager) : Prop :=
  forall j c, j <> i -> owns s' j c <-> owns s j c.

(** File [i] is written: its old blocks or fresh ones, and nobody else's. *)
Record rewritten (i : Z) (s s' : inode_manager) : Prop := {
  rw_other : owns_but i s s';
  rw_used : forall c, used (bm s') c = true <-> (used (bm s) c = true /\ ~ owns s i c) \/ owns s' i c;
  rw_new : forall c, owns s' i c -> owns s i c \/ used (bm s) c = false
}.

(** File [i] with inode [n] is removed: the blocks that the code releases are free. *)
Record unlinked (i : Z) (n : inode) (s s' : inode_manager) : Prop := {
  ul_none : forall c, ~ owns s' i c;
  ul_other : owns_but i s s';
  ul_used : forall c, used (bm s') c = true <-> used (bm s) c = true /\ ~ released (bm s) n c
}.

Lemma same_blocks_refl s : same_blocks s s.
Proof. done. Qed.

(** A continuation that only looks at its argument. *)
Lemma bind_state {S A B} (m : M S A) (f : A -> M S B) s b s' (Q : A -> S -> Prop) :
  (m ≫= f) s = Ok (b, s') -> (forall a s1 b s2, f a s1 = Ok (b, s2) -> s2 = s1) ->
  wp m Q s -> exists a, Q a s'.
Proof.
  unfold mbind, M_bind, wp. destruct (m s) as [[a s1]| | | | |]; [|done..].
  intros Hf Hs HQ. apply Hs in Hf as ->. by exists a.
Qed.

Lemma owns_file s i c : file_at s i = None -> ~ owns s i c.
Proof. unfold file_at. intros Hf (n & Hn & _). by rewrite Hn in Hf. Qed.

Section calls.
Context `{E : Env}.

Lemma create_blocks type s : fs_wf s -> i16 type <> 0 ->
  wp (extent_client.create type) (fun _ s' => same_blocks s s') s.
Proof.
  intros Hwf Ht. unfold extent_client.create, extent_server.create. wp_step. wp_step.
  apply wp_alloc_inode; [done|done|..].
  - intros i s' _ k _ _ _ _ _ _ Ho Hu. by repeat wp_step.
  - intros _. by repeat wp_step.
Qed.

Lemma get_blocks id s : fs_wf s ->
  wp (extent_client.get id) (fun _ s' => last_alloced s' = last_alloced s /\ same_blocks s s') s.
Proof.
  intros Hwf. pose proof (impl_get id s Hwf) as Hg. cbn [ec_get extent_service] in Hg.
  apply wp_run in Hg as (r & s' & Hrun & _). eapply wp_of_run; [exact Hrun|].
  pose proof (ext_id_range id) as Hm.
  unfold extent_client.get, mbind, M_bind in Hrun.
  destruct (extent_server.get id s) as [[[ret buf] s1]| | | | |] eqn:Hget; [|done..].
  injection Hrun as <- <-. unfold extent_server.get in Hget.
  eapply (bind_state _ _ _ _ _ (fun _ s' => last_alloced s' = last_alloced s /\ same_blocks s s'))
    in Hget as [_ Ha]; [exact Ha| |].
  { intros [cbuf size] s2 b s3. repeat case_match; by intros [= _ <-] || done. }
  destruct (node_at s (ext_id id)) as [n|] eqn:En.
  - eapply wp_read_file; [done|exact En|]. by intros out s2 e _ Hl _ _ _ Ho Hu.
  - unfold read_file. apply wp_if; intros Hgt; [by wp_steps|].
    wp_step. apply wp_get_inode; [apply Hwf|lia|]. rewrite En. by wp_steps.
Qed.

Lemma put_blocks id buf n s :
  fs_wf s -> node_at s (ext_id id) = Some n -> len buf <= MAX_SIZE ->
  (blocks_needed (i_size n) (len buf) <= nfree (bm s))%nat ->
  wp (extent_client.put id buf) (fun _ s' =>
    last_alloced s' = last_alloced s /\ rewritten (ext_id id) s s') s.
Proof.
  intros Hwf Hn Hlen Hroom.
  unfold extent_client.put, extent_server.put. wp_step. wp_step. unfold extent_server.c_str.
  wp_step. apply wp_tick. wp_step. wp_step.
  rewrite i32_id by (unfold MAX_SIZE, len in *; lia).
  eapply (wp_write_file _ n _ _ 0); [by apply fs_wf_epoch|exact Hn|unfold len in *; lia|cbn [bm]; lia|].
  intros s' e _ Hl _ _ _ Hu Ho Hnew _. by repeat wp_step.
Qed.

Lemma put_none_blocks id buf s : fs_wf s -> node_at s (ext_id id) = None ->
  wp (extent_client.put id buf) (fun r s' =>
    r = OK /\ s' = mk_im (bm s) (last_alloced s) (Datatypes.S (epoch s))) s.
Proof.
  intros Hwf Hn. pose proof (ext_id_range id) as Hm.
  unfold extent_client.put, extent_server.put. wp_step. wp_step. unfold extent_server.c_str.
  wp_step. apply wp_tick. wp_step. wp_step. unfold write_file. wp_step.
  apply wp_get_inode; [apply Hwf|lia|].
  change (node_at (mk_im _ _ _) (ext_id id)) with (node_at s (ext_id id)). rewrite Hn.
  by repeat wp_step.
Qed.

Lemma remove_blocks id n s : fs_wf s -> node_at s (ext_id id) = Some n ->
  wp (extent_client.remove id) (fun _ s' =>
    last_alloced s' = last_alloced s /\ unlinked (ext_id id) n s s') s.
Proof.
  intros Hwf Hn. unfold extent_client.remove, extent_server.remove. wp_step. wp_step.
  eapply wp_remove_file; [done|exact Hn|]. intros s' Hwf' Hlast Hnone Hother Ho Hu.
  repeat wp_step. split; [done|]. split; [|done|done]. intros c. by apply owns_file.
Qed.

Lemma remove_none_blocks id s : fs_wf s -> node_at s (ext_id id) = None ->
  wp (extent_client.remove id) (fun _ s' => s' = s) s.
Proof.
  intros Hwf Hn. pose proof (ext_id_range id) as Hm.
  unfold extent_client.remove, extent_server.remove, remove_file. wp_step. wp_step.
  apply wp_if; intros Hgt; [by repeat wp_step|]. wp_step. apply wp_get_inode; [apply Hwf|lia|].
  rewrite Hn. by repeat wp_step.
Qed.
End calls.
