(* ===== verification/NoLeak.v ===== *)
(** The blocks in use: every marked block belongs to a file, except for those of two
    leaks of the code.

    [tidy] is kept by all calls of the extent client but two: the removal of a file
    of more than 100 blocks, which leaks (see [remove_file_leaks]), and cutting a file
    to nothing, which keeps a block that its removal does not release.  In a tidy
    state the free blocks are bounded from below by the number of files. *)
From S2P Require Import Prelude Monad Disk BlockManager Inode InodeManager FsInv WriteFile.
From S2P Require Import WriteSpec ReadFile AllocInode RemoveFile Protocol Extent DirFormat.
From S2P Require Import ChfsClient ChfsSpec System Ownership.
From Stdlib Require Import Ascii ZArith Lia.
From stdpp Require Import base gmap numbers list.
#[local] Open Scope Z_scope.

(** Every marked block has an owner. *)
Definition no_leak (s : inode_manager) : Prop :=
  forall c, used (bm s) c = true -> exists i, owns s i c.

(** ** Counting blocks *)

(** The blocks a file can have: 228 slots and the indirect block. *)
Definition block_list (b : block_manager) (n : inode) : list Z :=
  ind n :: (slot b n <$> zrange 0 228).

Lemma owned_block_list b n c : owned b n c -> c ∈ block_list b n.
Proof.
  intros [_ H]%owned_by_list. unfold block_list. rewrite elem_of_cons. exact H.
Qed.

Lemma length_block_list b n : length (block_list b n) = 229%nat.
Proof. unfold block_list. cbn [length]. by rewrite length_fmap, length_zrange. Qed.

Definition blocks_of (s : inode_manager) (l : list Z) : list Z :=
  l ≫= (fun i => match node_at s i with Some n => block_list (bm s) n | None => [] end).

Lemma length_blocks_of s l : (length (blocks_of s l) <= 229 * length l)%nat.
Proof.
  induction l as [|i l IH]; [done|]. cbn [blocks_of mbind list_bind length].
  change (l ≫= _) with (blocks_of s l). rewrite length_app.
  destruct (node_at s i); [rewrite length_block_list|]; simpl; lia.
Qed.

Lemma length_data_blocks : Z.of_nat (length data_blocks) = 31732.
Proof. unfold data_blocks. rewrite length_zrange. by rewrite Z2Nat.id. Qed.

Lemma length_pos_elem {A} (x : A) l : x ∈ l -> (0 < length l)%nat.
Proof. destruct l; [by intros ?%elem_of_nil|simpl; lia]. Qed.

(** With the files among [l], at most 229 blocks per number of [l] are in use. *)
Lemma no_leak_room s (l : list Z) :
  no_leak s -> (forall i c, owns s i c -> i ∈ l) ->
  (31732 <= Z.of_nat (nfree (bm s)) + 229 * Z.of_nat (length l)).
Proof.
  intros Hc Hl. unfold nfree.
  pose proof (filter_split (fun c => used (bm s) c = false) data_blocks) as Hs.
  assert (length (filter (fun c => ~ used (bm s) c = false) data_blocks) <= length (blocks_of s l))%nat
    as Hle.
  { apply submseteq_length, NoDup_submseteq; [apply NoDup_filter, NoDup_zrange|].
    intros c [Hu _]%list_elem_of_filter. apply not_false_iff_true in Hu.
    destruct (Hc c Hu) as (i & Ho). pose proof (Hl _ _ Ho) as Hil. destruct Ho as (n & Hn & Ho).
    unfold blocks_of. apply list_elem_of_bind. exists i. rewrite Hn.
    split; [by apply owned_block_list|done]. }
  pose proof (length_blocks_of s l) as Hb.
  pose proof length_data_blocks. lia.
Qed.

Section no_leak.
Context `{E : Env}.

(** Every block has an owner, and a file without bytes has no block. *)
Record tidy (s : inode_manager) : Prop := {
  td_wf : fs_wf s;
  td_leak : no_leak s;
  td_empty : forall i f c, file_at s i = Some f -> f_data f = [] -> ~ owns s i c
}.

Lemma booted_unused s c : just_booted s -> used (bm s) c = false.
Proof.
  intros Hs. destruct (used (bm s) c) eqn:Hu; [exfalso|done]. pose proof (fr_room s Hs) as Hr. unfold nfree in Hr.
  pose proof (used_data (bm s) c (fw_bm _ (fr_wf s Hs)) Hu) as Hd.
  pose proof (filter_split (fun c => used (bm s) c = false) data_blocks) as Hsplit.
  pose proof length_data_blocks as Hl.
  assert (c ∈ filter (fun c => ~ used (bm s) c = false) data_blocks) as Hin.
  { apply list_elem_of_filter. rewrite Hu. split; [done|by apply elem_of_data_blocks]. }
  apply length_pos_elem in Hin. lia.
Qed.

Lemma tidy_booted s : just_booted s -> tidy s.
Proof.
  intros Hs. split; [apply Hs|..].
  - intros c Hu. by rewrite booted_unused in Hu.
  - intros i f c _ _ Ho. pose proof (owns_used s i c (fr_wf s Hs) Ho) as Hu.
    by rewrite booted_unused in Hu.
Qed.

Lemma no_leak_same s s' : no_leak s -> same_blocks s s' -> no_leak s'.
Proof.
  intros Hc [Ho Hu] c Hc'. rewrite Hu in Hc'. destruct (Hc c Hc') as (i & Hi). exists i. by apply Ho.
Qed.

Lemma no_leak_rewritten i s s' : no_leak s -> rewritten i s s' -> no_leak s'.
Proof.
  intros Hc [Ho Hu _] c Hc'. apply Hu in Hc' as [[Hb Hi]|Hi]; [|by exists i].
  destruct (Hc c Hb) as (j & Hj). exists j. apply Ho; [|done]. by intros ->.
Qed.

Lemma no_leak_unlinked i n s s' : no_leak s -> unlinked i n s s' ->
  (forall c, owns s i c -> released (bm s) n c) -> no_leak s'.
Proof.
  intros Hc [_ Ho Hu] Hrel c Hc'. apply Hu in Hc' as [Huc Hnr]. destruct (Hc c Huc) as (j & Hj).
  exists j. apply Ho; [|done]. intros ->. by apply Hnr, Hrel.
Qed.

(** A file of at most 100 blocks that is not an emptied one is released as a whole. *)
Lemma owned_released s i n c :
  fs_wf s -> node_at s i = Some n -> 0 < i_size n <= 51200 -> owns s i c -> released (bm s) n c.
Proof.
  intros Hwf Hn Hz (n' & Hn' & [Hc0 Ho]). rewrite Hn in Hn'. injection Hn' as <-.
  pose proof (fw_node _ Hwf _ _ Hn) as Hnw. pose proof (proj1 (nb_le_iff (i_size n) 100)) as Hnb.
  pose proof (nb_pos (i_size n)) as Hpos. destruct Ho as [->|(j & Hj & <-)].
  - destruct Hc0. apply (nw_ind _ _ Hnw). lia.
  - left. exists j. split; [|done]. destruct (decide (j < nb (i_size n))); [lia|].
    destruct Hc0. apply (nw_hole _ _ Hnw). lia.
Qed.

(** ** The calls keep the state tidy *)
Lemma tidy_same s s' : tidy s -> fs_wf s' -> (forall i, file_at s' i = file_at s i) ->
  same_blocks s s' -> tidy s'.
Proof.
  intros Ht Hwf Hf Hb. split; [done|by eapply no_leak_same; [apply Ht|]|].
  intros i f c. rewrite Hf, (sb_owns _ _ Hb). apply Ht.
Qed.

Lemma create_tidy type s : tidy s -> i16 type <> 0 ->
  wp (extent_client.create type) (fun r s' => r.1 = OK /\ tidy s' /\
    ((exists i, 1 <= i <= INODE_NUM /\ r.2 = to_alloc (last_alloced s) i /\ file_at s r.2 = None /\
       (forall i', 1 <= i' < i -> file_at s (to_alloc (last_alloced s) i') <> None) /\
       last_alloced s' = r.2 /\ (exists t, file_at s' r.2 = Some (empty_file type t)) /\
       forall j, j <> r.2 -> file_at s' j = file_at s j) \/
     (r.2 = 0 /\ (forall i, 1 <= i <= INODE_NUM -> file_at s (to_alloc (last_alloced s) i) <> None) /\
      forall j, file_at s' j = file_at s j))) s.
Proof.
  intros Ht Hty. pose proof (td_wf _ Ht) as Hwf. unfold extent_client.create, extent_server.create.
  wp_step. wp_step. apply wp_alloc_inode; [done|done|..].
  - intros i s' Hi k Hnone Hbusy Hwf' Hlast Hfile Hother Ho Hu. repeat wp_step. cbn [fst snd].
    split; [done|]. split.
    + split; [done|by eapply no_leak_same; [apply Ht|]|]. intros j f c. rewrite Ho.
      destruct (decide (j = k)) as [->|Hj].
      * intros _ _ (n & Hn & _). apply file_at_None in Hnone. congruence.
      * rewrite Hother by done. apply Ht.
    + left. exists i. split; [done|]. split; [done|]. split; [done|]. split; [done|].
      split; [done|]. split; [by eexists|done].
  - intros Hfull. repeat wp_step. cbn [fst snd]. split; [done|]. split; [|by right].
    by eapply tidy_same; [exact Ht|by apply fs_wf_epoch|..].
Qed.

Lemma put_tidy id buf f s :
  tidy s -> file_at s (ext_id id) = Some f -> buf <> [] -> len buf <= MAX_SIZE ->
  (230 <= nfree (bm s))%nat ->
  wp (extent_client.put id buf) (fun r s' => r = OK /\ tidy s' /\ last_alloced s' = last_alloced s /\
    (forall j, j <> ext_id id -> file_at s' j = file_at s j) /\
    exists t1 t2 t3, file_at s' (ext_id id) = Some (mk_file (f_type f) t1 t2 t3 buf)) s.
Proof.
  intros Ht Hf Hne Hlen Hroom. pose proof (td_wf _ Ht) as Hwf.
  assert (blocks_needed (len (f_data f)) (len buf) <= 230)%nat as Hneed.
  { pose proof (file_ok _ _ _ Hwf Hf) as (_ & _ & _ & Hfl).
    pose proof (nb_range (len buf)). pose proof (nb_range (len (f_data f))).
    unfold blocks_needed, len in *. case_decide; lia. }
  pose proof (impl_put id buf f 0 s Hwf Hf Hlen ltac:(unfold room; lia)) as H1.
  pose proof Hf as (n & Hn & Ef)%file_at_Some.
  assert (len (f_data f) = i_size n) as Hfn by (rewrite Ef; by eapply len_content).
  pose proof (put_blocks id buf n s Hwf Hn Hlen ltac:(rewrite <- Hfn; lia)) as H2.
  cbn [ec_put extent_service] in H1. eapply wp_mono; [exact (wp_and _ _ _ _ H1 H2)|].
  intros r s' [(-> & Hwf' & _ & Hother & t1 & t2 & t3 & Hf') (Hl & Hrw)]. split; [done|].
  split; [|split; [done|split; [done|by exists t1, t2, t3]]].
  split; [done|eapply no_leak_rewritten; [apply Ht|exact Hrw]|].
  intros j g c. destruct (decide (j = ext_id id)) as [->|Hj].
  - rewrite Hf'. by intros [= <-].
  - rewrite Hother, (rw_other _ _ _ Hrw j c Hj) by done. apply Ht.
Qed.

Lemma put_none_tidy id buf s : tidy s -> file_at s (ext_id id) = None ->
  wp (extent_client.put id buf) (fun r s' => r = OK /\ tidy s') s.
Proof.
  intros Ht Hn%file_at_None. pose proof (td_wf _ Ht) as Hwf.
  eapply wp_mono; [by apply (put_none_blocks id buf s)|]. intros r s' [-> ->]. split; [done|].
  by eapply tidy_same; [exact Ht|by apply fs_wf_epoch|..].
Qed.

Lemma get_tidy id s : tidy s ->
  wp (extent_client.get id) (fun r s' => r = (OK, data_of (file_at s (ext_id id))) /\ tidy s' /\
    last_alloced s' = last_alloced s /\
    forall i, view (S:=inode_manager) s' i = view s i) s.
Proof.
  intros Ht. pose proof (td_wf _ Ht) as Hwf. pose proof (impl_get id s Hwf) as H1.
  pose proof (get_blocks id s Hwf) as H2.
  cbn [ec_get extent_service] in H1. eapply wp_mono; [exact (wp_and _ _ _ _ H1 H2)|].
  intros r s' [(-> & Hwf' & _ & Hother & t & Hf) (Hl & Hb)]. split; [done|].
  assert (forall i, view (S:=inode_manager) s' i = view s i) as Hsame.
  { intros i. unfold view. cbn [ext_file extent_laws].
    destruct (decide (i = ext_id id)) as [->|Hi]; [|by rewrite Hother].
    rewrite Hf. by destruct (file_at s (ext_id id)). }
  split; [|done]. split; [done|by eapply no_leak_same; [apply Ht|]|].
  intros i f c Hfi Hd. rewrite (sb_owns _ _ Hb).
  specialize (Hsame i). unfold view in Hsame. cbn [ext_file extent_laws] in Hsame. rewrite Hfi in Hsame. destruct (file_at s i) as [g|] eqn:Hg; [|done].
  injection Hsame as _ Hgd. eapply (td_empty _ Ht); [exact Hg|congruence].
Qed.

Lemma remove_tidy id s :
  tidy s -> (forall f, file_at s (ext_id id) = Some f -> len (f_data f) <= 51200) ->
  wp (extent_client.remove id) (fun r s' => r = OK /\ tidy s' /\ file_at s' (ext_id id) = None /\
    (file_at s (ext_id id) <> None -> last_alloced s' = last_alloced s) /\
    forall j, j <> ext_id id -> file_at s' j = file_at s j) s.
Proof.
  intros Ht Hlen. pose proof (td_wf _ Ht) as Hwf. pose proof (impl_remove id s Hwf) as H1.
  cbn [ec_remove extent_service] in H1. destruct (file_at s (ext_id id)) as [f|] eqn:Hf.
  - pose proof Hf as (n & Hn & Ef)%file_at_Some. pose proof (remove_blocks id n s Hwf Hn) as H2.
    assert (len (f_data f) = i_size n) as Hfn by (rewrite Ef; by eapply len_content).
    eapply wp_mono; [exact (wp_and _ _ _ _ H1 H2)|].
    intros r s' [(-> & Hwf' & _ & Hnone & Hother) (Hl & Hul)]. split; [done|].
    split; [|done]. split; [done| |].
    + eapply no_leak_unlinked; [apply Ht|exact Hul|]. intros c Ho.
      eapply owned_released; [done|exact Hn| |exact Ho]. specialize (Hlen f eq_refl).
      pose proof (size_range _ _ (fw_node _ Hwf _ _ Hn)) as Hz.
      destruct (decide (i_size n = 0)) as [H0|]; [|lia]. destruct (td_empty _ Ht _ f c Hf); [|done].
      apply nil_length_inv. unfold len in Hfn. lia.
    + intros j g c Hg. destruct (decide (j = ext_id id)) as [->|Hj]; [congruence|].
      rewrite Hother in Hg by done. rewrite (ul_other _ _ _ _ Hul j c) by done. by apply (td_empty _ Ht _ g).
  - pose proof (remove_none_blocks id s Hwf (proj1 (file_at_None _ _) Hf)) as H2.
    eapply wp_mono; [exact (wp_and _ _ _ _ H1 H2)|].
    by intros r s' [(-> & _ & _ & Hnone & Hother) ->].
Qed.
End no_leak.
