(* ===== verification/Space.v ===== *)
(** Space on the disk: with care, calls of the extent client never run out of blocks,
    and what care has to avoid. *)
From S2P Require Import Prelude Monad Disk BlockManager Inode InodeManager FsInv WriteFile.
From S2P Require Import WriteSpec ReadFile AllocInode RemoveFile Protocol Extent DirFormat.
From S2P Require Import ChfsClient ChfsSpec Refinement System Scenarios NoLeak.
From Stdlib Require Import Ascii ZArith Lia.
From stdpp Require Import base gmap numbers list.
#[local] Open Scope Z_scope.

(** The numbers in use. *)
Definition file_numbers (s : inode_manager) : list Z :=
  filter (fun i => is_Some (file_at s i)) (zrange 1 (Z.to_nat INODE_NUM)).

Section space.
Context `{E : Env}.

(** Calls that keep track of their blocks: files are not cut to nothing, are removed
    while they have at most 100 blocks, and are written while there are at most 137. *)
Definition careful (s : inode_manager) (c : call) : Prop :=
  match c with
  | Call_create type => i16 type <> 0
  | Call_get _ | Call_getattr _ => True
  | Call_put _ buf => buf <> [] /\ len buf <= MAX_SIZE /\ (length (file_numbers s) <= 137)%nat
  | Call_remove id => forall f, file_at s (ext_id id) = Some f -> len (f_data f) <= 51200
  end.

Inductive careful_run (s0 : inode_manager) : inode_manager -> Prop :=
| careful_start : careful_run s0 s0
| careful_step s c r s' :
    careful_run s0 s -> careful s c -> run_call c s = Ok (r, s') -> careful_run s0 s'.

(** At most 229 blocks for each file are in use. *)
Lemma tidy_room s : tidy s ->
  31732 <= Z.of_nat (nfree (bm s)) + 229 * Z.of_nat (length (file_numbers s)).
Proof.
  intros Ht. apply no_leak_room; [apply Ht|]. intros i c (n & Hn & _).
  assert (file_at s i = Some (file_of (bm s) n)) as Hf by (unfold file_at; by rewrite Hn).
  destruct (file_ok _ _ _ (td_wf _ Ht) Hf) as (Hi & _). unfold file_numbers.
  rewrite list_elem_of_filter, elem_of_zrange, Z2Nat.id by done.
  split; [rewrite Hf; by eexists|lia].
Qed.

Lemma run_call_tidy c s : tidy s -> careful s c -> wp (run_call c) (fun _ s' => tidy s') s.
Proof.
  intros Ht Hc. destruct c as [type|id|id|id buf|id];
    cbn [run_call careful ec_create ec_get ec_getattr ec_put ec_remove extent_service] in *.
  - eapply wp_call; [by apply (create_tidy type s)|]. intros r s' (_ & Ht' & _). by wp_step.
  - eapply wp_call; [by apply (get_tidy id s)|]. intros r s' (_ & Ht' & _). by wp_step.
  - pose proof (impl_getattr id s (td_wf _ Ht)) as H1.
    cbn [ec_getattr extent_service] in H1. eapply wp_call; [exact H1|].
    intros r s' [-> _]. by wp_step.
  - destruct Hc as (Hne & Hlen & Hfiles). pose proof (tidy_room s Ht) as Hroom.
    destruct (file_at s (ext_id id)) as [f|] eqn:Hf.
    + eapply wp_call; [exact (put_tidy id buf f s Ht Hf Hne Hlen ltac:(lia))|].
      intros r s' (_ & Ht' & _). by wp_step.
    + eapply wp_call; [by apply (put_none_tidy id buf s)|]. intros r s' (_ & Ht'). by wp_step.
  - eapply wp_call; [by apply (remove_tidy id s)|]. intros r s' (_ & Ht' & _). by wp_step.
Qed.

Lemma careful_run_tidy s0 s : just_booted s0 -> careful_run s0 s -> tidy s.
Proof.
  intros H0 Hr. induction Hr as [|s c r s' _ IH Hc Hrun]; [by apply tidy_booted|].
  by eapply (wp_Ok _ _ _ _ _ (run_call_tidy c s IH Hc)).
Qed.
End space.

(** C26 Space is accounted for: after any careful calls on a fresh file system every
    marked block belongs to a file and at most 229 blocks for each file are in use, so
    that every further careful call returns, without any assumption about free blocks. *)
Theorem space_bound `{E : Env} s0 s :
  just_booted s0 -> careful_run s0 s ->
  (forall c, used (bm s) c = true -> exists i, owns s i c) /\
  31732 <= Z.of_nat (nfree (bm s)) + 229 * Z.of_nat (length (file_numbers s)) /\
  forall c, careful s c -> exists r s', run_call c s = Ok (r, s') /\ careful_run s0 s'.
Proof.
  intros H0 Hr. pose proof (careful_run_tidy s0 s H0 Hr) as Ht.
  split; [apply Ht|]. split; [by apply tidy_room|]. intros c Hc.
  pose proof (run_call_tidy c s Ht Hc) as Hw. apply wp_run in Hw as (r & s' & Hrun & _).
  exists r, s'. split; [done|]. by eapply careful_step.
Qed.

(** C31 A file that is cut to nothing and then removed leaks: the first block it had
    is marked afterwards, and no file owns it. *)
Theorem truncate_leaks `{E : Env} s id f :
  fs_wf s -> file_at s (ext_id id) = Some f -> f_data f <> [] ->
  exists s1 s2 c, extent_client.put id [] s = Ok (OK, s1) /\
    extent_client.remove id s1 = Ok (OK, s2) /\
    owns s (ext_id id) c /\ used (bm s2) c = true /\ forall j, ~ owns s2 j c.
Proof.
  intros Hwf Hf Hne. pose proof Hf as (n & Hn & ->)%file_at_Some. cbn [file_of f_data] in Hne.
  pose proof (fw_node _ Hwf _ _ Hn) as Hnw. pose proof (size_range _ _ Hnw) as Hsz.
  assert (0 < i_size n) as Hpos.
  { pose proof (len_content _ _ _ Hwf Hn). destruct (content (bm s) n); [done|].
    unfold len in *. simpl in *. lia. }
  assert (slot (bm s) n 0 <> 0) as Hnz by (apply (nw_full _ _ Hnw); pose proof (nb_pos _ Hpos); lia).
  set (c := slot (bm s) n 0) in *.
  assert (wp (extent_client.put id []) (fun r s1 => r = OK /\ exists n1,
    node_at s1 (ext_id id) = Some n1 /\ i_size n1 = 0 /\ slot (bm s1) n1 0 = c) s) as H1.
  { unfold extent_client.put, extent_server.put. wp_step. wp_step. unfold extent_server.c_str.
    wp_step. apply wp_tick. wp_step. wp_step.
    eapply (wp_truncate (ext_id id) n); [by apply fs_wf_epoch|exact Hn|].
    intros s1 n1 Hn1 Hz Hs. wp_step. wp_step. split; [done|]. by exists n1. }
  assert (blocks_needed (len (f_data (file_of (bm s) n))) (len []) + 0 <= room s)%nat as Hroom.
  { cbn [file_of f_data]. rewrite (len_content _ _ _ Hwf Hn). pose proof (nb_range _ Hsz).
    unfold blocks_needed. change (nb (len [])) with 0. case_decide; lia. }
  pose proof (impl_put id [] (file_of (bm s) n) 0 s Hwf Hf ltac:(done) Hroom) as H2.
  cbn [ec_put extent_service] in H2. pose proof (wp_and _ _ _ _ H1 H2) as H.
  apply wp_run in H as (r & s1 & Hput & (-> & n1 & Hn1 & Hz & Hs1) & _ & Hwf1 & _).
  assert (wp (extent_client.remove id) (fun r s2 => r = OK /\ leaked s2 c) s1) as H3.
  { unfold extent_client.remove, extent_server.remove. wp_step. wp_step.
    eapply wp_mono; [apply (wp_remove_file_leaks (ext_id id) n1 c s1 Hwf1 Hn1)|].
    - rewrite <- Hs1. apply owned_slot; [lia|congruence].
    - intros [(j & Hj & _)|[H _]]; rewrite Hz in *; change (nb 0) with 0 in *; lia.
    - intros [] s2 [_ Hl]. by repeat wp_step. }
  apply wp_run in H3 as (r & s2 & Hrem & -> & Hu & Ho). exists s1, s2, c.
  split; [done|]. split; [done|]. split; [|done]. exists n. split; [done|]. by apply owned_slot; [lia|].
Qed.

#[local] Existing Instance machine.

Lemma space_bound_witness :
  31732 <= Z.of_nat (nfree (bm booted)) + 229 * Z.of_nat (length (file_numbers booted)) /\
  exists r s', run_call (Call_create T_FILE) booted = Ok (r, s') /\ careful_run booted s'.
Proof.
  destruct (space_bound booted booted booted_fresh (careful_start booted)) as (_ & H1 & H2).
  split; [exact H1|]. apply H2. cbn [careful]. discriminate.
Defined.

Lemma truncate_leaks_witness :
  exists s s1 s2 c, extent_client.put 1 [] s = Ok (OK, s1) /\
    extent_client.remove 1 s1 = Ok (OK, s2) /\ used (bm s2) c = true /\ forall j, ~ owns s2 j c.
Proof.
  destruct (with_root 10) as (s & f & Hs & Hf & _ & Hl); [unfold MAX_SIZE; lia|].
  destruct (truncate_leaks s 1 f) as (s1 & s2 & c & H1 & H2 & _ & H3); [exact Hs|exact Hf|..].
  - intros H0. rewrite H0 in Hl. discriminate.
  - exists s, s1, s2, c. split; [exact H1|]. split; [exact H2|exact H3].
Defined.
