(* ===== verification/Leak.v ===== *)
(** Leaked blocks: they stay leaked, and they add up.

    A block is leaked when it is marked and no file owns it.  No call of the extent
    client can give it back, and the removal of large files makes more of them until
    the disk is full of them. *)
From S2P Require Import Prelude Monad Disk BlockManager Inode InodeManager FsInv WriteFile.
From S2P Require Import WriteSpec ReadFile AllocInode RemoveFile Protocol Extent.
From S2P Require Import ChfsClient ChfsSpec ChfsOps ChfsTree ChfsReach Refinement System Scenarios.
From S2P Require Import Ownership NoLeak.
From Stdlib Require Import Ascii ZArith Lia.
From stdpp Require Import base gmap numbers list.
#[local] Open Scope Z_scope.

(** ** For ever *)
Lemma leaked_same s s' c : leaked s c -> same_blocks s s' -> leaked s' c.
Proof. intros [Hu Ho] [Hso Hsu]. split; [by rewrite Hsu|]. intros j. by rewrite Hso. Qed.

Lemma leaked_rewritten i s s' c : leaked s c -> rewritten i s s' -> leaked s' c.
Proof.
  intros [Hu Ho] [Hother Hused Hnew]. split; [apply Hused; by left|].
  intros j Hj. destruct (decide (j = i)) as [->|Hji].
  - destruct (Hnew c Hj) as [H|H]; [by apply (Ho i)|congruence].
  - apply Hother in Hj; [|done]. by apply (Ho j).
Qed.

Lemma leaked_unlinked i n s s' c :
  fs_wf s -> node_at s i = Some n -> leaked s c -> unlinked i n s s' -> leaked s' c.
Proof.
  intros Hwf Hn [Hu Ho] [Hnone Hother Hused]. split.
  - apply Hused. split; [done|]. intros Hrel. apply (Ho i). exists n. split; [done|].
    apply released_owned; [by apply (fw_node _ Hwf i)|done].
  - intros j Hj. destruct (decide (j = i)) as [->|Hji]; [by apply (Hnone c)|].
    apply Hother in Hj; [|done]. by apply (Ho j).
Qed.

Section leak.
Context `{E : Env}.

Lemma run_call_leaked c b s :
  fs_wf s -> leaked s b -> fits s c -> wp (run_call c) (fun _ s' => leaked s' b) s.
Proof.
  intros Hwf Hl Hfit. destruct c as [type|id|id|id buf|id];
    cbn [run_call fits ec_create ec_get ec_getattr ec_put ec_remove extent_service ext_room extent_laws] in *.
  - destruct Hfit as [Ht Hnz]. eapply wp_call; [apply (create_blocks type s Hwf); congruence|].
    intros r s' Hs. wp_step. by eapply leaked_same.
  - eapply wp_call; [by apply get_blocks|]. intros r s' [_ Hs]. wp_step. by eapply leaked_same.
  - pose proof (impl_getattr id s Hwf) as H1. cbn [ec_getattr extent_service] in H1.
    eapply wp_call; [exact H1|]. intros r s' [-> _]. by wp_step.
  - destruct Hfit as [Hlen Hroom]. destruct (node_at s (ext_id id)) as [n|] eqn:Hn.
    + eapply wp_call; [apply (put_blocks id buf n s Hwf Hn Hlen)|].
      * rewrite <- (len_content _ _ _ Hwf Hn). apply (Hroom (i_type n)). unfold view.
        cbn [ext_file extent_laws]. unfold file_at. by rewrite Hn.
      * intros r s' [_ Hs]. wp_step. by eapply leaked_rewritten.
    + eapply wp_call; [by apply put_none_blocks|]. intros r s' [_ ->]. by wp_step.
  - destruct (node_at s (ext_id id)) as [n|] eqn:Hn.
    + eapply wp_call; [by apply (remove_blocks id n)|]. intros r s' [_ Hs]. wp_step.
      by eapply leaked_unlinked.
    + eapply wp_call; [by apply remove_none_blocks|]. intros r s' ->. by wp_step.
Qed.

(** Calls one after the other, each with the resources it needs. *)
Inductive fitting_run (s0 : inode_manager) : inode_manager -> Prop :=
| fitting_start : fitting_run s0 s0
| fitting_step s c r s' :
    fitting_run s0 s -> fits s c -> run_call c s = Ok (r, s') -> fitting_run s0 s'.

Lemma fitting_leaked s0 s b :
  fs_wf s0 -> leaked s0 b -> fitting_run s0 s -> fs_wf s /\ leaked s b.
Proof.
  intros Hwf Hl Hr. induction Hr as [|s c r s' _ [IHw IHl] Hfit Hrun]; [done|]. split.
  - pose proof (wp_run_call (S:=inode_manager) c s IHw Hfit) as H. by eapply (wp_Ok _ _ _ _ _ H).
  - by eapply (wp_Ok _ _ _ _ _ (run_call_leaked c b s IHw IHl Hfit)).
Qed.
End leak.

(** C28 A leak is for ever as long as the calls fit: in a well-formed state a block that
    is marked without an owner stays marked and without an owner through any calls of the
    extent client that fit ([fits]: puts of at most [MAX_SIZE] bytes for which there are
    free blocks, types of 16 bits that are not 0), so no such call gives it to a file
    again. *)
Theorem leaked_forever `{E : Env} s0 s b :
  fs_wf s0 -> leaked s0 b -> fitting_run s0 s ->
  used (bm s) b = true /\ (forall j, ~ owns s j b) /\
  forall c, fits s c -> exists r s', run_call c s = Ok (r, s') /\ leaked s' b.
Proof.
  intros Hwf Hl Hr. destruct (fitting_leaked s0 s b Hwf Hl Hr) as [Hw [Hu Ho]].
  split; [done|]. split; [done|]. intros c Hfit.
  pose proof (run_call_leaked c b s Hw (conj Hu Ho) Hfit) as H. apply wp_run in H as (r & s' & H).
  by exists r, s'.
Qed.

(** ** Until the disk is full *)

(** The blocks behind the indirect block, which [remove_file] forgets. *)
Definition forgotten (b : block_manager) (n : inode) : list Z :=
  slot b n <$> zrange 100 (Z.to_nat (nb (i_size n) - 100)).

Lemma elem_of_forgotten b n c :
  c ∈ forgotten b n <-> exists j, 100 <= j < nb (i_size n) /\ slot b n j = c.
Proof.
  unfold forgotten. rewrite list_elem_of_fmap. setoid_rewrite elem_of_zrange. split.
  - intros (j & -> & Hj). exists j. split; [lia|done].
  - intros (j & Hj & <-). exists j. split; [done|lia].
Qed.

Lemma NoDup_forgotten b n : node_wf b n -> NoDup (forgotten b n).
Proof.
  intros Hn. pose proof (nb_range _ (size_range _ _ Hn)) as Hnb. unfold forgotten.
  apply NoDup_fmap_2_strong; [|apply NoDup_zrange].
  intros j1 j2 H1%elem_of_zrange H2%elem_of_zrange. apply (nw_inj _ _ Hn); [lia..|].
  apply (nw_full _ _ Hn). lia.
Qed.

Lemma owned_not_released b n c : node_wf b n -> 100 < nb (i_size n) ->
  owned b n c /\ ~ released b n c <-> c ∈ forgotten b n.
Proof.
  intros Hn Hbig. pose proof (nb_range _ (size_range _ _ Hn)) as Hnb. rewrite elem_of_forgotten. split.
  - intros [[Hc [->|(j & Hj & <-)]] Hrel]; [by destruct Hrel; right|]. exists j. split; [|done].
    destruct (decide (j < nb (i_size n))).
    + split; [|done]. destruct (decide (100 <= j)); [done|]. destruct Hrel. left. exists j.
      split; [lia|done].
    + destruct Hc. apply (nw_hole _ _ Hn). lia.
  - intros (j & Hj & <-). assert (slot b n j <> 0) as Hnz by (apply (nw_full _ _ Hn); lia).
    split; [apply owned_slot; [lia|done]|]. intros [(k & Hk & E)|[_ E]].
    + assert (k = j) as ->; [|lia]. apply (nw_inj _ _ Hn); [lia|lia|congruence|done].
    + by apply (nw_ind_ne _ _ Hn j); [lia|..].
Qed.

(** Writing a new file and removing it marks the forgotten blocks. *)
Lemma write_remove_nfree s s1 s2 k n :
  fs_wf s1 -> node_at s1 k = Some n -> 100 < nb (i_size n) -> (forall c, ~ owns s k c) ->
  rewritten k s s1 -> unlinked k n s1 s2 ->
  nfree (bm s) = (nfree (bm s2) + Z.to_nat (nb (i_size n) - 100))%nat.
Proof.
  intros Hwf Hn Hbig Hempty [_ Hu1 Hnew] [_ _ Hu2]. pose proof (fw_node _ Hwf _ _ Hn) as Hnw.
  assert (forall c, owns s1 k c <-> owned (bm s1) n c) as Hown.
  { intros c. unfold owns. rewrite Hn. split; [by intros (n' & [= <-] & Ho)|by exists n]. }
  assert (forall c, c ∈ forgotten (bm s1) n -> used (bm s) c = false) as Hfree.
  { intros c [Ho _]%owned_not_released; [|done..]. apply Hown, Hnew in Ho as [Ho|]; [|done].
    by destruct (Hempty c). }
  rewrite (nfree_marked (bm s) (bm s2) (forgotten (bm s1) n)).
  - unfold forgotten. by rewrite length_fmap, length_zrange.
  - by apply NoDup_forgotten.
  - intros c Hc. split; [|by apply Hfree]. apply owned_not_released in Hc as [Ho _]; [|done..].
    apply (used_data (bm s1)); [apply Hwf|]. by apply (nw_used _ _ Hnw).
  - intros c. rewrite Hu2, Hu1, Hown, <- owned_not_released by done. split; [|].
    + intros [[[Hus _]|Ho] Hrel]; [by left|by right].
    + intros [Hus|[Ho Hrel]]; [|split; [by right|done]]. split; [left; split; [done|apply Hempty]|].
      intros Hrel%released_owned; [|done]. apply Hown, Hnew in Hrel as [H|H]; [|congruence].
      by apply (Hempty c).
Qed.

Section rounds.
Context `{E : Env}.

(** A client that makes a file of the bytes [buf] and removes it again, [n] times. *)
Definition round (buf : bytes) : M inode_manager unit :=
  r ← extent_client.create T_FILE;
  _ ← extent_client.put r.2 buf;
  _ ← extent_client.remove r.2;
  mret tt.
Fixpoint rounds (n : nat) (buf : bytes) : M inode_manager unit :=
  match n with
  | O => mret tt
  | S n => _ ← round buf; rounds n buf
  end.

(** The blocks one round leaks. *)
Definition leak_of (buf : bytes) : nat := Z.to_nat (nb (len buf) - 100).

Lemma wp_round buf s :
  fs_wf s -> free_inode_number s -> 51200 < len buf <= MAX_SIZE ->
  (blocks_needed 0 (len buf) <= nfree (bm s))%nat ->
  wp (round buf) (fun _ s' => fs_wf s' /\ (forall i, file_at s' i = file_at s i) /\
    nfree (bm s) = (nfree (bm s') + leak_of buf)%nat) s.
Proof.
  intros Hwf Hfree Hlen Hroom. unfold round.
  pose proof (impl_create T_FILE s Hwf ltac:(done)) as H1.
  pose proof (create_blocks T_FILE s Hwf ltac:(done)) as B1.
  cbn [ec_create extent_service] in H1. wp_step. eapply wp_mono; [exact (wp_and _ _ _ _ H1 B1)|].
  intros [ret k] s1 [(_ & Hwf1 & Hr1 & Hk) Hb1]. cbn [fst snd] in Hk |- *.
  destruct Hk as [(Hk & Hnone & (t & Hf1) & Hother1)|(_ & Hfull & _)].
  2:{ destruct Hfree as (j & Hj & Hv). destruct (Hfull j Hj). unfold view in Hv.
      cbn [ext_file extent_laws] in Hv. by destruct (file_at s j). }
  assert (ext_id k = k) as Hid by (apply ext_id_id; unfold INODE_NUM in Hk; lia).
  rewrite <- Hid in Hf1. pose proof Hf1 as (n1 & Hn1 & Ef1)%file_at_Some.
  assert (i_size n1 = 0) as Hz1.
  { rewrite <- (len_content _ _ _ Hwf1 Hn1). apply (f_equal f_data) in Ef1. cbn in Ef1. by rewrite <- Ef1. }
  unfold room in Hr1.
  pose proof (impl_put k buf _ 0 s1 Hwf1 Hf1 ltac:(lia) ltac:(unfold room; cbn [f_data]; change (len []) with 0; lia)) as H2.
  pose proof (put_blocks k buf n1 s1 Hwf1 Hn1 ltac:(lia) ltac:(rewrite Hz1; lia)) as B2.
  cbn [ec_put extent_service] in H2. wp_step. eapply wp_mono; [exact (wp_and _ _ _ _ H2 B2)|].
  intros ret2 s2 [(_ & Hwf2 & _ & Hother2 & t1 & t2 & t3 & Hf2) [_ Hb2]].
  pose proof Hf2 as (n2 & Hn2 & Ef2)%file_at_Some.
  assert (i_size n2 = len buf) as Hz2.
  { rewrite <- (len_content _ _ _ Hwf2 Hn2). apply (f_equal f_data) in Ef2. cbn in Ef2. by rewrite <- Ef2. }
  pose proof (impl_remove k s2 Hwf2) as H3. pose proof (remove_blocks k n2 s2 Hwf2 Hn2) as B3.
  cbn [ec_remove extent_service] in H3. wp_step. eapply wp_mono; [exact (wp_and _ _ _ _ H3 B3)|].
  intros ret3 s3 [(_ & Hwf3 & _ & Hnone3 & Hother3) [_ Hb3]]. wp_step. rewrite Hid in *.
  split; [done|]. split.
  - intros i. destruct (decide (i = k)) as [->|Hi]; [congruence|]. by rewrite Hother3, Hother2, Hother1.
  - rewrite <- (nfree_used_ext _ _ (sb_used _ _ Hb1)). unfold leak_of. rewrite <- Hz2.
    apply (write_remove_nfree s1 s2 s3 k n2); [done|done| | |done|done].
    + pose proof (proj2 (nb_le_iff (i_size n2) 100)). lia.
    + intros c Ho%(sb_owns _ _ Hb1). by apply owns_file in Ho.
Qed.

Lemma free_inode_number_files s s' :
  (forall i, file_at s' i = file_at s i) -> free_inode_number s -> free_inode_number s'.
Proof.
  intros Hf (j & Hj & Hv). exists j. split; [done|]. unfold view in *. cbn [ext_file extent_laws] in *.
  by rewrite Hf.
Qed.

Lemma wp_rounds n buf s :
  fs_wf s -> free_inode_number s -> 51200 < len buf <= MAX_SIZE ->
  (n * leak_of buf + blocks_needed 0 (len buf) <= nfree (bm s) + leak_of buf)%nat ->
  wp (rounds n buf) (fun _ s' => fs_wf s' /\ (forall i, file_at s' i = file_at s i) /\
    nfree (bm s) = (nfree (bm s') + n * leak_of buf)%nat) s.
Proof.
  revert s. induction n as [|n IH]; intros s Hwf Hfree Hlen Hroom; cbn [rounds].
  { wp_step. split; [done|]. split; [done|]. lia. }
  wp_step. eapply wp_mono; [apply (wp_round buf s Hwf Hfree Hlen); lia|].
  intros [] s1 (Hwf1 & Hf1 & Hn1). eapply wp_mono.
  - apply (IH s1 Hwf1); [by apply (free_inode_number_files s)|done|].
    lia.
  - intros [] s2 (Hwf2 & Hf2 & Hn2). split; [done|]. split; [intros i; by rewrite Hf2|]. lia.
Qed.
End rounds.

(** C27 Files that are gone fill the disk: making a file of more than 51200 bytes and
    removing it, [n] times, leaves every file as it was, and the free blocks are fewer
    by [n] times the blocks of the file behind its first 100. *)
Theorem removed_files_fill_disk `{E : Env} n buf s :
  fs_wf s -> free_inode_number s -> 51200 < len buf <= MAX_SIZE ->
  (n * leak_of buf + blocks_needed 0 (len buf) <= nfree (bm s) + leak_of buf)%nat ->
  exists s', rounds n buf s = Ok (tt, s') /\ (forall i, file_at s' i = file_at s i) /\
    Z.of_nat (nfree (bm s')) = Z.of_nat (nfree (bm s)) - Z.of_nat n * (nb (len buf) - 100).
Proof.
  intros Hwf Hfree Hlen Hroom. pose proof (wp_rounds n buf s Hwf Hfree Hlen Hroom) as Hw.
  apply wp_run in Hw as ([] & s' & Hrun & _ & Hf & Hn). exists s'. split; [done|]. split; [done|].
  pose proof (proj2 (nb_le_iff (len buf) 100)). unfold leak_of in Hn. lia.
Qed.

(** ** Witnesses *)
#[local] Existing Instance machine.

Lemma leaked_forever_witness :
  exists s b r s', leaked s b /\ run_call (Call_getattr 1) s = Ok (r, s') /\ leaked s' b.
Proof.
  destruct (with_root 60000) as (s0 & f & Hs & Hf & _ & Hl); [unfold MAX_SIZE; lia|].
  pose proof Hf as (n & Hn & ->)%file_at_Some. cbn [file_of f_data] in Hl.
  rewrite (len_content _ _ _ Hs Hn) in Hl. pose proof (fw_node _ Hs _ _ Hn) as Hnw.
  assert (slot (bm s0) n 100 ∈ forgotten (bm s0) n) as Hb.
  { apply elem_of_forgotten. exists 100. rewrite Hl. change (nb 60000) with 118. split; [lia|done]. }
  apply owned_not_released in Hb as [Ho Hr]; [|done|rewrite Hl; change (nb 60000) with 118; lia].
  pose proof (wp_remove_file_leaks 1 n _ s0 Hs Hn Ho Hr) as Hw.
  apply wp_run in Hw as ([] & s & Hrun & _ & Hleak).
  assert (fs_wf s) as Hwf.
  { assert (wp (remove_file 1) (fun _ s' => fs_wf s') s0) as H.
    { eapply wp_remove_file; [done|exact Hn|]. by intros s' H _ _ _ _ _. }
    by apply (wp_Ok _ _ _ _ _ H Hrun). }
  destruct (leaked_forever s s (slot (bm s0) n 100) Hwf Hleak (fitting_start s)) as (_ & _ & H).
  destruct (H (Call_getattr 1) I) as (r & s' & H1 & H2).
  exists s, (slot (bm s0) n 100), r, s'. split; [exact Hleak|]. split; [exact H1|exact H2].
Defined.

(** 247 rounds with the largest file on a disk without files leave 116 free blocks. *)
Lemma removed_files_fill_disk_witness :
  exists s', rounds 247 (load letters 0 116736) booted = Ok (tt, s') /\
    (forall i, file_at s' i = file_at booted i) /\ Z.of_nat (nfree (bm s')) = 116.
Proof.
  assert (len (load letters 0 116736) = 116736) as Hl by (unfold len; rewrite length_load; lia).
  pose proof (fr_room booted booted_fresh) as Hr.
  destruct (removed_files_fill_disk 247 (load letters 0 116736) booted) as (s' & H1 & H2 & H3).
  - exact booted_wf.
  - exact booted_free.
  - rewrite Hl. unfold MAX_SIZE. lia.
  - unfold leak_of. rewrite Hl. change (Z.to_nat (nb 116736 - 100)) with (Z.to_nat 128).
    assert (blocks_needed 0 116736 <= Z.to_nat 229)%nat by (apply Nat.leb_le; reflexivity). lia.
  - exists s'. split; [exact H1|]. split; [exact H2|]. rewrite H3, Hl. change (nb 116736) with 228. lia.
Defined.
