(* ===== verification/Tester.v ===== *)
(** part1_tester.cc: the program that tests the extent client, one definition per
    test and one for [main].

    [rand] returns an arbitrary sequence of numbers ([srand] does not matter then),
    [junk] are the elements of the local arrays of numbers before they are written,
    and the messages are left out. *)
From S2P Require Import Prelude Monad InodeManager Protocol Extent DirFormat Fuse.
From Stdlib Require Import Ascii ZArith Lia.
From stdpp Require Import base list.
#[local] Open Scope Z_scope.

(** [for (i = from; i < from + n; i++)] with locals [l]; the body goes on with new
    locals or returns from the function. *)
Fixpoint for_up {S L R : Type} (n : nat) (i : Z) (body : Z -> L -> M S (L + R)) (l : L) :
    M S (L + R) :=
  match n with
  | O => mret (inl l)
  | Datatypes.S n =>
      r ← body i l;
      match r with
      | inl l' => for_up n (i + 1) body l'
      | inr c => mret (inr c)
      end
  end.

Definition FILE_NUM : Z := 50.
Definition LARGE_FILE_SIZE_MIN : Z := 512 * 10.
Definition LARGE_FILE_SIZE_MAX : Z := 512 * 200.

Record tester := mk_tester {
  ec : inode_manager;
  total_score : Z;
  draws : nat         (* the calls of [rand] so far *)
}.

(** [printf] of an [int] with %d *)
Definition print_d (z : Z) : bytes :=
  if z <? 0 then byte_of_Z 45 :: put_digits 20 (- z) [] else put_digits 20 z [].

(** [sprintf(temp, "%d", z)] *)
Definition sprintf_d (temp : bytes) (z : Z) : bytes :=
  let s := print_d z ++ [NUL] in s ++ drop (length s) temp.

Module part1_tester.
Section part1_tester.
Context `{E : Env}.
Context (rnd : nat -> Z) (junk : Z -> Z).

Definition on_ec {A} (m : M inode_manager A) : M tester A :=
  zoom ec (fun s t => mk_tester s (total_score t) (draws t)) m.

Definition rand : M tester Z :=
  t ← get_st;
  _ ← put_st (mk_tester (ec t) (total_score t) (S (draws t)));
  mret (rnd (draws t)).

Definition add_score (points : Z) : M tester unit :=
  t ← get_st;
  put_st (mk_tester (ec t) (total_score t + points) (draws t)).

(** The end of a test: [total_score += points; return 0;], or a [return] before. *)
Definition passed {L} (points : Z) (r : L + Z) : M tester Z :=
  match r with
  | inl _ => _ ← add_score points; mret 0
  | inr code => mret code
  end.

(** One branch of the loop of [test_create_and_getattr]. *)
Definition check_create (type : Z) : M tester (unit + Z) :=
  r ← on_ec (extent_client.create type);
  let '(_, id) := r in
  if i32 id =? 0 then mret (inr 1)
  else
    r ← on_ec (extent_client.getattr id);
    let '(ret, a) := r in
    if negb (ret =? OK) then mret (inr 2)
    else if negb (a_type a =? type) then mret (inr 3)
    else mret (inl tt).

Definition create_body (i : Z) (_ : unit) : M tester (unit + Z) :=
  r ← rand;
  let rnum := Z.rem r 10 in
  if rnum <? 3 then check_create T_DIR else check_create T_FILE.

Definition test_create_and_getattr : M tester Z :=
  r ← for_up (Z.to_nat FILE_NUM) 0 create_body tt;
  passed 40 r.

Definition put_body (i : Z) (contents : list Z) : M tester (list Z + Z) :=
  let id := u64 (i + 2) in
  r ← on_ec (extent_client.getattr id);
  let '(ret, a) := r in
  if negb (ret =? OK) then mret (inr 1)
  else if a_type a =? T_FILE then
    r ← rand;
    let rnum := Z.rem r 10000 in
    let temp := sprintf_d (replicate 10 NUL) rnum in
    ret ← on_ec (extent_client.put id (until_nul temp));
    if negb (ret =? OK) then mret (inr 2)
    else mret (inl (<[Z.to_nat i := rnum]> contents))
  else mret (inl contents).

Definition get_body (contents : list Z) (i : Z) (_ : unit) : M tester (unit + Z) :=
  let id := u64 (i + 2) in
  r ← on_ec (extent_client.getattr id);
  let '(ret, a) := r in
  if negb (ret =? OK) then mret (inr 3)
  else if a_type a =? T_FILE then
    r ← on_ec (extent_client.get id);
    let '(ret, buf) := r in
    if negb (ret =? OK) then mret (inr 4)
    else
      let temp := sprintf_d (replicate 10 NUL) (nth (Z.to_nat i) contents 0) in
      if negb (bool_decide (buf = until_nul temp)) then mret (inr 5) else mret (inl tt)
  else mret (inl tt).

Definition test_put_and_get : M tester Z :=
  r ← for_up (Z.to_nat FILE_NUM) 0 put_body (junk <$> zrange 0 (Z.to_nat FILE_NUM));
  match r with
  | inr code => mret code
  | inl contents =>
      r ← for_up (Z.to_nat FILE_NUM) 0 (get_body contents) tt;
      passed 30 r
  end.

Definition remove_body (i : Z) (_ : unit) : M tester (unit + Z) :=
  let id := u64 (i + 2) in
  ret ← on_ec (extent_client.remove id);
  if negb (ret =? OK) then mret (inr 1)
  else
    r ← on_ec (extent_client.getattr id);
    let '(_, a) := r in
    if negb (a_type a =? 0) then mret (inr 2) else mret (inl tt).

Definition test_remove : M tester Z :=
  r ← for_up (Z.to_nat FILE_NUM) 0 remove_body tt;
  passed 20 r.

(** [test_indirect] *)
Definition indirect_create (i : Z) (id_list : list Z) : M tester (list Z + Z) :=
  r ← on_ec (extent_client.create T_FILE);
  let '(ret, id) := r in
  if negb (ret =? OK) then mret (inr 1) else mret (inl (<[Z.to_nat i := id]> id_list)).

(** [temp[k] = 97 + rnum] *)
Definition letter_body (k : Z) (temp : bytes) : M tester (bytes + Z) :=
  r ← rand;
  let rnum := Z.rem r 26 in
  mret (inl (<[Z.to_nat k := byte_of_Z (97 + rnum)]> temp)).

Definition indirect_put (id_list : list Z) (i : Z) (content : list bytes) :
    M tester (list bytes + Z) :=
  r ← rand;
  let size := Z.rem r (LARGE_FILE_SIZE_MAX - LARGE_FILE_SIZE_MIN) + LARGE_FILE_SIZE_MIN in
  t ← for_up (Z.to_nat size) 0 letter_body (replicate (Z.to_nat LARGE_FILE_SIZE_MAX) NUL);
  match t with
  | inr code => mret (inr code)
  | inl temp =>
      let c := until_nul temp in
      ret ← on_ec (extent_client.put (nth (Z.to_nat i) id_list 0) c);
      if negb (ret =? OK) then mret (inr 1) else mret (inl (<[Z.to_nat i := c]> content))
  end.

Definition indirect_get (id_list : list Z) (content : list bytes) (i : Z) (_ : unit) :
    M tester (unit + Z) :=
  r ← on_ec (extent_client.get (nth (Z.to_nat i) id_list 0));
  let '(ret, buf) := r in
  if negb (ret =? OK) then mret (inr 2)
  else if negb (bool_decide (buf = nth (Z.to_nat i) content [])) then mret (inr 3)
  else mret (inl tt).

Definition indirect_round (id_list : list Z) (j : Z) (content : list bytes) :
    M tester (list bytes + Z) :=
  r ← for_up (Z.to_nat FILE_NUM) 0 (indirect_put id_list) content;
  match r with
  | inr code => mret (inr code)
  | inl content =>
      r ← for_up (Z.to_nat FILE_NUM) 0 (indirect_get id_list content) tt;
      match r with
      | inr code => mret (inr code)
      | inl _ => mret (inl content)
      end
  end.

Definition indirect_remove (id_list : list Z) (i : Z) (_ : unit) : M tester (unit + Z) :=
  ret ← on_ec (extent_client.remove (nth (Z.to_nat i) id_list 0));
  if negb (ret =? OK) then mret (inr 4) else mret (inl tt).

Definition test_indirect : M tester Z :=
  r ← for_up (Z.to_nat FILE_NUM) 0 indirect_create (junk <$> zrange 0 (Z.to_nat FILE_NUM));
  match r with
  | inr code => mret code
  | inl id_list =>
      r ← for_up 10 0 (indirect_round id_list) (replicate (Z.to_nat FILE_NUM) []);
      match r with
      | inr code => mret code
      | inl _ =>
          r ← for_up (Z.to_nat FILE_NUM) 0 (indirect_remove id_list) tt;
          passed 10 r
      end
  end.

(** The tests in [main], each only if those before it returned 0. *)
Fixpoint run_tests (tests : list (M tester Z)) : M tester unit :=
  match tests with
  | [] => mret tt
  | test :: tests =>
      r ← test;
      if negb (r =? 0) then mret tt else run_tests tests
  end.

(** [main] behind the construction of the client. *)
Definition tests : M tester Z :=
  _ ← run_tests [test_create_and_getattr; test_put_and_get; test_remove; test_indirect];
  t ← get_st;
  mret (total_score t).

(** The result of the process and the score it prints. *)
Definition main (argc last0 : Z) : outcome (Z * option Z) :=
  if negb (argc =? 1) then Ok (1, None)
  else
    after (extent_client.new last0) (fun s =>
    after (tests (mk_tester s 0 0)) (fun r => Ok (0, Some r.1))).
End part1_tester.
End part1_tester.
