(* ===== verification/TesterSpec.v ===== *)
(** The extent client as the tester sees it: a map from numbers to files without
    times, that never leaks a block, and the number given out last. *)
From S2P Require Import Prelude Monad Disk BlockManager Inode InodeManager FsInv WriteFile.
From S2P Require Import WriteSpec ReadFile AllocInode RemoveFile Protocol Extent DirFormat.
From S2P Require Import ChfsClient ChfsSpec Fuse System NoLeak Tester.
From Stdlib Require Import Ascii ZArith Lia.
From stdpp Require Import base gmap numbers list.
#[local] Open Scope Z_scope.

Abbreviation files := (gmap Z (Z * bytes)).

Section world.
Context `{E : Env}.

Record world (s : inode_manager) (fs : files) (last : Z) : Prop := {
  w_tidy : tidy s;
  w_last : last_alloced s = last;
  w_view : forall i, view s i = fs !! i
}.

Lemma view_Some s i t d : view (S:=inode_manager) s i = Some (t, d) <->
  exists f, file_at s i = Some f /\ f_type f = t /\ f_data f = d.
Proof.
  unfold view. cbn [ext_file extent_laws]. destruct (file_at s i) as [f|]; cbn.
  - split; [intros [= <- <-]; by exists f|]. by intros (f' & [= <-] & <- & <-).
  - split; [done|]. by intros (f & ? & _).
Qed.

Lemma view_None_file s i : view (S:=inode_manager) s i = None <-> file_at s i = None.
Proof. unfold view. cbn [ext_file extent_laws]. by destruct (file_at s i). Qed.

Lemma view_owns s i c : owns s i c -> is_Some (view (S:=inode_manager) s i).
Proof.
  intros (n & Hn & _). unfold view. cbn [ext_file extent_laws]. unfold file_at.
  rewrite Hn. by eexists.
Qed.

Lemma view_other s s' j : file_at s' j = file_at s j ->
  view (S:=inode_manager) s' j = view (S:=inode_manager) s j.
Proof. intros Hj. unfold view. cbn [ext_file extent_laws]. by rewrite Hj. Qed.

(** At most 229 blocks for each file are in use. *)
Lemma world_room s fs last : world s fs last -> (size fs <= 130)%nat -> (230 <= nfree (bm s))%nat.
Proof.
  intros Hw Hs. pose proof (no_leak_room s (fst <$> map_to_list fs) (td_leak _ (w_tidy _ _ _ Hw))) as Hr.
  rewrite length_fmap in Hr. rewrite length_map_to_list in Hr.
  assert (forall i c, owns s i c -> i ∈ fst <$> map_to_list fs) as Hin; [|specialize (Hr Hin); lia].
  intros i c Ho%view_owns. rewrite (w_view _ _ _ Hw) in Ho. destruct Ho as [x Hx].
  apply list_elem_of_fmap. exists (i, x). split; [done|]. by apply elem_of_map_to_list.
Qed.

Lemma world_booted s : just_booted s -> world s {[ 1 := (T_DIR, []) ]} 0.
Proof.
  intros Hb. split; [by apply tidy_booted|apply Hb|]. intros i. destruct (decide (i = 1)) as [->|Hne].
  - rewrite lookup_singleton_eq. apply view_Some. eexists. split; [by apply fr_root|done].
  - rewrite lookup_singleton_ne by done. apply view_None_file. by apply Hb.
Qed.

(** The file [i] becomes [x], and all else stays. *)
Lemma world_insert s (fs : files) i x s' :
  (forall j, view s j = fs !! j) -> view (S:=inode_manager) s' i = x ->
  (forall j, j <> i -> file_at s' j = file_at s j) ->
  forall j, view (S:=inode_manager) s' j = partial_alter (fun _ => x) i fs !! j.
Proof.
  intros Hv Hi Hother j. destruct (decide (j = i)) as [->|Hj].
  - by rewrite lookup_partial_alter_eq.
  - rewrite lookup_partial_alter_ne, <- Hv by done. by apply view_other, Hother.
Qed.

(** ** The calls *)
Lemma world_create s fs last type i :
  world s fs last -> i16 type = type -> type <> 0 -> 1 <= i <= INODE_NUM ->
  (forall i', 1 <= i' < i -> is_Some (fs !! to_alloc last i')) ->
  fs !! to_alloc last i = None ->
  wp (extent_client.create type) (fun r s' => r = (OK, to_alloc last i) /\
    world s' (<[to_alloc last i := (type, [])]> fs) (to_alloc last i)) s.
Proof.
  intros Hw Ht Hz Hi Hbusy Hfree. pose proof (w_last _ _ _ Hw) as Hl. subst last.
  assert (forall j, file_at s j = None <-> fs !! j = None) as Hnone.
  { intros j. by rewrite <- (w_view _ _ _ Hw), view_None_file. }
  eapply wp_mono; [apply (create_tidy type s); [apply Hw|congruence]|].
  intros [ret k] s' (Hret & Htidy & Hcase). cbn [fst snd] in *. subst ret.
  destruct Hcase as [(i1 & Hi1 & Ek & Hk & Hb1 & Hlast & (t & Hf) & Hother)|(-> & Hfull & _)].
  - assert (i1 = i) as ->.
    { destruct (Z.lt_trichotomy i1 i) as [Hlt|[?|Hgt]]; [|done|].
      - apply Hnone in Hk. destruct (Hbusy i1 ltac:(lia)). congruence.
      - destruct (Hb1 i ltac:(lia)). by apply Hnone. }
    subst k. split; [done|]. split; [done|done|].
    apply (world_insert s); [apply Hw| |done]. apply view_Some. by eexists.
  - destruct (Hfull i Hi). by apply Hnone.
Qed.

Lemma world_getattr s fs last id : world s fs last ->
  wp (extent_client.getattr id) (fun r s' => s' = s /\ r.1 = OK /\
    a_type r.2 = match fs !! ext_id id with Some (t, _) => u32 t | None => 0 end) s.
Proof.
  intros Hw. pose proof (impl_getattr id s (td_wf _ (w_tidy _ _ _ Hw))) as H1.
  cbn [ec_getattr extent_service] in H1. eapply wp_mono; [exact H1|]. intros r s' [-> ->].
  split; [done|]. split; [done|]. cbn [snd]. rewrite <- (w_view _ _ _ Hw). unfold view.
  cbn [ext_file extent_laws]. by destruct (file_at s (ext_id id)).
Qed.

Lemma world_put s fs last id t d buf :
  world s fs last -> fs !! ext_id id = Some (t, d) -> buf <> [] -> len buf <= MAX_SIZE ->
  (size fs <= 130)%nat ->
  wp (extent_client.put id buf) (fun r s' => r = OK /\
    world s' (<[ext_id id := (t, buf)]> fs) last) s.
Proof.
  intros Hw Hid Hne Hlen Hsize. pose proof (world_room _ _ _ Hw Hsize) as Hroom.
  rewrite <- (w_view _ _ _ Hw) in Hid. apply view_Some in Hid as (f & Hf & <- & _).
  eapply wp_mono; [apply (put_tidy id buf f s); try done; apply Hw|].
  intros r s' (-> & Htidy & Hl & Hother & t1 & t2 & t3 & Hf'). split; [done|].
  split; [done|rewrite Hl; apply Hw|]. apply (world_insert s); [apply Hw| |done].
  apply view_Some. by eexists.
Qed.

Lemma world_get s fs last id : world s fs last ->
  wp (extent_client.get id) (fun r s' =>
    r = (OK, match fs !! ext_id id with Some (_, d) => d | None => [] end) /\
    world s' fs last) s.
Proof.
  intros Hw. eapply wp_mono; [apply (get_tidy id s), Hw|].
  intros r s' (-> & Htidy & Hl & Hsame). split.
  - rewrite <- (w_view _ _ _ Hw). unfold view. cbn [ext_file extent_laws].
    by destruct (file_at s (ext_id id)).
  - split; [done|rewrite Hl; apply Hw|]. intros j. rewrite Hsame. apply Hw.
Qed.

Lemma world_remove s fs last id t d :
  world s fs last -> fs !! ext_id id = Some (t, d) -> len d <= 51200 ->
  wp (extent_client.remove id) (fun r s' => r = OK /\
    world s' (delete (ext_id id) fs) last) s.
Proof.
  intros Hw Hid Hlen. rewrite <- (w_view _ _ _ Hw) in Hid.
  apply view_Some in Hid as (f & Hf & <- & <-).
  eapply wp_mono; [apply (remove_tidy id s); [apply Hw|by intros g; rewrite Hf; intros [= <-]]|].
  intros r s' (-> & Htidy & Hnone & Hl & Hother). split; [done|].
  split; [done|rewrite Hl by congruence; apply Hw|].
  apply (world_insert s); [apply Hw|by apply view_None_file|done].
Qed.
End world.
