(* ===== verification/TesterTheorems.v ===== *)
(** The tester passes: on a freshly booted file system each of its tests returns 0,
    whatever the clock, the random numbers and the garbage in memory are. *)
From S2P Require Import Prelude Monad Disk BlockManager Inode InodeManager FsInv WriteFile.
From S2P Require Import WriteSpec ReadFile AllocInode RemoveFile Protocol Extent DirFormat.
From S2P Require Import ChfsClient ChfsSpec Fuse System NoLeak Tester TesterSpec.
From Stdlib Require Import Ascii ZArith Lia.
From stdpp Require Import base gmap numbers list.
#[local] Open Scope Z_scope.

(** ** Loops and texts *)

(** A loop that never returns early. *)
Lemma wp_for_up {S L R} (Inv : Z -> L -> S -> Prop) n i (body : Z -> L -> M S (L + R)) Q l s :
  (forall k l s, i <= k < i + Z.of_nat n -> Inv k l s ->
     wp (body k l) (fun r s' => exists l', r = inl l' /\ Inv (k + 1) l' s') s) ->
  Inv i l s -> (forall l' s', Inv (i + Z.of_nat n) l' s' -> Q (inl l') s') ->
  wp (for_up n i body l) Q s.
Proof.
  revert i l s. induction n as [|n IH]; intros i l s Hb Hi HQ; cbn [for_up].
  - apply wp_ret, HQ. by rewrite Z.add_0_r.
  - eapply wp_call; [apply Hb; [lia|done]|]. intros r s' (l' & -> & Hi'). apply IH; [|done|].
    + intros k l0 s0 Hk. apply Hb. lia.
    + intros l2 s2 H2. apply HQ. by replace (i + Z.of_nat (Datatypes.S n)) with (i + 1 + Z.of_nat n) by lia.
Qed.

Lemma until_nul_app l rest : NUL ∉ l -> until_nul (l ++ NUL :: rest) = l.
Proof.
  induction l as [|c l IH]; intros Hl; cbn [app until_nul]; [by rewrite decide_True|].
  apply not_elem_of_cons in Hl as [Hc Hl]. rewrite decide_False by congruence. by rewrite IH.
Qed.

Lemma until_nul_length l : (length (until_nul l) <= length l)%nat.
Proof. induction l as [|c l IH]; cbn [until_nul]; [done|]. case_decide; simpl; lia. Qed.

Lemma sprintf_text temp z : 0 <= z < 10000 ->
  until_nul (sprintf_d temp z) = print_d z /\ print_d z <> [] /\ len (print_d z) <= 4.
Proof.
  intros Hz. unfold sprintf_d, print_d. rewrite (proj2 (Z.ltb_ge _ _)) by lia.
  destruct (put_digits_spec 20 z []) as (ds & Hds & Hne & Hall & _); [lia|lia|].
  pose proof (put_digits_length 20 z [] 4 ltac:(change (10 ^ Z.of_nat 4) with 10000; lia)) as Hl.
  rewrite Hds, app_nil_r in *. simpl in Hl. split; [|split; [done|unfold len; lia]].
  rewrite <- app_assoc. apply until_nul_app. intros Hn. rewrite Forall_forall in Hall.
  by specialize (Hall _ Hn).
Qed.

Lemma to_alloc_small last i : 0 <= last -> 0 <= i -> i + last < 1024 -> to_alloc last i = last + i.
Proof.
  intros Hl Hi Hs. unfold to_alloc, INODE_NUM. rewrite u32_id by lia.
  rewrite (proj2 (Z.leb_gt _ _)) by lia. lia.
Qed.

Lemma size_range_le (fs : files) a b :
  (forall j x, fs !! j = Some x -> a <= j < b) -> (size fs <= Z.to_nat (b - a))%nat.
Proof.
  intros Hfs. rewrite <- size_dom. etrans.
  - apply (subseteq_size _ (list_to_set (zrange a (Z.to_nat (b - a))))). intros j Hj.
    apply elem_of_dom in Hj as [x Hx]. apply elem_of_list_to_set, elem_of_zrange.
    apply Hfs in Hx. lia.
  - rewrite size_list_to_set by apply NoDup_zrange. by rewrite length_zrange.
Qed.

Lemma test_id i : 0 <= i < 50 -> ext_id (u64 (i + 2)) = i + 2.
Proof. intros Hi. rewrite u64_id by lia. apply ext_id_id. lia. Qed.

Section tester.
Context `{E : Env} (rnd : nat -> Z) (junk : Z -> Z).
(** [rand] returns a number between 0 and [RAND_MAX]. *)
Hypothesis rnd_pos : forall n, 0 <= rnd n.

(** The state of the tester: the world behind the client, and the score. *)
Definition at_world (t : tester) (fs : files) (last score : Z) : Prop :=
  world (ec t) fs last /\ total_score t = score.

Lemma wp_rand (Q : Z -> tester -> Prop) t :
  (forall z d, 0 <= z -> Q z (mk_tester (ec t) (total_score t) d)) ->
  wp (part1_tester.rand rnd) Q t.
Proof. intros HQ. unfold part1_tester.rand. wp_steps. by apply HQ. Qed.

Lemma wp_on_ec {A} (m : M inode_manager A) (Q : A -> tester -> Prop) t P :
  wp m P (ec t) -> (forall a s', P a s' -> Q a (mk_tester s' (total_score t) (draws t))) ->
  wp (part1_tester.on_ec m) Q t.
Proof. intros Hm HQ. apply wp_zoom. eapply wp_mono; [exact Hm|exact HQ]. Qed.

Lemma wp_passed {L} points (l : L) (Q : Z -> tester -> Prop) t :
  Q 0 (mk_tester (ec t) (total_score t + points) (draws t)) ->
  wp (part1_tester.passed points (inl l : L + Z)) Q t.
Proof. intros HQ. unfold part1_tester.passed, part1_tester.add_score. by wp_steps. Qed.

(** ** The tests *)

(** The numbers from 2 to [k] are new empty files or directories. *)
Definition created (fs : files) (k : Z) : Prop :=
  forall j, if decide (1 <= j < k + 2)
            then exists ty, (ty = T_DIR \/ ty = T_FILE) /\ fs !! j = Some (ty, [])
            else fs !! j = None.

Definition created_last (k : Z) : Z := if k =? 0 then 0 else k + 1.

Lemma wp_check_create type k fs sc t :
  type = T_DIR \/ type = T_FILE -> 0 <= k < 50 -> at_world t fs (created_last k) sc ->
  created fs k ->
  wp (part1_tester.check_create type) (fun r t' => r = inl tt /\
    exists fs', at_world t' fs' (created_last (k + 1)) sc /\ created fs' (k + 1)) t.
Proof.
  intros Hty Hk [Hw Hsc] Hc. unfold part1_tester.check_create.
  assert (exists i, 1 <= i <= INODE_NUM /\ to_alloc (created_last k) i = k + 2 /\
    forall i', 1 <= i' < i -> is_Some (fs !! to_alloc (created_last k) i')) as (i & Hi & Ek & Hbusy).
  { unfold created_last. destruct (Z.eqb_spec k 0) as [->|Hne].
    - exists 2. split; [done|]. split; [done|]. intros i' Hi'. replace i' with 1 by lia.
      rewrite to_alloc_small, Z.add_0_l by lia. pose proof (Hc 1) as H1. cbn in H1.
      destruct H1 as (ty & _ & ->). by eexists.
    - exists 1. split; [done|]. rewrite to_alloc_small by lia. split; [lia|]. lia. }
  assert (fs !! (k + 2) = None) as Hfree.
  { pose proof (Hc (k + 2)) as H. by rewrite decide_False in H by lia. }
  assert (i16 type = type /\ type <> 0 /\ u32 type = type) as (Ht1 & Ht2 & Ht3) by by destruct Hty; subst.
  wp_step. eapply wp_on_ec.
  { eapply (world_create _ _ _ type i); [exact Hw|done|done|done|done|by rewrite Ek]. }
  intros r s' [-> Hw']. rewrite Ek in *. cbn beta iota.
  rewrite i32_id by lia. apply wp_if; intros Hz; [lia|].
  wp_step. eapply wp_on_ec; [eapply world_getattr; exact Hw'|]. intros [ret a] s'' (-> & Hret & Ha).
  cbn [fst snd] in *. subst ret. rewrite ext_id_id, lookup_insert_eq in Ha by lia.
  cbn beta iota. rewrite Ha, Ht3, !Z.eqb_refl. cbn [negb]. apply wp_ret. split; [done|].
  exists (<[k + 2 := (type, [])]> fs). split.
  - split; [|done]. unfold created_last. rewrite (proj2 (Z.eqb_neq _ _)) by lia.
    by replace (k + 1 + 1) with (k + 2) by lia.
  - intros j. specialize (Hc j). destruct (decide (j = k + 2)) as [->|Hne].
    + rewrite decide_True by lia. rewrite lookup_insert_eq. by eexists.
    + rewrite lookup_insert_ne by done. repeat case_decide; try done; lia.
Qed.

Lemma wp_test_create t : at_world t {[ 1 := (T_DIR, []) ]} 0 0 ->
  wp (part1_tester.test_create_and_getattr rnd) (fun r t' => r = 0 /\
    exists fs, at_world t' fs 51 40 /\ created fs 50) t.
Proof.
  intros Ht. unfold part1_tester.test_create_and_getattr. apply wp_bind.
  eapply wp_for_up with (Inv := fun k _ t => exists fs, at_world t fs (created_last k) 0 /\ created fs k).
  - intros k [] t1 Hk (fs & Hw & Hc). unfold part1_tester.create_body. wp_step. apply wp_rand.
    intros z d Hz. cbv zeta.
    assert (forall type, type = T_DIR \/ type = T_FILE ->
      wp (part1_tester.check_create type) (fun r t' => exists l', r = inl l' /\
        exists fs', at_world t' fs' (created_last (k + 1)) 0 /\ created fs' (k + 1))
        (mk_tester (ec t1) (total_score t1) d)) as H.
    { intros type Hty. eapply wp_mono; [by apply (wp_check_create type k fs 0)|].
      intros r t' [-> H]. by exists tt. }
    apply wp_if; intros _; apply H; auto.
  - exists {[ 1 := (T_DIR, []) ]}. split; [done|]. intros j. case_decide.
    + replace j with 1 by lia. exists T_DIR. rewrite lookup_singleton_eq. auto.
    + apply lookup_singleton_ne. lia.
  - intros l' t' (fs & [Hw Hsc] & Hc). apply wp_passed. split; [done|]. exists fs. split; [|done].
    split; [done|]. cbn. by rewrite Hsc.
Qed.

(** The files of the first test, with the numbers in [contents] in those below [k]. *)
Definition filled (fs : files) (contents : list Z) (k : Z) : Prop :=
  (forall j x, fs !! j = Some x -> 1 <= j < 52) /\
  forall i, 0 <= i < 50 -> fs !! (i + 2) = Some (T_DIR, []) \/
    (fs !! (i + 2) = Some (T_FILE, if decide (i < k) then print_d (nth (Z.to_nat i) contents 0) else []) /\
     (i < k -> 0 <= nth (Z.to_nat i) contents 0 < 10000)).

Lemma created_filled fs contents : created fs 50 -> filled fs contents 0.
Proof.
  intros Hc. split.
  - intros j x Hj. specialize (Hc j). case_decide; [lia|congruence].
  - intros i Hi. pose proof (Hc (i + 2)) as H. rewrite decide_True in H by lia.
    destruct H as (ty & [-> | ->] & Hf); [by left|right]. rewrite decide_False by lia.
    split; [done|lia].
Qed.

Lemma nth_insert_ne {A} (l : list A) i j x d : i <> j -> nth j (<[i := x]> l) d = nth j l d.
Proof. intros Hne. by rewrite !nth_lookup, list_lookup_insert_ne. Qed.

Lemma nth_insert_eq {A} (l : list A) i x d : (i < length l)%nat -> nth i (<[i := x]> l) d = x.
Proof. intros Hi. by rewrite nth_lookup, list_lookup_insert_eq. Qed.

Lemma filled_put fs contents k z : filled fs contents k -> 0 <= k < 50 -> 0 <= z < 10000 ->
  length contents = 50%nat ->
  filled (<[k + 2 := (T_FILE, print_d z)]> fs) (<[Z.to_nat k := z]> contents) (k + 1).
Proof.
  intros [Hd Hf] Hk Hz Hl. split.
  - intros j x. destruct (decide (j = k + 2)) as [->|Hne]; [lia|].
    rewrite lookup_insert_ne by done. apply Hd.
  - intros i Hi. destruct (decide (i = k)) as [->|Hne].
    + right. rewrite lookup_insert_eq, decide_True, nth_insert_eq by lia. done.
    + rewrite lookup_insert_ne, nth_insert_ne by lia. destruct (Hf i Hi) as [H|[H Hr]]; [by left|right].
      rewrite H. split; [|intros; apply Hr; lia]. by repeat case_decide; try lia.
Qed.

Lemma filled_skip fs contents k : filled fs contents k -> 0 <= k < 50 ->
  fs !! (k + 2) = Some (T_DIR, []) -> filled fs contents (k + 1).
Proof.
  intros [Hd Hf] Hk Hdir. split; [done|]. intros i Hi. destruct (decide (i = k)) as [->|Hne]; [by left|].
  destruct (Hf i Hi) as [H|[H Hr]]; [by left|right]. rewrite H.
  split; [|intros; apply Hr; lia]. by repeat case_decide; try lia.
Qed.

Lemma wp_put_body k contents fs t : 0 <= k < 50 -> at_world t fs 51 40 -> filled fs contents k ->
  length contents = 50%nat ->
  wp (part1_tester.put_body rnd k contents) (fun r t' => exists contents', r = inl contents' /\
    length contents' = 50%nat /\ exists fs', at_world t' fs' 51 40 /\ filled fs' contents' (k + 1)) t.
Proof.
  intros Hk [Hw Hsc] Hf Hl. unfold part1_tester.put_body. wp_step. eapply wp_on_ec.
  { eapply world_getattr. exact Hw. }
  intros [ret a] s' (-> & Hret & Ha). cbn [fst snd] in *. subst ret. rewrite test_id in Ha by done.
  cbn beta iota. rewrite Z.eqb_refl. cbn [negb].
  destruct (proj2 Hf k Hk) as [Hdir|[Hfile _]].
  - rewrite Hdir in Ha. rewrite Ha. apply wp_ret. exists contents. split; [done|]. split; [done|].
    exists fs. split; [done|]. by apply filled_skip.
  - rewrite Hfile in Ha. rewrite Ha. change (u32 T_FILE =? T_FILE) with true. cbn iota.
    wp_step. apply wp_rand. intros z d Hz. cbv zeta.
    assert (0 <= Z.rem z 10000 < 10000) as Hrem by (apply Z.rem_bound_pos; lia).
    destruct (sprintf_text (replicate 10 NUL) _ Hrem) as (-> & Hne & Hlen).
    wp_step. eapply wp_on_ec.
    { eapply world_put; [exact Hw|by rewrite test_id|done|unfold MAX_SIZE; lia|].
      pose proof (size_range_le fs 1 52 (proj1 Hf)). lia. }
    intros r s' [-> Hw']. rewrite Z.eqb_refl. cbn [negb]. apply wp_ret.
    exists (<[Z.to_nat k := Z.rem z 10000]> contents). split; [done|].
    split; [by rewrite length_insert|]. rewrite test_id in Hw' by done.
    eexists. split; [by split|]. by apply filled_put.
Qed.

Lemma wp_get_body k contents fs t : 0 <= k < 50 -> at_world t fs 51 40 -> filled fs contents 50 ->
  wp (part1_tester.get_body contents k tt) (fun r t' => r = inl tt /\ at_world t' fs 51 40) t.
Proof.
  intros Hk [Hw Hsc] Hf. unfold part1_tester.get_body. wp_step. eapply wp_on_ec.
  { eapply world_getattr. exact Hw. }
  intros [ret a] s' (-> & Hret & Ha). cbn [fst snd] in *. subst ret. rewrite test_id in Ha by done.
  cbn beta iota. rewrite Z.eqb_refl. cbn [negb].
  destruct (proj2 Hf k Hk) as [Hdir|[Hfile Hr]].
  - rewrite Hdir in Ha. rewrite Ha. by apply wp_ret.
  - rewrite Hfile in Ha. rewrite Ha. change (u32 T_FILE =? T_FILE) with true. cbn iota.
    wp_step. eapply wp_on_ec; [eapply world_get; exact Hw|]. intros r s' [-> Hw'].
    rewrite test_id, Hfile, decide_True by lia. cbn beta iota. rewrite Z.eqb_refl. cbn [negb].
    destruct (sprintf_text (replicate 10 NUL) _ (Hr ltac:(lia))) as (-> & _ & _).
    rewrite bool_decide_true by done. cbn [negb]. by apply wp_ret.
Qed.

(** All numbers from 2 to 51 are short files. *)
Definition short_files (fs : files) (k : Z) : Prop :=
  (forall j x, fs !! j = Some x -> j = 1 \/ k + 2 <= j < 52) /\
  forall i, k <= i < 50 -> exists t d, fs !! (i + 2) = Some (t, d) /\ len d <= 51200.

Lemma filled_short fs contents : filled fs contents 50 -> short_files fs 0.
Proof.
  intros [Hd Hf]. split; [intros j x Hj; specialize (Hd _ _ Hj); lia|].
  intros i Hi. destruct (Hf i Hi) as [->|[-> Hr]]; [by do 2 eexists|]. do 2 eexists. split; [done|].
  rewrite decide_True by lia.
  destruct (sprintf_text [] _ (Hr ltac:(lia))) as (_ & _ & H). lia.
Qed.

Lemma wp_test_put_and_get fs t : at_world t fs 51 40 -> created fs 50 ->
  wp (part1_tester.test_put_and_get rnd junk) (fun r t' => r = 0 /\
    exists fs', at_world t' fs' 51 70 /\ short_files fs' 0) t.
Proof.
  intros Ht Hc. unfold part1_tester.test_put_and_get. apply wp_bind.
  eapply wp_for_up with (Inv := fun k contents t => length contents = 50%nat /\
    exists fs', at_world t fs' 51 40 /\ filled fs' contents k).
  - intros k contents t1 Hk (Hl & fs1 & Hw & Hf). by apply (wp_put_body k contents fs1).
  - split; [by rewrite length_fmap, length_zrange|]. exists fs. split; [done|by apply created_filled].
  - intros contents t1 (Hl & fs1 & Hw & Hf). cbn beta iota. apply wp_bind.
    eapply wp_for_up with (Inv := fun _ _ t => at_world t fs1 51 40).
    + intros k [] t2 Hk Hw2. eapply wp_mono; [by apply (wp_get_body k contents fs1)|].
      intros r t3 [-> Hw3]. by exists tt.
    + exact Hw.
    + intros l t2 [Hw2 Hsc]. apply wp_passed. split; [done|]. exists fs1. split.
      * split; [done|]. cbn. by rewrite Hsc.
      * by eapply filled_short.
Qed.

Lemma wp_test_remove fs t : at_world t fs 51 70 -> short_files fs 0 ->
  wp part1_tester.test_remove (fun r t' => r = 0 /\
    exists fs', at_world t' fs' 51 90 /\ short_files fs' 50) t.
Proof.
  intros Ht Hs. unfold part1_tester.test_remove. apply wp_bind.
  eapply wp_for_up with (Inv := fun k _ t => exists fs', at_world t fs' 51 70 /\ short_files fs' k).
  - intros k [] t1 Hk (fs1 & [Hw Hsc] & Hd & Hf). change (0 <= k < 50) in Hk.
    unfold part1_tester.remove_body.
    destruct (Hf k ltac:(lia)) as (ty & d & Hk2 & Hlen).
    wp_step. eapply wp_on_ec.
    { eapply world_remove; [exact Hw|by rewrite test_id|done]. }
    intros r s' [-> Hw']. rewrite test_id in Hw' by lia. rewrite Z.eqb_refl. cbn [negb].
    wp_step. eapply wp_on_ec; [eapply world_getattr; exact Hw'|].
    intros [ret a] s'' (-> & _ & Ha). cbn [fst snd] in *.
    rewrite test_id, lookup_delete_eq in Ha by lia. cbn beta iota. rewrite Ha.
    cbn [negb Z.eqb]. apply wp_ret. exists tt.
    split; [done|]. eexists. split; [by split|]. split.
    + intros j x [Hne Hj]%lookup_delete_Some. destruct (Hd j x Hj); lia.
    + intros i Hi. rewrite lookup_delete_ne by lia. apply Hf. lia.
  - by exists fs.
  - intros l t1 (fs1 & [Hw Hsc] & Hs1). apply wp_passed. split; [done|]. exists fs1.
    split; [|done]. split; [done|]. cbn. by rewrite Hsc.
Qed.

(** ** Large files *)

(** [k] files behind the numbers of the other tests, and the strings in them. *)
Definition large (fs : files) (ids : list Z) (k : Z) : Prop :=
  length ids = 50%nat /\
  (forall j x, fs !! j = Some x -> j = 1 \/ 52 <= j < 52 + k) /\
  forall i, 0 <= i < k -> nth (Z.to_nat i) ids 0 = i + 52 /\ exists d, fs !! (i + 52) = Some (T_FILE, d).

Lemma wp_indirect_create k fs ids t : 0 <= k < 50 -> at_world t fs (k + 51) 90 -> large fs ids k ->
  wp (part1_tester.indirect_create k ids) (fun r t' => exists ids', r = inl ids' /\
    exists fs', at_world t' fs' (k + 1 + 51) 90 /\ large fs' ids' (k + 1)) t.
Proof.
  intros Hk [Hw Hsc] (Hl & Hd & Hf). unfold part1_tester.indirect_create.
  assert (to_alloc (k + 51) 1 = k + 52) as Ek by (rewrite to_alloc_small; lia).
  wp_step. eapply wp_on_ec.
  { eapply (world_create _ _ _ T_FILE 1); [exact Hw|done|done|done|lia|].
    rewrite Ek. destruct (fs !! (k + 52)) as [x|] eqn:Ex; [|done]. destruct (Hd _ _ Ex); lia. }
  intros r s' [-> Hw']. rewrite Ek in Hw'. rewrite Ek. cbn beta iota. rewrite Z.eqb_refl. cbn [negb].
  apply wp_ret. exists (<[Z.to_nat k := k + 52]> ids). split; [done|].
  exists (<[k + 52 := (T_FILE, [])]> fs). split.
  - split; [|done]. by replace (k + 1 + 51) with (k + 52) by lia.
  - split; [by rewrite length_insert|]. split.
    + intros j x. destruct (decide (j = k + 52)) as [->|Hne]; [lia|].
      rewrite lookup_insert_ne by done. intros Hj. destruct (Hd j x Hj); lia.
    + intros i Hi. destruct (decide (i = k)) as [->|Hne].
      * rewrite nth_insert_eq, lookup_insert_eq by lia. eauto.
      * rewrite nth_insert_ne, lookup_insert_ne by lia. apply Hf. lia.
Qed.

(** The letters make a string that is neither empty nor too long. *)
Lemma wp_letters n temp t : (0 < n)%nat ->
  wp (for_up n 0 (part1_tester.letter_body rnd) temp) (fun r t' => exists temp', r = inl temp' /\
    length temp' = length temp /\ (temp <> [] -> until_nul temp' <> []) /\
    ec t' = ec t /\ total_score t' = total_score t) t.
Proof.
  intros Hn. eapply wp_for_up with (Inv := fun k temp' t' => length temp' = length temp /\
    (0 < k -> temp <> [] -> until_nul temp' <> []) /\ ec t' = ec t /\ total_score t' = total_score t).
  - intros k temp1 t1 Hk (Hl & Hne & He & Hs). unfold part1_tester.letter_body. wp_step. apply wp_rand.
    intros z d Hz. apply wp_ret. eexists. split; [done|]. split; [by rewrite length_insert|].
    split; [|done]. intros _ Ht.
    assert (byte_of_Z (97 + Z.rem z 26) <> NUL) as Hb.
    { assert (0 <= Z.rem z 26 < 26) as Hr by (apply Z.rem_bound_pos; lia).
      intros E0. apply (f_equal Z_of_byte) in E0. rewrite Z_of_byte_of_Z, Z.mod_small in E0 by lia.
      change (Z_of_byte NUL) with 0 in E0. lia. }
    destruct temp1 as [|b temp1]; [by destruct temp|].
    destruct (Z.to_nat k) as [|k'] eqn:Ek; cbn; [by rewrite decide_False|].
    specialize (Hne ltac:(lia) Ht). cbn in Hne. by case_decide.
  - split; [done|]. split; [lia|done].
  - intros temp' t' (Hl & Hne & He & Hs). exists temp'. split; [done|]. split; [done|].
    split; [|done]. apply Hne. lia.
Qed.

(** The strings of the first [k] files are in [content]. *)
Definition stored (fs : files) (content : list bytes) (k : Z) : Prop :=
  length content = 50%nat /\
  forall i, 0 <= i < k -> fs !! (i + 52) = Some (T_FILE, nth (Z.to_nat i) content []).

Lemma wp_indirect_put k fs ids content t : 0 <= k < 50 -> at_world t fs 101 90 ->
  large fs ids 50 -> stored fs content k ->
  wp (part1_tester.indirect_put rnd ids k content) (fun r t' => exists content', r = inl content' /\
    exists fs', at_world t' fs' 101 90 /\ large fs' ids 50 /\ stored fs' content' (k + 1)) t.
Proof.
  intros Hk [Hw Hsc] (Hl & Hd & Hf) [Hlc Hst]. unfold part1_tester.indirect_put. wp_step. apply wp_rand.
  intros z d Hz. cbv zeta.
  set (size := Z.rem z _ + _).
  assert (0 < size <= LARGE_FILE_SIZE_MAX) as Hsz.
  { subst size. unfold LARGE_FILE_SIZE_MAX, LARGE_FILE_SIZE_MIN.
    pose proof (Z.rem_bound_pos z (512 * 200 - 512 * 10)). lia. }
  destruct (Hf k Hk) as [Hid [d0 Hd0]].
  eapply wp_call; [apply wp_letters; lia|].
  intros r t1 (temp & -> & Hlen & Hne & He & Hs). cbn [ec total_score] in He, Hs. cbn beta iota.
  assert (until_nul temp <> []) as Hnn.
  { apply Hne. intros H0. apply (f_equal length) in H0. rewrite length_replicate in H0. cbn in H0.
    assert (0 < LARGE_FILE_SIZE_MAX) by done. lia. }
  assert (len (until_nul temp) <= MAX_SIZE) as Hmax.
  { pose proof (until_nul_length temp) as H. rewrite Hlen, length_replicate in H.
    assert (0 < LARGE_FILE_SIZE_MAX < MAX_SIZE) by done. unfold len. lia. }
  assert (ext_id (k + 52) = k + 52) as Eid by (apply ext_id_id; lia).
  wp_step. rewrite Hid. eapply wp_on_ec.
  { eapply world_put; [rewrite He; exact Hw|by rewrite Eid|done|done|].
    pose proof (size_range_le fs 1 102) as H. etrans; [apply H|by vm_compute; lia].
    intros j x Hj. destruct (Hd j x Hj); lia. }
  intros ret s' [-> Hw']. rewrite Eid in Hw'. rewrite Z.eqb_refl. cbn [negb]. apply wp_ret.
  exists (<[Z.to_nat k := until_nul temp]> content). split; [done|].
  eexists. split; [split; [exact Hw'|cbn; congruence]|]. split.
  - split; [done|]. split.
    + intros j x. destruct (decide (j = k + 52)) as [->|Hj]; [lia|]. rewrite lookup_insert_ne by done. apply Hd.
    + intros i Hi. destruct (decide (i = k)) as [->|Hne'].
      * rewrite lookup_insert_eq. eauto.
      * rewrite lookup_insert_ne by lia. by apply Hf.
  - split; [by rewrite length_insert|]. intros i Hi. destruct (decide (i = k)) as [->|Hne'].
    + rewrite nth_insert_eq, lookup_insert_eq by lia. done.
    + rewrite nth_insert_ne, lookup_insert_ne by lia. apply Hst. lia.
Qed.

Lemma wp_indirect_get k fs ids content t : 0 <= k < 50 -> at_world t fs 101 90 ->
  large fs ids 50 -> stored fs content 50 ->
  wp (part1_tester.indirect_get ids content k tt) (fun r t' => r = inl tt /\ at_world t' fs 101 90) t.
Proof.
  intros Hk [Hw Hsc] (_ & _ & Hf) [_ Hst]. unfold part1_tester.indirect_get.
  destruct (Hf k Hk) as [-> _]. wp_step. eapply wp_on_ec; [eapply world_get; exact Hw|].
  intros r s' [-> Hw']. rewrite ext_id_id, (Hst k Hk) by lia.
  cbn beta iota. rewrite Z.eqb_refl, bool_decide_true by done. cbn [negb]. by apply wp_ret.
Qed.

Lemma wp_indirect_round j fs ids content t : at_world t fs 101 90 -> large fs ids 50 ->
  length content = 50%nat ->
  wp (part1_tester.indirect_round rnd ids j content) (fun r t' => exists content', r = inl content' /\
    length content' = 50%nat /\ exists fs', at_world t' fs' 101 90 /\ large fs' ids 50) t.
Proof.
  intros Ht Hla Hl. unfold part1_tester.indirect_round. apply wp_bind.
  eapply wp_for_up with (Inv := fun k content t => exists fs',
    at_world t fs' 101 90 /\ large fs' ids 50 /\ stored fs' content k).
  - intros k content1 t1 Hk (fs1 & Hw & Hla1 & Hst). by apply (wp_indirect_put k fs1).
  - exists fs. split; [done|]. split; [done|]. split; [done|lia].
  - intros content1 t1 (fs1 & Hw & Hla1 & Hst). cbn beta iota. apply wp_bind.
    eapply wp_for_up with (Inv := fun _ _ t => at_world t fs1 101 90).
    + intros k [] t2 Hk Hw2. eapply wp_mono; [by apply (wp_indirect_get k fs1)|].
      intros r t3 [-> Hw3]. by exists tt.
    + exact Hw.
    + intros l t2 Hw2. apply wp_ret. exists content1. split; [done|]. split; [apply Hst|]. by exists fs1.
Qed.

(** The strings can be long enough to leak a block when the file goes, so that only
    the state of the disk is kept from here on. *)
Lemma wp_indirect_remove ids k t : fs_wf (ec t) /\ total_score t = 90 ->
  wp (part1_tester.indirect_remove ids k tt) (fun r t' => exists l', r = inl l' /\
    fs_wf (ec t') /\ total_score t' = 90) t.
Proof.
  intros [Hwf Hsc]. unfold part1_tester.indirect_remove. wp_step. eapply wp_on_ec.
  { pose proof (impl_remove (nth (Z.to_nat k) ids 0) (ec t) Hwf) as H1.
    cbn [ec_remove extent_service] in H1. exact H1. }
  intros r s' (-> & Hwf' & _). rewrite Z.eqb_refl. cbn [negb]. apply wp_ret. by exists tt.
Qed.

Lemma wp_test_indirect fs t : at_world t fs 51 90 -> short_files fs 50 ->
  wp (part1_tester.test_indirect rnd junk) (fun r t' => r = 0 /\ total_score t' = 100) t.
Proof.
  intros Ht Hs. unfold part1_tester.test_indirect. apply wp_bind.
  eapply wp_for_up with (Inv := fun k ids t => exists fs', at_world t fs' (k + 51) 90 /\ large fs' ids k).
  - intros k ids t1 Hk (fs1 & Hw & Hla). by apply (wp_indirect_create k fs1).
  - exists fs. split; [done|]. split; [by rewrite length_fmap, length_zrange|].
    split; [|lia]. intros j x Hj. destruct (proj1 Hs j x Hj); lia.
  - intros ids t1 (fs1 & Hw & Hla). change (0 + Z.of_nat (Z.to_nat FILE_NUM)) with 50 in *.
    cbn beta iota. apply wp_bind.
    eapply wp_for_up with (Inv := fun _ content t => length content = 50%nat /\
      exists fs', at_world t fs' 101 90 /\ large fs' ids 50).
    + intros k content t2 _ (Hl & fs2 & Hw2 & Hla2). by apply (wp_indirect_round k fs2).
    + split; [by rewrite length_replicate|]. by exists fs1.
    + intros content t2 (_ & fs2 & [Hw2 Hsc2] & _). cbn beta iota. apply wp_bind.
      eapply wp_for_up with (Inv := fun _ _ t => fs_wf (ec t) /\ total_score t = 90).
      * intros k [] t3 _ Ht3. by apply wp_indirect_remove.
      * split; [apply Hw2|done].
      * intros l t3 [_ Hsc3]. apply wp_passed. cbn. by rewrite Hsc3.
Qed.

Lemma wp_run_test test rest Q t :
  wp test (fun r t' => r = 0 /\ wp (part1_tester.run_tests rest) Q t') t ->
  wp (part1_tester.run_tests (test :: rest)) Q t.
Proof. intros Ht. cbn [part1_tester.run_tests]. eapply wp_call; [exact Ht|]. by intros r t' [-> H]. Qed.

Lemma wp_tests s : just_booted s ->
  wp (part1_tester.tests rnd junk) (fun r _ => r = 100) (mk_tester s 0 0).
Proof.
  intros Hs. unfold part1_tester.tests. apply wp_bind.
  apply wp_run_test. eapply wp_mono; [apply wp_test_create; split; [by apply world_booted|done]|].
  intros r t1 (-> & fs1 & Hw1 & Hc). split; [done|].
  apply wp_run_test. eapply wp_mono; [by apply (wp_test_put_and_get fs1)|].
  intros r t2 (-> & fs2 & Hw2 & Hs2). split; [done|].
  apply wp_run_test. eapply wp_mono; [by apply (wp_test_remove fs2)|].
  intros r t3 (-> & fs3 & Hw3 & Hs3). split; [done|].
  apply wp_run_test. eapply wp_mono; [by apply (wp_test_indirect fs3)|].
  intros r t4 [-> Hsc]. split; [done|]. cbn [part1_tester.run_tests]. by repeat wp_step.
Qed.
End tester.

(** C25 The tester gives the file system all of its points, if the memory lets it start:
    where the number last given out, which the constructor reads before it is set, is 0 or
    1 less than a positive multiple of 1024 below 2^32, all four tests return 0 and the
    score is 100, on any clock, with any random numbers and whatever its arrays of numbers
    held before; with any other, that is for most, the process exits in the constructor,
    with status 0 and without a score. *)
Theorem tester_passes `{E : Env} (rnd : nat -> Z) (junk : Z -> Z) last0 :
  (forall n, 0 <= rnd n) -> 0 <= last0 < 2 ^ 32 ->
  part1_tester.main rnd junk 1 last0 =
    if decide (last0 = 0 \/ (1023 <= last0 /\ last0 <> 2 ^ 32 - 1 /\ (last0 + 1) mod 1024 = 0))
    then Ok (0, Some 100) else Exit 0.
Proof.
  intros Hr Hl. pose proof (new_fresh last0 Hl) as Hnew. pose proof (first_is_root last0 Hl) as Hiff.
  unfold part1_tester.main, extent_client.new, extent_server.new. case_decide as Hd.
  - rewrite (proj2 (Z.eqb_eq _ _)) in Hnew by by apply Hiff. destruct Hnew as (s & -> & Hs). cbn [after].
    destruct (wp_run _ _ _ (wp_tests rnd junk Hr s Hs)) as (r & s' & -> & ->). done.
  - rewrite (proj2 (Z.eqb_neq _ _)) in Hnew by by rewrite Hiff. by rewrite Hnew.
Qed.

#[local] Existing Instance machine.

Lemma tester_passes_witness :
  part1_tester.main (fun n => Z.of_nat (7 * n)) (fun i => i) 1 1023 = Ok (0, Some 100).
Proof.
  exact (tester_passes (fun n => Z.of_nat (7 * n)) (fun i => i) 1023 ltac:(intros n; apply Nat2Z.is_nonneg) ltac:(lia)).
Defined.
