(* ===== verification/FuseMain.v ===== *)
(** [main] of fuse.cc.

    libfuse is a parameter: what its calls return, and its session loop, which is
    given the operation table and calls it for the requests it takes from the kernel;
    its result are the replies and the value that [fuse_session_loop] returns.
    [srandom] and the number [myid], which nothing reads, are left out, and so are
    messages. *)
From S2P Require Import Prelude Monad Disk BlockManager Inode InodeManager Protocol Extent.
From S2P Require Import DirFormat ChfsClient Fuse System.
From Stdlib Require Import Ascii ZArith Lia.
From stdpp Require Import base list.
#[local] Open Scope Z_scope.

Record libfuse := mk_libfuse {
  fuse_parse_cmdline : list bytes -> Z * bytes * list bytes; (* the result, [*mountpoint] and [args] *)
  fuse_mount : bytes -> list bytes -> Z;
  fuse_lowlevel_new : list bytes -> option Z;
  fuse_kern_chan_new : Z -> option Z;
  fuse_session_loop : (request -> M inode_manager (list reply)) ->
                      M inode_manager (list (list reply) * Z)
}.

Module fuse_main.
Section fuse_main.
Context `{E : Env} (junk : Z -> Z) (ino0 : Z).
Context (dirent_size : Z -> Z) (add_dirent : bytes -> Z -> Z -> bytes).

(** The result of the process and the replies it sent; [last0] is the memory that
    the constructor of the inode layer reads. *)
Definition main (lib : libfuse) (argv : list bytes) (last0 : Z) : outcome (Z * list (list reply)) :=
  match argv with
  | [argv0; mountpoint] =>
      after (chfs_client_new last0) (fun chfs =>
      let fuse_argv := [argv0; mountpoint; [byte_of_Z 45; byte_of_Z 100]] in
      let '(res, mountpoint, args) := fuse_parse_cmdline lib fuse_argv in
      if res =? -1 then Ok (0, [])
      else
        let fd := fuse_mount lib mountpoint args in
        if fd =? -1 then Exit 1
        else
          match fuse_lowlevel_new lib args with
          | None => Exit 1
          | Some se =>
              match fuse_kern_chan_new lib fd with
              | None => Exit 1
              | Some ch =>
                  let fuseserver_oper := fuse.dispatch junk ino0 dirent_size add_dirent in
                  after (fuse_session_loop lib fuseserver_oper chfs) (fun r =>
                  let '(replies, err) := r.1 in
                  Ok (if negb (err =? 0) then 1 else 0, replies))
              end
          end)
  | _ => Exit 1
  end.
End fuse_main.
End fuse_main.
