(* ===== verification/FuseMainSpec.v ===== *)
(** The program as a whole: [main] of fuse.cc over a libfuse that mounts and whose
    session loop takes requests from the kernel. *)
From S2P Require Import Prelude Monad Disk BlockManager Inode InodeManager FsInv WriteFile.
From S2P Require Import WriteSpec Protocol Extent DirFormat ChfsClient ChfsSpec ChfsOps ChfsTree.
From S2P Require Import ChfsReach Fuse FuseSpec System Scenarios Namespace Paths FuseTree.
From S2P Require Import FuseMain.
From Stdlib Require Import Ascii ZArith Lia.
From stdpp Require Import base gmap numbers list.
#[local] Open Scope Z_scope.

Section session.
Context `{E : Env} (junk : Z -> Z) (ino0 : Z).
Context (dirent_size : Z -> Z) (add_dirent : bytes -> Z -> Z -> bytes).

(** What the session loop of libfuse does: single-threaded, it hands one request after
    the other to its operation, until it ends with [err]. *)
Definition takes (lib : libfuse) (reqs : list request) (err : Z) : Prop :=
  forall op s, fuse_session_loop lib op s = (out ← deliver op reqs; mret (out, err)) s.

(** libfuse mounts the file system and makes a session. *)
Definition mounts (lib : libfuse) (argv0 mountpoint : bytes) : Prop :=
  exists res mp args se ch,
    fuse_parse_cmdline lib [argv0; mountpoint; [byte_of_Z 45; byte_of_Z 100]] = (res, mp, args) /\
    res <> -1 /\ fuse_mount lib mp args <> -1 /\
    fuse_lowlevel_new lib args = Some se /\ fuse_kern_chan_new lib (fuse_mount lib mp args) = Some ch.

(** C7 The whole program serves its kernel, if the memory lets it start: started with a
    mount point, on any clock, and with a libfuse that mounts and takes from the kernel
    these requests, allowed one after the other on a fresh file system, [main] constructs
    the file system and answers all requests of the session, each once and with a reply
    of its kind; the replies are those of an abstract file system that starts as an empty
    root and stays a tree; it returns 0 or 1 as the session loop does, and no request
    brings the process down.  This is so where the memory [last0] of [_last_alloced],
    which the constructor reads before it is set, is one with which the root gets number
    1; with any other, that is for most, the process exits in the constructor, with
    status 0, and serves nothing. *)
Theorem main_serves lib reqs err argv0 mountpoint last0 :
  (forall name ino next, len (add_dirent name ino next) = dirent_size (len name)) ->
  0 <= last0 < 2 ^ 32 -> mounts lib argv0 mountpoint -> takes lib reqs err ->
  (forall s, chfs_client_new last0 = Ok s -> session_allowed junk ino0 dirent_size add_dirent reqs s) ->
  if decide (last0 = 0 \/ (1023 <= last0 /\ last0 <> 2 ^ 32 - 1 /\ (last0 + 1) mod 1024 = 0))
  then exists out A,
    fuse_main.main junk ino0 dirent_size add_dirent lib [argv0; mountpoint] last0 =
      Ok (if decide (err = 0) then 0 else 1, out) /\
    Forall2 answered reqs out /\
    fuse_run ino0 dirent_size add_dirent {[ 1 := Dir [] ]} reqs out A /\ tree_ok A
  else fuse_main.main junk ino0 dirent_size add_dirent lib [argv0; mountpoint] last0 = Exit 0.
Proof.
  intros Hsize Hl (res & mp & args & se & ch & Hp & Hres & Hm & Hse & Hch) Htakes Ha.
  pose proof (new_fresh last0 Hl) as Hnew. pose proof (first_is_root last0 Hl) as Hiff.
  unfold fuse_main.main. unfold chfs_client_new, extent_client.new, extent_server.new in *.
  case_decide as Hd; [|by rewrite (proj2 (Z.eqb_neq _ _)) in Hnew by (by rewrite Hiff); rewrite Hnew].
  rewrite (proj2 (Z.eqb_eq _ _)) in Hnew by by apply Hiff. destruct Hnew as (s & Hnew & Hs).
  specialize (Ha s Hnew).
  pose proof (wp_session junk ino0 dirent_size add_dirent Hsize reqs _ s (fresh_represents s Hs) Ha) as Hw.
  apply wp_run in Hw as (out & s' & Hrun & A & Hout & _). exists out, A.
  split; [|split; [by eapply fuse_run_answered|split; [done|by eapply fuse_run_ok; [|apply root_ok]]]].
  rewrite Hnew. cbn [after]. rewrite Hp.
  rewrite (proj2 (Z.eqb_neq _ _)) by done. rewrite (proj2 (Z.eqb_neq _ _)) by done.
  rewrite Hse, Hch, Htakes, (bind_Ok _ _ _ _ _ Hrun). unfold mret, M_ret. cbn [after fst].
  destruct (Z.eqb_spec err 0) as [->|]; [done|]. by rewrite decide_False.
Qed.
End session.

#[local] Existing Instance machine.
#[local] Abbreviation no_junk := (fun _ : Z => 0).

(** A libfuse that mounts on descriptor 3, and a short session. *)
#[local] Definition mounting (reqs : list request) : libfuse :=
  mk_libfuse (fun args => (0, nth 1 args [], args)) (fun _ _ => 3) (fun _ => Some 1) (fun _ => Some 2)
    (fun op => out ← deliver op reqs; mret (out, 0)).

#[local] Definition size24 (n : Z) : Z := 24 + n.
#[local] Definition record24 (name : bytes) (ino next : Z) : bytes := replicate 24 NUL ++ name.

Lemma main_serves_witness :
  exists out A, fuse_main.main no_junk 0 size24 record24
    (mounting [Create 1 name_a 420; Fuse.Lookup 1 name_a; Readdir 1 4096 0; Statfs]) [[]; name_a] 0 =
      Ok (0, out) /\
    Forall2 answered [Create 1 name_a 420; Fuse.Lookup 1 name_a; Readdir 1 4096 0; Statfs] out /\
    fuse_run 0 size24 record24 {[ 1 := Dir [] ]}
      [Create 1 name_a 420; Fuse.Lookup 1 name_a; Readdir 1 4096 0; Statfs] out A /\ tree_ok A.
Proof.
  refine (main_serves no_junk 0 size24 record24
    (mounting [Create 1 name_a 420; Fuse.Lookup 1 name_a; Readdir 1 4096 0; Statfs])
    [Create 1 name_a 420; Fuse.Lookup 1 name_a; Readdir 1 4096 0; Statfs] 0 [] name_a 0 _ _ _ _ _).
  - intros name ino next. unfold record24, size24. by rewrite len_app.
  - lia.
  - do 5 eexists. split; [reflexivity|]. split; [discriminate|]. split; [discriminate|].
    split; reflexivity.
  - intros op s. reflexivity.
  - intros s Hnew. assert (s = booted) as -> by (rewrite booted_new in Hnew; by injection Hnew).
    cbn [session_allowed request_allowed allowed]. split.
    + exact booted_adding.
    + intros. split; [lia|]. intros. split; [lia|]. intros. split; [exact I|]. intros. exact I.
Defined.
