(* ===== verification/Stray.v ===== *)
(** The bytes behind the end of a file.

    [write_file] hands whole blocks to the disk.  For the last block it first writes a
    padded copy, but in the direct loop it then writes the 512 bytes that start at
    [buf + pos] over it, which run behind the end of the buffer. *)
From S2P Require Import Prelude Monad Disk BlockManager Inode InodeManager FsInv WriteFile.
From S2P Require Import WriteSpec ReadFile AllocInode Protocol Extent System Scenarios.
From Stdlib Require Import Ascii ZArith Lia.
From stdpp Require Import base gmap numbers list.
#[local] Open Scope Z_scope.

(** A change of the inode table leaves the stored bytes of a file. *)
Lemma content_at_table b n i tbl p :
  bm_wf b -> node_wf b n -> 0 <= i <= INODE_NUM -> 0 <= p < 512 * nb (i_size n) ->
  content_at (set_blk (i + 11) tbl b) n p = content_at b n p.
Proof.
  intros Hb Hn Hi Hp. pose proof (nb_range _ (size_range _ _ Hn)) as Hnb.
  assert (forall c, owned b n c -> blk (set_blk (i + 11) tbl b) c = blk b c) as Hblk.
  { intros c Hc. rewrite blk_set_blk, decide_False; [done|]. intros ->.
    apply (table_not_data i Hi). by eapply owned_data. }
  unfold content_at. rewrite (frame_slot b _ n Hblk). f_equal. apply Hblk.
  apply owned_slot; [dlia|]. apply (nw_full _ _ Hn). dlia.
Qed.

(** C29 What lies in memory behind a file gets on the disk: after a [put] of at most
    51200 bytes the last block of the file holds, behind its end, the memory behind the
    string and its terminating NUL, up to the end of the block. *)
Theorem put_stores_stray `{E : Env} s id buf f :
  fs_wf s -> file_at s (ext_id id) = Some f -> len buf <= 51200 ->
  (blocks_needed (len (f_data f)) (len buf) <= nfree (bm s))%nat ->
  exists s' n, extent_client.put id buf s = Ok (OK, s') /\
    node_at s' (ext_id id) = Some n /\ i_size n = len buf /\
    forall p, len buf < p < 512 * nb (len buf) -> content_at (bm s') n p = garbage (epoch s) p.
Proof.
  intros Hwf (n0 & Hn & ->)%file_at_Some Hlen Hroom. cbn [file_of f_data] in Hroom.
  rewrite (len_content _ _ _ Hwf Hn) in Hroom.
  pose proof (proj1 (node_at_Some _ _ _) Hn) as (Hi & _).
  assert (0 <= len buf <= MAX_SIZE) as Hsize by (unfold len, MAX_SIZE in *; lia).
  assert (wp (extent_client.put id buf) (fun r s' => r = OK /\ exists n,
    node_at s' (ext_id id) = Some n /\ i_size n = len buf /\
    forall p, len buf < p < 512 * nb (len buf) -> content_at (bm s') n p = garbage (epoch s) p) s) as Hw.
  { unfold extent_client.put, extent_server.put. wp_step. wp_step. unfold extent_server.c_str.
    wp_step. apply wp_tick. wp_step. wp_step. rewrite i32_id by (unfold MAX_SIZE in Hsize; lia).
    eapply (wp_write_commit (ext_id id) n0 _ _ 0); [by apply fs_wf_epoch|exact Hn|done|cbn [bm]; lia|].
    intros b1 n1 s1 n2 e tbl n' _ _ Hf Hs Hnw _ _ _ s' Hn'. wp_step. wp_step. split; [done|].
    assert (i_size n' = len buf) as Hz by (unfold MAX_SIZE in Hsize; apply u32_id; lia).
    exists n'. split; [exact Hn'|]. split; [exact Hz|]. intros p Hp. cbn [s' bm].
    assert (p / 512 < 100) as Hq by (unfold nb in Hp; dlia).
    rewrite content_at_table by (rewrite ?Hz; lia || by destruct Hs).
    unfold n'. rewrite (result_content_at _ _ _ _ _ _ _ _ _ _ _ _ Hsize (fw_node _ Hwf _ _ Hn) Hf Hs) by lia.
    rewrite (proj2 (Z.ltb_ge _ _)), (proj2 (Z.eqb_neq _ _)) by lia. done. }
  apply wp_run in Hw as (r & s' & Hrun & -> & n & H). by exists s', n.
Qed.

#[local] Existing Instance machine.

(** Ten letters, and 501 bytes of memory behind them. *)
Lemma put_stores_stray_witness :
  exists s' n, extent_client.put 1 (load letters 0 10) booted = Ok (OK, s') /\
    node_at s' 1 = Some n /\ content_at (bm s') n 300 = garbage (epoch booted) 300.
Proof.
  destruct (put_stores_stray booted 1 (load letters 0 10) (empty_file T_DIR 1000))
    as (s' & n & H1 & H2 & _ & H3).
  - exact booted_wf.
  - exact booted_root.
  - unfold len. rewrite length_load. lia.
  - transitivity (Z.to_nat 1); [apply Nat.leb_le; reflexivity|apply booted_room; lia].
  - exists s', n. split; [exact H1|]. split; [exact H2|]. apply H3.
    assert (len (load letters 0 10) = 10) as -> by (unfold len; rewrite length_load; lia).
    change (nb 10) with 1. lia.
Defined.
