(* ===== verification/Oversize.v ===== *)
(** Files that grow beyond [MAX_SIZE]: [write_file] stores a size for which it has no
    blocks, and [read_file] then runs past the end of the indirect block.

    The loops of [write_file] stop at the same blocks for every size from [MAX_SIZE]
    on, so that the blocks written are those of a write of [MAX_SIZE] bytes. *)
From S2P Require Import Prelude Monad Disk BlockManager Inode InodeManager FsInv WriteFile.
From S2P Require Import WriteSpec ReadFile AllocInode Protocol Extent ChfsSpec System Scenarios.
From Stdlib Require Import Ascii ZArith Lia.
From stdpp Require Import base gmap numbers list.
#[local] Open Scope Z_scope.

(** ** Runs with undefined behaviour *)
Section ub.
Context {S : Type}.

(** A run that comes to [f] and goes wrong there. *)
Lemma ub_after {A B} (m : M S A) (f : A -> M S B) s :
  wp m (fun a s' => f a s' = UB) s -> (m ≫= f) s = UB.
Proof. unfold wp, mbind, M_bind. by destruct (m s) as [[a s']| | | | |]. Qed.

Lemma ub_bind {A B} (m : M S A) (f : A -> M S B) s : m s = UB -> (m ≫= f) s = UB.
Proof. unfold mbind, M_bind. by intros ->. Qed.

(** A loop that goes wrong in some iteration. *)
Lemma ub_loop {L} (Inv : L -> S -> Prop) (variant : L -> nat) (body : L -> M S (ctl L)) fuel l s :
  (forall l s, Inv l s -> body l s = UB \/
     wp (body l) (fun c s' => exists l', c = Next l' /\ Inv l' s' /\ (variant l' < variant l)%nat) s) ->
  Inv l s -> (variant l < fuel)%nat -> loop fuel body l s = UB.
Proof.
  intros Hbody. revert l s. induction fuel as [|fuel IH]; intros l s Hi Hf; [lia|]. cbn [loop].
  destruct (Hbody l s Hi) as [Hub|Hw]; [by apply ub_bind|]. apply ub_after.
  eapply wp_mono; [exact Hw|]. intros c s' (l' & -> & Hi' & Hv). apply IH; [done|lia].
Qed.
End ub.

(** ** Equal loops *)
Section loops.
Context {S L : Type}.

(** Two bodies that do the same on the locals that occur. *)
Lemma loop_congr (Inv : L -> Prop) (b1 b2 : L -> M S (ctl L)) n l s :
  (forall l s, Inv l -> b1 l s = b2 l s) ->
  (forall l, Inv l -> returns (b1 l) (fun c => match c with Next l' => Inv l' | Stop _ => True end)) ->
  Inv l -> loop n b1 l s = loop n b2 l s.
Proof.
  intros He Hr. revert l s. induction n as [|n IH]; intros l s Hi; [done|]. cbn [loop].
  unfold mbind, M_bind. rewrite <- He by done. destruct (b1 l s) as [[c s1]| | | | |] eqn:E; [|done..].
  pose proof (Hr l Hi s c s1 E) as Hc. destruct c as [l'|l']; [by apply IH|done].
Qed.

Lemma returns_loop (Inv Q : L -> Prop) (body : L -> M S (ctl L)) n l :
  (forall l, Inv l -> returns (body l) (fun c => match c with Next l' => Inv l' | Stop l' => Q l' end)) ->
  Inv l -> returns (loop n body l) Q.
Proof.
  intros Hr. revert l. induction n as [|n IH]; intros l Hi; [intros s a s'; discriminate|]. cbn [loop].
  eapply returns_bind; [by apply Hr|]. intros [l'|l'] Hc; [by apply IH|by apply returns_ret].
Qed.
End loops.

(** Equal continuations on the results that occur. *)
Lemma bind_congr {S A B} (m : M S A) (f g : A -> M S B) (P : A -> Prop) s :
  returns m P -> (forall a s', P a -> f a s' = g a s') -> (m ≫= f) s = (m ≫= g) s.
Proof.
  intros Hm He. unfold mbind, M_bind. destruct (m s) as [[a s1]| | | | |] eqn:E; [|done..].
  apply He. by eapply Hm.
Qed.

Section oversize.
Context `{E : Env}.
Context (buf : ptr) (size : Z).
Hypothesis Hsize : MAX_SIZE < size < 2 ^ 31 - 512.

(** ** The write *)
Definition at_block (from : Z) {N} (l : N * Z * Z * bytes) : Prop :=
  let '(_, pos, i, _) := l in 0 <= i /\ pos = from + 512 * i.

Lemma write_direct_same l s : at_block 0 l -> write_direct buf size l s = write_direct buf MAX_SIZE l s.
Proof.
  destruct l as [[[node pos] i] arr]. intros [Hi ->]. unfold MAX_SIZE in *. unfold write_direct, NDIRECT.
  destruct (Z.ltb_spec i 100); [|by rewrite !andb_false_r].
  assert ((0 + 512 * i <? size) = (0 + 512 * i <? 116736)) as -> by lia.
  assert ((size <? 0 + 512 * i + BLOCK_SIZE) = (116736 <? 0 + 512 * i + BLOCK_SIZE)) as ->
    by (unfold BLOCK_SIZE; lia).
  assert ((116736 <? 0 + 512 * i + BLOCK_SIZE) = false) as -> by (unfold BLOCK_SIZE; lia).
  done.
Qed.

(** The loop changes the block numbers of the inode only. *)
Definition sized (z : Z) (n : inode) : Prop := i_size n = z.

Lemma write_direct_at z l : at_block 0 l /\ l.1.2 <= 100 /\ sized z l.1.1.1 ->
  returns (write_direct buf size l) (fun c =>
    match c with
    | Next l' => at_block 0 l' /\ l'.1.2 <= 100 /\ sized z l'.1.1.1
    | Stop l' => at_block 0 l' /\ l'.1.2 = 100 /\ sized z l'.1.1.1
    end).
Proof.
  destruct l as [[[node pos] i] arr]. intros ([Hi ->] & Hi' & Hz). cbn [fst snd] in *. unfold write_direct.
  apply returns_if; intros Hc.
  - eapply returns_bind; [apply returns_any|]. intros b _. eapply returns_bind; [apply returns_any|]. intros v _.
    eapply (returns_bind _ _ (sized z)).
    { apply returns_if; intros _; [by apply returns_ret|].
      eapply returns_bind; [apply returns_any|]. intros c _. by apply returns_ret. }
    intros node' Hz'. repeat (eapply returns_bind; [apply returns_any|]; intros ? _).
    apply returns_ret. cbn [at_block fst snd]. unfold BLOCK_SIZE, NDIRECT in *.
    split; [lia|]. split; [lia|exact Hz'].
  - apply returns_ret. cbn [at_block fst snd]. unfold NDIRECT, MAX_SIZE in *. split; [lia|]. split; [lia|exact Hz].
Qed.

Lemma write_indirect_same l s : at_block 51200 l ->
  write_indirect buf size l s = write_indirect buf MAX_SIZE l s.
Proof.
  destruct l as [[[ib pos] i] arr]. intros [Hi ->]. unfold MAX_SIZE in *. unfold write_indirect.
  change (BLOCK_SIZE / 4) with 128. destruct (Z.ltb_spec i 128); [|by rewrite !andb_false_r].
  assert ((51200 + 512 * i <? size) = (51200 + 512 * i <? 116736)) as -> by lia.
  assert ((size <? 51200 + 512 * i + BLOCK_SIZE) = (116736 <? 51200 + 512 * i + BLOCK_SIZE)) as ->
    by (unfold BLOCK_SIZE; lia).
  assert ((116736 <? 51200 + 512 * i + BLOCK_SIZE) = false) as -> by (unfold BLOCK_SIZE; lia).
  done.
Qed.

Lemma write_indirect_at l : at_block 51200 l ->
  returns (write_indirect buf size l) (fun c =>
    match c with Next l' => at_block 51200 l' | Stop _ => True end).
Proof.
  destruct l as [[[ib pos] i] arr]. intros [Hi ->]. unfold write_indirect.
  apply returns_if; intros Hc; [|by apply returns_ret].
  eapply returns_bind; [apply returns_any|]. intros b _. eapply returns_bind; [apply returns_any|]. intros v _.
  eapply returns_bind; [apply returns_any|]. intros ib' _. apply returns_if; intros _.
  - repeat (eapply returns_bind; [apply returns_any|]; intros ? _). by apply returns_ret.
  - repeat (eapply returns_bind; [apply returns_any|]; intros ? _). apply returns_ret.
    cbn [at_block]. unfold BLOCK_SIZE. lia.
Qed.

Lemma write_indirect_part_same node arr s :
  write_indirect_part buf size node 51200 arr s = write_indirect_part buf MAX_SIZE node 51200 arr s.
Proof.
  unfold write_indirect_part. eapply (bind_congr _ _ _ _ _ (returns_any _)). intros ind s1 _.
  eapply (bind_congr _ _ _ _ _ (returns_any _)). intros v s2 _.
  eapply (bind_congr _ _ _ _ _ (returns_any _)). intros nb s3 _.
  unfold mbind at 1 3, M_bind at 1 3.
  rewrite (loop_congr (at_block 51200) (write_indirect buf size) (write_indirect buf MAX_SIZE)); [done|..].
  - intros l s'. apply write_indirect_same.
  - apply write_indirect_at.
  - cbn [at_block]. lia.
Qed.

Lemma write_indirect_part_sized z sz node pos arr : sized z node ->
  returns (write_indirect_part buf sz node pos arr) (sized z).
Proof.
  intros Hz. unfold write_indirect_part. eapply returns_bind; [apply returns_any|]. intros ind _.
  eapply returns_bind; [apply returns_any|]. intros v _.
  eapply (returns_bind _ _ (fun nb : inode * bytes => sized z nb.1)).
  { apply returns_if; intros _; (eapply returns_bind; [apply returns_any|]; intros ? _); by apply returns_ret. }
  intros nb Hnb. eapply returns_bind; [apply returns_any|]. intros [[[ib p] i] a] _.
  repeat (eapply returns_bind; [apply returns_any|]; intros ? _). by apply returns_ret.
Qed.

(** Behind the last possible block there is nothing to free. *)
Lemma free_indirect_same node k s : 128 <= k -> 0 <= i_size node <= MAX_SIZE ->
  free_indirect_blocks node k s = free_indirect_blocks node 128 s.
Proof.
  intros Hk Hn. unfold free_indirect_blocks. set (bc := if _ <=? _ then _ else 0).
  assert (bc <= 128) as Hbc.
  { subst bc. unfold MAX_SIZE, BLOCK_SIZE, NDIRECT in *. destruct (Z.leb_spec (512 * 100) (i_size node)); [|lia].
    rewrite (u32_id (i_size node - 1)) by lia. rewrite u32_id, i32_id by dlia. dlia. }
  assert (forall j blocks s', 128 <= j ->
    loop (S (Z.to_nat (bc - j))) (free_indirect_body bc) (blocks, j) s' = Ok ((blocks, j), s')) as Hloop.
  { intros j blocks s' Hj. cbn [loop]. rewrite (bind_Ok _ _ _ (Stop (blocks, j)) s'); [done|].
    unfold free_indirect_body. by rewrite (proj2 (Z.ltb_ge _ _)) by lia. }
  eapply (bind_congr _ _ _ _ _ (returns_any _)). intros blocks s1 _.
  eapply (bind_congr _ _ _ _ _ (returns_any _)). intros ind s2 _.
  eapply (bind_congr _ _ _ _ _ (returns_any _)). intros blocks' s3 _.
  rewrite (bind_Ok _ _ _ _ _ (Hloop k blocks' s3 Hk)).
  rewrite (bind_Ok _ _ _ _ _ (Hloop 128 blocks' s3 ltac:(lia))).
  by rewrite (proj2 (Z.eqb_neq k 0)) by lia.
Qed.

Lemma shrink_part_same pre node s : 0 <= i_size node <= MAX_SIZE ->
  shrink_part size pre node s = shrink_part MAX_SIZE pre node s.
Proof.
  intros Hn. unfold MAX_SIZE in *.
  assert (forall sz, 116736 <= sz -> shrink_part sz pre node s =
    (if 100 <? pre then (node ← free_indirect_blocks node 128; mret node) else mret node) s) as Heq.
  { intros sz Hsz. unfold shrink_part. set (u := Z.quot _ _ + 1).
    assert (228 <= u) as Hu.
    { subst u. unfold BLOCK_SIZE. rewrite Z.quot_div_nonneg by lia. dlia. }
    assert (loop (S (Z.to_nat NDIRECT)) (free_direct pre) (node, u) s = Ok ((node, u), s)) as Hloop.
    { cbn [loop]. rewrite (bind_Ok _ _ _ (Stop (node, u)) s); [done|].
      unfold free_direct, NDIRECT. by rewrite (proj2 (Z.ltb_ge _ _)) by lia. }
    rewrite (bind_Ok _ _ _ _ _ Hloop). unfold NDIRECT. rewrite (proj2 (Z.leb_le _ _)) by lia. cbn [andb].
    destruct (100 <? pre); [|done]. unfold mbind, M_bind.
    rewrite free_indirect_same by (unfold MAX_SIZE; lia).
    destruct (free_indirect_blocks node 128 s) as [[node' s']| | | | |]; [|done..].
    by rewrite (proj2 (Z.eqb_neq _ _)) by lia. }
  rewrite !Heq by lia. done.
Qed.

Lemma bind_rewrite {S A B} (m1 m2 : M S A) (f : A -> M S B) s :
  m1 s = m2 s -> (m1 ≫= f) s = (m2 ≫= f) s.
Proof. unfold mbind, M_bind. by intros ->. Qed.

(** What lies between [get_inode] and [put_inode]. *)
Definition phases {A} (sz pre : Z) (n : inode) (k : inode -> M inode_manager A) : M inode_manager A :=
  l ← loop (S (Z.to_nat NDIRECT)) (write_direct buf sz) (n, 0, 0, zero_block);
  let '(node, pos, i, arr) := l in
  node ← (if (pos <? sz) && (i =? NDIRECT)
          then write_indirect_part buf sz node pos arr else mret node);
  node ← shrink_part sz pre node;
  k node.

Lemma phases_same {A} pre n (k : inode -> M inode_manager A) s :
  0 <= i_size n <= MAX_SIZE -> phases size pre n k s = phases MAX_SIZE pre n k s.
Proof.
  intros Hn. unfold phases. set (z := i_size n).
  set (Inv := fun l : inode * Z * Z * bytes => at_block 0 l /\ l.1.2 <= 100 /\ sized z l.1.1.1).
  set (Out := fun l : inode * Z * Z * bytes => at_block 0 l /\ l.1.2 = 100 /\ sized z l.1.1.1).
  assert (Inv (n, 0, 0, zero_block)) as Hi by (split; [split|split]; done).
  assert (forall l, Inv l -> returns (write_direct buf size l) (fun c =>
    match c with Next l' => Inv l' | Stop l' => Out l' end)) as Hret by (intros l; apply write_direct_at).
  etrans; [|apply (bind_rewrite (loop (S (Z.to_nat NDIRECT)) (write_direct buf size) (n, 0, 0, zero_block)))].
  2:{ apply (loop_congr Inv); [|intros l Hl|done].
      - intros l s' [Hl _]. by apply write_direct_same.
      - intros s1 c s2 Hrun. specialize (Hret l Hl s1 c s2 Hrun). by destruct c. }
  apply (bind_congr _ _ _ Out); [by eapply returns_loop|].
  intros [[[node pos] i] arr] s1 ([_ ->] & Hi' & Hz). cbn [fst snd] in Hi', Hz. subst i.
  cbn beta iota. unfold NDIRECT, MAX_SIZE in *. rewrite !(proj2 (Z.ltb_lt _ _)) by lia. cbn [andb Z.eqb].
  rewrite (bind_rewrite _ _ _ s1 (write_indirect_part_same node arr s1)).
  apply (bind_congr _ _ _ (sized z)); [by apply write_indirect_part_sized|].
  intros node' s2 Hz'. apply bind_rewrite. apply shrink_part_same. by rewrite Hz'.
Qed.

(** An inode with all its blocks and a size beyond them. *)
Record overgrown (b : block_manager) (n : inode) : Prop := {
  og_wf : bm_wf b;
  og_size : i_size n = size;
  og_len : length (i_blocks n) = 101%nat;
  og_ind : used b (ind n) = true;
  og_slots : forall j, 0 <= j < 228 -> used b (slot b n j) = true
}.

(** It has the blocks of a file of [MAX_SIZE] bytes. *)
Lemma overgrown_full b n n' tbl i :
  node_wf b n -> bm_wf b -> i_size n = MAX_SIZE -> i_blocks n' = i_blocks n -> i_size n' = size ->
  0 <= i <= INODE_NUM -> length tbl = Z.to_nat BLOCK_SIZE ->
  overgrown (set_blk (i + 11) tbl b) n'.
Proof.
  intros Hn Hb Hfull Hbl Hz Hi Htbl.
  assert (nb (i_size n) = 228) as Hnb by by rewrite Hfull.
  assert (ind n <> 0) as Hind by (rewrite (nw_ind _ _ Hn); lia).
  assert (used b (ind n) = true) as Hu by (apply (nw_used _ _ Hn); by apply owned_ind).
  assert (ind n' = ind n) as Ei by (unfold ind; by rewrite Hbl).
  assert (forall j, slot (set_blk (i + 11) tbl b) n' j = slot b n j) as Es.
  { intros j. unfold slot, ind_bytes. rewrite Ei, Hbl, (proj2 (Z.eqb_neq _ _)) by done.
    rewrite blk_set_blk, decide_False; [done|]. intros E1.
    apply (table_not_data i Hi). rewrite <- E1. by apply (used_data b). }
  split; [by apply set_blk_wf|done|rewrite Hbl; apply Hn|by rewrite used_set_blk, Ei|].
  intros j Hj. rewrite used_set_blk, Es. apply (nw_used _ _ Hn), owned_slot; [done|].
  apply (nw_full _ _ Hn). lia.
Qed.

Lemma wp_write_oversize i n s (Q : unit -> inode_manager -> Prop) :
  fs_wf s -> node_at s i = Some n -> (blocks_needed (i_size n) MAX_SIZE <= nfree (bm s))%nat ->
  (forall s' n', node_at s' i = Some n' -> overgrown (bm s') n' -> Q tt s') ->
  wp (write_file i buf size) Q s.
Proof.
  intros Hwf Hn Hroom HQ. pose proof (fw_bm _ Hwf) as Hb. pose proof (fw_node _ Hwf _ _ Hn) as Hnw.
  pose proof (proj1 (node_at_Some _ _ _) Hn) as (Hi & _ & Htype).
  unfold write_file. wp_step. apply wp_get_inode; [done|lia|]. rewrite Hn.
  match goal with |- wp ?m _ _ => change m with
    (phases size (i32 (if i_size n =? 0 then 1 else u32 (i_size n - 1) / BLOCK_SIZE + 1)) n
      (fun node => t1 ← time_NULL; t2 ← time_NULL; t3 ← time_NULL;
        put_inode i (Some (mk_inode (i_type node) (u32 size) (u32 t1) (u32 t3) (u32 t2)
                             (i_blocks node))))) end.
  unfold wp. rewrite phases_same by (pose proof (size_range _ _ Hnw); lia).
  apply (wp_write_phases n buf MAX_SIZE 0 s); [done|done|done|lia|].
  intros b1 n1 n2 s1 _ Hf Hs. assert (0 <= MAX_SIZE <= MAX_SIZE) as Hmax by done.
  assert (bm_wf (bm s1)) as Hb1 by by destruct Hs.
  pose proof (result_node_wf _ _ _ _ _ _ _ _ _ 0 0 0 Hmax Hnw Hf Hs) as Hw.
  wp_step. apply wp_time. wp_step. apply wp_time. wp_step. apply wp_time.
  assert (u32 size = size) as Hu by (unfold MAX_SIZE in *; apply u32_id; lia).
  apply wp_put_inode; [done|done| |].
  { destruct (nw_ok _ _ Hw). split; try apply u32_range; [|done..]. done. }
  intros tbl Hlen Htbl. cbn [bm last_alloced epoch]. eapply HQ.
  - apply node_at_Some. split; [done|]. split; [|].
    + unfold table_inode. cbn [bm]. rewrite blk_set_blk, decide_True by done. exact Htbl.
    + cbn [i_type]. by rewrite (sk_meta _ _ _ _ _ _ Hs).
  - cbn [bm]. by apply (overgrown_full _ _ _ _ _ Hw).
Qed.
End oversize.

(** ** The read *)
Lemma length_splice (dst src : bytes) off k :
  0 <= off -> 0 <= k -> off + k <= Z.of_nat (length dst) -> k <= Z.of_nat (length src) ->
  length (take (Z.to_nat off) dst ++ take (Z.to_nat k) src ++ drop (Z.to_nat (off + k)) dst) = length dst.
Proof. intros. rewrite !length_app, !length_take, length_drop. lia. Qed.

Section read.
Context `{E : Env}.
Context (size : Z) (b : block_manager) (n : inode) (bc rem : Z).
Hypothesis Ho : overgrown size b n.
Hypothesis Hbc : 229 <= bc.

Definition room (out : bytes) : Prop := Z.of_nat (length out) = bc * BLOCK_SIZE.

Lemma wp_read_at s0 s i c out (Q : ctl (Z * bytes) -> inode_manager -> Prop) k :
  reading b s0 s -> used b c = true -> 0 <= k < bc - 1 -> room out ->
  (forall out' s', reading b s0 s' -> room out' -> Q (Next (i + 1, out')) s') ->
  wp (buf ← with_bm (bm_read_block c zero_block);
      if (k =? bc - 1) && negb (rem =? 0) then
        out ← memcpy_at out (k * BLOCK_SIZE) buf rem;
        mret (Stop (i, out))
      else
        out ← memcpy_at out (k * BLOCK_SIZE) buf BLOCK_SIZE;
        mret (Next (i + 1, out))) Q s.
Proof.
  intros Hs Hu Hk Hr HQ. pose proof (og_wf _ _ _ Ho) as Hb.
  assert (Z.of_nat (length (blk b c)) = 512) as Hl by by rewrite (bm_wf_len _ Hb).
  wp_step. eapply wp_read_slot; [done|exact Hs|done| |].
  { by destruct (used_data _ _ Hb Hu). }
  intros s' Hs'. rewrite (proj2 (Z.eqb_neq _ _)) by lia. cbn [andb]. wp_step.
  unfold room, BLOCK_SIZE in *. apply wp_memcpy_at; [lia..|]. wp_step. apply HQ; [done|].
  unfold room, BLOCK_SIZE. rewrite length_splice by lia. exact Hr.
Qed.

Lemma wp_read_direct_all s0 s out (Q : Z * bytes -> inode_manager -> Prop) :
  reading b s0 s -> room out ->
  (forall out' s', reading b s0 s' -> room out' -> Q (100, out') s') ->
  wp (loop (S (Z.to_nat NDIRECT)) (read_direct n bc rem) (0, out)) Q s.
Proof.
  intros Hs Hr HQ. pose proof (og_wf _ _ _ Ho) as Hb.
  apply wp_loop with (Inv := fun l s => reading b s0 s /\ 0 <= l.1 <= 100 /\ room l.2)
    (variant := fun l => Z.to_nat (100 - l.1)); [|done|unfold NDIRECT; simpl; lia].
  intros [i out'] s' (Hs' & Hi & Hr'). cbn [fst snd] in Hi, Hr'. unfold read_direct.
  apply wp_if; unfold NDIRECT; intros Hlt.
  - wp_step. apply wp_get_slot; [unfold NDIRECT; lia|apply Ho|]. rewrite (slot_direct b) by lia.
    pose proof (og_slots _ _ _ Ho i ltac:(lia)) as Hu.
    wp_step. eapply wp_valid; [done|exact Hs'|]. intros s1 Hs1. rewrite Hu.
    apply (wp_read_at s0); [done|done|lia|done|]. intros out2 s2 Hs2 Hr2. cbn [fst snd].
    split; [split; [done|split; [lia|done]]|lia].
  - wp_step. assert (i = 100) as -> by lia. by apply HQ.
Qed.

(** The loop over the indirect block reads entry 128, behind its end. *)
Lemma read_indirect_ub s0 s out :
  reading b s0 s -> room out ->
  loop (S (Z.to_nat (bc - NDIRECT))) (read_indirect (blk b (ind n)) bc rem) (0, out) s = UB.
Proof.
  intros Hs Hr. pose proof (og_wf _ _ _ Ho) as Hb. pose proof (og_ind _ _ _ Ho) as Hind.
  assert (Z.of_nat (length (blk b (ind n))) = 512) as Hl by by rewrite (bm_wf_len _ Hb).
  assert (ind n <> 0) as Hnz by (intros H0; by rewrite H0, zero_unused in Hind).
  apply ub_loop with (Inv := fun l s => reading b s0 s /\ 0 <= l.1 <= 128 /\ room l.2)
    (variant := fun l => Z.to_nat (128 - l.1)); [|done|unfold NDIRECT; simpl; lia].
  intros [i out'] s' (Hs' & Hi & Hr'). cbn [fst snd] in Hi, Hr'. unfold read_indirect.
  unfold NDIRECT. rewrite (proj2 (Z.ltb_lt _ _)) by lia.
  destruct (decide (i = 128)) as [->|Hne].
  - left. apply ub_bind. unfold load32. by rewrite decide_False by lia.
  - right. pose proof (og_slots _ _ _ Ho (i + 100) ltac:(lia)) as Hu.
    wp_step. apply wp_load32; [lia|lia|]. rewrite slot_indirect by (done || lia).
    wp_step. eapply wp_valid; [done|exact Hs'|]. intros s1 Hs1. rewrite Hu.
    wp_step. apply wp_load32; [lia|lia|]. rewrite slot_indirect by (done || lia).
    apply (wp_read_at s0); [done|done|lia|done|]. intros out2 s2 Hs2 Hr2.
    exists (i + 1, out2). cbn [fst snd]. split; [done|]. split; [|lia]. split; [done|split; [lia|done]].
Qed.
End read.

Lemma read_file_ub `{E : Env} size i n s size0 :
  MAX_SIZE < size < 2 ^ 31 - 512 -> node_at s i = Some n -> overgrown size (bm s) n ->
  read_file i size0 s = UB.
Proof.
  intros Hsize Hn Ho. pose proof (og_wf _ _ _ Ho) as Hb.
  pose proof (proj1 (node_at_Some _ _ _) Hn) as (Hi & _ & _).
  unfold read_file. rewrite (proj2 (Z.ltb_ge _ _)) by lia. apply ub_after.
  apply wp_get_inode; [done|lia|]. rewrite Hn, (og_size _ _ _ Ho). set (bc := i32 _ + _).
  assert (229 <= bc) as Hbc.
  { subst bc. unfold MAX_SIZE, BLOCK_SIZE in *. rewrite i32_id by dlia.
    destruct (Z.eqb_spec (size mod 512) 0); cbn [negb orb]; [|dlia].
    assert (229 <= size / 512) by (revert e Hsize; dlia). case_match; lia. }
  cbv zeta. apply ub_after. apply wp_uninit. intros out Hout.
  set (s0 := mk_im (bm s) (last_alloced s) (S (epoch s))).
  apply ub_after. apply (wp_read_direct_all size (bm s) n bc _ Ho Hbc s0).
  { done. }
  { unfold room. rewrite Hout. unfold BLOCK_SIZE. lia. }
  intros out1 s1 Hs1 Hr1. apply ub_after. apply wp_get_ind; [apply Ho|]. cbn [fst snd Z.eqb NDIRECT].
  apply ub_after. eapply wp_valid; [done|exact Hs1|]. clear s1 Hs1. intros s1 Hs1.
  rewrite (og_ind _ _ _ Ho). apply ub_bind. apply ub_after.
  eapply wp_read_slot; [done|exact Hs1|done| |].
  { by destruct (used_data _ _ Hb (og_ind _ _ _ Ho)). }
  clear s1 Hs1. intros s1 Hs1. apply ub_bind. by eapply read_indirect_ub.
Qed.

(** C30 The bound of a file is not checked: a [put] of more than 116736 bytes, on a disk
    with free blocks for 116736, is reported as a success, [getattr] then shows its whole length, and the next [get]
    of the file reads behind the end of the 512 bytes of its indirect block. *)
Theorem oversize_put_breaks `{E : Env} s id buf f :
  fs_wf s -> file_at s (ext_id id) = Some f -> MAX_SIZE < len buf < 2 ^ 31 - 512 ->
  (blocks_needed (len (f_data f)) MAX_SIZE <= nfree (bm s))%nat ->
  exists s', extent_client.put id buf s = Ok (OK, s') /\
    (exists a, extent_client.getattr id s' = Ok ((OK, a), s') /\ a_size a = len buf) /\
    extent_client.get id s' = UB.
Proof.
  intros Hwf (n & Hn & ->)%file_at_Some Hlen Hroom. cbn [file_of f_data] in Hroom.
  rewrite (len_content _ _ _ Hwf Hn) in Hroom. pose proof (ext_id_range id) as Hm.
  assert (wp (extent_client.put id buf) (fun r s' => r = OK /\ exists n',
    node_at s' (ext_id id) = Some n' /\ overgrown (len buf) (bm s') n') s) as Hput.
  { unfold extent_client.put, extent_server.put. wp_step. wp_step. unfold extent_server.c_str.
    wp_step. apply wp_tick. wp_step. wp_step. rewrite i32_id by (unfold MAX_SIZE, len in *; lia).
    eapply (wp_write_oversize _ _ Hlen (ext_id id) n); [by apply fs_wf_epoch|exact Hn|exact Hroom|].
    intros s' n' Hn' Ho. wp_step. wp_step. split; [done|]. by exists n'. }
  apply wp_run in Hput as (r & s' & Hrun & -> & n' & Hn' & Ho). exists s'. split; [exact Hrun|].
  split.
  - assert (wp (extent_client.getattr id) (fun r s2 => s2 = s' /\ r.1 = OK /\ a_size r.2 = len buf) s') as Hattr.
    { unfold extent_client.getattr, extent_server.getattr, get_attr. wp_step. wp_step.
      apply wp_if; intros Hgt; [pose proof (proj1 (node_at_Some _ _ _) Hn'); lia|].
      wp_step. apply wp_get_inode; [apply Ho|lia|]. rewrite Hn'. wp_steps.
      split; [done|]. split; [done|]. apply Ho. }
    apply wp_run in Hattr as ([ret a] & s2 & H2 & -> & Hret & Ha). cbn in Hret, Ha. subst ret. by exists a.
  - unfold extent_client.get, extent_server.get. apply ub_bind. apply ub_bind.
    by apply (read_file_ub (len buf) _ n').
Qed.

#[local] Existing Instance machine.

Lemma oversize_put_breaks_witness :
  exists s', extent_client.put 1 (load letters 0 120000) booted = Ok (OK, s') /\
    extent_client.get 1 s' = UB.
Proof.
  assert (len (load letters 0 120000) = 120000) as Hl by (unfold len; rewrite length_load; lia).
  destruct (oversize_put_breaks booted 1 (load letters 0 120000) (empty_file T_DIR 1000))
    as (s' & H1 & _ & H2).
  - exact booted_wf.
  - exact booted_root.
  - rewrite Hl. unfold MAX_SIZE. lia.
  - transitivity (Z.to_nat 229); [apply Nat.leb_le; reflexivity|apply booted_room; lia].
  - exists s'. split; [exact H1|exact H2].
Defined.
