(* ===== verification/DiskFull.v ===== *)
(** A file that outgrows the disk.

    A write takes the free blocks that there are.  Then [alloc_block] returns 0, and
    [write_file] takes 0 for the number of a block: the rest of the bytes goes to block 0
    of the disk, one block over the other.  The file gets its new size, and reading it
    returns behind its blocks the memory that [read_file] has allocated. *)
From S2P Require Import Prelude Monad Disk BlockManager Inode InodeManager FsInv WriteFile.
From S2P Require Import WriteSpec ReadFile AllocInode RemoveFile Protocol Extent ChfsClient ChfsSpec ChfsOps.
From S2P Require Import Fuse System Scenarios.
From Stdlib Require Import Ascii ZArith Lia.
From stdpp Require Import base gmap numbers list.
#[local] Open Scope Z_scope.

(** The file [i] has its first [k] blocks. *)
Definition holds (s : inode_manager) (i k : Z) : Prop :=
  exists n, node_at s i = Some n /\ forall j, 0 <= j < 228 -> slot (bm s) n j <> 0 <-> j < k.

Lemma set_slot_same n i :
  length (i_blocks n) = 101%nat -> 0 <= i <= 100 -> set_slot n i (default 0 (i_blocks n !! Z.to_nat i)) = n.
Proof.
  intros Hl Hi. destruct n as [t z a m c bl]. cbn [i_blocks] in *. unfold set_slot.
  cbn [i_type i_size i_atime i_mtime i_ctime i_blocks]. f_equal. apply list_insert_id.
  destruct (bl !! Z.to_nat i) eqn:El; [done|]. apply lookup_ge_None in El. lia.
Qed.

Lemma wp_alloc_full b (Q : Z -> block_manager -> Prop) :
  bm_wf b -> nfree b = 0%nat -> (forall b', b' ≡ b -> Q 0 b') -> wp alloc_block Q b.
Proof.
  intros Hb Hfull HQ. apply wp_alloc_block; [done| |auto]. intros c b' Hc Hu _ _.
  assert (0 < nfree b)%nat by (apply nfree_pos; eauto). lia.
Qed.

Lemma take_load p off m n : 0 <= m <= n -> take (Z.to_nat m) (load p off n) = load p off m.
Proof.
  intros Hm. apply list_eq_same_length with (Z.to_nat m);
    [by rewrite length_load|by rewrite length_take, length_load; lia|].
  intros j x y Hj Hx Hy. rewrite lookup_take_lt in Hx by done. unfold load in Hx, Hy.
  rewrite list_lookup_fmap, lookup_zrange in Hx, Hy by lia. congruence.
Qed.

Lemma drop_load p off m n : 0 <= m <= n -> drop (Z.to_nat m) (load p off n) = load p (off + m) (n - m).
Proof.
  intros Hm. apply list_eq_same_length with (Z.to_nat (n - m));
    [by rewrite length_load|by rewrite length_drop, length_load; lia|].
  intros j x y Hj Hx Hy. rewrite lookup_drop in Hx. unfold load in Hx, Hy.
  rewrite list_lookup_fmap, lookup_zrange in Hx, Hy by lia. cbn in Hx, Hy.
  injection Hx as <-. injection Hy as <-. f_equal. lia.
Qed.

Section full.
Context `{E : Env}.

(** ** The write, when the disk is full *)
Section lost.
Context (b1 : block_manager) (n : inode) (k : Z) (buf : ptr) (size : Z).
Hypothesis Hb1 : bm_wf b1.
Hypothesis Hl : length (i_blocks n) = 101%nat.
Hypothesis Hfull : nfree b1 = 0%nat.
Hypothesis Hzero : forall j, k <= j < 100 -> slot b1 n j = 0.
Hypothesis Hk0 : 0 <= k.

(** The blocks from [k] on are written up to [i]: each of them to block 0. *)
Record lost (i : Z) (b : block_manager) : Prop := {
  lo_wf : bm_wf b;
  lo_used : forall c, used b c = used b1 c;
  lo_zero : k < i -> blk b 0 = load buf (512 * (i - 1)) 512;
  lo_frame : forall c, c <> 0 -> blk b c = blk b1 c
}.

Lemma lost_step i b b' :
  lost i b -> b' ≡ set_blk 0 (load buf (512 * i) 512) b -> lost (i + 1) b'.
Proof.
  intros [] Hb'. split.
  - rewrite Hb'. apply set_blk_wf; [done|]. by rewrite length_load.
  - intros c. rewrite (bm_equiv_used _ _ _ Hb'), used_set_blk. done.
  - intros _. rewrite (bm_equiv_blk _ _ _ Hb'), blk_set_blk, decide_True by done. f_equal. lia.
  - intros c Hc. rewrite (bm_equiv_blk _ _ _ Hb'), blk_set_blk, decide_False by done. auto.
Qed.

Lemma wp_lost_iter i arr s (Q : ctl (inode * Z * Z * bytes) -> inode_manager -> Prop) :
  lost i (bm s) -> k <= i < 100 -> 512 * i < size -> length arr = Z.to_nat BLOCK_SIZE ->
  (forall arr' b, length arr' = Z.to_nat BLOCK_SIZE -> lost (i + 1) b ->
     Q (Next (n, 512 * (i + 1), i + 1, arr')) (upd_bm s b)) ->
  wp (write_direct buf size (n, 512 * i, i, arr)) Q s.
Proof.
  intros Hw Hi Hlt Harr HQ. pose proof Hw as [Hb Hu _ _].
  pose proof (Hzero i Hi) as Hz. rewrite <- (slot_direct b1 n i) in Hz by lia.
  unfold write_direct, NDIRECT. rewrite !(proj2 (Z.ltb_lt _ _)) by lia. cbn [andb].
  wp_step. apply wp_get_slot; [unfold NDIRECT; lia|done|]. rewrite Hz.
  wp_step. apply wp_with_bm. apply wp_is_valid_block; [done|]. intros b2 E2. rewrite zero_unused by done.
  wp_step. wp_step. apply wp_with_bm. cbn [upd_bm bm last_alloced epoch].
  apply wp_alloc_full; [by rewrite E2| |].
  { rewrite (nfree_used_ext b1); [done|]. intros c. by rewrite (bm_equiv_used _ _ _ E2). }
  intros b3 E3. wp_step.
  assert (set_slot n i 0 = n) as -> by (rewrite <- Hz; by apply set_slot_same; [|lia]).
  change (wp (direct_tail buf size n (512 * i) i arr) Q (upd_bm s b3)).
  assert (n = set_blocks n (i_blocks n)) as En by by destruct n. rewrite En.
  apply wp_direct_tail with (x := 0); [done| |lia|done|done| |done|].
  - rewrite <- Hz. destruct (i_blocks n !! Z.to_nat i) eqn:El; [done|]. apply lookup_ge_None in El. lia.
  - cbn [upd_bm bm]. by rewrite E3, E2.
  - cbn [upd_bm bm]. intros arr' b' Harr' Eb'. rewrite <- En.
    replace (512 * i + BLOCK_SIZE) with (512 * (i + 1)) by (unfold BLOCK_SIZE; lia).
    apply (HQ arr' b'); [done|]. eapply (lost_step i (bm s)); [done|]. by rewrite Eb', E3, E2.
Qed.
End lost.

(** ** The write, from the first block to the last *)
Section grow.
Context (b0 : block_manager) (n0 : inode) (k : Z) (buf : ptr) (size last0 : Z) (e0 : nat).
Hypothesis Hb0 : bm_wf b0.
Hypothesis Hn0 : node_wf b0 n0.
Hypothesis Hk : forall j, 0 <= j < 228 -> slot b0 n0 j <> 0 <-> j < k.
Hypothesis Hk0 : 0 <= k.
(** The blocks that the file gets before there are no more. *)
Let K : Z := k + Z.of_nat (nfree b0).
Hypothesis Hsize : K < nb size.
Hypothesis H100 : nb size <= 100.

(** The blocks [0 .. K-1] are written, and the disk is full. *)
Record grown (n1 : inode) (b1 : block_manager) : Prop := {
  gr_wf : bm_wf b1;
  gr_full : nfree b1 = 0%nat;
  gr_node : n1 = set_blocks n0 (i_blocks n1);
  gr_length : length (i_blocks n1) = 101%nat;
  gr_ind : ind n1 = ind n0;
  gr_used : forall j, 0 <= j < K -> used b1 (slot b1 n1 j) = true;
  gr_zero : forall j, K <= j < 100 -> slot b1 n1 j = 0;
  gr_data : forall j, 0 <= j < K -> blk b1 (slot b1 n1 j) = load buf (512 * j) 512;
  gr_frame : forall c, ~ owned b0 n0 c -> used b0 c = true \/ ~ data_block c -> blk b1 c = blk b0 c
}.

Lemma empty_slots_held m j :
  Z.to_nat (K - j) = m -> 0 <= j -> empty_slots (slot b0 n0) j K = Z.to_nat (K - Z.max j k).
Proof.
  revert j. induction m as [|m IH]; intros j Hm Hj.
  - unfold empty_slots. rewrite Hm. cbn. lia.
  - rewrite empty_slots_step by lia. rewrite (IH (j + 1)) by lia.
    specialize (Hk j ltac:(lia)). case_decide as Hd; lia.
Qed.

Lemma grow_start : fill b0 (slot b0 n0) (ind n0) buf (512 * K) 0 0 (slot b0 n0) (ind n0) b0.
Proof.
  assert (nb (512 * K) = K) as HK by (unfold nb; dlia).
  split; try done; auto; try lia; try (by destruct Hn0).
  rewrite HK, (empty_slots_held _ 0 eq_refl) by lia. unfold need_ind.
  rewrite HK, (proj2 (Z.ltb_ge 100 K)), andb_false_r by lia. lia.
Qed.

Lemma vslot_direct bl ib ib' j : j < 100 -> vslot bl ib j = vslot bl ib' j.
Proof. intros Hj. unfold vslot. by rewrite (proj2 (Z.ltb_lt _ _)). Qed.

(** All blocks are taken once [K] slots are filled. *)
Lemma grown_full sl b : fill b0 (slot b0 n0) (ind n0) buf (512 * K) 0 K sl (ind n0) b -> nfree b = 0%nat.
Proof.
  intros []. set (l := sl <$> zrange k (nfree b0)).
  assert (forall c, c ∈ l <-> exists j, c = sl j /\ k <= j < K) as Hl.
  { intros c. unfold l. rewrite list_elem_of_fmap. by setoid_rewrite elem_of_zrange. }
  assert (forall j, 0 <= j < K -> owned_by sl (ind n0) (sl j)) as Ho.
  { intros j Hj. split; [by apply fi_lt|right]. exists j. split; [lia|done]. }
  assert (forall j, k <= j < K -> used b0 (sl j) = false) as Hnew.
  { intros j Hj. destruct (fi_new (sl j)) as [(_ & [Hi|(j' & Hj' & E')])|]; [apply Ho; lia| | |done].
    - exfalso. apply (fi_ne j); [lia|apply fi_lt; lia|done].
    - exfalso. assert (slot b0 n0 j' <> 0) as Hnz by (rewrite E'; apply fi_lt; lia).
      rewrite <- (fi_same j') in E' by done. apply fi_inj in E'; [|lia|lia|].
      + subst j'. apply Hk in Hnz; lia.
      + by rewrite fi_same. }
  assert (nfree b0 = (nfree b + length l)%nat) as Hn; [|unfold l in Hn; rewrite length_fmap, length_zrange in Hn; lia].
  apply nfree_marked.
  - apply NoDup_fmap_2_strong; [|apply NoDup_zrange].
    intros j1 j2 H1%elem_of_zrange H2%elem_of_zrange. apply fi_inj; [lia..|]. apply fi_lt. lia.
  - intros c (j & -> & Hj)%Hl. split; [|by apply Hnew]. apply (used_data b); [done|]. apply fi_used, Ho. lia.
  - intros c. rewrite Hl. split.
    + intros Hc. destruct (decide (used b0 c = true)) as [|Hu]; [by left|right].
      destruct (fi_only c Hc) as [|[Hc0 [->|(j & Hj & <-)]]]; [done|exfalso|].
      * apply Hu, (nw_used _ _ Hn0). by split; [|left].
      * exists j. split; [done|]. split.
        -- destruct (decide (k <= j)) as [|Hlt]; [done|]. destruct Hu.
           assert (slot b0 n0 j <> 0) as Hnz by (apply Hk; lia). rewrite fi_same by done.
           apply (nw_used _ _ Hn0). by apply owned_slot.
        -- destruct (decide (j < K)) as [|Hge]; [done|]. destruct Hc0. rewrite fi_ge by lia.
           destruct (decide (slot b0 n0 j = 0)) as [|Hnz]; [done|]. apply Hk in Hnz; lia.
    + intros [Hc|(j & -> & Hj)]; [auto|]. apply fi_used, Ho. lia.
Qed.

Lemma grown_intro node pos i arr s :
  direct_inv b0 n0 buf (512 * K) last0 e0 0 (node, pos, i, arr) s -> i = K -> grown node (bm s).
Proof.
  intros (_ & _ & _ & _ & _ & bl & -> & Hlen & HX & Hf) ->.
  assert (forall j, j < 100 -> slot (bm s) (set_blocks n0 bl) j = vslot bl (ind_bytes b0 n0) j) as Hs
    by (intros j Hj; by apply vslot_direct).
  pose proof (grown_full _ _ Hf) as Hfull. destruct Hf. split; try done.
  - unfold ind at 1. cbn [set_blocks i_blocks]. by rewrite HX.
  - intros j Hj. rewrite Hs by lia. apply fi_used. split; [by apply fi_lt|right]. exists j. split; [lia|done].
  - intros j Hj. rewrite Hs, fi_ge by lia.
    destruct (decide (slot b0 n0 j = 0)) as [|Hnz]; [done|]. apply Hk in Hnz; lia.
  - intros j Hj. rewrite Hs by lia. apply list_eq_same_length with 512%nat; [by rewrite length_load|by apply (bm_wf_len _ fi_wf)|].
    intros q x y Hq Hx Hy.
    specialize (fi_data (512 * j + Z.of_nat q) ltac:(lia) ltac:(lia)).
    replace ((512 * j + Z.of_nat q) / 512) with j in fi_data by dlia.
    replace ((512 * j + Z.of_nat q) mod 512) with (Z.of_nat q) in fi_data by dlia.
    rewrite Nat2Z.id, nth_lookup, Hx in fi_data. unfold load in Hy.
    rewrite list_lookup_fmap, lookup_zrange in Hy by lia. cbn in Hy. injection Hy as <-. exact fi_data.
  - intros c Hno Hc. apply fi_frame. intros j Hj <-.
    assert (owned_by (vslot bl (ind_bytes b0 n0)) (ind n0) (vslot bl (ind_bytes b0 n0) j)) as Ho.
    { split; [by apply fi_lt|right]. exists j. split; [lia|done]. }
    destruct (fi_new _ Ho) as [|Hu]; [by destruct Hno|]. destruct Hc as [Hc|Hc]; [congruence|].
    apply Hc, (used_data (bm s)); [done|]. by apply fi_used.
Qed.

(** What the loop has done in front of block [i]. *)
Definition growing (l : inode * Z * Z * bytes) (s : inode_manager) : Prop :=
  (l.1.2 < K /\ direct_inv b0 n0 buf (512 * K) last0 e0 0 l s) \/
  exists n1 b1 i arr, l = (n1, 512 * i, i, arr) /\ K <= i <= nb size /\
    length arr = Z.to_nat BLOCK_SIZE /\ grown n1 b1 /\ lost b1 K buf i (bm s).

Lemma growing_intro l s :
  direct_inv b0 n0 buf (512 * K) last0 e0 0 l s -> l.1.2 <= K -> growing l s.
Proof.
  destruct l as [[[node pos] i] arr]. cbn [fst snd]. intros Hinv Hi.
  destruct (decide (i < K)) as [Hlt|Hge]; [by left|right]. assert (i = K) as -> by lia.
  pose proof (grown_intro _ _ _ _ _ Hinv eq_refl) as Hg. destruct Hinv as (-> & _ & _ & Harr & _).
  exists node, (bm s), K, arr. split; [done|]. split; [lia|]. split; [done|]. split; [done|].
  split; [apply Hg|done|lia|done].
Qed.

(** In front of block [K] the write does what a write of [K] blocks does. *)
Lemma write_direct_shorter node i arr s :
  i < K -> write_direct buf size (node, 512 * i, i, arr) s = write_direct buf (512 * K) (node, 512 * i, i, arr) s.
Proof.
  intros Hi. assert (512 * (i + 1) < size) by (unfold nb in Hsize; dlia). unfold write_direct, BLOCK_SIZE.
  rewrite !(proj2 (Z.ltb_lt (512 * i) _)), !(proj2 (Z.ltb_ge _ (512 * i + 512))) by lia. done.
Qed.

Lemma wp_grow_loop s (Q : inode * Z * Z * bytes -> inode_manager -> Prop) :
  bm s = b0 -> meta last0 e0 s ->
  (forall n1 b1 pos arr s', size <= pos -> grown n1 b1 -> lost b1 K buf (nb size) (bm s') ->
     Q (n1, pos, nb size, arr) s') ->
  wp (loop (S (Z.to_nat NDIRECT)) (write_direct buf size) (n0, 0, 0, zero_block)) Q s.
Proof.
  intros Hs Hmeta HQ.
  apply wp_loop with (variant := fun l => Z.to_nat (100 - l.1.2)) (Inv := growing);
    [| |cbn [fst snd]; unfold NDIRECT; lia].
  - intros l s' [[Hi Hinv]|(n1 & b1 & i & arr & -> & Hi & Harr & Hg & Hlo)].
    + destruct l as [[[node pos] i] arr]. cbn [fst snd] in Hi. pose proof Hinv as (-> & Hi0 & _).
      unfold wp at 1. rewrite write_direct_shorter by done.
      apply (wp_write_direct_iter b0 n0 buf (512 * K) last0 e0 0 _ _ _ Hinv); cbn [fst snd]; [lia|lia|].
      intros l' s2 Hinv' Hi'. cbn [fst snd] in Hi'. split; [|lia]. apply growing_intro; [done|lia].
    + destruct (decide (512 * i < size)) as [Hlt|Hge].
      * assert (i < nb size) by (unfold nb; dlia).
        eapply (wp_lost_iter b1 n1 K); [apply Hg|apply Hg|apply Hg|lia|exact Hlo|lia|done|done|].
        intros arr' b Harr' Hlo'. cbn [fst snd]. split; [|lia]. right.
        exists n1, b1, (i + 1), arr'. split; [done|]. split; [lia|]. done.
      * assert (i = nb size) as -> by (pose proof (proj1 (nb_le_iff size i)); lia).
        unfold write_direct. rewrite (proj2 (Z.ltb_ge _ _)) by lia. cbn [andb]. apply wp_ret. by eapply HQ; [lia|..].
  - apply growing_intro; [|cbn [fst snd]; lia]. split; [lia|]. split; [lia|]. split; [unfold nb; dlia|].
    split; [done|]. split; [done|]. exists (i_blocks n0). split; [by destruct n0|].
    split; [apply Hn0|]. split; [|rewrite Hs; apply grow_start].
    unfold ind. destruct (i_blocks n0 !! 100%nat) eqn:El; [done|].
    apply lookup_ge_None in El. rewrite (ok_length _ (nw_ok _ _ Hn0)) in El. lia.
Qed.
End grow.
(** The state after the write of [size] bytes: the file [i] has only its first [k]
    blocks, and the last block that was written is in block 0. *)
Record misplaced (s : inode_manager) (i k : Z) (buf : ptr) (size : Z) (n : inode) : Prop := {
  mp_wf : bm_wf (bm s);
  mp_node : node_at s i = Some n;
  mp_ok : inode_ok n;
  mp_size : i_size n = size;
  mp_used : forall j, 0 <= j < 100 -> used (bm s) (slot (bm s) n j) = (j <? k);
  mp_ind : ind n = 0;
  mp_data : forall j, 0 <= j < k -> blk (bm s) (slot (bm s) n j) = load buf (512 * j) 512;
  mp_zero : blk (bm s) 0 = load buf (512 * (nb size - 1)) 512;
  mp_full : nfree (bm s) = 0%nat
}.

(** A file that has another number keeps everything. *)
Lemma grown_other s i n k buf m n1 b1 b tbl last ep :
  fs_wf s -> node_at s i = Some n -> grown (bm s) n k buf n1 b1 ->
  lost b1 (k + Z.of_nat (nfree (bm s))) buf m b ->
  forall j, j <> i -> file_at (mk_im (set_blk (i + 11) tbl b) last ep) j = file_at s j.
Proof.
  intros Hwf Hn Hg Hlo j Hj. pose proof (fw_bm _ Hwf) as Hb.
  pose proof (proj1 (node_at_Some _ _ _) Hn) as (Hi & _ & _).
  assert (forall c, c <> 0 -> c <> i + 11 -> ~ owned (bm s) n c -> used (bm s) c = true \/ ~ data_block c ->
    blk (set_blk (i + 11) tbl b) c = blk (bm s) c) as Hblk.
  { intros c Hc Hci Ho Hd. rewrite blk_set_blk, decide_False, (lo_frame _ _ _ _ _ Hlo) by done.
    by apply (gr_frame _ _ _ _ _ _ Hg). }
  assert (node_at (mk_im (set_blk (i + 11) tbl b) last ep) j = node_at s j) as Hnode.
  { apply node_at_ext. intros Hjr. pose proof (table_not_data j Hjr). apply Hblk; [lia|lia| |by right].
    intros Ho. by apply (owned_data _ _ _ Hb (fw_node _ Hwf _ _ Hn)) in Ho. }
  unfold file_at. rewrite Hnode. destruct (node_at s j) as [m'|] eqn:Hm; [|done].
  cbn [fmap option_fmap option_map bm]. unfold file_of. do 2 f_equal.
  pose proof (fw_node _ Hwf _ _ Hm) as Hmw. apply frame_content; [|done]. intros c Hc. apply Hblk.
  - by destruct Hc.
  - intros ->. apply (table_not_data i Hi). by apply (owned_data _ _ _ Hb Hmw).
  - intros Ho. apply Hj. by eapply (fw_disj _ Hwf).
  - left. by apply (nw_used _ _ Hmw).
Qed.

(** The state after the inode is stored. *)
Lemma grown_misplaced s i n k buf size n1 n' b1 b tbl last ep :
  fs_wf s -> node_at s i = Some n -> grown (bm s) n k buf n1 b1 ->
  lost b1 (k + Z.of_nat (nfree (bm s))) buf (nb size) b ->
  0 <= k -> k + Z.of_nat (nfree (bm s)) < nb size -> nb size <= 100 ->
  ind n = 0 -> i_blocks n' = i_blocks n1 -> i_size n' = size -> i_type n' <> 0 -> inode_ok n' ->
  length tbl = Z.to_nat BLOCK_SIZE -> inode_of_bytes tbl = n' ->
  misplaced (mk_im (set_blk (i + 11) tbl b) last ep) i (k + Z.of_nat (nfree (bm s))) buf size n'.
Proof.
  intros Hwf Hn Hg Hlo Hk Hlt H100 Hind Hbl Hz Ht Hok Hlen Htbl.
  pose proof (proj1 (node_at_Some _ _ _) Hn) as (Hi & _ & _). set (K := k + _) in *.
  assert (ind n' = 0) as Hind'.
  { rewrite <- Hind, <- (gr_ind _ _ _ _ _ _ Hg). unfold ind. by rewrite Hbl. }
  assert (forall b', forall j, 0 <= j < 100 -> slot b' n' j = slot b1 n1 j) as Hslot.
  { intros b' j Hj. by rewrite <- !slot_direct, Hbl by lia. }
  assert (forall c, used (set_blk (i + 11) tbl b) c = used b1 c) as Hused
    by (intros c; rewrite used_set_blk; apply Hlo).
  assert (forall j, 0 <= j < K -> data_block (slot b1 n1 j)) as Hdata.
  { intros j Hj. apply (used_data b1); [apply Hg|]. by apply (gr_used _ _ _ _ _ _ Hg). }
  split; cbn [bm]; try done.
  - apply set_blk_wf; [apply Hlo|done].
  - apply node_at_Some. split; [done|]. unfold table_inode. cbn [bm]. by rewrite blk_set_blk, decide_True.
  - intros j Hj. rewrite Hslot, Hused by done. destruct (Z.ltb_spec j K) as [Hjk|Hjk].
    + apply (gr_used _ _ _ _ _ _ Hg). lia.
    + rewrite (gr_zero _ _ _ _ _ _ Hg) by (unfold K in *; lia). apply zero_unused, Hg.
  - intros j Hj. pose proof (Hdata j Hj) as Hd. rewrite Hslot by (unfold K in *; lia).
    assert (slot b1 n1 j <> i + 11) as Hne by (intros E'; apply (table_not_data i Hi); by rewrite <- E').
    rewrite blk_set_blk, decide_False by done.
    rewrite (lo_frame _ _ _ _ _ Hlo) by (intros E'; unfold data_block, FIRST_DATA in Hd; lia).
    by apply (gr_data _ _ _ _ _ _ Hg).
  - rewrite blk_set_blk, decide_False by lia. by apply (lo_zero _ _ _ _ _ Hlo).
  - rewrite (nfree_used_ext b1) by done. apply Hg.
Qed.

Lemma grown_blocks b0 n k buf n1 b1 :
  bm_wf b0 -> inode_ok n -> ind n = 0 -> grown b0 n k buf n1 b1 ->
  Forall (fun c => 0 <= c < 2 ^ 32) (i_blocks n1).
Proof.
  intros Hb Hok Hind Hg. pose proof (gr_length _ _ _ _ _ _ Hg) as Hl. apply Forall_lookup. intros j c Hc.
  pose proof (lookup_lt_Some _ _ _ Hc) as Hj. rewrite Hl in Hj. destruct (decide (j = 100%nat)) as [->|Hne].
  - pose proof (gr_ind _ _ _ _ _ _ Hg) as Hi. rewrite Hind in Hi. unfold ind in Hi. rewrite Hc in Hi.
    cbn in Hi. lia.
  - pose proof (slot_direct b1 n1 (Z.of_nat j) ltac:(lia)) as Hs. rewrite Nat2Z.id, Hc in Hs. cbn in Hs.
    destruct (decide (Z.of_nat j < k + Z.of_nat (nfree b0))) as [Hlt|Hge].
    + pose proof (gr_used _ _ _ _ _ _ Hg (Z.of_nat j) ltac:(lia)) as Hu. rewrite <- Hs in Hu.
      apply used_data in Hu; [|apply Hg]. unfold data_block, FIRST_DATA in Hu. change BLOCK_NUM with 32768 in Hu. lia.
    + rewrite (gr_zero _ _ _ _ _ _ Hg) in Hs by lia. lia.
Qed.

Lemma wp_write_grow i n k buf size s (Q : unit -> inode_manager -> Prop) :
  fs_wf s -> node_at s i = Some n ->
  (forall j, 0 <= j < 228 -> slot (bm s) n j <> 0 <-> j < k) -> 0 <= k ->
  k + Z.of_nat (nfree (bm s)) < nb size -> nb size <= 100 ->
  (forall s' n', misplaced s' i (k + Z.of_nat (nfree (bm s))) buf size n' ->
     (forall j, j <> i -> file_at s' j = file_at s j) -> Q tt s') ->
  wp (write_file i buf size) Q s.
Proof.
  intros Hwf Hn Hk Hk0 Hlt Hnb HQ. pose proof (fw_bm _ Hwf) as Hb.
  pose proof (fw_node _ Hwf _ _ Hn) as Hnw. pose proof (size_range _ _ Hnw) as Hold.
  pose proof (proj1 (node_at_Some _ _ _) Hn) as (Hi & _ & Htype).
  assert (0 < size) as Hsize by (unfold nb in Hlt; dlia).
  assert (nb (i_size n) <= k) as Hpre.
  { destruct (decide (nb (i_size n) <= k)) as [|Hgt]; [done|].
    pose proof (nb_range _ Hold). pose proof (nw_full _ _ Hnw k ltac:(lia)) as Hnz. apply Hk in Hnz; lia. }
  unfold write_file. wp_step. apply wp_get_inode; [done|lia|]. rewrite Hn.
  rewrite pre_block_num_eq by apply Hnw. set (pre := Z.max 1 (nb (i_size n))).
  wp_step. apply (wp_grow_loop (bm s) n k _ _ (last_alloced s) (epoch s)); [done..|].
  intros n1 b1 pos arr s' Hpos Hg Hlo. cbn beta iota.
  rewrite (proj2 (Z.ltb_ge pos size)) by lia. cbn [andb]. wp_step. wp_step.
  unfold shrink_part. assert (Z.quot (size - 1) BLOCK_SIZE + 1 = nb size) as ->.
  { unfold BLOCK_SIZE. rewrite Z.quot_div_nonneg, nb_pred by lia. done. }
  wp_step. wp_step. apply wp_loop_stop. unfold free_direct.
  rewrite (proj2 (Z.ltb_ge (nb size) pre)), andb_false_r by lia. apply wp_ret.
  eexists. split; [done|]. cbn beta iota. rewrite (proj2 (Z.ltb_ge NDIRECT pre)), andb_false_r by (unfold NDIRECT; lia).
  wp_step. wp_step. apply wp_time. wp_step. apply wp_time. wp_step. apply wp_time.
  assert (u32 size = size) as Hu by (apply u32_id; unfold nb in Hnb; revert Hnb; dlia).
  assert (i_type n1 = i_type n) as Ht by by rewrite (gr_node _ _ _ _ _ _ Hg).
  match goal with |- wp (put_inode i (Some ?m)) _ _ => set (n' := m) end.
  assert (ind n = 0) as Hind by (apply (nw_ind _ _ Hnw); lia).
  assert (inode_ok n') as Hok'.
  { destruct (nw_ok _ _ Hnw). split; try apply u32_range; [cbn; by rewrite Ht| |apply Hg].
    exact (grown_blocks _ _ _ _ _ _ Hb (nw_ok _ _ Hnw) Hind Hg). }
  apply wp_put_inode; [apply Hlo|done|done|]. intros tbl Hlen Htbl.
  apply (HQ _ n'); [|by eapply grown_other].
  eapply (grown_misplaced s i n k buf size n1); try done. cbn. by rewrite Ht.
Qed.

(** ** The read *)
Section read.
Context (b1 : block_manager) (n : inode) (k m : Z) (buf out0 : bytes).
Hypothesis Hb1 : bm_wf b1.
Hypothesis Hl : length (i_blocks n) = 101%nat.
Hypothesis Hk : 0 <= k < m.
Hypothesis Hm : m <= 100.
Hypothesis Hused : forall j, 0 <= j < 100 -> used b1 (slot b1 n j) = (j <? k).

(** The buffer with the first [i] blocks of the file. *)
Definition read_back (i : Z) (out : bytes) : Prop :=
  Z.of_nat (length out) = 512 * m /\
  (forall j q, 0 <= j < Z.min i k -> 0 <= q < 512 ->
     out !! Z.to_nat (512 * j + q) = blk b1 (slot b1 n j) !! Z.to_nat q) /\
  forall p, 512 * Z.min i k <= p -> out !! Z.to_nat p = out0 !! Z.to_nat p.

Lemma read_back_step i out :
  0 <= i < k -> read_back i out ->
  read_back (i + 1) (take (Z.to_nat (i * 512)) out ++ take (Z.to_nat 512) (blk b1 (slot b1 n i)) ++
                     drop (Z.to_nat (i * 512 + 512)) out).
Proof.
  intros Hi (Hlen & Hin & Hout).
  assert (length (blk b1 (slot b1 n i)) = 512%nat) as Hblk by by apply (bm_wf_len _ Hb1).
  rewrite Z2Nat.inj_add by lia. split; [|split].
  - rewrite !length_app, !length_take, length_drop. lia.
  - intros j q Hj Hq. rewrite lookup_splice by lia. case_decide as Hd.
    + assert (j = i) as -> by lia. f_equal. lia.
    + apply Hin; lia.
  - intros p Hp. rewrite lookup_splice, decide_False by lia. apply Hout. lia.
Qed.

Lemma wp_read_full rem s0 s (Q : Z * bytes -> inode_manager -> Prop) :
  reading b1 s0 s -> Z.of_nat (length out0) = 512 * m ->
  (forall out s', reading b1 s0 s' -> read_back 100 out -> Q (100, out) s') ->
  wp (loop (S (Z.to_nat NDIRECT)) (read_direct n m rem) (0, out0)) Q s.
Proof.
  intros Hs Hlen HQ.
  apply wp_loop with (Inv := fun l s => reading b1 s0 s /\ 0 <= l.1 <= 100 /\ read_back l.1 l.2)
    (variant := fun l => Z.to_nat (100 - l.1)); [| |unfold NDIRECT; simpl; lia].
  2:{ split; [done|]. cbn [fst snd]. split; [lia|]. split; [done|]. split; [lia|done]. }
  intros [i out] s' (Hs' & Hi & Hr). cbn [fst snd] in Hi, Hr. unfold read_direct.
  apply wp_if; unfold NDIRECT; intros Hlt.
  - wp_step. apply wp_get_slot; [unfold NDIRECT; lia|done|]. rewrite (slot_direct b1) by lia.
    wp_step. eapply wp_valid; [done|exact Hs'|]. clear s' Hs'. intros s' Hs'.
    rewrite Hused by lia. destruct (Z.ltb_spec i k) as [Hik|Hik].
    + wp_step. eapply wp_read_slot; [done|exact Hs'|done|apply (used_data b1); [done|]; by rewrite ?Hused, ?(proj2 (Z.ltb_lt _ _)) by lia|].
      clear s' Hs'. intros s' Hs'. rewrite (proj2 (Z.eqb_neq i (m - 1))) by lia. cbn [andb].
      assert (length (blk b1 (slot b1 n i)) = 512%nat) as Hblk by by apply (bm_wf_len _ Hb1).
      wp_step. pose proof Hr as (Hlo & _). unfold BLOCK_SIZE. apply wp_memcpy_at; [lia..|].
      wp_step. cbn [fst snd]. split; [|lia]. split; [done|]. split; [lia|]. by apply read_back_step; [lia|].
    + wp_step. cbn [fst snd]. split; [|lia]. split; [done|]. split; [lia|].
      destruct Hr as (H1 & H2 & H3). split; [done|].
      replace (Z.min (i + 1) k) with (Z.min i k) by lia. done.
  - wp_step. assert (i = 100) as -> by lia. by apply HQ.
Qed.
End read.

(** Reading the file back: what is in its blocks, and then what was in the memory. *)
Definition torn (k : Z) (buf : bytes) (e : nat) : bytes :=
  take (Z.to_nat (512 * k)) buf ++ load (garbage e) (512 * k) (len buf - 512 * k).

Lemma read_back_torn b n k m buf p e out :
  0 <= k < m -> m = nb (len buf) ->
  (forall j, 0 <= j < k -> blk b (slot b n j) = load p (512 * j) 512) -> load p 0 (len buf) = buf ->
  m <= 100 -> read_back b n k m (garbage e <$> zrange 0 (Z.to_nat (512 * m))) 100 out ->
  take (Z.to_nat (len buf)) out = torn k buf e.
Proof.
  intros Hk Hm Hdata Hp H100 (Hlen & Hin & Hout). rewrite Z.min_r in Hin, Hout by lia.
  assert (512 * k < len buf <= 512 * m) as Hb by (unfold nb in Hm; revert Hm; dlia).
  assert (len buf = Z.of_nat (length buf)) as Hlb by done.
  unfold torn. apply list_eq_same_length with (length buf).
  { rewrite length_app, length_take, length_load. lia. }
  { rewrite length_take. lia. }
  intros q x y Hq Hx Hy. rewrite lookup_take_lt in Hx by lia.
  destruct (decide (Z.of_nat q < 512 * k)) as [Hlt|Hge].
  - rewrite lookup_app_l in Hy by (rewrite length_take; lia). rewrite lookup_take_lt in Hy by lia.
    specialize (Hin (Z.of_nat q / 512) (Z.of_nat q mod 512) ltac:(dlia) ltac:(dlia)).
    rewrite Hdata in Hin by dlia. rewrite <- Z.div_mod, Nat2Z.id, Hx in Hin by lia.
    rewrite <- Hp in Hy. unfold load in Hin, Hy.
    rewrite list_lookup_fmap, lookup_zrange in Hin, Hy by dlia. cbn in Hin, Hy.
    injection Hin as ->. injection Hy as <-. f_equal. dlia.
  - rewrite lookup_app_r in Hy by (rewrite length_take; lia). rewrite length_take in Hy.
    pose proof (Hout (Z.of_nat q) ltac:(lia)) as Ho. rewrite Nat2Z.id, Hx in Ho. unfold load in Hy.
    rewrite list_lookup_fmap, lookup_zrange in Ho, Hy by lia. cbn in Ho, Hy.
    injection Ho as ->. injection Hy as <-. f_equal. lia.
Qed.

Lemma wp_read_misplaced i k p buf n size0 s :
  misplaced s i k p (len buf) n -> 0 <= k < nb (len buf) -> nb (len buf) <= 100 -> load p 0 (len buf) = buf ->
  wp (read_file i size0) (fun r s' => exists e out, r = (Some out, len buf) /\
    len buf <= len out /\ take (Z.to_nat (len buf)) out = torn k buf e) s.
Proof.
  intros [Hb Hn Hok Hz Hused Hind Hdata _ _] Hk H100 Hp.
  pose proof (proj1 (node_at_Some _ _ _) Hn) as (Hi & _ & _).
  assert (0 < len buf <= 51200) as Hsize by (unfold nb in Hk, H100; revert Hk H100; dlia).
  unfold read_file. apply wp_if; intros Hgt; [lia|]. wp_step.
  apply wp_get_inode; [done|lia|]. rewrite Hn, Hz, read_block_count_eq by (unfold MAX_SIZE; lia).
  rewrite Z.max_r by lia. cbv zeta. rewrite !i32_id by (unfold BLOCK_SIZE in *; dlia).
  wp_step. unfold uninit. wp_step. apply wp_tick. wp_step.
  set (s0 := mk_im (bm s) (last_alloced s) (S (epoch s))).
  replace (nb (len buf) * BLOCK_SIZE) with (512 * nb (len buf)) by (unfold BLOCK_SIZE; lia).
  wp_step. apply (wp_read_full (bm s) n k (nb (len buf)) _ Hb (ok_length _ Hok) Hk H100 Hused _ s0); [done| |].
  { rewrite length_fmap, length_zrange. lia. }
  intros out s1 Hs1 Hr.
  wp_step. apply wp_get_ind; [apply Hok|]. rewrite Hind. cbn [fst snd Z.eqb NDIRECT].
  wp_step. eapply (wp_valid (bm s)); [done|exact Hs1|]. clear s1 Hs1. intros s1 (Hs1 & Hl1 & He1).
  rewrite zero_unused by done. wp_step. wp_step. wp_step. apply wp_time. wp_step.
  apply wp_put_inode; [cbn [bm]; by rewrite Hs1|done| |].
  { destruct Hok. split; try done. apply u32_range. }
  intros tbl _ _. wp_step. exists (epoch s), out. split; [done|]. split.
  - destruct Hr as (Hlen & _). unfold nb in *. unfold len in *. revert Hlen. dlia.
  - by eapply read_back_torn.
Qed.
End full.

(** The [put] and the [get] of a file that gets its first [k] blocks only. *)
Lemma wp_put_grow `{E : Env} s id buf k :
  fs_wf s -> holds s (ext_id id) k -> 0 <= k -> k + Z.of_nat (nfree (bm s)) < nb (len buf) -> len buf <= 51200 ->
  wp (extent_client.put id buf) (fun r s1 => r = OK /\ (forall j, j <> ext_id id -> file_at s1 j = file_at s j) /\
    exists p n, load p 0 (len buf) = buf /\
      misplaced s1 (ext_id id) (k + Z.of_nat (nfree (bm s))) p (len buf) n) s.
Proof.
  intros Hwf (n & Hn & Hk) Hk0 Hks Hlen.
  assert (0 < len buf /\ nb (len buf) <= 100) as [Hpos H100] by (unfold nb in *; revert Hks Hlen; dlia).
  unfold extent_client.put, extent_server.put. wp_step. wp_step. unfold extent_server.c_str.
  wp_step. apply wp_tick. wp_step. wp_step. rewrite i32_id by lia.
  eapply (wp_write_grow (ext_id id) n k); [by apply fs_wf_epoch|exact Hn|done..|].
  intros s1 n' Hm Ho. wp_step. wp_step. split; [done|]. split; [done|]. do 2 eexists. split; [|exact Hm].
  apply load_prefix; [done|]. intros q Hq. unfold len. rewrite (proj2 (Z.ltb_lt _ _)) by lia.
  by rewrite Nat2Z.id.
Qed.

Lemma wp_get_misplaced `{E : Env} s id k p buf n :
  misplaced s (ext_id id) k p (len buf) n -> load p 0 (len buf) = buf ->
  0 <= k < nb (len buf) -> len buf <= 51200 ->
  wp (extent_client.get id) (fun r _ => exists e, r = (OK, torn k buf e)) s.
Proof.
  intros Hm Hp Hks Hlen.
  assert (0 < len buf /\ nb (len buf) <= 100) as [Hpos H100] by (unfold nb in *; revert Hks Hlen; dlia).
  unfold extent_client.get, extent_server.get. wp_step. wp_step.
  eapply wp_mono; [eapply wp_read_misplaced; [exact Hm|done|lia|done]|].
  intros r s2 (e & out & -> & Hout & Ht).
  rewrite (proj2 (Z.eqb_neq _ _)), (proj2 (Z.ltb_ge _ _)), (proj2 (Z.leb_le _ _)) by lia.
  wp_step. wp_step. exists e. by rewrite Ht.
Qed.

(** Block 0 has the last of the bytes. *)
Lemma misplaced_last s i k p buf n :
  misplaced s i k p (len buf) n -> load p 0 (len buf) = buf -> 0 < nb (len buf) ->
  take (Z.to_nat (len buf - 512 * (nb (len buf) - 1))) (blk (bm s) 0) =
    drop (Z.to_nat (512 * (nb (len buf) - 1))) buf.
Proof.
  intros Hm Hp Hpos. rewrite (mp_zero _ _ _ _ _ _ Hm), take_load by (unfold nb in *; dlia).
  transitivity (drop (Z.to_nat (512 * (nb (len buf) - 1))) (load p 0 (len buf))); [|by rewrite Hp].
  rewrite drop_load by (unfold nb in *; dlia). done.
Qed.

(** ** The same at the client *)
Lemma len_torn `{E : Env} k buf e : 0 <= k < nb (len buf) -> len (torn k buf e) = len buf.
Proof.
  intros Hk. assert (512 * k < len buf) by (unfold nb in Hk; revert Hk; dlia).
  unfold torn, len in *. rewrite length_app, length_take, length_load. lia.
Qed.

Lemma wp_getattr_misplaced `{E : Env} s id k p size n (Q : Z * attr -> inode_manager -> Prop) :
  misplaced s (ext_id id) k p size n -> (forall a, Q (OK, a) s) -> wp (extent_client.getattr id) Q s.
Proof.
  intros Hm HQ. pose proof (ext_id_range id).
  unfold extent_client.getattr, extent_server.getattr. wp_step. wp_step.
  apply wp_get_attr; [apply Hm|lia|]. wp_step. wp_step. apply HQ.
Qed.

Lemma wp_read_torn `{E : Env} s ino k p buf n size off data :
  misplaced s (ext_id ino) k p (len buf) n -> load p 0 (len buf) = buf ->
  0 <= k < nb (len buf) -> len buf <= 51200 -> 0 <= off -> 0 <= size -> off + size < 2 ^ 63 ->
  wp (chfs_client.read ino size off data) (fun r _ => exists e, r = (OK, slice off size (torn k buf e))) s.
Proof.
  intros Hm Hp Hk Hlen Hoff Hsize Hsum.
  pose proof (wp_get_misplaced s ino k p buf n Hm Hp Hk Hlen) as Hget.
  apply wp_run in Hget as (r & s' & Hget & e & ->).
  apply (wp_read_answer ino (torn k buf e)); [rewrite len_torn by done; unfold MAX_SIZE; lia|done..|].
  eapply wp_getattr_misplaced; [exact Hm|]. intros a. split; [done|].
  eapply wp_of_run; [exact Hget|]. split; [done|]. by exists e.
Qed.

(** The same at the extent client: a [put] that needs more
    blocks than the [k] that the file has and the free ones returns [OK]; the file gets
    all free blocks, and the other files keep everything; the bytes behind its blocks go to
    block 0 of the disk, one block over the other, and what [get] then returns for them is
    what the memory held that [read_file] allocated. *)
Theorem full_disk_put_lost `{E : Env} s id buf k :
  fs_wf s -> holds s (ext_id id) k -> 0 <= k -> k + Z.of_nat (nfree (bm s)) < nb (len buf) -> len buf <= 51200 ->
  exists s1 s2 e, extent_client.put id buf s = Ok (OK, s1) /\
    nfree (bm s1) = 0%nat /\ (forall j, j <> ext_id id -> file_at s1 j = file_at s j) /\
    take (Z.to_nat (len buf - 512 * (nb (len buf) - 1))) (blk (bm s1) 0) =
      drop (Z.to_nat (512 * (nb (len buf) - 1))) buf /\
    extent_client.get id s1 = Ok ((OK, torn (k + Z.of_nat (nfree (bm s))) buf e), s2).
Proof.
  intros Hwf Hh Hk0 Hks Hlen.
  pose proof (wp_put_grow s id buf k Hwf Hh Hk0 Hks Hlen) as H1.
  apply wp_run in H1 as (r & s1 & Hput & -> & Hother & p & n' & Hp & Hm).
  pose proof (wp_get_misplaced s1 id _ p buf n' Hm Hp ltac:(lia) Hlen) as H2.
  apply wp_run in H2 as (r & s2 & Hget & e & ->). exists s1, s2, e.
  split; [done|]. split; [by apply (mp_full _ _ _ _ _ _ Hm)|]. split; [done|]. split; [|done].
  eapply misplaced_last; [exact Hm|done|lia].
Qed.

(** ** A full disk *)
Definition mark_all (l : list Z) (b : block_manager) : block_manager := foldr (fun c => set_bit c 1) b l.

Lemma mark_all_spec l b : bm_wf b -> (forall c, c ∈ l -> data_block c) ->
  bm_wf (mark_all l b) /\ (forall c, blk (mark_all l b) c = blk b c) /\
  forall c, used (mark_all l b) c = true <-> used b c = true \/ c ∈ l.
Proof.
  intros Hb. induction l as [|x l IH]; intros Hl; cbn [mark_all foldr].
  { split; [done|]. split; [done|]. intros c. split; [by left|]. by intros [?|?%elem_of_nil]. }
  destruct IH as (Hw & Hbl & Hu); [intros c Hc; apply Hl; by apply elem_of_cons; right|].
  fold (mark_all l b). split; [|split].
  - apply set_bit_wf; [done|]. right. split; [done|]. apply Hl. by apply elem_of_cons; left.
  - intros c. by rewrite blk_set_bit.
  - intros c. rewrite used_set_bit, elem_of_cons. case_decide as Hc; [|rewrite Hu]; tauto.
Qed.

(** The same files, and every data block marked. *)
Definition filled_disk (s : inode_manager) : inode_manager :=
  mk_im (mark_all data_blocks (bm s)) (last_alloced s) (epoch s).

Lemma filled_disk_spec s : fs_wf s ->
  fs_wf (filled_disk s) /\ nfree (bm (filled_disk s)) = 0%nat /\
  (forall i, file_at (filled_disk s) i = file_at s i) /\
  forall i k, holds s i k -> holds (filled_disk s) i k.
Proof.
  intros Hwf. destruct (mark_all_spec data_blocks (bm s) (fw_bm _ Hwf)) as (Hw & Hbl & Hu).
  { intros c. apply elem_of_data_blocks. }
  assert (forall i, node_at (filled_disk s) i = node_at s i) as Hn.
  { intros i. apply node_at_ext. intros _. apply Hbl. }
  assert (forall n c, owned (mark_all data_blocks (bm s)) n c <-> owned (bm s) n c) as Ho.
  { intros n c. apply frame_owned. intros. apply Hbl. }
  split; [|split; [|split]].
  - split; [done| | |by rewrite Hn; apply Hwf|apply Hwf].
    + intros i n. rewrite Hn. intros Hin. pose proof (fw_node _ Hwf _ _ Hin) as Hnw.
      apply (frame_node_wf (bm s)); [intros; apply Hbl| |done].
      intros c Hc. apply Hu. left. by apply (nw_used _ _ Hnw).
    + intros i1 i2 n1 n2 c. rewrite !Hn. cbn [filled_disk bm]. rewrite !Ho. apply Hwf.
  - cbn [filled_disk bm]. unfold nfree.
    destruct (filter _ data_blocks) as [|c l] eqn:Hf; [done|].
    assert (c ∈ filter (fun c => used (mark_all data_blocks (bm s)) c = false) data_blocks) as Hc
      by (rewrite Hf; by apply elem_of_cons; left).
    apply list_elem_of_filter in Hc as [Hc1 Hc2]. rewrite (proj2 (Hu c) (or_intror Hc2)) in Hc1. done.
  - intros i. unfold file_at. rewrite Hn. destruct (node_at s i) as [n|] eqn:En; [|done].
    assert (content (mark_all data_blocks (bm s)) n = content (bm s) n) as Hc.
    { apply frame_content; [intros; apply Hbl|by apply (fw_node _ Hwf i)]. }
    cbn [fmap option_fmap option_map filled_disk bm]. unfold file_of. by rewrite Hc.
  - intros i k (n & Hin & Hk). exists n. rewrite Hn. split; [done|]. intros j Hj. cbn [filled_disk bm].
    rewrite (slot_ext (bm s)) by (intros; apply Hbl). by apply Hk.
Qed.

(** A file that is not empty has the blocks of its size, and filling the disk changes
    nothing about it. *)
Lemma file_holds s i f : fs_wf s -> file_at s i = Some f -> f_data f <> [] -> holds s i (nb (len (f_data f))).
Proof.
  intros Hwf (n & Hn & ->)%file_at_Some Hd. cbn [file_of f_data] in *.
  pose proof (len_content _ _ _ Hwf Hn) as Hlen. pose proof (fw_node _ Hwf _ _ Hn) as Hnw.
  assert (0 < i_size n) as Hpos by (rewrite <- Hlen; destruct (content (bm s) n); [done|unfold len; cbn; lia]).
  rewrite Hlen. pose proof (nb_pos _ Hpos). exists n. split; [done|]. intros j Hj. split.
  - intros Hnz. destruct (decide (j < nb (i_size n))) as [|Hge]; [done|]. destruct Hnz. apply (nw_hole _ _ Hnw). lia.
  - intros Hlt. apply (nw_full _ _ Hnw). lia.
Qed.

(** ** The blocks that a file has *)
(** A block of an empty file, if it has one, is its first. *)
Lemma slot_transfer b b' n n' j : node_wf b n -> node_wf b' n' -> i_size n' = i_size n ->
  (forall c, owned b n c -> owned b' n' c) -> 0 <= j < 228 -> slot b n j <> 0 -> slot b' n' j <> 0.
Proof.
  intros Hn Hn' Hz Ho Hj Hnz. pose proof (nb_range _ (size_range _ _ Hn)) as Hnb.
  destruct (decide (j < nb (i_size n))) as [Hlt|Hge]; [apply (nw_full _ _ Hn'); rewrite Hz; lia|].
  destruct (decide (Z.max 1 (nb (i_size n)) <= j)) as [Hmax|]; [destruct Hnz; apply (nw_hole _ _ Hn); lia|].
  assert (j = 0 /\ nb (i_size n) = 0) as [-> H0] by lia.
  destruct (Ho _ (owned_slot b n 0 Hj Hnz)) as [Hc [Hi|(j' & Hj' & Es)]].
  - exfalso. apply Hc. rewrite Hi. apply (nw_ind _ _ Hn'). rewrite Hz. lia.
  - destruct (decide (j' = 0)) as [->|]; [by rewrite Es|].
    exfalso. apply Hc. rewrite <- Es. apply (nw_hole _ _ Hn'). rewrite Hz. lia.
Qed.

Lemma holds_transfer s s' i f f' h : fs_wf s -> fs_wf s' ->
  file_at s i = Some f -> file_at s' i = Some f' -> f_data f' = f_data f ->
  (forall j c, owns s' j c <-> owns s j c) -> holds s i h -> holds s' i h.
Proof.
  intros Hwf Hwf' (n & Hn & ->)%file_at_Some (n' & Hn' & ->)%file_at_Some Hd Ho (n0 & Hn0 & Hh).
  assert (n0 = n) as -> by congruence. cbn [file_of f_data] in Hd.
  assert (i_size n' = i_size n) as Hz by (by rewrite <- (len_content s' i), Hd, (len_content s i)).
  assert (forall c, owned (bm s) n c <-> owned (bm s') n' c) as Hown.
  { intros c. split; intros Hc.
    - destruct (proj2 (Ho i c)) as (m & Hm & Hc'); [by exists n|]. by simplify_eq.
    - destruct (proj1 (Ho i c)) as (m & Hm & Hc'); [by exists n'|]. by simplify_eq. }
  pose proof (fw_node _ Hwf _ _ Hn). pose proof (fw_node _ Hwf' _ _ Hn').
  exists n'. split; [done|]. intros j Hj. rewrite <- Hh by done. split.
  - apply slot_transfer; [done..| |done]. intros c. by rewrite Hown.
  - apply slot_transfer; [done..| |done]. intros c. by rewrite Hown.
Qed.

Lemma holds_size s i f h : fs_wf s -> file_at s i = Some f -> holds s i h -> 0 <= h -> nb (len (f_data f)) <= h.
Proof.
  intros Hwf (n & Hn & ->)%file_at_Some (n0 & Hn0 & Hh) Hh0. assert (n0 = n) as -> by congruence.
  cbn [file_of f_data]. rewrite (len_content s i) by done. pose proof (fw_node _ Hwf _ _ Hn) as Hnw.
  pose proof (nb_range _ (size_range _ _ Hnw)) as Hnb.
  destruct (decide (nb (i_size n) <= h)) as [|Hgt]; [done|].
  assert (nb (i_size n) - 1 < h) by (apply Hh; [lia|]; apply (nw_full _ _ Hnw); lia). lia.
Qed.

Section write.
Context `{E : Env} (s : inode_manager) (ino : Z) (f : file) (h : Z) (buf : ptr) (size off : Z).
(** The new bytes of the file, and the blocks that it can get. *)
Let new : bytes := overwrite off (load buf 0 size) (f_data f).
Let k : Z := h + Z.of_nat (nfree (bm s)).

(** A write of the client that outgrows the disk. *)
Lemma wp_write_torn written :
  fs_wf s -> file_at s ino = Some f -> holds s ino h -> 0 <= h ->
  0 <= off -> 0 <= size -> off + size <= 51200 -> k < nb (len new) ->
  0 <= k /\ len new <= 51200 /\
  wp (chfs_client.write ino size off buf written) (fun r s1 => r = (OK, size) /\
    (forall j, j <> ino -> view s1 j = view s j) /\
    exists p n, load p 0 (len new) = new /\ misplaced s1 (ext_id ino) k p (len new) n) s.
Proof.
  intros Hwf Hf Hh Hh0 Hoff Hsize Hsum Hk.
  assert (ext_id ino = ino) as Hid.
  { apply (view_id s ino (f_type f, f_data f)); [done|]. unfold view. cbn [ext_file extent_laws]. by rewrite Hf. }
  pose proof (holds_size _ _ _ _ Hwf Hf Hh Hh0) as Hge. pose proof (file_ok _ _ _ Hwf Hf) as (_ & _ & _ & Hlen).
  assert (len new = Z.max (len (f_data f)) (off + size)) as Hnew.
  { unfold new. rewrite len_overwrite by done. unfold len. rewrite length_load. lia. }
  assert (len new <= 51200) as Hmax.
  { destruct (decide (len (f_data f) <= off + size)); [lia|]. rewrite Hnew, Z.max_l in Hk by lia. lia. }
  split; [lia|]. split; [done|].
  apply (wp_write_answer ino (f_data f)); [done|done|done|unfold MAX_SIZE; lia|]. fold new.
  eapply wp_mono; [by apply law_getattr|]. intros r s' [-> ->]. split; [done|].
  eapply wp_mono; [by apply wp_extent_get|]. rewrite Hid, Hf.
  intros r s1 [(-> & Hwf1 & Hr1 & Hother1 & t & Hf1) Howns]. split; [done|].
  unfold room in Hr1. eapply holds_transfer in Hh; [|exact Hwf|exact Hwf1|exact Hf|exact Hf1|done|done].
  assert (k = h + Z.of_nat (nfree (bm s1))) as Hk1 by (unfold k; by rewrite Hr1).
  clearbody new k. rewrite Hk1 in Hk. rewrite <- Hid in Hh.
  pose proof (wp_put_grow s1 ino new _ Hwf1 Hh Hh0 Hk Hmax) as Hput. rewrite <- Hk1, Hid in Hput.
  eapply wp_mono; [exact Hput|]. intros r s2 (-> & Hother & Hm). split; [done|]. split; [done|].
  split; [|exact Hm]. intros j Hj. unfold view. cbn [ext_file extent_laws].
  by rewrite Hother, Hother1.
Qed.

Context (junk : Z -> Z) (ino0 : Z) (dirent_size : Z -> Z) (add_dirent : bytes -> Z -> Z -> bytes).
#[local] Abbreviation dispatch := (fuse.dispatch junk ino0 dirent_size add_dirent).

(** C32 A WRITE within the first 51200 bytes of a file, its direct blocks, that outgrows
    the disk tears the file, and nobody is told: when the new bytes need more blocks than
    the [h] that the file has and the free ones together, the reply is the number of bytes
    asked for; the file gets all free blocks, and the other files keep everything; the
    bytes behind its blocks go to block 0 of the disk, one block over the other, and what
    a READ then returns for them is what lay in the memory that [read_file] allocated.
    (Of writes that reach behind the direct blocks, where the indirect block can be
    misplaced too, it says nothing.) *)
Theorem full_disk_write_lost size' off' :
  fs_wf s -> file_at s ino = Some f -> holds s ino h -> 0 <= h ->
  0 <= off -> 0 <= size -> off + size <= 51200 -> k < nb (len new) ->
  0 <= off' -> 0 <= size' -> off' + size' < 2 ^ 63 ->
  exists s1 s2 e, dispatch (Write ino buf size off) s = Ok ([Reply_write size], s1) /\
    nfree (bm s1) = 0%nat /\ (forall j, j <> ino -> view s1 j = view s j) /\
    take (Z.to_nat (len new - 512 * (nb (len new) - 1))) (blk (bm s1) 0) =
      drop (Z.to_nat (512 * (nb (len new) - 1))) new /\
    dispatch (Read ino size' off') s1 = Ok ([Reply_buf (slice off' size' (torn k new e))], s2).
Proof.
  intros Hwf Hf Hh Hh0 Hoff Hsize Hsum Hk Hoff' Hsize' Hsum'.
  destruct (wp_write_torn 0 Hwf Hf Hh Hh0 Hoff Hsize Hsum Hk) as (Hk0 & Hmax & Hw). clearbody new k.
  apply wp_run in Hw as (r & s1 & Hwrite & -> & Hother & p & n & Hp & Hm).
  pose proof (wp_read_torn s1 ino k p new n size' off' [] Hm Hp ltac:(lia) Hmax Hoff' Hsize' Hsum') as Hr.
  apply wp_run in Hr as (r & s2 & Hread & e & ->). exists s1, s2, e.
  cbn [fuse.dispatch]. unfold fuse.fuseserver_write, fuse.fuseserver_read.
  unfold mbind, M_bind. rewrite Hwrite, Hread. cbn [Z.eqb OK].
  split; [done|]. split; [apply Hm|]. split; [done|]. split; [|done].
  eapply misplaced_last; [exact Hm|done|lia].
Qed.
End write.

#[local] Existing Instance machine.

(** The root of a new file system gets ten letters, and the disk is full. *)
Lemma full_root : exists s f, fs_wf s /\ nfree (bm s) = 0%nat /\ file_at s 1 = Some f /\
  f_data f = load letters 0 10 /\ len (f_data f) = 10 /\ holds s 1 1.
Proof.
  destruct (with_root 10) as (s & f & Hwf & Hf & Hd & Hlen); [by unfold MAX_SIZE|].
  destruct (filled_disk_spec s Hwf) as (Hwf' & Hfull & Hfile & Hholds).
  exists (filled_disk s), f. rewrite Hfile. split; [done|]. split; [done|]. split; [done|]. split; [done|].
  split; [done|]. apply Hholds. change 1 with (nb 10) at 2. rewrite <- Hlen. apply file_holds; [done|done|].
  intros Hnil. rewrite Hnil in Hlen. discriminate Hlen.
Qed.

#[local] Abbreviation dirent_size := (fun n : Z => n + 24).
#[local] Abbreviation add_dirent := (fun (name : bytes) (ino next : Z) => replicate 24 NUL ++ name).

(** 590 more letters behind the ten: the reply is 590, and the 80 bytes behind the first
    block are lost. *)
Lemma full_disk_write_lost_witness :
  exists s s1 s2 f e, f_data f = load letters 0 10 /\
    fuse.dispatch (fun _ => 0) 0 dirent_size add_dirent (Write 1 letters 590 10) s = Ok ([Reply_write 590], s1) /\
    fuse.dispatch (fun _ => 0) 0 dirent_size add_dirent (Read 1 80 520) s1 =
    Ok ([Reply_buf (slice 520 80 (torn 1 (overwrite 10 (load letters 0 590) (f_data f)) e))], s2).
Proof.
  destruct full_root as (s & f & Hwf & Hfull & Hf & Hd & Hlen & Hh).
  assert (1 + Z.of_nat (nfree (bm s)) = 1) as Hk by (rewrite Hfull; reflexivity).
  assert (len (overwrite 10 (load letters 0 590) (f_data f)) = 600) as Hnew.
  { rewrite len_overwrite, Hlen by lia. unfold len. rewrite length_load. lia. }
  destruct (full_disk_write_lost s 1 f 1 letters 590 10 (fun _ => 0) 0 dirent_size add_dirent 80 520)
    as (s1 & s2 & e & H1 & _ & _ & _ & H2).
  - exact Hwf.
  - exact Hf.
  - exact Hh.
  - lia.
  - lia.
  - lia.
  - lia.
  - rewrite Hk, Hnew. reflexivity.
  - lia.
  - lia.
  - lia.
  - rewrite Hk in H2. exists s, s1, s2, f, e. split; [exact Hd|]. split; [exact H1|exact H2].
Defined.
