(* ===== verification/Jobs.v ===== *)
(** rpc/method_thread.h and the template of rpc/thr_pool.h: running a method of an
    object in another thread.

    A call of the method is packed into an object on the heap ([XXX],
    [objfunc_wrapper]); the thread gets a function and the address of that object,
    unpacks it and deletes it, [method_thread] before and [ThrPool] behind the call.
    [T] is the memory of the program apart from these objects.  The results of the
    pthread functions are parameters, and so is [ThrPool::addJob].  The [pthread_t] that
    is returned, for a later join, and the attributes that set the stack size are left
    out. *)
From S2P Require Import Prelude Monad.
From Stdlib Require Import ZArith Lia.
From stdpp Require Import base gmap list.
#[local] Open Scope Z_scope.

(** [class XXX] of the four overloads, and [class objfunc_wrapper]. *)
Inductive packet (T C A1 A2 A3 : Type) : Type :=
| XXX0 (o : C) (m : C -> M T unit)
| XXX1 (o : C) (m : C -> A1 -> M T unit) (a : A1)
| XXX2 (o : C) (m : C -> A1 -> A2 -> M T unit) (a1 : A1) (a2 : A2)
| XXX3 (o : C) (m : C -> A1 -> A2 -> A3 -> M T unit) (a1 : A1) (a2 : A2) (a3 : A3)
| objfunc_wrapper (o : C) (m : C -> A1 -> M T unit) (a : A1).
Arguments XXX0 {T C A1 A2 A3} o m.
Arguments XXX1 {T C A1 A2 A3} o m a.
Arguments XXX2 {T C A1 A2 A3} o m a1 a2.
Arguments XXX3 {T C A1 A2 A3} o m a1 a2 a3.
Arguments objfunc_wrapper {T C A1 A2 A3} o m a.

(** The functions a thread can be given. *)
Inductive thread_fn : Type := yyy0 | yyy1 | yyy2 | yyy3 | func.

Record process (T P : Type) := mk_process {
  memory : T;
  heap : gmap positive P;
  threads : list (thread_fn * positive)   (* started, the last one first *)
}.
Arguments mk_process {T P} _ _ _.
Arguments memory {T P} _.
Arguments heap {T P} _.
Arguments threads {T P} _.

(** What the pthread functions return. *)
Record pthread_results := mk_results {
  err_create : Z; err_detach : Z; err_setcancelstate : Z; err_setcanceltype : Z
}.

Section jobs.
Context {T C A1 A2 A3 : Type} (res : pthread_results).
#[local] Abbreviation packet := (packet T C A1 A2 A3).
#[local] Abbreviation process := (process T packet).

(** [new XXX] with its members set; the address is one not in use. *)
Definition new_packet (p : packet) : M process positive :=
  s ← get_st;
  let x := fresh (dom (heap s)) in
  _ ← put_st (mk_process (memory s) (<[x := p]> (heap s)) (threads s));
  mret x.

Definition load_packet (x : positive) : M process packet :=
  s ← get_st;
  match heap s !! x with Some p => mret p | None => ub end.

Definition delete_packet (x : positive) : M process unit :=
  s ← get_st;
  match heap s !! x with
  | Some _ => put_st (mk_process (memory s) (delete x (heap s)) (threads s))
  | None => ub
  end.

(** Running code of the program proper. *)
Definition in_memory {A} (m : M T A) : M process A :=
  zoom memory (fun t s => mk_process t (heap s) (threads s)) m.

Definition method_thread_child : M process unit :=
  _ ← c_assert (err_setcancelstate res =? 0);
  c_assert (err_setcanceltype res =? 0).

(** The body of a started thread; an object of another class is not what it expects. *)
Definition run_thread (fn : thread_fn) (vvv : positive) : M process unit :=
  x ← load_packet vvv;
  match fn, x with
  | yyy0, XXX0 o m =>
      _ ← delete_packet vvv; _ ← method_thread_child; in_memory (m o)
  | yyy1, XXX1 o m a =>
      _ ← delete_packet vvv; _ ← method_thread_child; in_memory (m o a)
  | yyy2, XXX2 o m a1 a2 =>
      _ ← delete_packet vvv; _ ← method_thread_child; in_memory (m o a1 a2)
  | yyy3, XXX3 o m a1 a2 a3 =>
      _ ← delete_packet vvv; _ ← method_thread_child; in_memory (m o a1 a2 a3)
  | func, objfunc_wrapper o m a =>
      _ ← in_memory (m o a); delete_packet vvv
  | _, _ => ub
  end.

(** [pthread_create] hands the function and its argument to a new thread. *)
Definition method_thread_parent (fn : thread_fn) (arg : positive) (detach : bool) : M process unit :=
  if negb (err_create res =? 0) then exit_with 1
  else
    s ← get_st;
    _ ← put_st (mk_process (memory s) (heap s) ((fn, arg) :: threads s));
    if detach then c_assert (err_detach res =? 0) else mret tt.

Definition method_thread0 (o : C) (detach : bool) (m : C -> M T unit) : M process unit :=
  x ← new_packet (XXX0 o m); method_thread_parent yyy0 x detach.
Definition method_thread1 (o : C) (detach : bool) (m : C -> A1 -> M T unit) (a : A1) : M process unit :=
  x ← new_packet (XXX1 o m a); method_thread_parent yyy1 x detach.
Definition method_thread2 (o : C) (detach : bool) (m : C -> A1 -> A2 -> M T unit) (a1 : A1) (a2 : A2) :
    M process unit :=
  x ← new_packet (XXX2 o m a1 a2); method_thread_parent yyy2 x detach.
Definition method_thread3 (o : C) (detach : bool) (m : C -> A1 -> A2 -> A3 -> M T unit)
    (a1 : A1) (a2 : A2) (a3 : A3) : M process unit :=
  x ← new_packet (XXX3 o m a1 a2 a3); method_thread_parent yyy3 x detach.

(** [ThrPool::addObjJob]; [addJob] queues the job. *)
Definition addObjJob (addJob : thread_fn -> positive -> M process bool) (o : C)
    (m : C -> A1 -> M T unit) (a : A1) : M process bool :=
  x ← new_packet (objfunc_wrapper o m a); addJob func x.

(** ** Threads run their methods *)

(** The call that is packed, and the function that unpacks it. *)
Definition packed (p : packet) : thread_fn * M T unit :=
  match p with
  | XXX0 o m => (yyy0, m o)
  | XXX1 o m a => (yyy1, m o a)
  | XXX2 o m a1 a2 => (yyy2, m o a1 a2)
  | XXX3 o m a1 a2 a3 => (yyy3, m o a1 a2 a3)
  | objfunc_wrapper o m a => (func, m o a)
  end.

Definition child_ok : Prop := err_setcancelstate res = 0 /\ err_setcanceltype res = 0.

(** A thread with its object in the heap does what the packed method does, and the
    object is gone. *)
Lemma run_thread_packed p x t (h : gmap positive packet) ths :
  child_ok -> h !! x = Some p ->
  run_thread (packed p).1 x (mk_process t h ths) =
    after ((packed p).2 t) (fun r => Ok (tt, mk_process r.2 (delete x h) ths)).
Proof.
  intros [Hs Ht] Hx. unfold run_thread, load_packet, delete_packet, method_thread_child, in_memory,
    zoom, c_assert, mbind, M_bind, get_st, put_st, mret, M_ret. cbn [heap memory threads]. rewrite Hx.
  destruct p; cbn; rewrite ?Hx, ?Hs, ?Ht; cbn;
    match goal with |- context [after (?m t)] => destruct (m t) as [[[] t']| | | | |] end; cbn; try done;
    by rewrite Hx.
Qed.

Lemma new_packet_run p s :
  new_packet p s = Ok (fresh (dom (heap s)),
    mk_process (memory s) (<[fresh (dom (heap s)) := p]> (heap s)) (threads s)).
Proof. done. Qed.

Lemma parent_run fn x detach s :
  err_create res = 0 -> err_detach res = 0 ->
  method_thread_parent fn x detach s = Ok (tt, mk_process (memory s) (heap s) ((fn, x) :: threads s)).
Proof. intros Hc Hd. unfold method_thread_parent. rewrite Hc. cbn. destruct detach; [by rewrite Hd|done]. Qed.

(** Packing a call and handing it to a new thread, or to the pool. *)
Definition start (addJob : thread_fn -> positive -> M process bool) (p : packet) (detach : bool) :
    M process unit :=
  match p with
  | XXX0 o m => method_thread0 o detach m
  | XXX1 o m a => method_thread1 o detach m a
  | XXX2 o m a1 a2 => method_thread2 o detach m a1 a2
  | XXX3 o m a1 a2 a3 => method_thread3 o detach m a1 a2 a3
  | objfunc_wrapper o m a => _ ← addObjJob addJob o m a; mret tt
  end.

(** [addJob] accepts the job, and a thread of the pool takes it. *)
Definition accepts (addJob : thread_fn -> positive -> M process bool) : Prop :=
  forall f x s, addJob f x s = Ok (true, mk_process (memory s) (heap s) ((f, x) :: threads s)).

Lemma start_run addJob p detach s :
  err_create res = 0 -> err_detach res = 0 -> accepts addJob ->
  start addJob p detach s = Ok (tt, mk_process (memory s)
    (<[fresh (dom (heap s)) := p]> (heap s)) (((packed p).1, fresh (dom (heap s))) :: threads s)).
Proof.
  intros Hc Hd Ha. destruct p; cbn [start];
    unfold method_thread0, method_thread1, method_thread2, method_thread3, addObjJob;
    rewrite ?(bind_Ok _ _ _ _ _ (new_packet_run _ s)); try by rewrite parent_run.
  unfold mbind, M_bind. by rewrite new_packet_run, Ha.
Qed.
End jobs.

(** C33 A method runs in the thread that was started for it: [method_thread] with any
    number of arguments, and [addObjJob] of a pool that takes its jobs, start one
    thread with a fresh object on the heap; whatever the other threads have done to the
    memory in the meantime, that thread has exactly the effect of the method on the
    arguments it was packed with, and its object, and no other, is freed. *)
Theorem method_runs_in_thread {T C A1 A2 A3} res
    (addJob : thread_fn -> positive -> M (process T (packet T C A1 A2 A3)) bool)
    (p : packet T C A1 A2 A3) detach s :
  err_create res = 0 -> err_detach res = 0 -> child_ok res -> accepts addJob ->
  exists fn x s1, start res addJob p detach s = Ok (tt, s1) /\
    threads s1 = (fn, x) :: threads s /\ memory s1 = memory s /\
    heap s !! x = None /\ heap s1 = <[x := p]> (heap s) /\
    forall t h ths, h !! x = Some p ->
      run_thread res fn x (mk_process t h ths) =
        after ((packed p).2 t) (fun r => Ok (tt, mk_process r.2 (delete x h) ths)).
Proof.
  intros Hc Hd Hk Ha. exists (packed p).1, (fresh (dom (heap s))). eexists.
  split; [by apply start_run|]. cbn [threads memory heap]. do 2 (split; [done|]).
  split; [apply not_elem_of_dom, is_fresh|]. split; [done|].
  intros t h ths Hx. by apply run_thread_packed.
Qed.

Lemma method_runs_in_thread_witness :
  let p : packet Z Z Z Z Z := XXX2 10 (fun o a1 a2 t => Ok (tt, t + o + a1 + a2)) 3 4 in
  let addJob := fun f x (s : process Z (packet Z Z Z Z Z)) =>
    Ok (true, mk_process (memory s) (heap s) ((f, x) :: threads s)) in
  exists fn x s1, start (mk_results 0 0 0 0) addJob p true (mk_process 0 ∅ []) = Ok (tt, s1) /\
    run_thread (mk_results 0 0 0 0) fn x (mk_process 100 (heap s1) []) = Ok (tt, mk_process 117 ∅ []).
Proof.
  intros p addJob.
  destruct (method_runs_in_thread (mk_results 0 0 0 0) addJob p true (mk_process 0 ∅ []))
    as (fn & x & s1 & H1 & _ & _ & Hx & Hh & Hrun); [done|done|done|done|].
  exists fn, x, s1. split; [exact H1|]. rewrite Hrun; rewrite Hh; [|by rewrite lookup_insert_eq].
  cbn [heap] in *. by rewrite delete_insert_id.
Defined.
