(* ===== verification/Double.v ===== *)
(** Arithmetic on [double]: the operations of SpecFloat at the format of binary64, and
    when they are exact on integers. *)
From S2P Require Import Prelude.
From Stdlib Require Import ZArith Lia SpecFloat.
From stdpp Require Import base numbers.
#[local] Open Scope Z_scope.

Abbreviation double := spec_float.
Abbreviation binary_round_aux64 := (binary_round_aux 53 1024).

(** The conversion of an integer, rounded to nearest even. *)
Definition double_of_Z (z : Z) : double := binary_normalize 53 1024 z 0 false.
Definition dmul : double -> double -> double := SFmul 53 1024.
Definition dsub : double -> double -> double := SFsub 53 1024.

(** The conversion to an integer type truncates; [None] for what is not finite. *)
Definition Z_of_double (x : double) : option Z :=
  match x with
  | S754_zero _ => Some 0
  | S754_finite s m e =>
      let z := if 0 <=? e then Zpos m * 2 ^ e else Zpos m / 2 ^ (- e) in
      Some (if s then - z else z)
  | _ => None
  end.

(** ** Shifting and rounding *)
Lemma iter_pos_iter {A} (f : A -> A) n x : SpecFloat.iter_pos f n x = Nat.iter (Pos.to_nat n) f x.
Proof.
  revert x. induction n as [n IH|n IH|]; intros x; cbn [SpecFloat.iter_pos].
  - rewrite !IH, <- Nat.iter_add. replace (Pos.to_nat n~1) with (S (Pos.to_nat n + Pos.to_nat n)) by lia.
    by rewrite Nat.iter_succ_r.
  - rewrite !IH, <- Nat.iter_add. f_equal. lia.
  - done.
Qed.

Lemma digits_bounds m : 2 ^ (Zpos (digits2_pos m) - 1) <= Zpos m < 2 ^ Zpos (digits2_pos m).
Proof.
  assert (forall d, 2 ^ (Zpos (Pos.succ d) - 1) = 2 * 2 ^ (Zpos d - 1) /\ 2 ^ Zpos (Pos.succ d) = 2 * 2 ^ Zpos d) as H.
  { intros d. rewrite Pos2Z.inj_succ. split; [|by rewrite Z.pow_succ_r by lia].
    replace (Z.succ (Zpos d) - 1) with (Z.succ (Zpos d - 1)) by lia. by rewrite Z.pow_succ_r by lia. }
  induction m as [m IH|m IH|]; cbn [digits2_pos]; [destruct (H (digits2_pos m)) as [-> ->]; lia..|done].
Qed.

Lemma digits_unique m d : 2 ^ (d - 1) <= Zpos m < 2 ^ d -> Zpos (digits2_pos m) = d.
Proof.
  intros [H1 H2]. destruct (digits_bounds m) as [H3 H4]. set (d' := Zpos (digits2_pos m)) in *.
  destruct (Z.lt_trichotomy d' d) as [H|[H|H]]; [|done|].
  - pose proof (Z.pow_le_mono_r 2 d' (d - 1)). lia.
  - pose proof (Z.pow_le_mono_r 2 d (d' - 1)). lia.
Qed.

(** What [n] shifts leave: the quotient, the bit behind it and whether more follows. *)
Lemma shr_iter n m : 0 <= m ->
  let r := Nat.iter n shr_1 (Build_shr_record m false false) in let a := m mod 2 ^ Z.of_nat n in
  shr_m r = m / 2 ^ Z.of_nat n /\
  (shr_r r = true <-> 2 ^ Z.of_nat n <= 2 * a) /\ (shr_s r = true <-> a <> 0 /\ 2 * a <> 2 ^ Z.of_nat n).
Proof.
  intros Hm. cbv zeta. induction n as [|n IH].
  { cbn [Nat.iter nat_rect shr_m shr_r shr_s]. rewrite Z.pow_0_r, Z.mod_1_r, Z.div_1_r. lia. }
  rewrite Nat.iter_succ. set (r := Nat.iter n _ _) in *. destruct r as [q b t].
  cbn [shr_m shr_r shr_s] in IH. destruct IH as (Hq & Hb & Ht).
  rewrite Nat2Z.inj_succ, Z.pow_succ_r by lia. set (p := 2 ^ Z.of_nat n) in *.
  assert (0 < p) as Hp by (apply Z.pow_pos_nonneg; lia).
  assert (0 <= q) as Hq0 by (rewrite Hq; apply Z.div_pos; lia).
  assert (m = q * p + m mod p) as Hdiv by (rewrite Hq; pose proof (Z.div_mod m p); lia).
  pose proof (Z.mod_pos_bound m p Hp) as Ha. set (a := m mod p) in *.
  assert (m / (2 * p) = q / 2) as ->.
  { rewrite (Z.mul_comm 2), <- Z.div_div by lia. by rewrite Hq. }
  assert (m mod (2 * p) = a + p * (q mod 2)) as ->.
  { symmetry. pose proof (Z.div_mod q 2). pose proof (Z.mod_pos_bound q 2).
    apply (Z.mod_unique_pos _ _ (q / 2)); [|nia]. assert (q mod 2 = 0 \/ q mod 2 = 1) as [-> | ->]; lia. }
  assert (shr_1 (Build_shr_record q b t) = Build_shr_record (q / 2) (Z.odd q) (b || t)) as ->.
  { rewrite <- Z.div2_div. by destruct q as [|[q|q|]|q]. }
  cbn [shr_m shr_r shr_s]. split; [done|]. rewrite Zmod_odd.
  destruct (Z.odd q); (split; [split; [intros|]; lia|]); rewrite orb_true_iff, Hb, Ht; lia.
Qed.

Lemma round_half n m : 0 <= m ->
  let r := Nat.iter n shr_1 (Build_shr_record m false false) in
  let q := round_nearest_even (shr_m r) (loc_of_shr_record r) in
  m / 2 ^ Z.of_nat n <= q <= m / 2 ^ Z.of_nat n + 1 /\ Z.abs (2 * (q * 2 ^ Z.of_nat n - m)) <= 2 ^ Z.of_nat n.
Proof.
  intros Hm. pose proof (shr_iter n m Hm) as H. cbv zeta in *. destruct (Nat.iter n _ _) as [q b t].
  cbn [shr_m shr_r shr_s] in H. destruct H as (-> & Hb & Ht).
  set (p := 2 ^ Z.of_nat n) in *. assert (0 < p) as Hp by (apply Z.pow_pos_nonneg; lia).
  pose proof (Z.div_mod m p ltac:(lia)) as Hdiv. pose proof (Z.mod_pos_bound m p Hp) as Ha.
  unfold loc_of_shr_record, round_nearest_even. cbn [shr_m].
  destruct b, t; try (destruct (Z.even _)); try (assert (p <= 2 * (m mod p)) by tauto);
    try (assert (~ p <= 2 * (m mod p)) by (intros ?%Hb; done)); nia.
Qed.

Lemma shr_eq mrs e n : shr mrs e n = (Nat.iter (Z.to_nat n) shr_1 mrs, e + Z.max 0 n).
Proof.
  destruct n as [|p|p]; cbn [shr]; [f_equal; lia| |f_equal; lia].
  rewrite iter_pos_iter. done.
Qed.

Lemma fexp_64 x : fexp 53 1024 x = Z.max (x - 53) (-1074).
Proof. done. Qed.

(** A mantissa of at most 53 bits is kept; one that was rounded up to [2 ^ 53] is halved. *)
Lemma shr_fexp_rounded p e : -1074 <= e -> Zpos p <= 2 ^ 53 ->
  exists q e', (let '(r, e') := shr_fexp 53 1024 (Zpos p) e loc_Exact in (shr_m r, e')) = (Zpos q, e') /\
    (e' = e /\ q = p \/ e' = e + 1 /\ Zpos q = 2 ^ 52 /\ Zpos p = 2 ^ 53).
Proof.
  intros He Hp. destruct (digits_bounds p) as [H1 H2].
  unfold shr_fexp. cbn [Zdigits2 shr_record_of_loc]. rewrite shr_eq, fexp_64.
  destruct (decide (Zpos p = 2 ^ 53)) as [E|Hne].
  - rewrite (digits_unique p 54) by (rewrite E; lia). injection E as ->.
    replace (Z.max (54 + e - 53) (-1074) - e) with 1 by lia. do 2 eexists. split; [reflexivity|]. right. lia.
  - assert (Zpos (digits2_pos p) <= 53) as Hd.
    { destruct (decide (Zpos (digits2_pos p) <= 53)); [done|].
      pose proof (Z.pow_le_mono_r 2 53 (Zpos (digits2_pos p) - 1)). lia. }
    replace (Z.to_nat _) with 0%nat by lia. rewrite Z.max_l by lia.
    do 2 eexists. split; [reflexivity|]. left. lia.
Qed.

(** The bits behind the 53rd of a mantissa. *)
Definition excess (m : positive) : Z := Z.max 0 (Zpos (digits2_pos m) - 53).

Lemma round_aux64 s m e :
  -1074 <= e + excess m <= 970 ->
  exists q e', binary_round_aux64 s (Zpos m) e loc_Exact = S754_finite s q e' /\
    (e' = e + excess m \/ e' = e + excess m + 1 /\ Zpos q = 2 ^ 52) /\
    Z.abs (2 * (Zpos q * 2 ^ (e' - e) - Zpos m)) <= 2 ^ excess m.
Proof.
  intros He. set (k := excess m) in *. assert (0 <= k) as Hk by (unfold k, excess; lia).
  unfold binary_round_aux, shr_fexp at 1. cbn [Zdigits2 shr_record_of_loc]. rewrite shr_eq, fexp_64.
  replace (Z.max 0 _) with k by (unfold k, excess in *; lia).
  replace (Z.to_nat _) with (Z.to_nat k) by (unfold k, excess in *; lia).
  destruct (round_half (Z.to_nat k) (Zpos m)) as [Hq Habs]; [lia|]. rewrite Z2Nat.id in Hq, Habs by done.
  set (q1 := round_nearest_even _ _) in *.
  destruct (digits_bounds m) as [H1 H2]. set (d := Zpos (digits2_pos m)) in *.
  assert (0 < 2 ^ k) as Hpk by (by apply Z.pow_pos_nonneg).
  assert (0 < q1 <= 2 ^ 53) as Hq1.
  { destruct (decide (d <= 53)) as [Hd|Hd].
    - assert (k = 0) as E by (unfold k, excess; lia). rewrite E in *. rewrite Z.pow_0_r in *.
      pose proof (Z.pow_le_mono_r 2 d 53). lia.
    - assert (d = 53 + k) as E by (unfold k, excess; lia). rewrite E, Z.pow_add_r in H2 by lia.
      replace (d - 1) with (52 + k) in H1 by lia. rewrite Z.pow_add_r in H1 by lia.
      assert (2 ^ 52 <= Zpos m / 2 ^ k) by (apply Z.div_le_lower_bound; lia).
      assert (Zpos m / 2 ^ k < 2 ^ 53) by (apply Z.div_lt_upper_bound; lia). lia. }
  destruct q1 as [|p|p]; [lia| |lia].
  destruct (shr_fexp_rounded p (e + k)) as (q & e' & Hr & Hcase); [lia..|].
  destruct (shr_fexp 53 1024 (Zpos p) (e + k) loc_Exact) as [r e1]. injection Hr as -> ->.
  exists q, e'. rewrite (proj2 (Z.leb_le _ _)) by lia. split; [done|].
  destruct Hcase as [[-> ->]|(-> & Hq52 & Hp53)].
  - split; [by left|]. by replace (e + k - e) with k by lia.
  - split; [by right|]. replace (e + k + 1 - e) with (k + 1) by lia.
    rewrite Z.pow_add_r, Hq52 by lia. rewrite Hp53 in Habs.
    replace (2 ^ 52 * (2 ^ k * 2 ^ 1)) with (2 ^ 53 * 2 ^ k) by lia. done.
Qed.

(** ** Doubles that are integers *)

(** [x] is the integer [z], with an exponent of at least [- b]. *)
Definition is_int (b : Z) (x : double) (z : Z) : Prop :=
  match x with
  | S754_zero _ => z = 0
  | S754_finite false m e => - b <= e <= 0 /\ Zpos m = z * 2 ^ (- e)
  | _ => False
  end.

Lemma Z_of_double_int b x z : is_int b x z -> Z_of_double x = Some z.
Proof.
  destruct x as [s| | |[] m e]; cbn [is_int Z_of_double]; [by intros ->|done..|].
  intros [He Hm]. f_equal. destruct (Z.leb_spec 0 e).
  - assert (e = 0) as -> by lia. by rewrite Hm, Z.pow_0_r, !Z.mul_1_r.
  - rewrite Hm. apply Z.div_mul. pose proof (Z.pow_pos_nonneg 2 (- e)). lia.
Qed.

Lemma excess_bound m j : 0 <= j -> Zpos m < 2 ^ (53 + j) -> 0 <= excess m <= j.
Proof.
  intros Hj Hm. destruct (digits_bounds m) as [H1 _]. unfold excess. split; [lia|].
  apply Z.max_lub; [lia|]. set (d := Zpos (digits2_pos m)) in *.
  destruct (decide (d - 53 <= j)); [done|]. exfalso.
  pose proof (Z.pow_le_mono_r 2 (53 + j) (d - 1) ltac:(lia) ltac:(lia)). lia.
Qed.

Lemma excess_le m z e : e <= 0 -> Zpos m = z * 2 ^ (- e) -> z < 2 ^ 53 -> 0 <= excess m <= - e.
Proof.
  intros He Hm Hz. apply excess_bound; [lia|]. rewrite Hm, Z.pow_add_r by lia.
  pose proof (Z.pow_pos_nonneg 2 (- e)). nia.
Qed.

(** Rounding an integer of at most 53 bits changes nothing. *)
Lemma round_exact b m e z :
  - b <= e <= 0 -> b <= 1000 -> Zpos m = z * 2 ^ (- e) -> z < 2 ^ 53 ->
  is_int b (binary_round_aux64 false (Zpos m) e loc_Exact) z.
Proof.
  intros He Hb Hm Hz. pose proof (excess_le m z e ltac:(lia) Hm Hz) as Hk.
  destruct (round_aux64 false m e) as (q & e' & -> & He' & Habs); [lia|]. set (k := excess m) in *.
  assert (0 < 2 ^ k) as Hpk by (apply Z.pow_pos_nonneg; lia).
  assert (Zpos m = z * 2 ^ (- e - k) * 2 ^ k) as Hmk.
  { rewrite <- Z.mul_assoc, <- Z.pow_add_r by lia. rewrite Hm. do 2 f_equal. lia. }
  assert (2 ^ (e' - e) = 2 ^ (e' - e - k) * 2 ^ k) as Hek.
  { rewrite <- Z.pow_add_r by lia. f_equal. lia. }
  assert (Zpos q * 2 ^ (e' - e) = Zpos m) as HV.
  { rewrite Hmk, Hek, Z.mul_assoc in Habs. rewrite Hmk, Hek, Z.mul_assoc. f_equal. nia. }
  assert (e' <= 0) as He0.
  { destruct He' as [->|[-> Hq]]; [lia|]. destruct (decide (e + k = 0)); [exfalso|lia].
    rewrite Hq, Hm in HV. replace (e + k + 1 - e) with (1 + - e) in HV by lia.
    rewrite Z.pow_add_r in HV by lia. pose proof (Z.pow_pos_nonneg 2 (- e)). nia. }
  cbn [is_int]. split; [lia|]. rewrite Hm in HV.
  replace (- e) with (- e' + (e' - e)) in HV by lia. rewrite Z.pow_add_r in HV by lia.
  pose proof (Z.pow_pos_nonneg 2 (e' - e)). nia.
Qed.

Lemma shl_align_spec m e e1 :
  exists m', shl_align m e e1 = (m', Z.min e e1) /\ Zpos m' = Zpos m * 2 ^ (e - Z.min e e1).
Proof.
  assert (forall n, Zpos (Pos.iter xO m n) = Zpos m * 2 ^ Zpos n) as Hiter.
  { intros n. induction n as [|n IH] using Pos.peano_ind; [cbn; lia|].
    rewrite Pos.iter_succ, Pos2Z.inj_succ, Z.pow_succ_r by lia. rewrite Pos2Z.inj_xO, IH. lia. }
  unfold shl_align. destruct (e1 - e) as [|p|p] eqn:E.
  - exists m. rewrite Z.min_l, Z.sub_diag by lia. split; [done|lia].
  - exists m. rewrite Z.min_l, Z.sub_diag by lia. split; [done|lia].
  - exists (Pos.iter xO m p). rewrite Z.min_r by lia. split; [done|]. rewrite Hiter. do 2 f_equal. lia.
Qed.

(** Normalising an integer of at most 53 bits. *)
Lemma normalize_exact b m e z :
  - b <= e <= 0 -> 52 <= b <= 1000 -> m = z * 2 ^ (- e) -> 0 <= z < 2 ^ 53 ->
  is_int b (binary_normalize 53 1024 m e false) z.
Proof.
  intros He Hb Hm Hz. assert (0 < 2 ^ (- e)) as Hp by (apply Z.pow_pos_nonneg; lia).
  destruct m as [|m|m]; cbn [binary_normalize]; [cbn; nia| |nia].
  unfold binary_round. rewrite fexp_64.
  destruct (shl_align_spec m e (Z.max (Zpos (digits2_pos m) + e - 53) (-1074))) as (m' & -> & Hm').
  destruct (digits_bounds m) as [_ H2]. set (d := Zpos (digits2_pos m)) in *.
  assert (1 <= d + e) as Hd.
  { destruct (decide (1 <= d + e)); [done|]. exfalso.
    pose proof (Z.pow_le_mono_r 2 d (- e) ltac:(lia) ltac:(lia)). assert (1 <= z) by nia.
    set (P := 2 ^ (- e)) in *. assert (P <= z * P) by nia. lia. }
  set (e1 := Z.min e _) in *. assert (- b <= e1 <= e) as He1 by lia.
  apply round_exact; [lia|lia| |lia]. rewrite Hm', Hm, <- Z.mul_assoc, <- Z.pow_add_r by lia.
  do 2 f_equal. lia.
Qed.

Lemma double_of_Z_int z : 0 <= z < 2 ^ 53 -> is_int 52 (double_of_Z z) z.
Proof. intros Hz. apply normalize_exact; rewrite ?Z.pow_0_r; lia. Qed.

Lemma dmul_int b1 b2 x y z1 z2 :
  is_int b1 x z1 -> is_int b2 y z2 -> b1 + b2 <= 1000 -> z1 * z2 < 2 ^ 53 -> is_int (b1 + b2) (dmul x y) (z1 * z2).
Proof.
  destruct x as [s1| | |[] m1 e1], y as [s2| | |[] m2 e2]; cbn [is_int dmul SFmul]; try done;
    try (by intros -> _); try (by intros _ ->; rewrite Z.mul_0_r).
  intros [He1 H1] [He2 H2] Hb Hz. apply round_exact; [lia|lia| |done].
  rewrite Pos2Z.inj_mul, H1, H2. replace (- (e1 + e2)) with (- e1 + - e2) by lia.
  rewrite Z.pow_add_r by lia. lia.
Qed.

Lemma dsub_int b x y z1 z2 :
  is_int b x z1 -> is_int b y z2 -> 52 <= b <= 1000 -> 0 <= z2 <= z1 -> z1 < 2 ^ 53 ->
  is_int b (dsub x y) (z1 - z2).
Proof.
  destruct x as [s1| | |[] m1 e1], y as [s2| | |[] m2 e2]; cbn [is_int dsub SFsub]; try done.
  - intros -> ->. by destruct s1, s2.
  - intros -> [He H2] Hb Hz _. assert (z2 = 0) as -> by lia. done.
  - intros H1 -> Hb Hz _. by rewrite Z.sub_0_r.
  - intros [He1 H1] [He2 H2] Hb Hz Hz1.
    destruct (shl_align_spec m1 e1 (Z.min e1 e2)) as (m1' & -> & H1').
    destruct (shl_align_spec m2 e2 (Z.min e1 e2)) as (m2' & -> & H2').
    replace (Z.min e1 (Z.min e1 e2)) with (Z.min e1 e2) in H1' by lia.
    replace (Z.min e2 (Z.min e1 e2)) with (Z.min e1 e2) in H2' by lia.
    cbn [fst cond_Zopp]. set (ez := Z.min e1 e2) in *.
    apply normalize_exact; [lia|lia| |lia]. rewrite H1', H2', H1, H2, <- !Z.mul_assoc, <- !Z.pow_add_r by lia.
    replace (- e1 + (e1 - ez)) with (- ez) by lia. replace (- e2 + (e2 - ez)) with (- ez) by lia. lia.
Qed.
