(* ===== verification/Clock.v ===== *)
(** gettime.cc: [clock_gettime] over the clocks of the Mach kernel.

    The kernel is a parameter: what its calls return, and the readings of its absolute
    clock.  [getpid] and [sched_yield] change nothing here. *)
From S2P Require Import Prelude Monad Double.
From Stdlib Require Import ZArith Lia SpecFloat.
From stdpp Require Import base numbers.
#[local] Open Scope Z_scope.

Definition CLOCK_REALTIME : Z := 0.
Definition CLOCK_MONOTONIC : Z := 1.
Definition CLOCK_PROCESS_CPUTIME_ID : Z := 2.
Definition CLOCK_THREAD_CPUTIME_ID : Z := 3.

(** Of the kernel's headers. *)
Definition KERN_SUCCESS : Z := 0.
Definition SYSTEM_CLOCK : Z := 0.
Definition CALENDAR_CLOCK : Z := 1.
Definition EINVAL : Z := 22.

Record timespec := mk_timespec { tv_sec : Z; tv_nsec : Z }.
Record mach_timebase_info_data_t := mk_timebase { numer : Z; denom : Z }.

Record mach := mk_mach {
  host_get_clock_service : Z -> Z * Z;    (* the result and [*clk] *)
  clock_get_time : Z -> Z * timespec;     (* the result and [*tm] *)
  absolute_time : nat -> Z;               (* the readings of the absolute clock *)
  mach_timebase_info : mach_timebase_info_data_t
}.

(** The static variable, [errno], and how often the absolute clock was read. *)
Record clocks := mk_clocks {
  clock_gettime_inf : mach_timebase_info_data_t;
  errno : Z;
  readings : nat
}.

(** The constants of the code, as [double]s. *)
Definition lit_1e9 : double := double_of_Z (10 ^ 9).
Definition lit_1e_9 : double := SFdiv 53 1024 (double_of_Z 1) (double_of_Z (10 ^ 9)).

Section clock.
Context (m : mach).

Definition mach_absolute_time : M clocks Z :=
  s ← get_st; _ ← put_st (mk_clocks (clock_gettime_inf s) (errno s) (S (readings s)));
  mret (u64 (absolute_time m (readings s))).

Definition set_errno (e : Z) : M clocks unit :=
  s ← get_st; put_st (mk_clocks (clock_gettime_inf s) e (readings s)).

(** [(long)x], undefined outside its range. *)
Definition to_long (x : double) : M clocks Z :=
  match Z_of_double x with
  | Some z => if decide (- 2 ^ 63 <= z < 2 ^ 63) then mret z else ub
  | None => ub
  end.

(** [if (0 == inf.denom) mach_timebase_info(&inf);] *)
Definition timebase : M clocks mach_timebase_info_data_t :=
  s ← get_st;
  if 0 =? denom (clock_gettime_inf s) then
    _ ← put_st (mk_clocks (mach_timebase_info m) (errno s) (readings s));
    mret (mach_timebase_info m)
  else mret (clock_gettime_inf s).

(** The nanoseconds as seconds and the rest. *)
Definition split_nano (nano : Z) : M clocks timespec :=
  sec ← to_long (dmul (double_of_Z nano) lit_1e_9);
  nsec ← to_long (dsub (double_of_Z nano) (dmul (double_of_Z sec) lit_1e9));
  mret (mk_timespec sec nsec).

(** The result and [*tp]. *)
Definition clock_gettime (clk_id : Z) (tp : timespec) : M clocks (Z * timespec) :=
  if (clk_id =? CLOCK_REALTIME) || (clk_id =? CLOCK_MONOTONIC) then
    let clk_serv_id := if clk_id =? CLOCK_REALTIME then CALENDAR_CLOCK else SYSTEM_CLOCK in
    let '(ret, clk) := host_get_clock_service m clk_serv_id in
    let '(ret, tp, retval) :=
      if KERN_SUCCESS =? ret then
        let '(ret, tm) := clock_get_time m clk in
        if KERN_SUCCESS =? ret then (ret, mk_timespec (tv_sec tm) (tv_nsec tm), 0) else (ret, tp, -1)
      else (ret, tp, -1) in
    if negb (KERN_SUCCESS =? ret) then _ ← set_errno EINVAL; mret (-1, tp)
    else mret (retval, tp)
  else if (clk_id =? CLOCK_PROCESS_CPUTIME_ID) || (clk_id =? CLOCK_THREAD_CPUTIME_ID) then
    start ← mach_absolute_time;
    end_ ← mach_absolute_time;
    let delta := u64 (end_ - start) in
    inf ← timebase;
    if denom inf =? 0 then ub
    else
      let nano := u64 (delta * numer inf) / denom inf in
      tp ← split_nano nano;
      mret (0, tp)
  else
    _ ← set_errno EINVAL;
    mret (-1, tp).
End clock.

(** ** Splitting the nanoseconds *)
Lemma lit_1e_9_eq : lit_1e_9 = S754_finite false 4835703278458517 (-82).
Proof. reflexivity. Qed.

(** The product with the literal is close enough to a nanosecond, and rounding to the
    53 bits of the mantissa, in steps of [2 ^ k], does not reach the next second. *)
Lemma seconds_bounds n p k t w :
  0 <= n < 2 ^ 52 -> 0 < p -> 0 < 2 ^ k <= 2 ^ 52 * p -> p * 2 ^ 82 = w * 2 ^ k ->
  Z.abs (2 * (t * 2 ^ k - n * p * 4835703278458517)) <= 2 ^ k ->
  n / 10 ^ 9 * (p * 2 ^ 82) <= t * 2 ^ k < (n / 10 ^ 9 + 1) * (p * 2 ^ 82).
Proof.
  intros Hn Hp Hk Hw Habs. set (q := n / 10 ^ 9).
  assert (10 ^ 9 * q <= n < 10 ^ 9 * (q + 1) /\ 0 <= q <= 4503599) as [Hq Hq2] by (unfold q; dlia).
  set (K := 2 ^ k) in *. split.
  - assert (q * (p * 2 ^ 82) <= n * p * 4835703278458517) as HL by nia.
    rewrite Hw in *. assert (q * w <= t) as Ht; [|nia].
    destruct (decide (q * w <= t)) as [|Hlt]; [done|]. assert (t * K <= q * (w * K) - K) by nia. lia.
  - assert (n * p * 4835703278458517 <= (10 ^ 9 * (q + 1) - 1) * p * 4835703278458517) as HU by nia.
    assert ((10 ^ 9 * (q + 1) - 1) * p * 4835703278458517 =
            (q + 1) * (p * 2 ^ 82) + p * ((q + 1) * 301175296 - 4835703278458517)) as HE by lia.
    assert (p * ((q + 1) * 301175296 - 4835703278458517) <= p * (1356385563955200 - 4835703278458517)) by nia.
    lia.
Qed.

(** [nano * 1e-9] truncates to the seconds below [2 ^ 52] nanoseconds. *)
Lemma seconds_exact n : 0 <= n < 2 ^ 52 -> Z_of_double (dmul (double_of_Z n) lit_1e_9) = Some (n / 10 ^ 9).
Proof.
  intros Hn. pose proof (double_of_Z_int n ltac:(lia)) as Hx. rewrite lit_1e_9_eq.
  destruct (double_of_Z n) as [s| | |[] x e]; cbn [is_int] in Hx; [by subst n|done..|].
  destruct Hx as [He Hx]. cbn [dmul SFmul xorb].
  assert (0 < 2 ^ (- e)) as Hp by (apply Z.pow_pos_nonneg; lia).
  assert (Zpos (x * 4835703278458517) < 2 ^ (53 + (52 - e))) as HP.
  { replace (53 + (52 - e)) with (105 + - e) by lia. rewrite Z.pow_add_r, Pos2Z.inj_mul, Hx by lia. nia. }
  pose proof (excess_bound _ (52 - e) ltac:(lia) HP) as Hk.
  destruct (round_aux64 false (x * 4835703278458517) (e + -82)) as (r & e' & Hr & He' & Habs); [lia|].
  unfold dmul, SFmul. cbn [xorb]. rewrite Hr. cbn [Z_of_double]. set (k := excess _) in *.
  destruct (Z.leb_spec 0 e'); [lia|]. f_equal.
  assert (2 ^ (e' - (e + -82)) = 2 ^ (e' - (e + -82) - k) * 2 ^ k) as Hek.
  { rewrite <- Z.pow_add_r by lia. f_equal. lia. }
  rewrite Hek, Z.mul_assoc, Pos2Z.inj_mul, Hx in Habs.
  destruct (seconds_bounds n (2 ^ (- e)) k (Zpos r * 2 ^ (e' - (e + -82) - k)) (2 ^ (82 - e - k))) as [HL HU];
    [done|done| | |done|].
  { split; [apply Z.pow_pos_nonneg; lia|]. rewrite <- Z.pow_add_r by lia. apply Z.pow_le_mono_r; lia. }
  { rewrite <- !Z.pow_add_r by lia. f_equal. lia. }
  rewrite <- Z.mul_assoc, <- Hek in HL, HU. rewrite <- Z.pow_add_r in HL, HU by lia.
  replace (- e + 82) with (- e' + (e' - (e + -82))) in HL, HU by lia.
  rewrite Z.pow_add_r in HL, HU by lia.
  assert (0 < 2 ^ (e' - (e + -82))) as Hpe by (apply Z.pow_pos_nonneg; lia).
  assert (0 < 2 ^ (- e')) as Hpe' by (apply Z.pow_pos_nonneg; lia).
  symmetry. apply (Z.div_unique_pos _ _ _ (Zpos r - n / 10 ^ 9 * 2 ^ (- e'))); nia.
Qed.

Lemma is_int_mono b b' x z : b <= b' -> is_int b x z -> is_int b' x z.
Proof. intros Hb. destruct x as [s| | |[] m e]; cbn [is_int]; try done. intros [He Hm]. split; [lia|done]. Qed.

Lemma wp_to_long x z s (Q : Z -> clocks -> Prop) :
  Z_of_double x = Some z -> - 2 ^ 63 <= z < 2 ^ 63 -> Q z s -> wp (to_long x) Q s.
Proof. intros Hx Hz HQ. unfold to_long. rewrite Hx, decide_True by done. by apply wp_ret. Qed.

Lemma wp_split_nano n s (Q : timespec -> clocks -> Prop) :
  0 <= n < 2 ^ 52 -> Q (mk_timespec (n / 10 ^ 9) (n mod 10 ^ 9)) s -> wp (split_nano n) Q s.
Proof.
  intros Hn HQ. unfold split_nano. wp_step. eapply wp_to_long; [by apply seconds_exact|dlia|].
  wp_step. eapply (wp_to_long _ (n - n / 10 ^ 9 * 10 ^ 9)); [|dlia|].
  - apply (Z_of_double_int 104), dsub_int; [| |lia|dlia|lia].
    + apply (is_int_mono 52); [lia|]. apply double_of_Z_int. lia.
    + apply (dmul_int 52 52); [apply double_of_Z_int; dlia|by apply double_of_Z_int|lia|dlia].
  - wp_step. replace (n - n / 10 ^ 9 * 10 ^ 9) with (n mod 10 ^ 9) by dlia. done.
Qed.

(** Some 97 days: the seconds are rounded up, and the rest is negative. *)
Lemma split_nano_negative s : split_nano 8388608999999999 s = Ok (mk_timespec 8388609 (-1), s).
Proof. reflexivity. Qed.

Section theorems.
Context (m : mach).

(** The nanoseconds that the code computes for the CPU clocks in state [s]. *)
Definition timebase_of (s : clocks) : mach_timebase_info_data_t :=
  if denom (clock_gettime_inf s) =? 0 then mach_timebase_info m else clock_gettime_inf s.
Definition nano_of (s : clocks) : Z :=
  u64 (u64 (u64 (absolute_time m (S (readings s))) - u64 (absolute_time m (readings s))) *
       numer (timebase_of s)) / denom (timebase_of s).

Lemma wp_cpu_clock clk_id tp s (Q : Z * timespec -> clocks -> Prop) :
  clk_id = CLOCK_PROCESS_CPUTIME_ID \/ clk_id = CLOCK_THREAD_CPUTIME_ID -> denom (timebase_of s) <> 0 ->
  wp (split_nano (nano_of s)) (fun ts s' => Q (0, ts) s')
    (mk_clocks (timebase_of s) (errno s) (S (S (readings s)))) ->
  wp (clock_gettime m clk_id tp) Q s.
Proof.
  intros Hid Hd HQ. unfold clock_gettime.
  assert ((clk_id =? CLOCK_REALTIME) || (clk_id =? CLOCK_MONOTONIC) = false) as ->
    by by destruct Hid as [-> | ->].
  assert ((clk_id =? CLOCK_PROCESS_CPUTIME_ID) || (clk_id =? CLOCK_THREAD_CPUTIME_ID) = true) as ->
    by by destruct Hid as [-> | ->].
  unfold mach_absolute_time, timebase. wp_steps. cbn [clock_gettime_inf errno readings].
  unfold nano_of, timebase_of in *. rewrite (Z.eqb_sym 0).
  destruct (denom (clock_gettime_inf s) =? 0); wp_steps; cbn [errno readings];
    rewrite (proj2 (Z.eqb_neq _ _)) by done; wp_step;
    (eapply wp_mono; [exact HQ|]); intros ts s' HQ'; by wp_step.
Qed.
End theorems.

(** C36 The CPU clocks of gettime.cc: with a time base, and below [2 ^ 52] nanoseconds
    (52 days), the floating point arithmetic splits the nanoseconds between the two
    readings into whole seconds and the exact rest; at 8388608999999999 nanoseconds it
    reports a success with -1 nanoseconds. *)
Theorem cpu_clock_split m clk_id tp s :
  clk_id = CLOCK_PROCESS_CPUTIME_ID \/ clk_id = CLOCK_THREAD_CPUTIME_ID -> 0 < denom (timebase_of m s) ->
  (nano_of m s < 2 ^ 52 -> exists s',
     clock_gettime m clk_id tp s =
       Ok ((0, mk_timespec (nano_of m s / 10 ^ 9) (nano_of m s mod 10 ^ 9)), s')) /\
  (nano_of m s = 8388608999999999 -> exists s',
     clock_gettime m clk_id tp s = Ok ((0, mk_timespec 8388609 (-1)), s')).
Proof.
  intros Hid Hd. assert (0 <= nano_of m s) as Hn by (apply Z.div_pos; [apply Z.mod_pos_bound|]; lia).
  assert (forall ts, (forall s0, wp (split_nano (nano_of m s)) (fun ts' _ => ts' = ts) s0) ->
    exists s', clock_gettime m clk_id tp s = Ok ((0, ts), s')) as Hrun.
  { intros ts Hts. assert (wp (clock_gettime m clk_id tp) (fun r _ => r = (0, ts)) s) as Hw.
    { apply wp_cpu_clock; [done|lia|]. eapply wp_mono; [apply Hts|]. by intros ? ? ->. }
    apply wp_run in Hw as (r & s' & H & ->). by exists s'. }
  split; intros Hlt; apply Hrun; intros s0.
  - by apply wp_split_nano.
  - rewrite Hlt. eapply wp_of_run; [apply split_nano_negative|done].
Qed.

(** A machine whose absolute clock counts nanoseconds, and lies still for 97 days
    between the second and the third reading. *)
#[local] Definition nano_mach : mach :=
  mk_mach (fun _ => (KERN_SUCCESS, 0)) (fun _ => (KERN_SUCCESS, mk_timespec 0 0))
    (fun n => match n with O => 5 | S O => 2000000012 | S (S O) => 3 | _ => 8388609000000002 end)
    (mk_timebase 1 1).

Lemma cpu_clock_split_witness :
  (exists s', clock_gettime nano_mach CLOCK_PROCESS_CPUTIME_ID (mk_timespec 0 0)
     (mk_clocks (mk_timebase 0 0) 0 0) = Ok ((0, mk_timespec 2 7), s')) /\
  (exists s', clock_gettime nano_mach CLOCK_THREAD_CPUTIME_ID (mk_timespec 0 0)
     (mk_clocks (mk_timebase 1 1) 0 2) = Ok ((0, mk_timespec 8388609 (-1)), s')).
Proof.
  split.
  - destruct (cpu_clock_split nano_mach CLOCK_PROCESS_CPUTIME_ID (mk_timespec 0 0)
      (mk_clocks (mk_timebase 0 0) 0 0)) as [H _]; [by left|reflexivity|]. apply H. reflexivity.
  - destruct (cpu_clock_split nano_mach CLOCK_THREAD_CPUTIME_ID (mk_timespec 0 0)
      (mk_clocks (mk_timebase 1 1) 0 2)) as [_ H]; [by right|reflexivity|]. apply H. reflexivity.
Defined.
